(** * AddressSanitizer allocator (asan_allocator.cc): a shallow embedding

    The allocator's own state (chunk headers, intrusive lists, the page-group
    registry, per-thread storage) is explicit state threaded through a small
    state-and-abort monad.  Calls that leave the allocator (Printf, stack
    printing and compression, memset/memcpy, mmap) are recorded as events of
    a trace.  Machine integers are [Z] with the wrap-around written out. *)

From stdpp Require Import gmap.
From Stdlib Require Import ZArith Lia String.
Open Scope Z_scope.

(** ** Configuration

    Run-time flags (the [__asan_flag_*] globals) and the constants and
    functions that asan_allocator.cc takes from headers that are not part of
    the sources (asan_int.h, asan_mapping.h, asan_allocator.h,
    asan_thread.h).  [os_mmap] is the operating system's answer to
    [__asan_mmap(0, size, ...)], given the regions handed out so far. *)
Record Config := mkConfig {
  __WORDSIZE : Z;
  __asan_flag_redzone : Z;
  __asan_flag_quarantine_size : Z;
  __asan_flag_stats : Z;
  __asan_flag_debug : Z;
  __asan_flag_v : Z;
  kPageSize : Z;
  kNumberOfSizeClasses : Z;
  SHADOW_GRANULARITY : Z;
  MemToShadow : Z -> Z;
  kAsanHeapLeftRedzoneMagic : Z;
  kAsanHeapRightRedzoneMagic : Z;
  kAsanHeapFreeMagic : Z;
  kAsanStackAfterReturnMagic : Z;
  kInvalidTid : Z;
  kMinStackFrameSizeLog : Z;
  kFakeStackNumberOfSizeClasses : Z;
  kMaxStackMallocSize : Z;
  os_mmap : list (Z * Z) -> Z -> Z
}.

(** A Linux x86-64 configuration with the default flags; the operating
    system hands out page-aligned regions one after the other, starting at
    [2^32], and fails when the 47-bit user address space is used up. *)
Definition mmap_top (maps : list (Z * Z)) : Z :=
  fold_right (fun m acc => Z.max (fst m + snd m) acc) (2 ^ 32) maps.

Definition bump_mmap (maps : list (Z * Z)) (size : Z) : Z :=
  let top := (mmap_top maps + 4095) / 4096 * 4096 in
  if top + size <=? 2 ^ 47 then top else 2 ^ 64 - 1.

Definition linux64 : Config := {|
  __WORDSIZE := 64;
  __asan_flag_redzone := 128;
  __asan_flag_quarantine_size := 2 ^ 28;
  __asan_flag_stats := 0;
  __asan_flag_debug := 0;
  __asan_flag_v := 0;
  kPageSize := 4096;
  kNumberOfSizeClasses := 255;
  SHADOW_GRANULARITY := 8;
  MemToShadow := fun a => Z.lor (Z.shiftr a 3) (2 ^ 44);
  kAsanHeapLeftRedzoneMagic := 250;
  kAsanHeapRightRedzoneMagic := 251;
  kAsanHeapFreeMagic := 253;
  kAsanStackAfterReturnMagic := 245;
  kInvalidTid := -1;
  kMinStackFrameSizeLog := 9;
  kFakeStackNumberOfSizeClasses := 16;
  kMaxStackMallocSize := 2 ^ 24;
  os_mmap := bump_mmap
|}.

(** ** Chunk headers

    The magic numbers of the chunk states. *)
Definition CHUNK_AVAILABLE : Z := 0x573B.
Definition CHUNK_ALLOCATED : Z := 0x3204.
Definition CHUNK_QUARANTINE : Z := 0x1978.
Definition CHUNK_MEMALIGN : Z := 0xDC68.

(** [struct ChunkBase]; pointers are addresses, [0] is NULL. *)
Record ChunkBase := mkChunk {
  chunk_state : Z;
  size_class : Z;
  offset : Z;
  alloc_tid : Z;
  free_tid : Z;
  used_size : Z;
  next : Z
}.

Definition set_chunk_state (v : Z) (c : ChunkBase) : ChunkBase :=
  mkChunk v (size_class c) (offset c) (alloc_tid c) (free_tid c) (used_size c) (next c).
Definition set_size_class (v : Z) (c : ChunkBase) : ChunkBase :=
  mkChunk (chunk_state c) v (offset c) (alloc_tid c) (free_tid c) (used_size c) (next c).
Definition set_offset (v : Z) (c : ChunkBase) : ChunkBase :=
  mkChunk (chunk_state c) (size_class c) v (alloc_tid c) (free_tid c) (used_size c) (next c).
Definition set_alloc_tid (v : Z) (c : ChunkBase) : ChunkBase :=
  mkChunk (chunk_state c) (size_class c) (offset c) v (free_tid c) (used_size c) (next c).
Definition set_free_tid (v : Z) (c : ChunkBase) : ChunkBase :=
  mkChunk (chunk_state c) (size_class c) (offset c) (alloc_tid c) v (used_size c) (next c).
Definition set_used_size (v : Z) (c : ChunkBase) : ChunkBase :=
  mkChunk (chunk_state c) (size_class c) (offset c) (alloc_tid c) (free_tid c) v (next c).
Definition set_next (v : Z) (c : ChunkBase) : ChunkBase :=
  mkChunk (chunk_state c) (size_class c) (offset c) (alloc_tid c) (free_tid c) (used_size c) v.

(** Memory seen as chunk headers: the header stored at each address that
    was written; memory that was never written reads as zero, as a fresh
    anonymous mapping does.  Headers are taken not to overlap (every chunk
    the allocator hands out is at least [2 * REDZONE] bytes, and a header
    fits in [REDZONE] bytes).  A read of a header is not checked against
    the mappings: what is proved of a header that is read is proved of
    headers of chunks of registered page groups. *)
Abbreviation Heap := (gmap Z ChunkBase).

Definition zero_chunk : ChunkBase := mkChunk 0 0 0 0 0 0 0.

Definition hdr (h : Heap) (a : Z) : ChunkBase := default zero_chunk (h !! a).

(** Arrays are total functions updated at one index. *)
Definition upd {A : Type} (f : Z -> A) (k : Z) (v : A) : Z -> A :=
  fun x => if x =? k then v else f x.

Definition store (h : Heap) (a : Z) (f : ChunkBase -> ChunkBase) : Heap :=
  <[a := f (hdr h a)]> h.

(** ** The allocator's data structures *)

Record AsanChunkFifoList := mkFifo {
  first_ : Z;
  last_ : Z;
  size_ : Z
}.

Definition AsanChunkFifoList_clear : AsanChunkFifoList := mkFifo 0 0 0.

Record PageGroup := mkPageGroup {
  beg : Z;
  end_ : Z;
  size_of_chunk : Z
}.

Definition PageGroup_InRange (g : PageGroup) (addr : Z) : bool :=
  (addr >=? beg g) && (addr <? end_ g).

(** [class MallocInfo]; the lock is left out (one operation at a time). *)
Record MallocInfo := mkMallocInfo {
  free_lists_ : Z -> Z;
  quarantine_ : AsanChunkFifoList;
  page_groups_ : Z -> PageGroup;
  n_page_groups_ : Z
}.

Record AsanThreadLocalMallocStorage := mkStorage {
  tl_quarantine_ : AsanChunkFifoList;
  tl_free_lists_ : Z -> Z
}.

(** [AsanFakeStack::FifoList] and the fake stack of asan_allocator.cc. *)
Record FifoList := mkFifoList {
  fifo_first : Z;
  fifo_last : Z
}.

Record AsanFakeStack := mkFakeStack {
  stack_size_ : Z;
  alive_ : bool;
  allocated_size_classes_ : Z -> Z;
  size_classes_ : Z -> FifoList
}.

Record AsanThread := mkThread {
  tid_ : Z;
  malloc_storage_ : AsanThreadLocalMallocStorage;
  fake_stack_ : AsanFakeStack
}.

Definition AsanStackTrace : Type := list Z.

(** Calls that leave the allocator. *)
Inductive Event :=
| EvPrintf (format : string) (args : list Z)
| EvPrintStack (stack : AsanStackTrace)
| EvPrintCurrentStack
| EvCompressStack (stack : AsanStackTrace) (dst size : Z)
| EvMemset (dst value len : Z)
| EvMemcpy (dst src len : Z)
| EvPoisonShadowPartialRightRedzone (shadow size redzone granularity magic : Z)
| EvMmap (size res : Z)
| EvShowStats.

Record World := mkWorld {
  heap : Heap;
  fifo_next : Z -> Z;
  malloc_info : MallocInfo;
  tl_current_thread : option AsanThread;
  total_mmaped : Z;
  mappings : list (Z * Z);
  trace : list Event
}.

(** The state before the first allocation: zeroed statics, no mapping. *)
Definition init_storage : AsanThreadLocalMallocStorage :=
  mkStorage AsanChunkFifoList_clear (fun _ => 0).

Definition init_thread (tid : Z) : AsanThread :=
  mkThread tid init_storage
    (mkFakeStack 0 false (fun _ => 0) (fun _ => mkFifoList 0 0)).

Definition init_world (t : option AsanThread) : World :=
  mkWorld ∅ (fun _ => 0)
    (mkMallocInfo (fun _ => 0) AsanChunkFifoList_clear
       (fun _ => mkPageGroup 0 0 0) 0)
    t 0 [] [].

(** ** The monad: state, abort and fuel *)

(** How the process dies: a failed CHECK, a call of [abort()], the
    statistics dump followed by [abort()], or a load or store outside the
    memory of the process (a null pointer, the bytes past the end of a
    mapping), which kills it with a memory fault. *)
Inductive AbortCause :=
| CheckFailed
| AbortCalled
| ShowStatsAndAbort
| MemoryFault.

Inductive Outcome (A : Type) :=
| Ret (a : A) (w : World)
| Abort (c : AbortCause) (w : World)
| OutOfFuel.
Arguments Ret {A} a w.
Arguments Abort {A} c w.
Arguments OutOfFuel {A}.

Definition M (A : Type) : Type := World -> Outcome A.

Definition ret {A : Type} (a : A) : M A := fun w => Ret a w.

Definition bind {A B : Type} (m : M A) (k : A -> M B) : M B :=
  fun w =>
    match m w with
    | Ret a w' => k a w'
    | Abort c w' => Abort c w'
    | OutOfFuel => OutOfFuel
    end.

Declare Scope monad_scope.
Delimit Scope monad_scope with monad.
Notation "x <- m ;; k" := (bind m (fun x => k))
  (at level 20, m at level 99, k at level 200, only parsing) : monad_scope.
Notation "m ;;; k" := (bind m (fun _ => k))
  (at level 100, k at level 200, only parsing, right associativity) : monad_scope.
Open Scope monad_scope.

Definition get : M World := fun w => Ret w w.
Definition gets {A : Type} (f : World -> A) : M A := fun w => Ret (f w) w.
Definition modify (f : World -> World) : M unit := fun w => Ret tt (f w).
Definition abort {A : Type} (c : AbortCause) : M A := fun w => Abort c w.
Definition out_of_fuel {A : Type} : M A := fun _ => OutOfFuel.

Definition CHECK (b : bool) : M unit :=
  if b then ret tt else abort CheckFailed.

Definition lift {A : Type} (o : option A) : M A :=
  match o with
  | Some a => ret a
  | None => abort CheckFailed
  end.

Definition emit (e : Event) : M unit :=
  modify (fun w => mkWorld (heap w) (fifo_next w) (malloc_info w)
                     (tl_current_thread w) (total_mmaped w) (mappings w)
                     (trace w ++ [e])).

Definition set_heap (h : Heap) : M unit :=
  modify (fun w => mkWorld h (fifo_next w) (malloc_info w)
                     (tl_current_thread w) (total_mmaped w) (mappings w)
                     (trace w)).

(** [p->field = v] on the chunk header at [p]. *)
Definition write (p : Z) (f : ChunkBase -> ChunkBase) : M unit :=
  modify (fun w => mkWorld (store (heap w) p f) (fifo_next w) (malloc_info w)
                     (tl_current_thread w) (total_mmaped w) (mappings w)
                     (trace w)).

(** [*p] for a chunk header. *)
Definition read (p : Z) : M ChunkBase := gets (fun w => hdr (heap w) p).

Definition set_malloc_info (mi : MallocInfo) : M unit :=
  modify (fun w => mkWorld (heap w) (fifo_next w) mi
                     (tl_current_thread w) (total_mmaped w) (mappings w)
                     (trace w)).

Definition set_current_thread (t : option AsanThread) : M unit :=
  modify (fun w => mkWorld (heap w) (fifo_next w) (malloc_info w)
                     t (total_mmaped w) (mappings w) (trace w)).

Definition set_fifo_next (a v : Z) : M unit :=
  modify (fun w => mkWorld (heap w) (upd (fifo_next w) a v) (malloc_info w)
                     (tl_current_thread w) (total_mmaped w) (mappings w)
                     (trace w)).

(** [AsanThread::GetCurrent()]. *)
Definition GetCurrent : M (option AsanThread) := gets tl_current_thread.

Definition set_free_list (c v : Z) : M unit :=
  mi <- gets malloc_info;;
  set_malloc_info (mkMallocInfo (upd (free_lists_ mi) c v) (quarantine_ mi)
                     (page_groups_ mi) (n_page_groups_ mi)).

Definition set_quarantine (q : AsanChunkFifoList) : M unit :=
  mi <- gets malloc_info;;
  set_malloc_info (mkMallocInfo (free_lists_ mi) q
                     (page_groups_ mi) (n_page_groups_ mi)).

(** Writes to the malloc storage of the thread [t] (the current thread). *)
Definition set_malloc_storage (t : AsanThread) (ms : AsanThreadLocalMallocStorage)
  : M unit :=
  set_current_thread (Some (mkThread (tid_ t) ms (fake_stack_ t))).

Definition set_fake_stack (t : AsanThread) (fs : AsanFakeStack) : M unit :=
  set_current_thread (Some (mkThread (tid_ t) (malloc_storage_ t) fs)).

(** [__asan_mmap(0, size, PROT_READ | PROT_WRITE, MAP_PRIVATE | MAP_ANON, -1, 0)]:
    the operating system answers; a region it hands out is recorded. *)
Definition MAP_FAILED (cfg : Config) : Z := 2 ^ __WORDSIZE cfg - 1.

Definition __asan_mmap (cfg : Config) (size : Z) : M Z :=
  maps <- gets mappings;;
  let res := os_mmap cfg maps size in
  modify (fun w => mkWorld (heap w) (fifo_next w) (malloc_info w)
                     (tl_current_thread w) (total_mmaped w)
                     (if res =? MAP_FAILED cfg then maps else (res, size) :: maps)
                     (trace w ++ [EvMmap size res]));;;
  ret res.

(** ** Compiler builtins *)

(** [__builtin_ctzl]: the number of trailing zero bits (unspecified on 0). *)
Fixpoint ctz_pos (p : positive) : Z :=
  match p with
  | xO q => 1 + ctz_pos q
  | _ => 0
  end.

Definition __builtin_ctzl (x : Z) : Z :=
  match x with
  | Zpos p => ctz_pos p
  | _ => 0
  end.

Section Allocator.

Variable cfg : Config.

Local Abbreviation REDZONE := (__asan_flag_redzone cfg).
Local Abbreviation WORDSIZE := (__WORDSIZE cfg).

(** [size_t] and [uintptr_t] arithmetic wraps at [2^WORDSIZE]. *)
Definition wrap (x : Z) : Z := x mod 2 ^ WORDSIZE.

(** [~x] on a machine word. *)
Definition wnot (x : Z) : Z := 2 ^ WORDSIZE - 1 - x.

(** [__builtin_clzl]: the number of leading zero bits of a nonzero word. *)
Definition __builtin_clzl (x : Z) : Z := WORDSIZE - 1 - Z.log2 x.

(** ** Constants of asan_allocator.cc *)

Definition kMinAllocSize : Z := wrap (REDZONE * 2).
Definition kMinMmapSize : Z := wrap (kPageSize cfg * 1024).
Definition kMaxAvailableRam : Z := 32 * 2 ^ 30.
Definition kMaxThreadLocalQuarantine : Z := 2 ^ 20.
Definition kMaxSizeForThreadLocalFreeList : Z := 2 ^ 17.
Definition kMallocSizeClassStepLog : Z := 26.
Definition kMallocSizeClassStep : Z := wrap (Z.shiftl 1 kMallocSizeClassStepLog).
Definition kMaxAllowedMallocSize : Z :=
  if WORDSIZE =? 32 then wrap (Z.shiftl 3 30) else wrap (Z.shiftl 8 30).

(** ** Arithmetic helpers; [None] is a failed CHECK *)

Definition IsAligned (a alignment : Z) : bool :=
  Z.land a (wrap (alignment - 1)) =? 0.

Definition IsPowerOfTwo (x : Z) : bool :=
  Z.land x (wrap (x - 1)) =? 0.

Definition Log2 (x : Z) : option Z :=
  if IsPowerOfTwo x then Some (__builtin_ctzl x) else None.

Definition RoundUpTo (size boundary : Z) : option Z :=
  if IsPowerOfTwo boundary
  then Some (Z.land (wrap (size + boundary - 1)) (wnot (wrap (boundary - 1))))
  else None.

Definition RoundUpToPowerOfTwo (size : Z) : option Z :=
  if size =? 0 then None
  else if IsPowerOfTwo size then Some size
  else
    let up := WORDSIZE - __builtin_clzl size in
    if negb (size <? Z.shiftl 1 up mod 2 ^ 64) then None
    else if negb (size >? Z.shiftl 1 (up - 1) mod 2 ^ 64) then None
    else Some (wrap (Z.shiftl 1 up)).

Definition SizeClassToSize (size_class : Z) : option Z :=
  if negb (size_class <? kNumberOfSizeClasses cfg) then None
  else if size_class <=? kMallocSizeClassStepLog
  then Some (wrap (Z.shiftl 1 size_class))
  else Some (wrap ((size_class - kMallocSizeClassStepLog) * kMallocSizeClassStep)).

(** [res] is a [uint8_t]: the value computed is truncated to 8 bits. *)
Definition SizeToSizeClass (size : Z) : option Z :=
  match
    (if size <=? kMallocSizeClassStep
     then match RoundUpToPowerOfTwo size with
          | Some rounded =>
              match Log2 rounded with
              | Some l => Some (l mod 256)
              | None => None
              end
          | None => None
          end
     else Some ((wrap (wrap (size + kMallocSizeClassStep - 1) / kMallocSizeClassStep
                       + kMallocSizeClassStepLog)) mod 256))
  with
  | None => None
  | Some res =>
      if negb (res <? kNumberOfSizeClasses cfg) then None
      else match SizeClassToSize res with
           | None => None
           | Some s => if size <=? s then Some res else None
           end
  end.

(** ** Shadow poisoning *)

(** The arguments of [Printf] are evaluated first, and
    [AsanThread::GetCurrent()->tid()] reads the tid through the pointer to
    the current thread without a test: with no current thread this is a
    load through a null pointer, and nothing is printed. *)
Definition OutOfMemoryMessage (mem_type : string) (size : Z) : M unit :=
  t <- GetCurrent;;
  match t with
  | Some th =>
      emit (EvPrintf "ERROR: AddressSanitizer failed to allocate 0x%lx (%lu) bytes (%s) in T%d"
              [size; size; tid_ th])
  | None => abort MemoryFault
  end.

Definition PoisonShadow (mem size poison : Z) : M unit :=
  CHECK (IsAligned mem (SHADOW_GRANULARITY cfg));;;
  CHECK (IsAligned (wrap (mem + size)) (SHADOW_GRANULARITY cfg));;;
  let shadow_beg := MemToShadow cfg mem in
  let shadow_end := MemToShadow cfg (wrap (mem + size)) in
  let poison :=
    if negb (poison =? 0) && (SHADOW_GRANULARITY cfg =? 128) then 0xff else poison in
  emit (EvMemset shadow_beg poison (wrap (shadow_end - shadow_beg))).

Definition PoisonMemoryPartialRightRedzone (mem size : Z) : M unit :=
  CHECK (size <=? REDZONE);;;
  CHECK (IsAligned mem REDZONE);;;
  CHECK (IsPowerOfTwo (SHADOW_GRANULARITY cfg));;;
  CHECK (IsPowerOfTwo REDZONE);;;
  CHECK (REDZONE >=? SHADOW_GRANULARITY cfg);;;
  emit (EvPoisonShadowPartialRightRedzone (MemToShadow cfg mem) size REDZONE
          (SHADOW_GRANULARITY cfg) (kAsanHeapRightRedzoneMagic cfg)).

Definition add_total_mmaped (size : Z) : M unit :=
  modify (fun w => mkWorld (heap w) (fifo_next w) (malloc_info w)
                     (tl_current_thread w) (wrap (total_mmaped w + size))
                     (mappings w) (trace w)).

Definition MmapNewPagesAndPoisonShadow (size : Z) : M Z :=
  CHECK (IsAligned size (kPageSize cfg));;;
  res <- __asan_mmap cfg size;;
  add_total_mmaped size;;;
  (if res =? MAP_FAILED cfg
   then OutOfMemoryMessage "MmapNewPagesAndPoisonShadow" size;;;
        emit EvPrintCurrentStack;;;
        abort AbortCalled
   else ret tt);;;
  PoisonShadow res size (kAsanHeapLeftRedzoneMagic cfg);;;
  (if negb (__asan_flag_debug cfg =? 0)
   then emit (EvPrintf "ASAN_MMAP: [%p, %p)" [res; wrap (res + size)])
   else ret tt);;;
  ret res.

(** ** [struct AsanChunk]: [this] is the header's address, [c] its content *)

Definition AsanChunk_beg (this : Z) (c : ChunkBase) : Z := wrap (this + offset c).
Definition AsanChunk_Size (c : ChunkBase) : option Z := SizeClassToSize (size_class c).
Definition AsanChunk_SizeClass (c : ChunkBase) : Z := size_class c.

(** [sizeof(ChunkBase)]: 24 bytes with 32-bit pointers, 32 bytes with 64-bit ones. *)
Definition sizeof_ChunkBase : Z := if WORDSIZE =? 32 then 24 else 32.

Definition compressed_alloc_stack (this : Z) : option Z :=
  if REDZONE >=? sizeof_ChunkBase then Some (wrap (this + sizeof_ChunkBase)) else None.
Definition compressed_free_stack (this : Z) : option Z :=
  if REDZONE >=? sizeof_ChunkBase then Some (wrap (this + REDZONE)) else None.
Definition compressed_alloc_stack_size : Z := (REDZONE - sizeof_ChunkBase) / 4.
Definition compressed_free_stack_size : Z := REDZONE / 4.

(** The three tests give the offset they store when they answer true. *)
Definition AddrIsInside (this : Z) (c : ChunkBase) (addr access_size : Z) : option Z :=
  if (addr >=? AsanChunk_beg this c)
     && (wrap (addr + access_size) <=? wrap (AsanChunk_beg this c + used_size c))
  then Some (wrap (addr - AsanChunk_beg this c))
  else None.

Definition AddrIsAtLeft (this : Z) (c : ChunkBase) (addr access_size : Z) : option Z :=
  if (addr >=? this) && (addr <? AsanChunk_beg this c)
  then Some (wrap (AsanChunk_beg this c - addr))
  else None.

Definition AddrIsAtRight (this : Z) (c : ChunkBase) (addr access_size : Z)
  : M (option Z) :=
  if wrap (addr + access_size) >=? wrap (AsanChunk_beg this c + used_size c)
  then
    s <- lift (AsanChunk_Size c);;
    if addr <? wrap (wrap (this + s) + REDZONE)
    then
      if addr <=? wrap (AsanChunk_beg this c + used_size c)
      then ret (Some 0)
      else ret (Some (wrap (addr - wrap (AsanChunk_beg this c + used_size c))))
    else ret None
  else ret None.

Definition DescribeAddress (this addr access_size : Z) : M unit :=
  c <- read this;;
  emit (EvPrintf "%p is located " [addr]);;;
  match AddrIsInside this c addr access_size with
  | Some off => emit (EvPrintf "%ld bytes inside of" [off])
  | None =>
      match AddrIsAtLeft this c addr access_size with
      | Some off => emit (EvPrintf "%ld bytes to the left of" [off])
      | None =>
          r <- AddrIsAtRight this c addr access_size;;
          match r with
          | Some off => emit (EvPrintf "%ld bytes to the right of" [off])
          | None => emit (EvPrintf " somewhere around (this is AddressSanitizer bug!)" [])
          end
      end
  end;;;
  emit (EvPrintf " %lu-byte region [%p,%p)"
          [used_size c; AsanChunk_beg this c;
           wrap (AsanChunk_beg this c + used_size c)]).

Definition PtrToChunk (h : Heap) (ptr : Z) : Z :=
  let m := wrap (ptr - REDZONE) in
  if chunk_state (hdr h m) =? CHUNK_MEMALIGN then next (hdr h m) else m.

(** ** [AsanChunkFifoList]: each method returns the updated list *)

Definition AsanChunkFifoList_PushList (this q : AsanChunkFifoList)
  : M (AsanChunkFifoList * AsanChunkFifoList) :=
  this' <-
    (if negb (last_ this =? 0)
     then
       CHECK (negb (first_ this =? 0));;;
       l <- read (last_ this);;
       CHECK (next l =? 0);;;
       write (last_ this) (set_next (first_ q));;;
       ret (mkFifo (first_ this) (last_ q) (size_ this))
     else
       CHECK (first_ this =? 0);;;
       ret (mkFifo (first_ q) (last_ q) (size_ this)));;
  ret (mkFifo (first_ this') (last_ this') (wrap (size_ this' + size_ q)),
       AsanChunkFifoList_clear).

Definition AsanChunkFifoList_Push (this : AsanChunkFifoList) (n : Z)
  : M AsanChunkFifoList :=
  c <- read n;;
  CHECK (next c =? 0);;;
  this' <-
    (if negb (last_ this =? 0)
     then
       CHECK (negb (first_ this =? 0));;;
       l <- read (last_ this);;
       CHECK (next l =? 0);;;
       write (last_ this) (set_next n);;;
       ret (mkFifo (first_ this) n (size_ this))
     else
       CHECK (first_ this =? 0);;;
       ret (mkFifo n n (size_ this)));;
  c' <- read n;;
  s <- lift (AsanChunk_Size c');;
  ret (mkFifo (first_ this') (last_ this') (wrap (size_ this' + s))).

Definition AsanChunkFifoList_Pop (this : AsanChunkFifoList)
  : M (Z * AsanChunkFifoList) :=
  CHECK (negb (first_ this =? 0));;;
  let res := first_ this in
  c <- read res;;
  let first' := next c in
  let last' := if first' =? 0 then 0 else last_ this in
  s <- lift (AsanChunk_Size c);;
  CHECK (size_ this >=? s);;;
  (if negb (last' =? 0)
   then l <- read last';; CHECK (next l =? 0)
   else ret tt);;;
  ret (res, mkFifo first' last' (size_ this - s)).

(** ** [class MallocInfo] *)

Definition stats_Log2 (x : Z) : M unit :=
  if negb (__asan_flag_stats cfg =? 0)
  then _ <- lift (Log2 x);; ret tt
  else ret tt.

Fixpoint FindPageGroupUnlocked_loop (mi : MallocInfo) (addr : Z) (n : nat) (i : Z)
  : option PageGroup :=
  match n with
  | O => None
  | S n' =>
      let g := page_groups_ mi i in
      if PageGroup_InRange g addr then Some g
      else FindPageGroupUnlocked_loop mi addr n' (i + 1)
  end.

Definition FindPageGroupUnlocked (mi : MallocInfo) (addr : Z) : option PageGroup :=
  FindPageGroupUnlocked_loop mi addr (Z.to_nat (n_page_groups_ mi)) 0.

Definition FindPageGroup (addr : Z) : M (option PageGroup) :=
  mi <- gets malloc_info;;
  ret (FindPageGroupUnlocked mi addr).

Definition AllocationSize (ptr : Z) : M Z :=
  w <- get;;
  match FindPageGroupUnlocked (malloc_info w) ptr with
  | None => ret 0
  | Some _ =>
      let m := PtrToChunk (heap w) ptr in
      if chunk_state (hdr (heap w) m) =? CHUNK_ALLOCATED
      then ret (used_size (hdr (heap w) m))
      else ret 0
  end.

Definition MallocInfo_Pop : M unit :=
  mi <- gets malloc_info;;
  CHECK (size_ (quarantine_ mi) >? 0);;;
  r <- AsanChunkFifoList_Pop (quarantine_ mi);;
  let '(m, q') := r in
  set_quarantine q';;;
  CHECK (negb (m =? 0));;;
  c <- read m;;
  CHECK (chunk_state c =? CHUNK_QUARANTINE);;;
  write m (set_chunk_state CHUNK_AVAILABLE);;;
  CHECK (alloc_tid c >=? 0);;;
  CHECK (free_tid c >=? 0);;;
  let size_class := AsanChunk_SizeClass c in
  mi' <- gets malloc_info;;
  write m (set_next (free_lists_ mi' size_class));;;
  set_free_list size_class m;;;
  (if negb (__asan_flag_stats cfg =? 0)
   then s <- lift (AsanChunk_Size c);; stats_Log2 s
   else ret tt).

(** The chunks of a fresh mapping, linked from the last one back to the
    first.  The heap keeps one header for each chunk: for a chunk size
    below [sizeof(ChunkBase)] the headers of neighbouring chunks share
    bytes in the source, which the heap does not show; what is proved of
    the chunks of [GetNewChunks] is proved for chunk sizes from
    [sizeof(ChunkBase)] on. *)
Fixpoint GetNewChunks_loop (mem size size_class : Z) (n : nat) (i : Z) (res : Z)
  : M Z :=
  match n with
  | O => ret res
  | S n' =>
      let m := mem + i * size in
      write m (set_chunk_state CHUNK_AVAILABLE);;;
      write m (set_size_class size_class);;;
      write m (set_next res);;;
      GetNewChunks_loop mem size size_class n' (i + 1) m
  end.

Definition page_groups_capacity : Z := kMaxAvailableRam / kMinMmapSize.

(** [sizeof(PageGroup)]: three words. *)
Definition sizeof_PageGroup : Z := if WORDSIZE =? 32 then 12 else 24.

(** The record of the page group is stored in the mapping, after the last
    chunk.  A record that runs past the end of the mapping is a store
    outside it; whenever a header of the loop runs past the end, the
    record does too.  The registry keeps the records by index. *)
Definition GetNewChunks (size_class : Z) : M Z :=
  size <- lift (SizeClassToSize size_class);;
  CHECK (IsPowerOfTwo kMinMmapSize);;;
  CHECK ((size <? kMinMmapSize) || (size mod kMinMmapSize =? 0));;;
  let mmap_size := Z.max size kMinMmapSize in
  let n_chunks := mmap_size / size in
  CHECK (wrap (n_chunks * size) =? mmap_size);;;
  let n_chunks := if size <? kPageSize cfg then wrap (n_chunks - 1) else n_chunks in
  let mmap_size := if size <? kPageSize cfg then mmap_size
                   else wrap (mmap_size + kPageSize cfg) in
  CHECK (n_chunks >? 0);;;
  mem <- MmapNewPagesAndPoisonShadow mmap_size;;
  stats_Log2 size;;;
  res <- GetNewChunks_loop mem size size_class (Z.to_nat n_chunks) 0 0;;
  let pg_addr := mem + n_chunks * size in
  (if negb (pg_addr + sizeof_PageGroup <=? mem + mmap_size)
   then abort MemoryFault
   else ret tt);;;
  let pg := mkPageGroup mem (wrap (mem + mmap_size)) size in
  mi <- gets malloc_info;;
  let page_group_idx := n_page_groups_ mi in
  set_malloc_info (mkMallocInfo (free_lists_ mi) (quarantine_ mi)
                     (page_groups_ mi) (n_page_groups_ mi + 1));;;
  CHECK (page_group_idx <? page_groups_capacity);;;
  mi' <- gets malloc_info;;
  set_malloc_info (mkMallocInfo (free_lists_ mi') (quarantine_ mi')
                     (upd (page_groups_ mi') page_group_idx pg)
                     (n_page_groups_ mi'));;;
  ret res.

Fixpoint AllocateChunks_loop (size_class : Z) (n : nat) (m : Z) : M Z :=
  match n with
  | O => ret m
  | S n' =>
      mi <- gets malloc_info;;
      (if free_lists_ mi size_class =? 0
       then r <- GetNewChunks size_class;; set_free_list size_class r
       else ret tt);;;
      mi' <- gets malloc_info;;
      let t := free_lists_ mi' size_class in
      c <- read t;;
      set_free_list size_class (next c);;;
      write t (set_next m);;;
      c' <- read t;;
      CHECK (chunk_state c' =? CHUNK_AVAILABLE);;;
      AllocateChunks_loop size_class n' t
  end.

Definition AllocateChunks (size_class n_chunks : Z) : M Z :=
  AllocateChunks_loop size_class (Z.to_nat n_chunks) 0.

(** [while (quarantine_.size() > __asan_flag_quarantine_size) Pop();]
    Every [Pop] takes at least one byte off the size, so [size_] steps are
    enough fuel. *)
Fixpoint Swallow_pop_loop (fuel : nat) : M unit :=
  mi <- gets malloc_info;;
  if size_ (quarantine_ mi) >? __asan_flag_quarantine_size cfg
  then match fuel with
       | O => out_of_fuel
       | S fuel' => MallocInfo_Pop;;; Swallow_pop_loop fuel'
       end
  else ret tt.

(** [while (m) { t = m->next; m->next = free_lists_[c]; free_lists_[c] = m; m = t; }] *)
Fixpoint Swallow_drain_list (fuel : nat) (size_class m : Z) : M unit :=
  if negb (m =? 0)
  then match fuel with
       | O => out_of_fuel
       | S fuel' =>
           c <- read m;;
           let t := next c in
           mi <- gets malloc_info;;
           write m (set_next (free_lists_ mi size_class));;;
           set_free_list size_class m;;;
           Swallow_drain_list fuel' size_class t
       end
  else ret tt.

Fixpoint Swallow_drain_loop (fuel : nat) (n : nat) (size_class : Z)
  (x : AsanThreadLocalMallocStorage) : M AsanThreadLocalMallocStorage :=
  match n with
  | O => ret x
  | S n' =>
      Swallow_drain_list fuel size_class (tl_free_lists_ x size_class);;;
      Swallow_drain_loop fuel n' (size_class + 1)
        (mkStorage (tl_quarantine_ x) (upd (tl_free_lists_ x) size_class 0))
  end.

(** The storage [x] is passed by value and handed back updated; [fuel]
    bounds the walk along each thread-local free list. *)
Definition SwallowThreadLocalMallocStorage (fuel : nat)
  (x : AsanThreadLocalMallocStorage) (eat_free_lists : bool)
  : M AsanThreadLocalMallocStorage :=
  CHECK (__asan_flag_quarantine_size cfg >? 0);;;
  x' <-
    (if size_ (tl_quarantine_ x) >? 0
     then
       mi <- gets malloc_info;;
       r <- AsanChunkFifoList_PushList (quarantine_ mi) (tl_quarantine_ x);;
       let '(gq, q) := r in
       set_quarantine gq;;;
       Swallow_pop_loop (Z.to_nat (size_ gq));;;
       ret (mkStorage q (tl_free_lists_ x))
     else ret x);;
  if eat_free_lists
  then Swallow_drain_loop fuel (Z.to_nat (kNumberOfSizeClasses cfg)) 0 x'
  else ret x'.

Definition BypassThreadLocalQuarantine (chunk : Z) : M unit :=
  mi <- gets malloc_info;;
  q <- AsanChunkFifoList_Push (quarantine_ mi) chunk;;
  set_quarantine q.

(** [AsanThreadLocalMallocStorage::CommitBack], on the current thread. *)
Definition CommitBack (fuel : nat) (t : AsanThread) : M unit :=
  x <- SwallowThreadLocalMallocStorage fuel (malloc_storage_ t) true;;
  set_malloc_storage t x.

(** ** Allocate, Deallocate, Reallocate

    A stack trace pointer is [Some] trace or [None] for NULL.  The counters
    of [__asan_stats] and the statistics dump are left out; the CHECK inside
    [Log2] that the statistics code runs is kept.  [CompressStack] is an
    event: the words it writes, after the header of the chunk for the
    allocation and at [m + REDZONE] for the free, are not stored in the
    heap. *)

Definition Allocate (alignment size : Z) (stack : option AsanStackTrace) : M Z :=
  CHECK (match stack with Some _ => true | None => false end);;;
  let size := if size =? 0 then 1 else size in
  CHECK (IsPowerOfTwo alignment);;;
  rounded_size <- lift (RoundUpTo size REDZONE);;
  let needed_size := wrap (rounded_size + REDZONE) in
  let needed_size :=
    if alignment >? REDZONE then wrap (needed_size + alignment) else needed_size in
  CHECK (IsAligned needed_size REDZONE);;;
  (if needed_size >? kMaxAllowedMallocSize
   then OutOfMemoryMessage "Allocate" size;;;
        emit (EvPrintStack (match stack with Some s => s | None => [] end));;;
        abort AbortCalled
   else ret tt);;;
  size_class <- lift (SizeToSizeClass needed_size);;
  size_to_allocate <- lift (SizeClassToSize size_class);;
  CHECK (size_to_allocate >=? kMinAllocSize);;;
  CHECK (size_to_allocate >=? needed_size);;;
  CHECK (IsAligned size_to_allocate REDZONE);;;
  (if __asan_flag_v cfg >=? 2
   then emit (EvPrintf "Allocate align: %ld size: %ld class: %d real: %ld"
                [alignment; size; size_class; size_to_allocate])
   else ret tt);;;
  stats_Log2 size_to_allocate;;;
  t <- GetCurrent;;
  m <-
    match t with
    | Some th =>
        if size_to_allocate >=? kMaxSizeForThreadLocalFreeList
        then AllocateChunks size_class 1
        else
          ms <-
            (if tl_free_lists_ (malloc_storage_ th) size_class =? 0
             then
               let n_new_chunks := kMaxSizeForThreadLocalFreeList / size_to_allocate in
               r <- AllocateChunks size_class n_new_chunks;;
               ret (mkStorage (tl_quarantine_ (malloc_storage_ th))
                      (upd (tl_free_lists_ (malloc_storage_ th)) size_class r))
             else ret (malloc_storage_ th));;
          let m := tl_free_lists_ ms size_class in
          c <- read m;;
          set_malloc_storage th
            (mkStorage (tl_quarantine_ ms)
               (upd (tl_free_lists_ ms) size_class (next c)));;;
          ret m
    | None => AllocateChunks size_class 1
    end;;
  CHECK (negb (m =? 0));;;
  c <- read m;;
  CHECK (chunk_state c =? CHUNK_AVAILABLE);;;
  write m (set_chunk_state CHUNK_ALLOCATED);;;
  write m (set_next 0);;;
  s <- lift (AsanChunk_Size c);;
  CHECK (s =? size_to_allocate);;;
  let addr := wrap (m + REDZONE) in
  fs <- lift (compressed_free_stack m);;
  CHECK (addr =? fs);;;
  addr <-
    (if (alignment >? REDZONE) && negb (Z.land addr (wrap (alignment - 1)) =? 0)
     then
       addr' <- lift (RoundUpTo addr alignment);;
       CHECK (Z.land addr' (wrap (alignment - 1)) =? 0);;;
       let p := wrap (addr' - REDZONE) in
       write p (set_chunk_state CHUNK_MEMALIGN);;;
       write p (set_next m);;;
       ret addr'
     else ret addr);;
  h <- gets heap;;
  CHECK (m =? PtrToChunk h addr);;;
  write m (set_used_size size);;;
  write m (set_offset ((addr - m) mod 2 ^ 32));;;
  c' <- read m;;
  CHECK (AsanChunk_beg m c' =? addr);;;
  write m (set_alloc_tid (match t with Some th => tid_ th | None => 0 end));;;
  write m (set_free_tid (kInvalidTid cfg));;;
  as_ <- lift (compressed_alloc_stack m);;
  emit (EvCompressStack (match stack with Some s => s | None => [] end)
          as_ compressed_alloc_stack_size);;;
  PoisonShadow addr rounded_size 0;;;
  (if size <? rounded_size
   then PoisonMemoryPartialRightRedzone (wrap (wrap (addr + rounded_size) - REDZONE))
          (Z.land size (wrap (REDZONE - 1)))
   else ret tt);;;
  ret addr.

Definition __asan_show_stats_and_abort {A : Type} : M A :=
  emit EvShowStats;;; abort ShowStatsAndAbort.

Definition Deallocate (ptr : Z) (stack : option AsanStackTrace) : M unit :=
  if ptr =? 0 then ret tt
  else
    CHECK (match stack with Some _ => true | None => false end);;;
    let stk := match stack with Some s => s | None => [] end in
    (if negb (__asan_flag_debug cfg =? 0)
     then g <- FindPageGroup ptr;;
          CHECK (match g with Some _ => true | None => false end)
     else ret tt);;;
    h <- gets heap;;
    let m := PtrToChunk h ptr in
    c <- read m;;
    (if chunk_state c =? CHUNK_QUARANTINE
     then
       emit (EvPrintf "attempting double-free on %p:" [ptr]);;;
       emit (EvPrintStack stk);;;
       DescribeAddress m ptr 1;;;
       __asan_show_stats_and_abort
     else if negb (chunk_state c =? CHUNK_ALLOCATED)
     then
       emit (EvPrintf "attempting free on address which was not malloc()-ed: %p" [ptr]);;;
       emit (EvPrintStack stk);;;
       __asan_show_stats_and_abort
     else ret tt);;;
    CHECK (chunk_state c =? CHUNK_ALLOCATED);;;
    CHECK (free_tid c =? kInvalidTid cfg);;;
    CHECK (alloc_tid c >=? 0);;;
    t <- GetCurrent;;
    write m (set_free_tid (match t with Some th => tid_ th | None => 0 end));;;
    fs <- lift (compressed_free_stack m);;
    emit (EvCompressStack stk fs compressed_free_stack_size);;;
    rounded_size <- lift (RoundUpTo (used_size c) REDZONE);;
    PoisonShadow ptr rounded_size (kAsanHeapFreeMagic cfg);;;
    (if negb (__asan_flag_stats cfg =? 0)
     then s <- lift (AsanChunk_Size c);; stats_Log2 s
     else ret tt);;;
    write m (set_chunk_state CHUNK_QUARANTINE);;;
    match t with
    | Some th =>
        let ms := malloc_storage_ th in
        c' <- read m;;
        CHECK (next c' =? 0);;;
        q <- AsanChunkFifoList_Push (tl_quarantine_ ms) m;;
        let ms' := mkStorage q (tl_free_lists_ ms) in
        set_malloc_storage th ms';;;
        if size_ q >? kMaxThreadLocalQuarantine
        then
          ms'' <- SwallowThreadLocalMallocStorage O ms' false;;
          set_malloc_storage th ms''
        else ret tt
    | None =>
        c' <- read m;;
        CHECK (next c' =? 0);;;
        BypassThreadLocalQuarantine m
    end.

Definition Reallocate (old_ptr new_size : Z) (stack : option AsanStackTrace) : M Z :=
  if old_ptr =? 0 then Allocate 0 new_size stack
  else if new_size =? 0 then ret 0
  else
    h <- gets heap;;
    let m := PtrToChunk h old_ptr in
    c <- read m;;
    CHECK (chunk_state c =? CHUNK_ALLOCATED);;;
    let old_size := used_size c in
    let memcpy_size := Z.min new_size old_size in
    new_ptr <- Allocate 0 new_size stack;;
    emit (EvMemcpy new_ptr old_ptr memcpy_size);;;
    Deallocate old_ptr stack;;;
    ret new_ptr.

(** ** The entry points *)

Definition __asan_memalign (alignment size : Z) (stack : option AsanStackTrace) : M Z :=
  Allocate alignment size stack.

Definition __asan_free (ptr : Z) (stack : option AsanStackTrace) : M unit :=
  Deallocate ptr stack.

Definition __asan_malloc (size : Z) (stack : option AsanStackTrace) : M Z :=
  Allocate 0 size stack.

Definition __asan_calloc (nmemb size : Z) (stack : option AsanStackTrace) : M Z :=
  res <- Allocate 0 (wrap (nmemb * size)) stack;;
  emit (EvMemset res 0 (wrap (nmemb * size)));;;
  ret res.

Definition __asan_realloc (p size : Z) (stack : option AsanStackTrace) : M Z :=
  Reallocate p size stack.

Definition __asan_valloc (size : Z) (stack : option AsanStackTrace) : M Z :=
  Allocate (kPageSize cfg) size stack.

Definition __asan_pvalloc (size : Z) (stack : option AsanStackTrace) : M Z :=
  size' <- lift (RoundUpTo size (kPageSize cfg));;
  let size' := if size' =? 0 then kPageSize cfg else size' in
  Allocate (kPageSize cfg) size' stack.

(** [*memptr] is handed back with the status. *)
Definition __asan_posix_memalign (alignment size : Z) (stack : option AsanStackTrace)
  : M (Z * Z) :=
  p <- Allocate alignment size stack;;
  CHECK (IsAligned p alignment);;;
  ret (0, p).

Definition __asan_mz_size (ptr : Z) : M Z := AllocationSize ptr.

Definition __asan_total_mmaped : M Z := gets total_mmaped.

(** ** The fake stack ([AsanFakeStack] of asan_allocator.cc)

    Each method takes the fake stack object and hands it back updated; the
    [next] words of the frames on the FIFOs live in [fifo_next]. *)

(** Modelled from the spec: [AsanFakeStack::ClassSize] is declared in
    asan_allocator.h, which is not part of the sources; the frame size of a
    class is [1 << (kMinStackFrameSizeLog + c)]. *)
Definition ClassSize (size_class : Z) : Z :=
  wrap (Z.shiftl 1 (kMinStackFrameSizeLog cfg + size_class)).

Definition ClassMmapSize (fs : AsanFakeStack) (size_class : Z) : option Z :=
  RoundUpToPowerOfTwo (stack_size_ fs).

Definition AddrIsInSizeClass (fs : AsanFakeStack) (addr size_class : Z) : option bool :=
  let mem := allocated_size_classes_ fs size_class in
  match ClassMmapSize fs size_class with
  | Some size =>
      Some (negb (mem =? 0) && (addr >=? mem) && (addr <? wrap (mem + size)))
  | None => None
  end.

(** [None] is a failed CHECK.  For [log = 0] the shift [1UL << (log - 1)]
    is by more than the width of the word, which C++ leaves undefined; the
    x86 shift takes the count modulo the width, and the second CHECK
    fails. *)
Definition ComputeSizeClass (alloc_size : Z) : option Z :=
  match RoundUpToPowerOfTwo alloc_size with
  | None => None
  | Some rounded_size =>
      match Log2 rounded_size with
      | None => None
      | Some log =>
          if negb (alloc_size <=? wrap (Z.shiftl 1 log)) then None
          else if log =? 0 then None
          else if negb (alloc_size >? wrap (Z.shiftl 1 (log - 1))) then None
          else
            let res := if log <? kMinStackFrameSizeLog cfg then 0
                       else log - kMinStackFrameSizeLog cfg in
            if negb (res <? kFakeStackNumberOfSizeClasses cfg) then None
            else if negb (ClassSize res >=? rounded_size) then None
            else Some res
      end
  end.

Definition FifoPush (l : FifoList) (a : Z) : M FifoList :=
  CHECK (negb (a =? 0));;;
  set_fifo_next a 0;;;
  if (fifo_first l =? 0) && (fifo_last l =? 0)
  then ret (mkFifoList a a)
  else
    CHECK (negb (fifo_first l =? 0));;;
    CHECK (negb (fifo_last l =? 0));;;
    set_fifo_next (fifo_last l) a;;;
    ret (mkFifoList (fifo_first l) a).

Definition FifoPop (l : FifoList) : M (Z * FifoList) :=
  CHECK (negb (fifo_first l =? 0) && negb (fifo_last l =? 0));;;
  if fifo_first l =? fifo_last l
  then ret (fifo_first l, mkFifoList 0 0)
  else
    nx <- gets (fun w => fifo_next w (fifo_first l));;
    ret (fifo_first l, mkFifoList nx (fifo_last l)).

Fixpoint AllocateOneSizeClass_loop (fuel : nat) (new_mem msize csize : Z)
  (i : Z) (l : FifoList) : M (Z * FifoList) :=
  if i <? msize
  then match fuel with
       | O => out_of_fuel
       | S fuel' =>
           l' <- FifoPush l (wrap (new_mem + i));;
           AllocateOneSizeClass_loop fuel' new_mem msize csize (wrap (i + csize)) l'
       end
  else ret (i, l).

Definition AllocateOneSizeClass (fs : AsanFakeStack) (size_class : Z)
  : M AsanFakeStack :=
  msize <- lift (ClassMmapSize fs size_class);;
  CHECK (msize >=? kPageSize cfg);;;
  new_mem <- __asan_mmap cfg msize;;
  CHECK (negb (new_mem =? MAP_FAILED cfg));;;
  r <- AllocateOneSizeClass_loop (Z.to_nat msize) new_mem msize
         (ClassSize size_class) 0 (size_classes_ fs size_class);;
  let '(i, l) := r in
  CHECK (i =? msize);;;
  ret (mkFakeStack (stack_size_ fs) (alive_ fs)
         (upd (allocated_size_classes_ fs) size_class new_mem)
         (upd (size_classes_ fs) size_class l)).

Definition AllocateStack (fs : AsanFakeStack) (size : Z) : M (Z * AsanFakeStack) :=
  CHECK (alive_ fs);;;
  CHECK (size <=? kMaxStackMallocSize cfg);;;
  size_class <- lift (ComputeSizeClass size);;
  fs' <- (if allocated_size_classes_ fs size_class =? 0
          then AllocateOneSizeClass fs size_class
          else ret fs);;
  r <- FifoPop (size_classes_ fs' size_class);;
  let '(ptr, l) := r in
  CHECK (negb (ptr =? 0));;;
  PoisonShadow ptr size 0;;;
  ret (ptr, mkFakeStack (stack_size_ fs') (alive_ fs')
              (allocated_size_classes_ fs')
              (upd (size_classes_ fs') size_class l)).

Definition DeallocateStack (fs : AsanFakeStack) (ptr size : Z) : M AsanFakeStack :=
  CHECK (alive_ fs);;;
  size_class <- lift (ComputeSizeClass size);;
  CHECK (negb (allocated_size_classes_ fs size_class =? 0));;;
  b1 <- lift (AddrIsInSizeClass fs ptr size_class);;
  CHECK b1;;;
  b2 <- lift (AddrIsInSizeClass fs (wrap (ptr + size - 1)) size_class);;
  CHECK b2;;;
  PoisonShadow ptr size (kAsanStackAfterReturnMagic cfg);;;
  l <- FifoPush (size_classes_ fs size_class) ptr;;
  ret (mkFakeStack (stack_size_ fs) (alive_ fs) (allocated_size_classes_ fs)
         (upd (size_classes_ fs) size_class l)).

Definition __asan_stack_malloc (size real_stack : Z) : M Z :=
  t <- GetCurrent;;
  match t with
  | None => ret real_stack
  | Some th =>
      r <- AllocateStack (fake_stack_ th) size;;
      let '(ptr, fs) := r in
      set_fake_stack th fs;;;
      ret ptr
  end.

Definition __asan_stack_free (ptr size real_stack : Z) : M unit :=
  if ptr =? real_stack then ret tt
  else
    t <- GetCurrent;;
    match t with
    | None => ret tt
    | Some th =>
        fs <- DeallocateStack (fake_stack_ th) ptr size;;
        set_fake_stack th fs
    end.

End Allocator.

(** ** Which chunk an address belongs to ([MallocInfo::FindChunkByAddr]) *)

Section Describe.

Variable cfg : Config.

Local Abbreviation REDZONE := (__asan_flag_redzone cfg).
Local Abbreviation WORDSIZE := (__WORDSIZE cfg).

(** The chunk returned is a pointer; null is 0. *)
Definition FindChunkByAddr (addr : Z) : M Z :=
  w <- get;;
  match FindPageGroupUnlocked (malloc_info w) addr with
  | None => ret 0
  | Some g =>
      CHECK (negb (size_of_chunk g =? 0));;;
      let offset_from_beg := wrap cfg (addr - beg g) in
      let this_chunk_addr :=
        wrap cfg (beg g + wrap cfg (offset_from_beg / size_of_chunk g * size_of_chunk g)) in
      CHECK (PageGroup_InRange g this_chunk_addr);;;
      let m := this_chunk_addr in
      c <- read m;;
      CHECK ((chunk_state c =? CHUNK_ALLOCATED) || (chunk_state c =? CHUNK_AVAILABLE)
             || (chunk_state c =? CHUNK_QUARANTINE));;;
      inside_or_right <-
        match AddrIsInside cfg m c addr 1 with
        | Some _ => ret true
        | None =>
            r <- AddrIsAtRight cfg m c addr 1;;
            ret (match r with Some _ => true | None => false end)
        end;;
      if inside_or_right then ret m
      else
        offset <- lift (AddrIsAtLeft cfg m c addr 1);;
        if this_chunk_addr =? beg g then ret m
        else
          let left_chunk_addr := wrap cfg (this_chunk_addr - size_of_chunk g) in
          CHECK (PageGroup_InRange g left_chunk_addr);;;
          let l := left_chunk_addr in
          cl <- read l;;
          r <- AddrIsAtRight cfg l cl addr 1;;
          l_offset <- lift r;;
          if l_offset <? offset then ret l else ret m
  end.

Definition FindMallocedOrFreed (addr access_size : Z) : M Z :=
  FindChunkByAddr addr.

End Describe.

(** ** The fake stack and the thread registry of asan_thread.cc

    asan_thread.cc has a fake stack of its own, one ring buffer per thread,
    whose frames carry the name of their function.  Its names are kept in a
    module, since several of them are also names of asan_allocator.cc. *)

Module asan_thread.

(** Words of memory, by the address of their first byte. *)
Definition Memory : Type := Z -> Z.

Record AsanFakeStack := mkFakeStack {
  size_ : Z;
  pos_ : Z;
  buffer_ : Z
}.

Definition kMaxStackSize : Z := 16 * Z.shiftl 1 20.

Definition kFrameNameMagic : Z := 0x41B58AB3.

(** What a lookup of a frame name gives: a pointer to a name, the string
    "UNKNOWN", a failed CHECK, or no answer within the fuel. *)
Inductive FrameName :=
| Name (name : Z)
| UNKNOWN
| CheckFailed
| OutOfFuel.

Section FakeStack.

Variable cfg : Config.

Local Abbreviation WORDSIZE := (__WORDSIZE cfg).

(** [sizeof(uintptr_t)]. *)
Definition sizeof_uintptr_t : Z := WORDSIZE / 8.

(** [AsanFakeStack::AddrIsInFakeStack] is declared in asan_thread.h, which
    is not part of the sources: its answer is a parameter. *)
Variable AddrIsInFakeStack : AsanFakeStack -> Z -> bool.

Definition Init (this : AsanFakeStack) (size : Z) : M AsanFakeStack :=
  CHECK (size <=? wrap cfg (16 * kMaxStackSize));;;
  CHECK (size_ this =? 0);;;
  CHECK (size >? 0);;;
  buffer <- __asan_mmap cfg size;;
  CHECK (negb (buffer =? MAP_FAILED cfg));;;
  ret (mkFakeStack size 0 buffer).

(** The chunk, the updated stack and the updated memory.  The two stores
    are not checked against the buffer: what is proved of [GetChunk] is
    proved for chunks of two words at least, which hold both words. *)
Definition GetChunk (this : AsanFakeStack) (mem : Memory) (chunk_size name : Z)
  : Z * AsanFakeStack * Memory :=
  let '(res, this') :=
    if wrap cfg (pos_ this + chunk_size) <=? size_ this
    then (wrap cfg (buffer_ this + pos_ this),
          mkFakeStack (size_ this) (wrap cfg (pos_ this + chunk_size)) (buffer_ this))
    else (buffer_ this, mkFakeStack (size_ this) chunk_size (buffer_ this)) in
  let mem1 := upd mem res kFrameNameMagic in
  let mem2 := upd mem1 (wrap cfg (res + sizeof_uintptr_t)) name in
  (res, this', mem2).

(** [while (ptr >= buffer_) { if (ptr[0] == magic) return ptr[1]; ptr--; }] *)
Fixpoint GetFrameNameByAddr_loop (fuel : nat) (buffer : Z) (mem : Memory) (ptr : Z)
  : FrameName :=
  if ptr >=? buffer
  then match fuel with
       | O => OutOfFuel
       | S fuel' =>
           if mem ptr =? kFrameNameMagic
           then Name (mem (wrap cfg (ptr + sizeof_uintptr_t)))
           else GetFrameNameByAddr_loop fuel' buffer mem
                  (wrap cfg (ptr - sizeof_uintptr_t))
       end
  else UNKNOWN.

Definition GetFrameNameByAddr (fuel : nat) (this : AsanFakeStack) (mem : Memory)
  (addr : Z) : FrameName :=
  if negb (AddrIsInFakeStack this addr) then CheckFailed
  else
    let addr := Z.land addr (wnot cfg (wrap cfg (sizeof_uintptr_t - 1))) in
    GetFrameNameByAddr_loop fuel (buffer_ this) mem addr.

End FakeStack.

(** *** The registry of threads *)

Definition kMaxTid : Z := Z.shiftl 1 16 - 1.

(** The fields of [AsanThread] that the registry reads and writes. *)
Record AsanThread := mkThread {
  tid_ : Z;
  refcount_ : Z;
  announced_ : bool
}.

(** The statics [threads] and [n_threads_], and the thread objects by
    address. *)
Record Registry := mkRegistry {
  threads : Z -> Z;
  n_threads_ : Z;
  objects : Z -> AsanThread
}.

(** The constructor of a thread that is not the main one, on the object at
    [this]; [None] is a failed CHECK.  [AtomicInc] gives the value after
    the increment, as its use in [GetNewChunks] shows. *)
Definition AsanThread_new (this : Z) (r : Registry) : option Registry :=
  let tid := n_threads_ r + 1 in
  if negb (tid <=? kMaxTid) then None
  else Some (mkRegistry (upd (threads r) tid this) tid
               (upd (objects r) this (mkThread tid 1 false))).

(** [None] is a failed CHECK. *)
Definition FindByTid (tid : Z) (r : Registry) : option Z :=
  if negb (tid >=? 0) then None
  else if negb (tid <=? kMaxTid) then None
  else
    let res := threads r tid in
    if res =? 0 then None
    else if negb (tid_ (objects r res) =? tid) then None
    else Some res.

End asan_thread.

(** * Specification vocabulary *)

(** ** Outcomes of a computation *)

Definition wp {A : Type} (E : AbortCause -> World -> Prop) (D : Prop)
  (m : M A) (Q : A -> World -> Prop) (w : World) : Prop :=
  match m w with
  | Ret a w' => Q a w'
  | Abort c w' => E c w'
  | OutOfFuel => D
  end.

(** Every abort and running out of fuel are accepted: partial correctness. *)
Definition any_abort : AbortCause -> World -> Prop := fun _ _ => True.

Definition with_trace (w : World) (evs : list Event) : World :=
  mkWorld (heap w) (fifo_next w) (malloc_info w) (tl_current_thread w)
    (total_mmaped w) (mappings w) (trace w ++ evs).

Definition with_heap (w : World) (h : Heap) : World :=
  mkWorld h (fifo_next w) (malloc_info w) (tl_current_thread w)
    (total_mmaped w) (mappings w) (trace w).

(** ** The invariant of the allocator *)

Section Vocabulary.
Variable cfg : Config.
Local Abbreviation REDZONE := (__asan_flag_redzone cfg).
Local Abbreviation WORDSIZE := (__WORDSIZE cfg).

Definition word_ok : Prop := WORDSIZE = 32 \/ WORDSIZE = 64.

(** What the operating system promises of [mmap]: failure, or a fresh
    page-aligned region inside the address space. *)
Definition mmap_ok : Prop :=
  forall maps size, 0 < size < 2 ^ WORDSIZE ->
    let r := os_mmap cfg maps size in
    r = MAP_FAILED cfg \/
    (0 < r /\ r mod kPageSize cfg = 0 /\ r + size < 2 ^ WORDSIZE /\
     forall a n, (a, n) ∈ maps -> r + size <= a \/ a + n <= r).

(** The configurations the allocator is run with. *)
Record cfg_ok : Prop := {
  ok_word : WORDSIZE = 32 \/ WORDSIZE = 64;
  ok_redzone : exists k, 5 <= k /\ REDZONE = 2 ^ k;
  ok_page : exists k, k <= 16 /\ kPageSize cfg = 2 ^ k /\ REDZONE < kPageSize cfg;
  ok_shadow : exists k, 0 <= k /\ SHADOW_GRANULARITY cfg = 2 ^ k /\
                        SHADOW_GRANULARITY cfg <= REDZONE;
  ok_classes : kMaxAllowedMallocSize cfg / kMallocSizeClassStep cfg
                 + kMallocSizeClassStepLog < kNumberOfSizeClasses cfg <= 256;
  ok_mmap : mmap_ok
}.

(** A null-terminated list of chunks linked through [next]. *)
Fixpoint lseg (h : Heap) (a : Z) (cells : list Z) : Prop :=
  match cells with
  | [] => a = 0
  | x :: rest => a = x /\ x <> 0 /\ lseg h (next (hdr h x)) rest
  end.

(** The bytes retained by a list of chunks: the sum of their class sizes. *)
Definition chunk_bytes (h : Heap) (a : Z) : Z :=
  default 0 (AsanChunk_Size cfg (hdr h a)).

Definition total_bytes (h : Heap) (cells : list Z) : Z :=
  foldr (fun a acc => chunk_bytes h a + acc) 0 cells.

Definition fifo_ok (h : Heap) (q : AsanChunkFifoList) (cells : list Z) : Prop :=
  lseg h (first_ q) cells /\ last_ q = List.last cells 0 /\
  size_ q = wrap cfg (total_bytes h cells).

(** The number of chunks [GetNewChunks] carves out of a mapping. *)
Definition n_chunks_of (s : Z) : Z :=
  if s <? kPageSize cfg then Z.max s (kMinMmapSize cfg) / s - 1
  else Z.max s (kMinMmapSize cfg) / s.

Record pg_ok (maps : list (Z * Z)) (g : PageGroup) : Prop := {
  pg_unit : 0 < size_of_chunk g;
  pg_beg : 0 < beg g;
  pg_fit : beg g + n_chunks_of (size_of_chunk g) * size_of_chunk g < end_ g;
  pg_end : end_ g <= 2 ^ WORDSIZE;
  pg_align : exists j, 0 <= j /\ beg g mod 2 ^ j = 0 /\
               size_of_chunk g mod 2 ^ j = 0 /\
               (2 ^ j = size_of_chunk g \/ 2 ^ j = kPageSize cfg);
  pg_mapped : (beg g, end_ g - beg g) ∈ maps
}.

Definition registry_ok (mi : MallocInfo) (maps : list (Z * Z)) : Prop :=
  0 <= n_page_groups_ mi /\
  (forall i, 0 <= i < n_page_groups_ mi -> pg_ok maps (page_groups_ mi i)) /\
  (forall i j, 0 <= i < n_page_groups_ mi -> 0 <= j < n_page_groups_ mi ->
     i <> j ->
     end_ (page_groups_ mi i) <= beg (page_groups_ mi j) \/
     end_ (page_groups_ mi j) <= beg (page_groups_ mi i)).

(** [a] is the address of a chunk of [s] bytes of a registered page group. *)
Definition is_base (mi : MallocInfo) (a s : Z) : Prop :=
  exists i k, 0 <= i < n_page_groups_ mi /\
              size_of_chunk (page_groups_ mi i) = s /\
              0 <= k < n_chunks_of s /\
              a = beg (page_groups_ mi i) + k * s.

Definition chunk_ok (h : Heap) (mi : MallocInfo) (a c : Z) : Prop :=
  size_class (hdr h a) = c /\
  exists s, SizeClassToSize cfg c = Some s /\ is_base mi a s.

(** The chunks on each list: the ghost state of the invariant.  [l_free]
    holds the available chunks that a local variable of the running
    operation points to. *)
Record Ghost := mkGhost {
  l_free : Z -> list Z;
  g_free : Z -> list Z;
  t_free : Z -> list Z;
  g_quar : list Z;
  t_quar : list Z
}.

(** A live user pointer [p], handed out for a request of [n] bytes. *)
Definition live_ok (h : Heap) (mi : MallocInfo) (p n : Z) : Prop :=
  let m := PtrToChunk cfg h p in
  chunk_state (hdr h m) = CHUNK_ALLOCATED /\
  n <= used_size (hdr h m) /\
  exists s, SizeClassToSize cfg (size_class (hdr h m)) = Some s /\
            is_base mi m s /\ m + REDZONE <= p < m + s.

Record wf_st (h : Heap) (mi : MallocInfo)
  (ms : option AsanThreadLocalMallocStorage) (maps : list (Z * Z))
  (G : Ghost) (live : list (Z * Z)) : Prop := {
  wf_registry : registry_ok mi maps;
  wf_gfree : forall c, lseg h (free_lists_ mi c) (g_free G c);
  wf_tfree : forall c,
    match ms with
    | Some x => lseg h (tl_free_lists_ x c) (t_free G c)
    | None => t_free G c = []
    end;
  wf_free_cells : forall c a, a ∈ l_free G c ++ g_free G c ++ t_free G c ->
    chunk_state (hdr h a) = CHUNK_AVAILABLE /\ chunk_ok h mi a c;
  wf_free_nodup : forall c, NoDup (l_free G c ++ g_free G c ++ t_free G c);
  wf_gquar : fifo_ok h (quarantine_ mi) (g_quar G);
  wf_tquar :
    match ms with
    | Some x => fifo_ok h (tl_quarantine_ x) (t_quar G)
    | None => t_quar G = []
    end;
  wf_quar_cells : forall a, a ∈ g_quar G ++ t_quar G ->
    chunk_state (hdr h a) = CHUNK_QUARANTINE /\
    chunk_ok h mi a (size_class (hdr h a));
  wf_quar_nodup : NoDup (g_quar G ++ t_quar G);
  wf_live : forall p n, (p, n) ∈ live -> live_ok h mi p n;
  wf_live_nodup : NoDup (map (fun x => PtrToChunk cfg h (fst x)) live)
}.

Definition tls (w : World) : option AsanThreadLocalMallocStorage :=
  option_map malloc_storage_ (tl_current_thread w).

Definition wf (w : World) (G : Ghost) (live : list (Z * Z)) : Prop :=
  wf_st (heap w) (malloc_info w) (tls w) (mappings w) G live.

(** The addresses whose headers the invariant reads in full; of a chunk
    held by a local variable it reads the state and the size class only. *)
Definition in_footprint (h : Heap) (G : Ghost) (live : list (Z * Z)) (x : Z) : Prop :=
  (exists c, x ∈ g_free G c ++ t_free G c) \/
  x ∈ g_quar G ++ t_quar G \/
  (exists p n, (p, n) ∈ live /\ (x = PtrToChunk cfg h p \/ x = p - REDZONE)).

Definition mmap_size_of (s : Z) : Z :=
  if s <? kPageSize cfg then Z.max s (kMinMmapSize cfg)
  else Z.max s (kMinMmapSize cfg) + kPageSize cfg.

(** The trace of an allocation that failed because [mmap] did. *)
Definition oom_trace (w : World) : Prop :=
  exists evs size tid,
    trace w = evs ++ [EvMmap size (MAP_FAILED cfg);
                      EvPrintf "ERROR: AddressSanitizer failed to allocate 0x%lx (%lu) bytes (%s) in T%d"
                        [size; size; tid];
                      EvPrintCurrentStack].

(** The same failure without a current thread: the message reads the tid
    through a null pointer, and the trace ends with the failed [mmap]. *)
Definition oom_fault (w : World) : Prop :=
  tl_current_thread w = None /\
  exists evs size, trace w = evs ++ [EvMmap size (MAP_FAILED cfg)].

(** How an allocation may abort when its arguments are fine: out of
    memory, the registry of page groups is full, or the statistics code
    trips. *)
Definition alloc_abort (c : AbortCause) (w' : World) : Prop :=
  (c = AbortCalled /\ oom_trace w') \/
  (c = MemoryFault /\ oom_fault w') \/
  (c = CheckFailed /\
   (page_groups_capacity cfg < n_page_groups_ (malloc_info w') \/
    __asan_flag_stats cfg <> 0)).

(** A request whose size arithmetic does not overflow the machine word. *)
Definition sane (alignment size : Z) : Prop :=
  0 <= size /\ 0 <= alignment /\ size + alignment + 2 * REDZONE < 2 ^ WORDSIZE.

(** The alignment of a request, when it takes room in the chunk. *)
Definition align_room (alignment : Z) : Z :=
  if alignment >? REDZONE then alignment else 0.

(** No chunk is held by a local variable: the invariant between operations. *)
Definition at_rest (G : Ghost) : Prop := forall c, l_free G c = [].

Definition clear_local (G : Ghost) : Ghost :=
  mkGhost (fun _ => []) (g_free G) (t_free G) (g_quar G) (t_quar G).

(** How [Allocate] may abort. *)
Definition Allocate_abort (alignment size : Z) (c : AbortCause) (w' : World) : Prop :=
  alloc_abort c w' \/
  (c = CheckFailed /\
   (IsPowerOfTwo cfg alignment = false \/ 2 ^ 32 <= alignment + REDZONE)) \/
  ((c = AbortCalled \/ c = MemoryFault) /\
   kMaxAllowedMallocSize cfg - REDZONE <
     (if size =? 0 then 1 else size) + align_room alignment).

(** The invariant without the shape of the two quarantine lists: what
    holds while a quarantine list is being relinked. *)
Record wf_core (h : Heap) (mi : MallocInfo)
  (ms : option AsanThreadLocalMallocStorage) (maps : list (Z * Z))
  (G : Ghost) (live : list (Z * Z)) : Prop := {
  core_registry : registry_ok mi maps;
  core_gfree : forall c, lseg h (free_lists_ mi c) (g_free G c);
  core_tfree : forall c,
    match ms with
    | Some x => lseg h (tl_free_lists_ x c) (t_free G c)
    | None => t_free G c = []
    end;
  core_free_cells : forall c a, a ∈ l_free G c ++ g_free G c ++ t_free G c ->
    chunk_state (hdr h a) = CHUNK_AVAILABLE /\ chunk_ok h mi a c;
  core_free_nodup : forall c, NoDup (l_free G c ++ g_free G c ++ t_free G c);
  core_quar_cells : forall a, a ∈ g_quar G ++ t_quar G ->
    chunk_state (hdr h a) = CHUNK_QUARANTINE /\
    chunk_ok h mi a (size_class (hdr h a));
  core_quar_nodup : NoDup (g_quar G ++ t_quar G);
  core_live : forall p n, (p, n) ∈ live -> live_ok h mi p n;
  core_live_nodup : NoDup (map (fun x => PtrToChunk cfg h (fst x)) live)
}.

(** The memory of [w'] is that of [w] but for the heap. *)
Definition same_but_heap (w w' : World) : Prop :=
  malloc_info w' = malloc_info w /\
  tl_current_thread w' = tl_current_thread w /\
  mappings w' = mappings w.

(** Each chunk of [released] left the quarantine while the quarantine,
    that chunk at its head, retained more than the budget; [kept] are the
    chunks that stay. *)
Definition released_over_budget (h : Heap) (released kept : list Z) : Prop :=
  forall L1 a L2, released = L1 ++ a :: L2 ->
    __asan_flag_quarantine_size cfg < wrap cfg (total_bytes h (a :: L2 ++ kept)).

Definition same_states (w w' : World) : Prop :=
  forall y, chunk_state (hdr (heap w') y) = chunk_state (hdr (heap w) y).

(** [step w live w' live']: one call of the interface from the state [w]
    with the live pointers [live] (each with the size that was asked for)
    returns and leaves [w'] and [live'].  Requests are sane, and only live
    pointers or null are freed or reallocated. *)
Inductive step : World -> list (Z * Z) -> World -> list (Z * Z) -> Prop :=
| step_malloc w live size stk p w' :
    sane 0 size ->
    __asan_malloc cfg size (Some stk) w = Ret p w' ->
    step w live w' ((p, size) :: live)
| step_calloc w live nmemb size stk p w' :
    sane 0 (wrap cfg (nmemb * size)) ->
    __asan_calloc cfg nmemb size (Some stk) w = Ret p w' ->
    step w live w' ((p, wrap cfg (nmemb * size)) :: live)
| step_memalign w live alignment size stk p w' :
    sane alignment size ->
    __asan_memalign cfg alignment size (Some stk) w = Ret p w' ->
    step w live w' ((p, size) :: live)
| step_valloc w live size stk p w' :
    sane (kPageSize cfg) size ->
    __asan_valloc cfg size (Some stk) w = Ret p w' ->
    step w live w' ((p, size) :: live)
| step_pvalloc w live size stk p w' :
    0 <= size -> sane (kPageSize cfg) (size + kPageSize cfg) ->
    __asan_pvalloc cfg size (Some stk) w = Ret p w' ->
    step w live w' ((p, size) :: live)
| step_posix_memalign w live alignment size stk r p w' :
    sane alignment size ->
    __asan_posix_memalign cfg alignment size (Some stk) w = Ret (r, p) w' ->
    step w live w' ((p, size) :: live)
| step_realloc_null w live size stk p w' :
    sane 0 size ->
    __asan_realloc cfg 0 size (Some stk) w = Ret p w' ->
    step w live w' ((p, size) :: live)
| step_realloc_zero w live old stk p w' :
    old <> 0 ->
    __asan_realloc cfg old 0 (Some stk) w = Ret p w' ->
    step w live w' live
| step_realloc w live1 old n live2 size stk p w' :
    size <> 0 -> sane 0 size ->
    __asan_realloc cfg old size (Some stk) w = Ret p w' ->
    step w (live1 ++ (old, n) :: live2) w' ((p, size) :: live1 ++ live2)
| step_free_null w live stk w' :
    __asan_free cfg 0 stk w = Ret tt w' ->
    step w live w' live
| step_free w live1 p n live2 stk w' :
    __asan_free cfg p (Some stk) w = Ret tt w' ->
    step w (live1 ++ (p, n) :: live2) w' (live1 ++ live2).

(** The states a client can reach from the start of the process, with or
    without a current thread record. *)
Inductive run : World -> list (Z * Z) -> Prop :=
| run_init tid : run (init_world (option_map init_thread tid)) []
| run_step w live w' live' : run w live -> step w live w' live' -> run w' live'.

Definition no_chunks : Ghost :=
  mkGhost (fun _ => []) (fun _ => []) (fun _ => []) [] [].

(** What an allocation leaves: the invariant with the new pointer, and the
    facts about the new chunk. *)
Definition allocated (alignment size : Z) (live : list (Z * Z)) (p : Z) (w' : World)
  : Prop :=
  (exists G', wf w' G' ((p, size) :: live) /\ at_rest G') /\
  (REDZONE < alignment ->
     chunk_state (hdr (heap w') (p - REDZONE)) = CHUNK_MEMALIGN /\
     p mod alignment = 0) /\
  (alignment <= REDZONE -> PtrToChunk cfg (heap w') p = p - REDZONE) /\
  used_size (hdr (heap w') (PtrToChunk cfg (heap w') p)) =
    (if size =? 0 then 1 else size).

End Vocabulary.

(** ** Updates of the ghost state and of the records *)

(** Ghost updates. *)
Definition set_l_free (G : Ghost) (c : Z) (v : list Z) : Ghost :=
  mkGhost (upd (l_free G) c v) (g_free G) (t_free G) (g_quar G) (t_quar G).

Definition set_g_free (G : Ghost) (c : Z) (v : list Z) : Ghost :=
  mkGhost (l_free G) (upd (g_free G) c v) (t_free G) (g_quar G) (t_quar G).

Definition set_t_free (G : Ghost) (c : Z) (v : list Z) : Ghost :=
  mkGhost (l_free G) (g_free G) (upd (t_free G) c v) (g_quar G) (t_quar G).

Definition set_g_quar (G : Ghost) (v : list Z) : Ghost :=
  mkGhost (l_free G) (g_free G) (t_free G) v (t_quar G).

Definition set_t_quar (G : Ghost) (v : list Z) : Ghost :=
  mkGhost (l_free G) (g_free G) (t_free G) (g_quar G) v.

Definition set_free_lists_ (mi : MallocInfo) (c v : Z) : MallocInfo :=
  mkMallocInfo (upd (free_lists_ mi) c v) (quarantine_ mi) (page_groups_ mi)
    (n_page_groups_ mi).

Definition set_quarantine_ (mi : MallocInfo) (q : AsanChunkFifoList) : MallocInfo :=
  mkMallocInfo (free_lists_ mi) q (page_groups_ mi) (n_page_groups_ mi).

Definition set_tl_free_lists_ (x : AsanThreadLocalMallocStorage) (c v : Z)
  : AsanThreadLocalMallocStorage :=
  mkStorage (tl_quarantine_ x) (upd (tl_free_lists_ x) c v).

Definition set_tl_quarantine_ (x : AsanThreadLocalMallocStorage)
  (q : AsanChunkFifoList) : AsanThreadLocalMallocStorage :=
  mkStorage q (tl_free_lists_ x).

(** The chunks carved out of a mapping, the last one first. *)
Fixpoint carved (mem s : Z) (n : nat) : list Z :=
  match n with
  | O => []
  | S n' => (mem + Z.of_nat n' * s) :: carved mem s n'
  end.

(** ** Concrete scenarios *)

Definition result_world {A : Type} (o : Outcome A) (w0 : World) : World :=
  match o with Ret _ w => w | _ => w0 end.

Definition result_value {A : Type} (o : Outcome A) (d : A) : A :=
  match o with Ret a _ => a | _ => d end.

Definition set_quarantine_size (c : Config) (q : Z) : Config :=
  mkConfig (__WORDSIZE c) (__asan_flag_redzone c) q (__asan_flag_stats c)
    (__asan_flag_debug c) (__asan_flag_v c) (kPageSize c) (kNumberOfSizeClasses c)
    (SHADOW_GRANULARITY c) (MemToShadow c) (kAsanHeapLeftRedzoneMagic c)
    (kAsanHeapRightRedzoneMagic c) (kAsanHeapFreeMagic c)
    (kAsanStackAfterReturnMagic c) (kInvalidTid c) (kMinStackFrameSizeLog c)
    (kFakeStackNumberOfSizeClasses c) (kMaxStackMallocSize c) (os_mmap c).


(** The default configuration with a quarantine budget of 1 KB. *)
Definition small_quarantine : Config := set_quarantine_size linux64 (2 ^ 10).

(** One thread mallocs two blocks of 64 KB less two redzones, then frees
    both: they wait in the thread-local quarantine. *)
Definition two_freed_1 : Outcome Z :=
  __asan_malloc small_quarantine (2 ^ 16 - 256) (Some [])
    (init_world (Some (init_thread 0))).

Definition two_freed_2 : Outcome Z :=
  __asan_malloc small_quarantine (2 ^ 16 - 256) (Some [])
    (result_world two_freed_1 (init_world None)).

Definition two_freed_3 : Outcome unit :=
  __asan_free small_quarantine (result_value two_freed_1 0) (Some [])
    (result_world two_freed_2 (init_world None)).

Definition two_freed_4 : Outcome unit :=
  __asan_free small_quarantine (result_value two_freed_2 0) (Some [])
    (result_world two_freed_3 (init_world None)).

Definition two_freed : World := result_world two_freed_4 (init_world None).

Definition two_freed_storage : AsanThreadLocalMallocStorage :=
  match tl_current_thread two_freed with
  | Some t => malloc_storage_ t
  | None => init_storage
  end.

Definition two_freed_chunk_1 : Z := result_value two_freed_1 0 - 128.

Definition two_freed_chunk_2 : Z := result_value two_freed_2 0 - 128.

(** The state after the thread-local quarantine was appended to the global
    one, as [SwallowThreadLocalMallocStorage] does before its loop. *)
Definition two_freed_pushed : World :=
  result_world
    ((r <- AsanChunkFifoList_PushList small_quarantine
             (quarantine_ (malloc_info two_freed)) (tl_quarantine_ two_freed_storage);;
      set_quarantine (fst r)) two_freed)
    two_freed.

(** One block of 4 MB less two redzones, without a thread record. *)
Definition one_block : Outcome Z :=
  __asan_malloc linux64 (2 ^ 22 - 256) (Some []) (init_world None).

Definition one_block_freed : Outcome unit :=
  __asan_free linux64 (result_value one_block 0) (Some [])
    (result_world one_block (init_world None)).

Definition one_aligned : Outcome Z :=
  __asan_memalign linux64 (2 ^ 22) 100 (Some []) (init_world None).

Definition one_calloc : Outcome Z :=
  __asan_calloc linux64 1000 4000 (Some []) (init_world None).





Definition two_freed_swallowed : Outcome AsanThreadLocalMallocStorage :=
  SwallowThreadLocalMallocStorage small_quarantine 0 two_freed_storage false two_freed.

Definition one_block_world : World := result_world one_block (init_world None).

Definition one_block_ptr : Z := result_value one_block 0.

Definition one_block_freed_world : World :=
  result_world one_block_freed (init_world None).

Definition one_aligned_world : World := result_world one_aligned (init_world None).

Definition one_aligned_ptr : Z := result_value one_aligned 0.

Definition one_calloc_world : World := result_world one_calloc (init_world None).

Definition one_calloc_ptr : Z := result_value one_calloc 0.

(** ** What an operation does to the states of the chunks *)

(** The state of the chunk at [y] is kept, or the chunk went from the
    quarantine back to the available ones. *)
Definition kept_or_released (w w' : World) (y : Z) : Prop :=
  chunk_state (hdr (heap w') y) = chunk_state (hdr (heap w) y) \/
  (chunk_state (hdr (heap w) y) = CHUNK_QUARANTINE /\
   chunk_state (hdr (heap w') y) = CHUNK_AVAILABLE).

Definition only_releases (w w' : World) : Prop :=
  forall y, kept_or_released w w' y.

(** ** The FIFOs of the fake stack *)

(** The frames of [cells] are linked through their [next] words. *)
Fixpoint fchain (nx : Z -> Z) (cells : list Z) : Prop :=
  match cells with
  | [] => True
  | x :: r => x <> 0 /\ match r with [] => True | y :: _ => nx x = y end /\ fchain nx r
  end.

(** [l] is the FIFO of the frames [cells], the oldest first. *)
Definition FifoList_ok (nx : Z -> Z) (l : FifoList) (cells : list Z) : Prop :=
  NoDup cells /\ fchain nx cells /\
  fifo_first l = List.hd 0 cells /\ fifo_last l = List.last cells 0.

(** ** The registry of threads of asan_thread.cc *)

(** Every registered thread has a tid up to [n_threads_], and the object
    that its entry points to carries that tid. *)
Definition registry_wf (r : asan_thread.Registry) : Prop :=
  0 <= asan_thread.n_threads_ r /\
  forall t, asan_thread.threads r t <> 0 ->
    0 <= t <= asan_thread.n_threads_ r /\
    asan_thread.tid_ (asan_thread.objects r (asan_thread.threads r t)) = t.

(** ** More concrete scenarios *)

(** The block of [one_block], resized to 2 MB. *)
Definition one_block_realloc : Outcome Z :=
  __asan_realloc linux64 one_block_ptr (2 ^ 21) (Some []) one_block_world.

Definition one_block_realloc_world : World :=
  result_world one_block_realloc (init_world None).

Definition one_block_realloc_ptr : Z := result_value one_block_realloc 0.

(** 5000 bytes from [__asan_pvalloc], without a thread record. *)
Definition one_pvalloc : Outcome Z :=
  __asan_pvalloc linux64 5000 (Some []) (init_world None).

Definition one_pvalloc_world : World := result_world one_pvalloc (init_world None).

Definition one_pvalloc_ptr : Z := result_value one_pvalloc 0.

(** The two blocks of [two_freed] while both are live, and after the first
    one was freed. *)
Definition two_live_world : World := result_world two_freed_2 (init_world None).

Definition two_live_thread : AsanThread :=
  match tl_current_thread two_live_world with
  | Some t => t
  | None => init_thread 0
  end.

Definition two_live_ptr_1 : Z := result_value two_freed_1 0.

Definition two_live_ptr_2 : Z := result_value two_freed_2 0.

Definition one_of_two_freed_world : World :=
  result_world two_freed_3 (init_world None).

(** The chunk of the address 10 bytes into the block of [one_block]. *)
Definition one_block_blame : Outcome Z :=
  FindChunkByAddr linux64 (one_block_ptr + 10) one_block_world.

(** A FIFO of fake-stack frames that holds the frame at 4096. *)
Definition one_frame : Outcome FifoList :=
  FifoPush (mkFifoList 0 0) 4096 (init_world None).

Definition one_frame_world : World := result_world one_frame (init_world None).

Definition one_frame_list : FifoList := result_value one_frame (mkFifoList 0 0).

(** A ring buffer of 4096 bytes at 65536 with 96 bytes left, and a memory
    of zeros. *)
Definition ring : asan_thread.AsanFakeStack :=
  asan_thread.mkFakeStack 4096 4000 65536.

Definition no_memory : asan_thread.Memory := fun _ => 0.

(** The addresses of the buffer of a fake stack. *)
Definition in_buffer (s : asan_thread.AsanFakeStack) (a : Z) : bool :=
  (asan_thread.buffer_ s <=? a) &&
  (a <? asan_thread.buffer_ s + asan_thread.size_ s).

(** The registry before any thread was constructed. *)
Definition no_threads : asan_thread.Registry :=
  asan_thread.mkRegistry (fun _ => 0) 0
    (fun _ => asan_thread.mkThread 0 0 false).

(** * Properties *)

Section Arith.
Variable cfg : Config.
Local Abbreviation REDZONE := (__asan_flag_redzone cfg).
Local Abbreviation WORDSIZE := (__WORDSIZE cfg).

Lemma wrap_small x : 0 <= x < 2 ^ WORDSIZE -> wrap cfg x = x.
Proof. intros. unfold wrap. apply Z.mod_small. lia. Qed.

Lemma land_pred_pow2 a k : 0 <= k -> Z.land a (2 ^ k - 1) = a mod 2 ^ k.
Proof.
  intros Hk. rewrite <- Z.land_ones by lia. f_equal.
  rewrite Z.ones_equiv. lia.
Qed.

Lemma pow2_lt_word k : 0 <= k < WORDSIZE -> 0 < 2 ^ k < 2 ^ WORDSIZE.
Proof.
  intros. split; [apply Z.pow_pos_nonneg; lia|].
  apply Z.pow_lt_mono_r; lia.
Qed.

Lemma IsPowerOfTwo_pow2 k : 0 <= k < WORDSIZE -> IsPowerOfTwo cfg (2 ^ k) = true.
Proof.
  intros Hk. unfold IsPowerOfTwo.
  pose proof (pow2_lt_word k Hk).
  rewrite wrap_small by lia.
  rewrite land_pred_pow2 by lia.
  rewrite Z.mod_same by lia. reflexivity.
Qed.

Lemma IsPowerOfTwo_0 : 0 < WORDSIZE -> IsPowerOfTwo cfg 0 = true.
Proof. intros. unfold IsPowerOfTwo. reflexivity. Qed.

Lemma IsPowerOfTwo_inv x :
  0 < x < 2 ^ WORDSIZE -> IsPowerOfTwo cfg x = true -> x = 2 ^ Z.log2 x.
Proof.
  intros Hx H. unfold IsPowerOfTwo in H.
  rewrite wrap_small in H by lia.
  apply Z.eqb_eq in H.
  destruct (Z.log2_spec x) as [Hlo Hhi]; [lia|].
  destruct (Z.eq_dec x (2 ^ Z.log2 x)) as [|Hne]; [assumption|exfalso].
  assert (0 < 2 ^ Z.log2 x) by (apply Z.pow_pos_nonneg; [lia|apply Z.log2_nonneg]).
  assert (Hl : Z.log2 (x - 1) = Z.log2 x).
  { apply Z.log2_unique; [apply Z.log2_nonneg|]. lia. }
  assert (Hb : Z.testbit (Z.land x (x - 1)) (Z.log2 x) = true).
  { rewrite Z.land_spec. rewrite Z.bit_log2 by lia.
    rewrite <- Hl. rewrite Z.bit_log2 by lia. reflexivity. }
  rewrite H in Hb. rewrite Z.bits_0 in Hb. discriminate.
Qed.

Lemma IsPowerOfTwo_false x :
  0 < x < 2 ^ WORDSIZE -> IsPowerOfTwo cfg x = false ->
  2 ^ Z.log2 x < x < 2 ^ (Z.log2 x + 1).
Proof.
  intros Hx H.
  destruct (Z.log2_spec x) as [Hlo Hhi]; [lia|].
  replace (Z.succ (Z.log2 x)) with (Z.log2 x + 1) in Hhi by lia.
  split; [|lia].
  destruct (Z.eq_dec x (2 ^ Z.log2 x)) as [He|]; [|lia].
  assert (Z.log2 x < WORDSIZE).
  { apply Z.log2_lt_pow2; lia. }
  rewrite He, IsPowerOfTwo_pow2 in H; [discriminate|].
  split; [apply Z.log2_nonneg|lia].
Qed.

Lemma ctz_pow2_nat (n : nat) :
  exists p, 2 ^ Z.of_nat n = Zpos p /\ ctz_pos p = Z.of_nat n.
Proof.
  induction n as [|n [p [Hp Hc]]].
  - exists 1%positive. split; reflexivity.
  - exists (xO p). split.
    + rewrite Nat2Z.inj_succ, Z.pow_succ_r by lia. rewrite Hp. reflexivity.
    + simpl ctz_pos. rewrite Hc. lia.
Qed.

Lemma ctzl_pow2 k : 0 <= k -> __builtin_ctzl (2 ^ k) = k.
Proof.
  intros Hk. destruct (ctz_pow2_nat (Z.to_nat k)) as [p [Hp Hc]].
  rewrite Z2Nat.id in Hp, Hc by lia. rewrite Hp. simpl. exact Hc.
Qed.

Lemma Log2_pow2 k : 0 <= k < WORDSIZE -> Log2 cfg (2 ^ k) = Some k.
Proof.
  intros Hk. unfold Log2. rewrite IsPowerOfTwo_pow2 by lia.
  rewrite ctzl_pow2 by lia. reflexivity.
Qed.

Lemma IsAligned_pow2 a k :
  0 <= k < WORDSIZE -> IsAligned cfg a (2 ^ k) = (a mod 2 ^ k =? 0).
Proof.
  intros Hk. unfold IsAligned.
  pose proof (pow2_lt_word k Hk).
  rewrite wrap_small by lia. rewrite land_pred_pow2 by lia. reflexivity.
Qed.

Lemma wnot_lnot y :
  0 < WORDSIZE -> 0 <= y < 2 ^ WORDSIZE ->
  wnot cfg y = Z.land (Z.lnot y) (Z.ones WORDSIZE).
Proof.
  intros Hw Hy. rewrite Z.land_ones by lia. unfold wnot, Z.lnot.
  apply Z.mod_unique with (q := -1); lia.
Qed.

Lemma land_wnot_pred_pow2 x k :
  0 <= k < WORDSIZE -> 0 <= x < 2 ^ WORDSIZE ->
  Z.land x (wnot cfg (2 ^ k - 1)) = x - x mod 2 ^ k.
Proof.
  intros Hk Hx. pose proof (pow2_lt_word k Hk).
  rewrite wnot_lnot by lia.
  rewrite Z.land_assoc, (Z.land_comm x), <- Z.land_assoc.
  rewrite (Z.land_ones x) by lia. rewrite (Z.mod_small x) by lia.
  rewrite Z.land_comm, <- Z.ldiff_land.
  replace (2 ^ k - 1) with (Z.ones k) by (rewrite Z.ones_equiv; lia).
  rewrite Z.ldiff_ones_r by lia.
  rewrite Z.shiftr_div_pow2, Z.shiftl_mul_pow2 by lia.
  pose proof (Z.div_mod x (2 ^ k)). lia.
Qed.

Lemma RoundUpTo_pow2 size k :
  0 <= k < WORDSIZE ->
  RoundUpTo cfg size (2 ^ k) =
    Some (wrap cfg (size + 2 ^ k - 1) - wrap cfg (size + 2 ^ k - 1) mod 2 ^ k).
Proof.
  intros Hk. unfold RoundUpTo. rewrite IsPowerOfTwo_pow2 by lia.
  pose proof (pow2_lt_word k Hk).
  rewrite (wrap_small (2 ^ k - 1)) by lia.
  rewrite land_wnot_pred_pow2; [reflexivity|lia|].
  unfold wrap. apply Z.mod_pos_bound. lia.
Qed.

(** Rounding up without overflow. *)
Lemma RoundUpTo_small size k :
  0 <= k < WORDSIZE -> 0 <= size -> size + 2 ^ k - 1 < 2 ^ WORDSIZE ->
  exists r, RoundUpTo cfg size (2 ^ k) = Some r /\
            size <= r < size + 2 ^ k /\ r mod 2 ^ k = 0.
Proof.
  intros Hk Hs Hlt. pose proof (pow2_lt_word k Hk).
  rewrite RoundUpTo_pow2 by lia. rewrite wrap_small by lia.
  eexists. split; [reflexivity|].
  pose proof (Z.mod_pos_bound (size + 2 ^ k - 1) (2 ^ k)).
  split; [lia|].
  rewrite Zminus_mod_idemp_r. rewrite Z.sub_diag. apply Z.mod_0_l. lia.
Qed.

End Arith.

Section SizeClasses.
Variable cfg : Config.
Local Abbreviation REDZONE := (__asan_flag_redzone cfg).
Local Abbreviation WORDSIZE := (__WORDSIZE cfg).

Lemma word_ok_bounds : word_ok cfg -> 32 <= WORDSIZE /\ 2 ^ 32 <= 2 ^ WORDSIZE.
Proof. intros [H|H]; rewrite H; split; lia. Qed.

Lemma step_value : word_ok cfg -> kMallocSizeClassStep cfg = 2 ^ 26.
Proof.
  intros Hw. destruct (word_ok_bounds Hw).
  unfold kMallocSizeClassStep, kMallocSizeClassStepLog.
  rewrite Z.shiftl_1_l. apply wrap_small. lia.
Qed.

Lemma kMax_value :
  word_ok cfg ->
  kMaxAllowedMallocSize cfg = (if WORDSIZE =? 32 then 3 * 2 ^ 30 else 8 * 2 ^ 30).
Proof.
  intros [H|H]; unfold kMaxAllowedMallocSize, wrap; rewrite H; reflexivity.
Qed.

Lemma kMax_bounds :
  word_ok cfg ->
  2 ^ 26 < kMaxAllowedMallocSize cfg /\
  kMaxAllowedMallocSize cfg + 2 ^ 26 < 2 ^ WORDSIZE /\
  kMaxAllowedMallocSize cfg mod 2 ^ 26 = 0.
Proof.
  intros Hw. rewrite kMax_value by assumption.
  destruct Hw as [H|H]; rewrite H; simpl; repeat split; lia.
Qed.

Lemma SizeClassToSize_small c :
  word_ok cfg -> 0 <= c <= 26 -> c < kNumberOfSizeClasses cfg ->
  SizeClassToSize cfg c = Some (2 ^ c).
Proof.
  intros Hw Hc Hn. destruct (word_ok_bounds Hw).
  unfold SizeClassToSize, kMallocSizeClassStepLog.
  replace (c <? kNumberOfSizeClasses cfg) with true by (symmetry; apply Z.ltb_lt; lia).
  replace (c <=? 26) with true by (symmetry; apply Z.leb_le; lia).
  simpl. rewrite Z.shiftl_1_l. rewrite wrap_small; [reflexivity|].
  split; [apply Z.pow_nonneg; lia|].
  apply Z.pow_lt_mono_r; lia.
Qed.

Lemma SizeClassToSize_large c :
  word_ok cfg -> 26 < c < kNumberOfSizeClasses cfg ->
  (c - 26) * 2 ^ 26 < 2 ^ WORDSIZE ->
  SizeClassToSize cfg c = Some ((c - 26) * 2 ^ 26).
Proof.
  intros Hw Hc Hlt.
  unfold SizeClassToSize. rewrite step_value by assumption.
  unfold kMallocSizeClassStepLog.
  replace (c <? kNumberOfSizeClasses cfg) with true by (symmetry; apply Z.ltb_lt; lia).
  replace (c <=? 26) with false by (symmetry; apply Z.leb_gt; lia).
  simpl. rewrite wrap_small; [reflexivity|lia].
Qed.

Lemma RoundUpToPowerOfTwo_spec size :
  word_ok cfg -> 1 <= size <= 2 ^ 26 ->
  RoundUpToPowerOfTwo cfg size = Some (2 ^ Z.log2_up size) /\
  0 <= Z.log2_up size <= 26 /\ size <= 2 ^ Z.log2_up size.
Proof.
  intros Hw Hs. destruct (word_ok_bounds Hw) as [Hw32 Hp32].
  assert (Hlt : 0 < size < 2 ^ WORDSIZE) by lia.
  assert (Hup26 : Z.log2_up size <= 26).
  { change 26 with (Z.log2_up (2 ^ 26)). apply Z.log2_up_le_mono. lia. }
  pose proof (Z.log2_up_nonneg size) as Hup0.
  unfold RoundUpToPowerOfTwo.
  replace (size =? 0) with false by (symmetry; apply Z.eqb_neq; lia).
  destruct (IsPowerOfTwo cfg size) eqn:Hp.
  - apply IsPowerOfTwo_inv in Hp; [|assumption].
    assert (Heq : Z.log2_up size = Z.log2 size).
    { rewrite Hp at 1. apply Z.log2_up_pow2. apply Z.log2_nonneg. }
    rewrite Heq in *. rewrite <- Hp. repeat split; lia.
  - apply IsPowerOfTwo_false in Hp; [|assumption].
    pose proof (Z.log2_nonneg size) as Hl0.
    assert (Hup : Z.log2_up size = Z.log2 size + 1).
    { apply Z.log2_up_unique; [lia|].
      replace (Z.pred (Z.log2 size + 1)) with (Z.log2 size) by lia. lia. }
    unfold __builtin_clzl.
    replace (WORDSIZE - (WORDSIZE - 1 - Z.log2 size)) with (Z.log2 size + 1) by lia.
    replace (Z.log2 size + 1 - 1) with (Z.log2 size) by lia.
    rewrite !Z.shiftl_1_l.
    assert (Hb : 2 ^ (Z.log2 size + 1) <= 2 ^ 26).
    { apply Z.pow_le_mono_r; lia. }
    assert (0 < 2 ^ Z.log2 size) by (apply Z.pow_pos_nonneg; lia).
    rewrite !Z.mod_small by lia.
    replace (size <? 2 ^ (Z.log2 size + 1)) with true by (symmetry; apply Z.ltb_lt; lia).
    replace (size >? 2 ^ Z.log2 size) with true by (symmetry; apply Z.gtb_lt; lia).
    simpl. rewrite wrap_small by lia. rewrite Hup. repeat split; lia.
Qed.

Lemma class_count_bound :
  word_ok cfg ->
  kMaxAllowedMallocSize cfg / kMallocSizeClassStep cfg + kMallocSizeClassStepLog
    < kNumberOfSizeClasses cfg ->
  2 <= kMaxAllowedMallocSize cfg / 2 ^ 26 <= 128 /\
  kMaxAllowedMallocSize cfg / 2 ^ 26 + 26 < kNumberOfSizeClasses cfg.
Proof.
  intros Hw Hn.
  rewrite step_value in Hn by assumption. unfold kMallocSizeClassStepLog in Hn.
  split; [|exact Hn].
  rewrite kMax_value by assumption.
  destruct (WORDSIZE =? 32); [change (3 * 2 ^ 30 / 2 ^ 26) with 48
                             |change (8 * 2 ^ 30 / 2 ^ 26) with 128]; lia.
Qed.

(** Sizes up to the step: the class is the exponent of the next power of two. *)
Lemma SizeToSizeClass_small size :
  word_ok cfg ->
  kMaxAllowedMallocSize cfg / kMallocSizeClassStep cfg + kMallocSizeClassStepLog
    < kNumberOfSizeClasses cfg ->
  1 <= size <= 2 ^ 26 ->
  SizeToSizeClass cfg size = Some (Z.log2_up size) /\
  exists s, SizeClassToSize cfg (Z.log2_up size) = Some s /\ size <= s.
Proof.
  intros Hw Hn Hs.
  destruct (word_ok_bounds Hw) as [Hw32 Hp32].
  destruct (class_count_bound Hw Hn) as (Hq & Hn').
  unfold SizeToSizeClass. rewrite step_value by assumption.
  unfold kMallocSizeClassStepLog.
  replace (size <=? 2 ^ 26) with true by (symmetry; apply Z.leb_le; lia).
  destruct (RoundUpToPowerOfTwo_spec size Hw) as (-> & Hup & Hsz); [lia|].
  rewrite Log2_pow2 by lia.
  rewrite Z.mod_small by lia.
  replace (Z.log2_up size <? kNumberOfSizeClasses cfg) with true
    by (symmetry; apply Z.ltb_lt; lia).
  rewrite SizeClassToSize_small by (try assumption; lia).
  simpl. replace (size <=? 2 ^ Z.log2_up size) with true
    by (symmetry; apply Z.leb_le; lia).
  split; [reflexivity|]. eexists. split; [reflexivity|lia].
Qed.

(** Sizes above the step: the class counts the steps. *)
Lemma SizeToSizeClass_large size :
  word_ok cfg ->
  kMaxAllowedMallocSize cfg / kMallocSizeClassStep cfg + kMallocSizeClassStepLog
    < kNumberOfSizeClasses cfg ->
  2 ^ 26 < size <= kMaxAllowedMallocSize cfg ->
  SizeToSizeClass cfg size = Some ((size + 2 ^ 26 - 1) / 2 ^ 26 + 26) /\
  exists s, SizeClassToSize cfg ((size + 2 ^ 26 - 1) / 2 ^ 26 + 26) = Some s /\
            size <= s.
Proof.
  intros Hw Hn Hs.
  destruct (word_ok_bounds Hw) as [Hw32 Hp32].
  destruct (kMax_bounds Hw) as (Hk1 & Hk2 & Hk3).
  destruct (class_count_bound Hw Hn) as (Hq & Hn').
  unfold SizeToSizeClass. rewrite step_value by assumption.
  unfold kMallocSizeClassStepLog.
  replace (size <=? 2 ^ 26) with false by (symmetry; apply Z.leb_gt; lia).
  set (q := (size + 2 ^ 26 - 1) / 2 ^ 26).
  assert (Hq2 : 2 <= q <= kMaxAllowedMallocSize cfg / 2 ^ 26).
  { unfold q. split.
    - apply Z.div_le_lower_bound; lia.
    - apply Z.lt_succ_r. apply Z.div_lt_upper_bound; [lia|].
      pose proof (Z.div_mod (kMaxAllowedMallocSize cfg) (2 ^ 26)). lia. }
  assert (Hqs : size <= q * 2 ^ 26 < size + 2 ^ 26).
  { unfold q. pose proof (Z.div_mod (size + 2 ^ 26 - 1) (2 ^ 26)).
    pose proof (Z.mod_pos_bound (size + 2 ^ 26 - 1) (2 ^ 26)). lia. }
  rewrite (wrap_small cfg (size + 2 ^ 26 - 1)) by lia. fold q.
  rewrite (wrap_small cfg (q + 26)) by lia.
  rewrite Z.mod_small by lia.
  replace (q + 26 <? kNumberOfSizeClasses cfg) with true
    by (symmetry; apply Z.ltb_lt; lia).
  rewrite SizeClassToSize_large by (try assumption; lia).
  simpl. replace (q + 26 - 26) with q by lia.
  replace (size <=? q * 2 ^ 26) with true by (symmetry; apply Z.leb_le; lia).
  split; [reflexivity|]. eexists. split; [reflexivity|lia].
Qed.

(** Every size an allocation may need has a class that holds it. *)
Lemma SizeToSizeClass_fits size :
  word_ok cfg ->
  kMaxAllowedMallocSize cfg / kMallocSizeClassStep cfg + kMallocSizeClassStepLog
    < kNumberOfSizeClasses cfg ->
  1 <= size <= kMaxAllowedMallocSize cfg ->
  exists sc s, SizeToSizeClass cfg size = Some sc /\
               SizeClassToSize cfg sc = Some s /\ size <= s.
Proof.
  intros Hw Hn Hs.
  destruct (Z_le_gt_dec size (2 ^ 26)) as [Hle|Hgt].
  - destruct (SizeToSizeClass_small size Hw Hn) as (H1 & s & H2 & H3); [lia|].
    exists (Z.log2_up size), s. auto.
  - destruct (SizeToSizeClass_large size Hw Hn) as (H1 & s & H2 & H3); [lia|].
    eexists _, s. eauto.
Qed.

(** C7: for 1 <= size <= kMaxAllowedMallocSize, [SizeToSizeClass size] is
    the ceiling of log2 size when size <= 2^26, and the ceiling of
    size / 2^26, plus 26, otherwise; [SizeClassToSize] of that class is at
    least size. *)
Theorem SizeToSizeClass_spec size :
  word_ok cfg ->
  kMaxAllowedMallocSize cfg / kMallocSizeClassStep cfg + kMallocSizeClassStepLog
    < kNumberOfSizeClasses cfg ->
  1 <= size <= kMaxAllowedMallocSize cfg ->
  let c := if size <=? 2 ^ 26 then Z.log2_up size
           else (size + 2 ^ 26 - 1) / 2 ^ 26 + 26 in
  SizeToSizeClass cfg size = Some c /\
  exists s, SizeClassToSize cfg c = Some s /\ size <= s.
Proof.
  intros Hw Hn Hs c. subst c.
  destruct (Z.leb_spec size (2 ^ 26)) as [Hle|Hgt].
  - apply SizeToSizeClass_small; [assumption|assumption|lia].
  - apply SizeToSizeClass_large; [assumption|assumption|lia].
Qed.

End SizeClasses.

(** ** A weakest-precondition calculus for the monad *)

Section WP.
Context {A B : Type}.
Variable E : AbortCause -> World -> Prop.
Variable D : Prop.

Lemma wp_ret (a : A) (Q : A -> World -> Prop) w : Q a w -> wp E D (ret a) Q w.
Proof. intros H. exact H. Qed.

Lemma wp_bind (m : M A) (k : A -> M B) (Q : B -> World -> Prop) w :
  wp E D m (fun a w' => wp E D (k a) Q w') w -> wp E D (bind m k) Q w.
Proof. unfold wp, bind. destruct (m w); auto. Qed.

Lemma wp_bind_inv (m : M A) (k : A -> M B) (Q : B -> World -> Prop) w :
  wp E D (bind m k) Q w -> wp E D m (fun a w' => wp E D (k a) Q w') w.
Proof. unfold wp, bind. destruct (m w); auto. Qed.

Lemma wp_conseq (m : M A) (Q Q' : A -> World -> Prop) w :
  wp E D m Q w -> (forall a w', Q a w' -> Q' a w') -> wp E D m Q' w.
Proof. unfold wp. destruct (m w); auto. Qed.

Lemma wp_elim (m : M A) (Q : A -> World -> Prop) w a w' :
  wp E D m Q w -> m w = Ret a w' -> Q a w'.
Proof. unfold wp. intros H Hm. rewrite Hm in H. exact H. Qed.

Lemma wp_gets (f : World -> A) (Q : A -> World -> Prop) w :
  Q (f w) w -> wp E D (gets f) Q w.
Proof. intros H. exact H. Qed.

Lemma wp_abort (c : AbortCause) (Q : A -> World -> Prop) w :
  E c w -> wp E D (abort c) Q w.
Proof. intros H. exact H. Qed.

Lemma wp_lift (o : option A) (Q : A -> World -> Prop) w :
  (forall a, o = Some a -> Q a w) -> (o = None -> E CheckFailed w) ->
  wp E D (lift o) Q w.
Proof. destruct o; intros H1 H2; [apply H1|apply H2]; reflexivity. Qed.

End WP.

Section WP2.
Variable E : AbortCause -> World -> Prop.
Variable D : Prop.

Lemma wp_get (Q : World -> World -> Prop) w : Q w w -> wp E D get Q w.
Proof. intros H. exact H. Qed.

Lemma wp_modify (f : World -> World) (Q : unit -> World -> Prop) w :
  Q tt (f w) -> wp E D (modify f) Q w.
Proof. intros H. exact H. Qed.

Lemma wp_CHECK (b : bool) (Q : unit -> World -> Prop) w :
  (b = true -> Q tt w) -> (b = false -> E CheckFailed w) -> wp E D (CHECK b) Q w.
Proof. destruct b; intros H1 H2; [apply H1|apply H2]; reflexivity. Qed.

Lemma wp_emit (e : Event) (Q : unit -> World -> Prop) w :
  Q tt (with_trace w [e]) -> wp E D (emit e) Q w.
Proof. intros H. exact H. Qed.

Lemma wp_write (p : Z) (f : ChunkBase -> ChunkBase) (Q : unit -> World -> Prop) w :
  Q tt (with_heap w (store (heap w) p f)) -> wp E D (write p f) Q w.
Proof. intros H. exact H. Qed.

Lemma wp_read (p : Z) (Q : ChunkBase -> World -> Prop) w :
  Q (hdr (heap w) p) w -> wp E D (read p) Q w.
Proof. intros H. exact H. Qed.

End WP2.

(** For partial correctness the prefix of a computation can be skipped when
    the rest establishes the postcondition from any state. *)
Lemma wp_skip {A B : Type} (m : M A) (k : A -> M B) (Q : B -> World -> Prop) w :
  (forall a w', wp any_abort True (k a) Q w') ->
  wp any_abort True (bind m k) Q w.
Proof. intros H. unfold wp, bind. destruct (m w); try exact I. apply H. Qed.

(** ** Header reads after a write *)

Lemma hdr_store_eq h a f : hdr (store h a f) a = f (hdr h a).
Proof. unfold hdr, store. rewrite lookup_insert_eq. reflexivity. Qed.

Lemma hdr_store_ne h a b f : a <> b -> hdr (store h a f) b = hdr h b.
Proof. intros. unfold hdr, store. rewrite lookup_insert_ne by assumption. reflexivity. Qed.

Lemma hdr_store h a b f :
  hdr (store h a f) b = if decide (a = b) then f (hdr h a) else hdr h b.
Proof.
  destruct (decide (a = b)) as [->|]; [apply hdr_store_eq|now apply hdr_store_ne].
Qed.

Section Lists.

Lemma lseg_frame h h' a cells :
  (forall x, x ∈ cells -> next (hdr h' x) = next (hdr h x)) ->
  lseg h a cells -> lseg h' a cells.
Proof.
  revert a. induction cells as [|x rest IH]; intros a Hn H; simpl in *.
  - exact H.
  - destruct H as (-> & Hx & H). repeat split; try assumption.
    rewrite Hn by (apply elem_of_cons; left; reflexivity).
    apply IH; [|exact H].
    intros y Hy. apply Hn. apply elem_of_cons. right. exact Hy.
Qed.

Lemma lseg_null h cells : lseg h 0 cells -> cells = [].
Proof. destruct cells; simpl; [reflexivity|]. intros (<- & Hx & _). contradiction. Qed.

Lemma lseg_nonnull h a cells :
  a <> 0 -> lseg h a cells ->
  exists rest, cells = a :: rest /\ lseg h (next (hdr h a)) rest.
Proof.
  intros Ha H. destruct cells as [|x rest]; simpl in H; [contradiction|].
  destruct H as (-> & _ & H). exists rest. split; [reflexivity|exact H].
Qed.

Lemma lseg_cells_nonnull h a cells x : lseg h a cells -> x ∈ cells -> x <> 0.
Proof.
  revert a. induction cells as [|y rest IH]; intros a H Hx.
  - inversion Hx.
  - simpl in H. destruct H as (-> & Hy & H).
    apply elem_of_cons in Hx as [->|Hx]; [exact Hy|]. eapply IH; eassumption.
Qed.

(** Appending a cell whose [next] is null to a list whose [next]s are kept. *)
Lemma lseg_snoc h h' a cells n :
  cells <> [] ->
  lseg h a cells ->
  n <> 0 -> n ∉ cells ->
  (forall x, x ∈ cells -> x <> List.last cells 0 -> next (hdr h' x) = next (hdr h x)) ->
  next (hdr h' (List.last cells 0)) = n ->
  next (hdr h' n) = 0 ->
  NoDup cells ->
  lseg h' a (cells ++ [n]).
Proof.
  revert a. induction cells as [|x rest IH]; intros a Hne H Hn Hnin Hkeep Hlast Hnn Hnd.
  - contradiction.
  - simpl in H. destruct H as (-> & Hx & H).
    apply NoDup_cons in Hnd as [Hxr Hnd].
    destruct rest as [|y rest'].
    + simpl in *. repeat split; assumption.
    + simpl app. simpl. split; [reflexivity|]. split; [exact Hx|].
      assert (Hxl : x <> List.last (x :: y :: rest') 0).
      { intros Heq. apply Hxr. rewrite Heq.
        change (List.last (x :: y :: rest') 0) with (List.last (y :: rest') 0).
        clear. generalize y. induction rest' as [|z r IHr]; intros y0.
        - simpl. apply elem_of_cons. left. reflexivity.
        - apply elem_of_cons. right. apply IHr. }
      rewrite Hkeep; [|apply elem_of_cons; left; reflexivity|exact Hxl].
      apply IH; try assumption.
      * discriminate.
      * intros Hin. apply Hnin. apply elem_of_cons. right. exact Hin.
      * intros z Hz Hzl. apply Hkeep; [apply elem_of_cons; right; exact Hz|exact Hzl].
Qed.

Lemma last_elem_of (l : list Z) d : l <> [] -> List.last l d ∈ l.
Proof.
  induction l as [|x r IH]; [contradiction|]. intros _.
  destruct r as [|y r'].
  - simpl. apply elem_of_cons. left. reflexivity.
  - apply elem_of_cons. right. apply IH. discriminate.
Qed.

End Lists.

Lemma mul_index_bounds k n s :
  0 <= k < n -> 0 < s -> 0 <= k * s /\ k * s + s <= n * s.
Proof. intros. nia. Qed.

Lemma mul_index_lt k k' s :
  0 < s -> k * s < k' * s + s -> k' * s < k * s + s -> k = k'.
Proof. intros. nia. Qed.

Lemma mul_index_sep k k' s :
  0 < s -> k <> k' -> k * s + s <= k' * s \/ k' * s + s <= k * s.
Proof. intros. nia. Qed.

Section Geometry.
Variable cfg : Config.
Local Abbreviation REDZONE := (__asan_flag_redzone cfg).
Local Abbreviation WORDSIZE := (__WORDSIZE cfg).

Lemma base_in_group mi maps a s :
  registry_ok cfg mi maps -> is_base cfg mi a s ->
  exists i, 0 <= i < n_page_groups_ mi /\
            size_of_chunk (page_groups_ mi i) = s /\ 0 < s /\
            beg (page_groups_ mi i) <= a /\
            a + s < end_ (page_groups_ mi i) /\
            0 < a /\ a + s < 2 ^ WORDSIZE.
Proof.
  intros (Hn & Hok & Hdis) (i & k & Hi & Hs & Hk & ->).
  specialize (Hok i Hi). destruct Hok as [Hu Hb Hfit Hend _ _].
  rewrite Hs in *. exists i.
  pose proof (mul_index_bounds k (n_chunks_of cfg s) s Hk Hu).
  repeat split; lia.
Qed.

Lemma inside_not_base mi maps a s x s' :
  registry_ok cfg mi maps -> is_base cfg mi a s -> a < x < a + s ->
  ~ is_base cfg mi x s'.
Proof.
  intros (Hn & Hok & Hdis) (i & k & Hi & Hs & Hk & Ha) Hx
    (j & k' & Hj & Hs' & Hk' & Hb).
  pose proof (Hok i Hi) as [Hu Hbg Hfit Hend _ _].
  pose proof (Hok j Hj) as [Hu' Hbg' Hfit' Hend' _ _].
  destruct (Z.eq_dec i j) as [Hij|Hij].
  - subst j. rewrite Hs in *. subst s'.
    assert (k = k') by (apply (mul_index_lt k k' s); lia). subst k'. lia.
  - rewrite Hs, Hs' in *.
    pose proof (mul_index_bounds k _ s Hk Hu).
    pose proof (mul_index_bounds k' _ s' Hk' Hu').
    destruct (Hdis i j Hi Hj Hij); lia.
Qed.

Lemma bases_disjoint mi maps a s a' s' :
  registry_ok cfg mi maps -> is_base cfg mi a s -> is_base cfg mi a' s' ->
  a <> a' -> a + s <= a' \/ a' + s' <= a.
Proof.
  intros (Hn & Hok & Hdis) (i & k & Hi & Hs & Hk & Ha)
    (j & k' & Hj & Hs' & Hk' & Hb) Hne.
  pose proof (Hok i Hi) as [Hu Hbg Hfit Hend _ _].
  pose proof (Hok j Hj) as [Hu' Hbg' Hfit' Hend' _ _].
  destruct (Z.eq_dec i j) as [Hij|Hij].
  - subst j. rewrite Hs in *. subst s'.
    assert (Hkk : k <> k') by (intros ->; apply Hne; lia).
    destruct (mul_index_sep k k' s Hu Hkk); lia.
  - rewrite Hs, Hs' in *.
    pose proof (mul_index_bounds k _ s Hk Hu).
    pose proof (mul_index_bounds k' _ s' Hk' Hu').
    destruct (Hdis i j Hi Hj Hij); lia.
Qed.

Lemma is_base_grow mi mi' a s :
  n_page_groups_ mi <= n_page_groups_ mi' ->
  (forall i, 0 <= i < n_page_groups_ mi -> page_groups_ mi' i = page_groups_ mi i) ->
  is_base cfg mi a s -> is_base cfg mi' a s.
Proof.
  intros Hn Hsame (i & k & Hi & Hs & Hk & ->).
  exists i, k. rewrite Hsame by assumption. repeat split; try assumption; lia.
Qed.

Lemma chunk_ok_grow h mi mi' a c :
  n_page_groups_ mi <= n_page_groups_ mi' ->
  (forall i, 0 <= i < n_page_groups_ mi -> page_groups_ mi' i = page_groups_ mi i) ->
  chunk_ok cfg h mi a c -> chunk_ok cfg h mi' a c.
Proof.
  intros Hn Hsame (Hc & s & Hs & Hb). split; [exact Hc|].
  exists s. split; [exact Hs|]. eapply is_base_grow; eassumption.
Qed.

End Geometry.

Section Frame.
Variable cfg : Config.
Local Abbreviation REDZONE := (__asan_flag_redzone cfg).
Local Abbreviation WORDSIZE := (__WORDSIZE cfg).

Lemma PtrToChunk_store_outside h x f p :
  wrap cfg (p - REDZONE) <> x ->
  PtrToChunk cfg (store h x f) p = PtrToChunk cfg h p.
Proof.
  intros Hne. unfold PtrToChunk.
  rewrite hdr_store_ne by (intros ->; apply Hne; reflexivity). reflexivity.
Qed.

Lemma live_ptr_bounds h mi maps p n :
  0 < REDZONE -> registry_ok cfg mi maps -> live_ok cfg h mi p n ->
  wrap cfg (p - REDZONE) = p - REDZONE /\
  exists i, 0 <= i < n_page_groups_ mi /\
            beg (page_groups_ mi i) <= PtrToChunk cfg h p /\
            PtrToChunk cfg h p <= p - REDZONE /\
            p < end_ (page_groups_ mi i).
Proof.
  intros HR Hreg (_ & _ & s & _ & Hb & Hp).
  destruct (base_in_group cfg mi maps _ _ Hreg Hb)
    as (i & Hi & _ & Hs & Hlo & Hhi & Hpos & Hw).
  split; [apply wrap_small; lia|].
  exists i. repeat split; lia.
Qed.

Lemma footprint_in_registry h mi ms maps G live x :
  0 < REDZONE ->
  wf_st cfg h mi ms maps G live -> in_footprint cfg h G live x ->
  exists i, 0 <= i < n_page_groups_ mi /\
            beg (page_groups_ mi i) <= x < end_ (page_groups_ mi i).
Proof.
  intros HR Hwf Hx.
  pose proof (wf_registry _ _ _ _ _ _ _ Hwf) as Hreg.
  destruct Hx as [(c & Hx)|[Hx|(p & n & Hp & Hx)]].
  - assert (Hx' : x ∈ l_free G c ++ g_free G c ++ t_free G c)
      by (apply elem_of_app; right; exact Hx).
    destruct (wf_free_cells _ _ _ _ _ _ _ Hwf c x Hx') as (_ & _ & s & _ & Hb).
    destruct (base_in_group cfg mi maps _ _ Hreg Hb)
      as (i & Hi & _ & Hs & Hlo & Hhi & _).
    exists i. split; [assumption|lia].
  - destruct (wf_quar_cells _ _ _ _ _ _ _ Hwf x Hx) as (_ & _ & s & _ & Hb).
    destruct (base_in_group cfg mi maps _ _ Hreg Hb)
      as (i & Hi & _ & Hs & Hlo & Hhi & _).
    exists i. split; [assumption|lia].
  - pose proof (wf_live _ _ _ _ _ _ _ Hwf p n Hp) as Hl.
    destruct (live_ptr_bounds h mi maps p n HR Hreg Hl)
      as (_ & i & Hi & Hlo & Hmid & Hhi).
    exists i. split; [assumption|]. destruct Hx as [->| ->]; lia.
Qed.

Lemma total_bytes_agree h h' cells :
  (forall x, x ∈ cells -> size_class (hdr h' x) = size_class (hdr h x)) ->
  total_bytes cfg h' cells = total_bytes cfg h cells.
Proof.
  induction cells as [|a r IH]; intros H; simpl; [reflexivity|].
  rewrite IH by (intros x Hx; apply H; apply elem_of_cons; right; exact Hx).
  unfold chunk_bytes, AsanChunk_Size.
  rewrite H by (apply elem_of_cons; left; reflexivity). reflexivity.
Qed.

Lemma fifo_ok_agree h h' q cells :
  (forall x, x ∈ cells -> hdr h' x = hdr h x) ->
  fifo_ok cfg h q cells -> fifo_ok cfg h' q cells.
Proof.
  intros H (H1 & H2 & H3). split; [|split].
  - eapply lseg_frame; [|exact H1]. intros x Hx. rewrite H by assumption. reflexivity.
  - exact H2.
  - rewrite H3. f_equal. symmetry. apply total_bytes_agree.
    intros x Hx. rewrite H by assumption. reflexivity.
Qed.

(** The invariant reads the heap at its footprint, and the state and size
    class of the chunks held locally. *)
Lemma wf_st_heap_agree h h' mi ms maps G live :
  0 < REDZONE ->
  wf_st cfg h mi ms maps G live ->
  (forall x, in_footprint cfg h G live x -> hdr h' x = hdr h x) ->
  (forall c x, x ∈ l_free G c ->
     chunk_state (hdr h' x) = chunk_state (hdr h x) /\
     size_class (hdr h' x) = size_class (hdr h x)) ->
  wf_st cfg h' mi ms maps G live.
Proof.
  intros HR Hwf Hx Hloc.
  pose proof (wf_registry _ _ _ _ _ _ _ Hwf) as Hreg.
  assert (Hfree : forall c a, a ∈ g_free G c ++ t_free G c -> hdr h' a = hdr h a).
  { intros c a Ha. apply Hx. left. eauto. }
  assert (Hquar : forall a, a ∈ g_quar G ++ t_quar G -> hdr h' a = hdr h a).
  { intros a Ha. apply Hx. right. left. exact Ha. }
  assert (Hlive : forall p n, (p, n) ∈ live ->
            PtrToChunk cfg h' p = PtrToChunk cfg h p /\
            hdr h' (PtrToChunk cfg h p) = hdr h (PtrToChunk cfg h p)).
  { intros p n Hp.
    pose proof (wf_live _ _ _ _ _ _ _ Hwf p n Hp) as Hl.
    destruct (live_ptr_bounds h mi maps p n HR Hreg Hl) as (Hwr & _).
    split.
    - unfold PtrToChunk. rewrite Hwr. rewrite Hx; [reflexivity|].
      right. right. exists p, n. split; [assumption|right; reflexivity].
    - apply Hx. right. right. exists p, n. split; [assumption|left; reflexivity]. }
  destruct Hwf as [H1 H2 H3 H4 H5 H6 H7 H8 H9 H10 H11].
  constructor.
  - exact H1.
  - intros c. eapply lseg_frame; [|apply H2].
    intros a Ha. rewrite (Hfree c a); [reflexivity|].
    apply elem_of_app. left. exact Ha.
  - intros c. specialize (H3 c). destruct ms as [ms0|]; [|exact H3].
    eapply lseg_frame; [|apply H3].
    intros a Ha. rewrite (Hfree c a); [reflexivity|].
    apply elem_of_app. right. exact Ha.
  - intros c a Ha. specialize (H4 c a Ha). unfold chunk_ok in *.
    apply elem_of_app in Ha as [Ha|Ha].
    + destruct (Hloc c a Ha) as [-> ->]. exact H4.
    + rewrite (Hfree c a Ha). exact H4.
  - exact H5.
  - eapply fifo_ok_agree; [|exact H6].
    intros a Ha. apply Hquar. apply elem_of_app. left. exact Ha.
  - destruct ms as [ms0|]; [|exact H7].
    eapply fifo_ok_agree; [|exact H7].
    intros a Ha. apply Hquar. apply elem_of_app. right. exact Ha.
  - intros a Ha. unfold chunk_ok. rewrite (Hquar a Ha). apply H8. exact Ha.
  - exact H9.
  - intros p n Hp. destruct (Hlive p n Hp) as [Hc Hh].
    unfold live_ok. rewrite Hc, Hh. apply H10. exact Hp.
  - erewrite map_ext_in; [exact H11|].
    intros [p n] Hp. simpl. apply Hlive with n.
    apply list_elem_of_In. exact Hp.
Qed.

(** Writing a header that the invariant does not read keeps the invariant. *)
Lemma wf_st_store_outside h mi ms maps G live x f :
  0 < REDZONE ->
  wf_st cfg h mi ms maps G live ->
  ~ in_footprint cfg h G live x -> (forall c, x ∉ l_free G c) ->
  wf_st cfg (store h x f) mi ms maps G live.
Proof.
  intros HR Hwf Hx Hl. eapply wf_st_heap_agree; [exact HR|exact Hwf| |].
  - intros y Hy. apply hdr_store_ne. intros ->. contradiction.
  - intros c y Hy. rewrite hdr_store_ne; [split; reflexivity|].
    intros ->. exact (Hl c Hy).
Qed.

End Frame.

Lemma upd_eq {A : Type} (f : Z -> A) k v : upd f k v k = v.
Proof. unfold upd. rewrite Z.eqb_refl. reflexivity. Qed.

Lemma upd_ne {A : Type} (f : Z -> A) k v k' : k' <> k -> upd f k v k' = f k'.
Proof. intros H. unfold upd. destruct (k' =? k) eqn:E; [apply Z.eqb_eq in E; contradiction|reflexivity]. Qed.

Lemma states_distinct :
  CHUNK_AVAILABLE <> CHUNK_ALLOCATED /\ CHUNK_AVAILABLE <> CHUNK_QUARANTINE /\
  CHUNK_AVAILABLE <> CHUNK_MEMALIGN /\ CHUNK_ALLOCATED <> CHUNK_QUARANTINE /\
  CHUNK_ALLOCATED <> CHUNK_MEMALIGN /\ CHUNK_QUARANTINE <> CHUNK_MEMALIGN.
Proof. unfold CHUNK_AVAILABLE, CHUNK_ALLOCATED, CHUNK_QUARANTINE, CHUNK_MEMALIGN. lia. Qed.

Section Moves.
Variable cfg : Config.
Local Abbreviation REDZONE := (__asan_flag_redzone cfg).
Local Abbreviation WORDSIZE := (__WORDSIZE cfg).

Lemma chunk_ok_same_registry h mi mi' a c :
  page_groups_ mi' = page_groups_ mi -> n_page_groups_ mi' = n_page_groups_ mi ->
  chunk_ok cfg h mi a c -> chunk_ok cfg h mi' a c.
Proof.
  intros Hp Hn. apply chunk_ok_grow; [lia|]. intros i _. rewrite Hp. reflexivity.
Qed.

Lemma is_base_same_registry mi mi' a s :
  page_groups_ mi' = page_groups_ mi -> n_page_groups_ mi' = n_page_groups_ mi ->
  is_base cfg mi a s -> is_base cfg mi' a s.
Proof.
  intros Hp Hn. apply is_base_grow; [lia|]. intros i _. rewrite Hp. reflexivity.
Qed.

(** Replacing the free lists: the fields of the invariant about them are
    given anew, the others are kept. *)
Lemma wf_st_free_lists h mi ms maps G live fl ms' G' :
  wf_st cfg h mi ms maps G live ->
  g_quar G' = g_quar G -> t_quar G' = t_quar G ->
  match ms, ms' with
  | Some x, Some x' => tl_quarantine_ x' = tl_quarantine_ x
  | None, None => True
  | _, _ => False
  end ->
  (forall c, lseg h (fl c) (g_free G' c)) ->
  (forall c, match ms' with
             | Some x => lseg h (tl_free_lists_ x c) (t_free G' c)
             | None => t_free G' c = []
             end) ->
  (forall c a, a ∈ l_free G' c ++ g_free G' c ++ t_free G' c ->
     chunk_state (hdr h a) = CHUNK_AVAILABLE /\ chunk_ok cfg h mi a c) ->
  (forall c, NoDup (l_free G' c ++ g_free G' c ++ t_free G' c)) ->
  wf_st cfg h
    (mkMallocInfo fl (quarantine_ mi) (page_groups_ mi) (n_page_groups_ mi))
    ms' maps G' live.
Proof.
  intros [H1 H2 H3 H4 H5 H6 H7 H8 H9 H10 H11] Hgq Htq Hms Hg Ht Hc Hn.
  constructor.
  - exact H1.
  - exact Hg.
  - exact Ht.
  - exact Hc.
  - exact Hn.
  - rewrite Hgq. exact H6.
  - rewrite Htq. destruct ms as [x|], ms' as [x'|]; try contradiction; [|exact H7].
    rewrite Hms. exact H7.
  - rewrite Hgq, Htq. exact H8.
  - rewrite Hgq, Htq. exact H9.
  - exact H10.
  - exact H11.
Qed.

(** ** Which addresses are outside the footprint *)

Lemma not_free_by_class h mi ms maps G live x c c' :
  wf_st cfg h mi ms maps G live ->
  size_class (hdr h x) = c -> c' <> c ->
  x ∉ l_free G c' ++ g_free G c' ++ t_free G c'.
Proof.
  intros Hwf Hc Hne Hx.
  destruct (wf_free_cells _ _ _ _ _ _ _ Hwf c' x Hx) as (_ & Hk & _). congruence.
Qed.

Lemma not_free_by_state h mi ms maps G live x c :
  wf_st cfg h mi ms maps G live ->
  chunk_state (hdr h x) <> CHUNK_AVAILABLE ->
  x ∉ l_free G c ++ g_free G c ++ t_free G c.
Proof.
  intros Hwf Hs Hx.
  destruct (wf_free_cells _ _ _ _ _ _ _ Hwf c x Hx) as (Hst & _). contradiction.
Qed.

Lemma not_quar_by_state h mi ms maps G live x :
  wf_st cfg h mi ms maps G live ->
  chunk_state (hdr h x) <> CHUNK_QUARANTINE ->
  x ∉ g_quar G ++ t_quar G.
Proof.
  intros Hwf Hs Hx.
  destruct (wf_quar_cells _ _ _ _ _ _ _ Hwf x Hx) as (Hst & _). contradiction.
Qed.

Lemma not_live_by_state h mi ms maps G live x p n :
  wf_st cfg h mi ms maps G live ->
  chunk_state (hdr h x) <> CHUNK_ALLOCATED ->
  (p, n) ∈ live -> x <> PtrToChunk cfg h p.
Proof.
  intros Hwf Hs Hp ->.
  destruct (wf_live _ _ _ _ _ _ _ Hwf p n Hp) as (Hst & _). contradiction.
Qed.

(** A chunk address is not the forwarder address of a live pointer. *)
Lemma base_not_forwarder h mi ms maps G live x s p n :
  0 < REDZONE ->
  wf_st cfg h mi ms maps G live -> is_base cfg mi x s ->
  (p, n) ∈ live -> x <> PtrToChunk cfg h p -> x <> p - REDZONE.
Proof.
  intros HR Hwf Hb Hp Hne ->.
  pose proof (wf_registry _ _ _ _ _ _ _ Hwf) as Hreg.
  destruct (wf_live _ _ _ _ _ _ _ Hwf p n Hp) as (_ & _ & s' & _ & Hb' & Hr).
  eapply (inside_not_base cfg mi maps _ _ (p - REDZONE)); [exact Hreg|exact Hb'| |exact Hb].
  lia.
Qed.

Lemma outside_intro h mi ms maps G live x s :
  0 < REDZONE ->
  wf_st cfg h mi ms maps G live -> is_base cfg mi x s ->
  (forall c, x ∉ g_free G c ++ t_free G c) ->
  x ∉ g_quar G ++ t_quar G ->
  (forall p n, (p, n) ∈ live -> x <> PtrToChunk cfg h p) ->
  ~ in_footprint cfg h G live x.
Proof.
  intros HR Hwf Hb Hf Hq Hl [(c & Hx)|[Hx|(p & n & Hp & [Hx|Hx])]].
  - exact (Hf c Hx).
  - exact (Hq Hx).
  - exact (Hl p n Hp Hx).
  - eapply base_not_forwarder; eauto.
Qed.

(** A chunk held locally is outside the footprint. *)
Lemma local_outside h mi ms maps G live x c :
  0 < REDZONE ->
  wf_st cfg h mi ms maps G live -> x ∈ l_free G c ->
  ~ in_footprint cfg h G live x.
Proof.
  intros HR Hwf Hx.
  assert (Hx' : x ∈ l_free G c ++ g_free G c ++ t_free G c)
    by (apply elem_of_app; left; exact Hx).
  destruct (wf_free_cells _ _ _ _ _ _ _ Hwf c x Hx') as (Hst & Hc & s & Hs & Hb).
  destruct states_distinct as (Hd1 & Hd2 & _).
  eapply outside_intro; try eassumption.
  - intros c' Hin. destruct (Z.eq_dec c' c) as [->|Hne].
    + pose proof (wf_free_nodup _ _ _ _ _ _ _ Hwf c) as Hnd.
      apply NoDup_app in Hnd as (_ & Hnd & _). exact (Hnd x Hx Hin).
    + eapply not_free_by_class; [exact Hwf|exact Hc|exact Hne|].
      apply elem_of_app. right. exact Hin.
  - eapply not_quar_by_state; [exact Hwf|]. congruence.
  - intros p n Hp. eapply not_live_by_state; [exact Hwf| |exact Hp]. congruence.
Qed.

End Moves.

Section Refill.
Variable cfg : Config.
Local Abbreviation REDZONE := (__asan_flag_redzone cfg).
Local Abbreviation WORDSIZE := (__WORDSIZE cfg).

Hypothesis Hcfg : cfg_ok cfg.

Lemma cfg_word : 32 <= WORDSIZE /\ 2 ^ 32 <= 2 ^ WORDSIZE.
Proof. apply word_ok_bounds. exact (ok_word _ Hcfg). Qed.

Lemma cfg_page :
  exists k, 5 < k <= 16 /\ kPageSize cfg = 2 ^ k /\ kMinMmapSize cfg = 2 ^ (k + 10).
Proof.
  destruct (ok_page _ Hcfg) as (k & Hk & Hp & Hr).
  destruct (ok_redzone _ Hcfg) as (r & Hr5 & HR).
  destruct cfg_word as [Hw Hw32].
  assert (5 < k).
  { destruct (Z_lt_le_dec 5 k) as [|Hle]; [assumption|exfalso].
    assert (2 ^ k <= 2 ^ 5) by (destruct (Z_lt_le_dec k 0);
      [rewrite Z.pow_neg_r by lia; lia|apply Z.pow_le_mono_r; lia]).
    assert (2 ^ 5 <= 2 ^ r) by (apply Z.pow_le_mono_r; lia). lia. }
  exists k. repeat split; try lia; try assumption.
  unfold kMinMmapSize. rewrite Hp.
  replace (2 ^ k * 1024) with (2 ^ (k + 10)) by (rewrite Z.pow_add_r by lia; lia).
  apply wrap_small. split; [apply Z.pow_nonneg; lia|].
  apply Z.pow_lt_mono_r; lia.
Qed.

Lemma cfg_redzone :
  exists r, 5 <= r < WORDSIZE /\ REDZONE = 2 ^ r /\ 32 <= REDZONE /\
            2 * REDZONE <= kPageSize cfg.
Proof.
  destruct (ok_page _ Hcfg) as (k & Hk & Hp & Hr).
  destruct (ok_redzone _ Hcfg) as (r & Hr5 & HR).
  destruct cfg_word as [Hw Hw32].
  assert (r < k).
  { destruct (Z_lt_le_dec r k) as [|Hle]; [assumption|exfalso].
    assert (2 ^ k <= 2 ^ r) by (destruct (Z_lt_le_dec k 0);
      [rewrite Z.pow_neg_r by lia; apply Z.pow_nonneg; lia
      |apply Z.pow_le_mono_r; lia]). lia. }
  exists r. repeat split; try lia; try assumption.
  - rewrite HR. change 32 with (2 ^ 5). apply Z.pow_le_mono_r; lia.
  - rewrite HR, Hp. replace (2 * 2 ^ r) with (2 ^ (r + 1))
      by (rewrite Z.pow_add_r by lia; lia).
    apply Z.pow_le_mono_r; lia.
Qed.

Lemma pow2_mod_pow2 j k : 0 <= j <= k -> 2 ^ k mod 2 ^ j = 0.
Proof.
  intros H. replace k with ((k - j) + j) by lia.
  rewrite Z.pow_add_r by lia. apply Z.mod_mul.
  apply Z.pow_nonzero; lia.
Qed.

Lemma mod_pow2_le x j k : 0 <= j <= k -> x mod 2 ^ k = 0 -> x mod 2 ^ j = 0.
Proof.
  intros H Hx. apply Z.mod_divide in Hx; [|apply Z.pow_nonzero; lia].
  apply Z.mod_divide; [apply Z.pow_nonzero; lia|].
  eapply Z.divide_trans; [|exact Hx].
  apply Z.mod_divide; [apply Z.pow_nonzero; lia|]. apply pow2_mod_pow2. lia.
Qed.

(** The two shapes of a class size: a power of two up to [2^26], or a
    positive multiple of [2^26]. *)
Lemma size_class_shape c s :
  SizeClassToSize cfg c = Some s -> 0 < s ->
  s < 2 ^ WORDSIZE /\
  ((exists j, 0 <= j <= 26 /\ s = 2 ^ j) \/ (2 ^ 26 <= s /\ s mod 2 ^ 26 = 0)).
Proof.
  destruct cfg_word as [Hw Hw32].
  unfold SizeClassToSize. rewrite step_value by exact (ok_word _ Hcfg).
  unfold kMallocSizeClassStepLog.
  destruct (c <? kNumberOfSizeClasses cfg); simpl; [|discriminate].
  destruct (c <=? 26) eqn:Hc.
  - apply Z.leb_le in Hc. intros [= <-] Hpos.
    rewrite Z.shiftl_1_l in *.
    destruct (Z_lt_le_dec c 0).
    { rewrite Z.pow_neg_r in Hpos by lia. unfold wrap in Hpos.
      rewrite Z.mod_0_l in Hpos by lia. lia. }
    assert (2 ^ c < 2 ^ WORDSIZE) by (apply Z.pow_lt_mono_r; lia).
    rewrite wrap_small by lia. split; [assumption|]. left. exists c. split; [lia|reflexivity].
  - intros [= <-] Hpos. unfold wrap in *.
    pose proof (Z.mod_pos_bound ((c - 26) * 2 ^ 26) (2 ^ WORDSIZE)
                  ltac:(lia)) as Hb.
    split; [lia|]. right.
    assert (Hm : ((c - 26) * 2 ^ 26) mod 2 ^ WORDSIZE mod 2 ^ 26 = 0).
    { apply Z.mod_divide; [lia|].
      rewrite Z.mod_eq by lia. apply Z.divide_sub_r.
      - apply Z.divide_factor_r.
      - apply Z.divide_mul_l. exists (2 ^ (WORDSIZE - 26)).
        rewrite <- Z.pow_add_r by lia. f_equal. lia. }
    split; [|exact Hm].
    pose proof (Z.div_mod (((c - 26) * 2 ^ 26) mod 2 ^ WORDSIZE) (2 ^ 26)
                  ltac:(lia)) as Hd.
    rewrite Hm in Hd.
    assert (0 < ((c - 26) * 2 ^ 26) mod 2 ^ WORDSIZE / 2 ^ 26) by lia.
    lia.
Qed.

Lemma refill_arith c s :
  SizeClassToSize cfg c = Some s -> 0 < s ->
  ((s <? kMinMmapSize cfg) || (s mod kMinMmapSize cfg =? 0) = true) /\
  Z.max s (kMinMmapSize cfg) / s * s = Z.max s (kMinMmapSize cfg) /\
  0 < n_chunks_of cfg s /\
  n_chunks_of cfg s * s <= Z.max s (kMinMmapSize cfg) /\
  Z.max s (kMinMmapSize cfg) < 2 ^ WORDSIZE /\
  0 < mmap_size_of cfg s < 2 ^ WORDSIZE /\
  mmap_size_of cfg s mod kPageSize cfg = 0 /\
  n_chunks_of cfg s * s < mmap_size_of cfg s /\
  (exists j, 0 <= j /\ s mod 2 ^ j = 0 /\ kPageSize cfg mod 2 ^ j = 0 /\
             (2 ^ j = s \/ 2 ^ j = kPageSize cfg)).
Proof.
  intros Hs Hpos.
  destruct cfg_word as [Hw Hw32].
  destruct cfg_page as (k & Hk & Hp & Hm).
  destruct (size_class_shape c s Hs Hpos) as (Hlt & Hshape).
  assert (Hpk : 0 < 2 ^ k) by (apply Z.pow_pos_nonneg; lia).
  assert (Hpm : 0 < 2 ^ (k + 10)) by (apply Z.pow_pos_nonneg; lia).
  assert (Hkm : 2 ^ (k + 10) = 2 ^ k * 1024) by (rewrite Z.pow_add_r by lia; lia).
  assert (Hm26 : 2 ^ (k + 10) <= 2 ^ 26) by (apply Z.pow_le_mono_r; lia).
  assert (Hw26 : 2 ^ 26 < 2 ^ WORDSIZE) by (apply Z.pow_lt_mono_r; lia).
  unfold n_chunks_of, mmap_size_of. rewrite Hp, Hm.
  destruct Hshape as [(j & Hj & ->)|(Hge & Hmod)].
  - assert (Hpj : 0 < 2 ^ j) by (apply Z.pow_pos_nonneg; lia).
    destruct (Z_lt_le_dec j (k + 10)) as [Hjm|Hjm].
    + (* smaller than a mapping *)
      assert (Hlt' : 2 ^ j < 2 ^ (k + 10)) by (apply Z.pow_lt_mono_r; lia).
      rewrite Z.max_r by lia.
      assert (Hdiv : 2 ^ (k + 10) = 2 ^ (k + 10 - j) * 2 ^ j)
        by (rewrite <- Z.pow_add_r by lia; f_equal; lia).
      assert (Hq : 2 ^ (k + 10) / 2 ^ j = 2 ^ (k + 10 - j)).
      { rewrite Hdiv at 1. apply Z.div_mul. lia. }
      assert (Hq2 : 2 <= 2 ^ (k + 10 - j)).
      { change 2 with (2 ^ 1) at 1. apply Z.pow_le_mono_r; lia. }
      rewrite Hq.
      split; [apply orb_true_iff; left; apply Z.ltb_lt; lia|].
      split; [lia|].
      destruct (2 ^ j <? 2 ^ k) eqn:Hjk.
      * apply Z.ltb_lt in Hjk.
        assert (j < k) by (apply (Z.pow_lt_mono_r_iff 2); lia).
        repeat split; try nia; try lia.
        -- rewrite Hkm. rewrite Z.mul_comm. apply Z.mod_mul. lia.
        -- exists j. repeat split; try lia.
           ++ apply Z.mod_same. lia.
           ++ apply pow2_mod_pow2. lia.
      * apply Z.ltb_ge in Hjk.
        assert (k <= j) by (apply (Z.pow_le_mono_r_iff 2); lia).
        repeat split; try nia; try lia.
        -- rewrite Hkm. replace (2 ^ k * 1024 + 2 ^ k) with (1025 * 2 ^ k) by lia.
           apply Z.mod_mul. lia.
        -- exists k. repeat split; try lia.
           ++ apply pow2_mod_pow2. lia.
           ++ apply Z.mod_same. lia.
    + (* at least a mapping *)
      assert (Hge : 2 ^ (k + 10) <= 2 ^ j) by (apply Z.pow_le_mono_r; lia).
      rewrite Z.max_l by lia. rewrite Z.div_same by lia.
      assert (Hmod : 2 ^ j mod 2 ^ (k + 10) = 0) by (apply pow2_mod_pow2; lia).
      split; [apply orb_true_iff; right; apply Z.eqb_eq; exact Hmod|].
      split; [lia|].
      assert (Hjk : (2 ^ j <? 2 ^ k) = false) by (apply Z.ltb_ge; lia).
      rewrite Hjk.
      assert (2 ^ j <= 2 ^ 26) by (apply Z.pow_le_mono_r; lia).
      repeat split; try lia.
      * rewrite <- Zplus_mod_idemp_l. rewrite (pow2_mod_pow2 k j) by lia.
        simpl. apply Z.mod_same. lia.
      * exists k. repeat split; try lia.
        -- apply pow2_mod_pow2. lia.
        -- apply Z.mod_same. lia.
  - rewrite Z.max_l by lia. rewrite Z.div_same by lia.
    assert (Hmodm : s mod 2 ^ (k + 10) = 0) by (apply (mod_pow2_le s _ 26); [lia|assumption]).
    assert (Hmodk : s mod 2 ^ k = 0) by (apply (mod_pow2_le s _ 26); [lia|assumption]).
    split; [apply orb_true_iff; right; apply Z.eqb_eq; exact Hmodm|].
    split; [lia|].
    assert (Hjk : (s <? 2 ^ k) = false) by (apply Z.ltb_ge; lia).
    rewrite Hjk.
    assert (Hs26 : s + 2 ^ 26 <= 2 ^ WORDSIZE).
    { pose proof (Z.div_mod s (2 ^ 26) ltac:(lia)) as Hd. rewrite Hmod in Hd.
      assert (Hwd : 2 ^ WORDSIZE = 2 ^ 26 * 2 ^ (WORDSIZE - 26))
        by (rewrite <- Z.pow_add_r by lia; f_equal; lia).
      assert (s / 2 ^ 26 < 2 ^ (WORDSIZE - 26)) by nia.
      nia. }
    assert (2 ^ k < 2 ^ 26) by (apply Z.pow_lt_mono_r; lia).
    repeat split; try lia.
    * rewrite <- Zplus_mod_idemp_l. rewrite Hmodk. simpl. apply Z.mod_same. lia.
    * exists k. repeat split; try lia. apply Z.mod_same. lia.
Qed.

End Refill.

Section Simple.
Variable cfg : Config.
Local Abbreviation REDZONE := (__asan_flag_redzone cfg).
Local Abbreviation WORDSIZE := (__WORDSIZE cfg).

(** C6: [Reallocate old 0] with a non-null [old] returns null and leaves
    the whole state as it was: chunk headers, shadow poisoning, quarantines
    and trace. *)
Theorem Reallocate_zero_size old_ptr stack w :
  old_ptr <> 0 ->
  Reallocate cfg old_ptr 0 stack w = Ret 0 w.
Proof.
  intros Hold. unfold Reallocate.
  destruct (old_ptr =? 0) eqn:He; [apply Z.eqb_eq in He; contradiction|].
  reflexivity.
Qed.

(** C9: without a current thread record [__asan_stack_malloc] returns
    [real_stack] and changes nothing; [__asan_stack_free] of [real_stack]
    itself changes nothing. *)
Theorem stack_malloc_free_real_stack size real_stack w :
  (tl_current_thread w = None ->
   __asan_stack_malloc cfg size real_stack w = Ret real_stack w) /\
  __asan_stack_free cfg real_stack size real_stack w = Ret tt w.
Proof.
  split.
  - intros Ht. unfold __asan_stack_malloc, bind, GetCurrent, gets. rewrite Ht.
    reflexivity.
  - unfold __asan_stack_free. rewrite Z.eqb_refl. reflexivity.
Qed.

Lemma bind_Ret {A B : Type} (m : M A) (k : A -> M B) w a w1 :
  m w = Ret a w1 -> bind m k w = k a w1.
Proof. intros H. unfold bind. rewrite H. reflexivity. Qed.

Lemma bind_Abort {A B : Type} (m : M A) (k : A -> M B) w c w1 :
  m w = Abort c w1 -> bind m k w = Abort c w1.
Proof. intros H. unfold bind. rewrite H. reflexivity. Qed.

Lemma emit_eq e w : emit e w = Ret tt (with_trace w [e]).
Proof. reflexivity. Qed.

Lemma with_trace_app w e1 e2 :
  with_trace (with_trace w e1) e2 = with_trace w (e1 ++ e2).
Proof. unfold with_trace. simpl. rewrite <- app_assoc. reflexivity. Qed.

Lemma DescribeAddress_outcome this addr access_size w :
  exists evs,
    (DescribeAddress cfg this addr access_size w =
       Ret tt (with_trace w (EvPrintf "%p is located " [addr] :: evs))) \/
    (AsanChunk_Size cfg (hdr (heap w) this) = None /\
     DescribeAddress cfg this addr access_size w =
       Abort CheckFailed (with_trace w (EvPrintf "%p is located " [addr] :: evs))).
Proof.
  unfold DescribeAddress, bind, read, gets, emit, modify. simpl.
  fold (with_trace w [EvPrintf "%p is located " [addr]]).
  set (c := hdr (heap w) this).
  destruct (AddrIsInside cfg this c addr access_size) as [off|].
  { eexists. left. simpl. unfold with_trace; simpl.
    rewrite <- !app_assoc. reflexivity. }
  destruct (AddrIsAtLeft cfg this c addr access_size) as [off|].
  { eexists. left. simpl. unfold with_trace; simpl.
    rewrite <- !app_assoc. reflexivity. }
  unfold AddrIsAtRight.
  destruct (_ >=? _).
  2:{ eexists. left. simpl. unfold with_trace; simpl.
      rewrite <- !app_assoc. reflexivity. }
  unfold bind, lift.
  destruct (AsanChunk_Size cfg c) as [s|] eqn:Hs.
  2:{ exists []. right. split; [reflexivity|]. reflexivity. }
  simpl. unfold ret.
  destruct (addr <? _).
  2:{ eexists. left. simpl. unfold with_trace; simpl.
      rewrite <- !app_assoc. reflexivity. }
  destruct (addr <=? _).
  all: eexists; left; simpl; unfold with_trace; simpl;
    rewrite <- !app_assoc; reflexivity.
Qed.


End Simple.

Section Refill2.
Variable cfg : Config.
Local Abbreviation REDZONE := (__asan_flag_redzone cfg).
Local Abbreviation WORDSIZE := (__WORDSIZE cfg).

Hypothesis Hcfg : cfg_ok cfg.

Lemma wrap_mod_pow2 x g :
  0 <= g <= WORDSIZE -> x mod 2 ^ g = 0 -> wrap cfg x mod 2 ^ g = 0.
Proof.
  intros Hg Hx. unfold wrap.
  assert (0 < 2 ^ g) by (apply Z.pow_pos_nonneg; lia).
  assert (0 < 2 ^ WORDSIZE) by (apply Z.pow_pos_nonneg; lia).
  apply Z.mod_divide; [lia|]. rewrite Z.mod_eq by lia.
  apply Z.divide_sub_r.
  - apply Z.mod_divide; [lia|exact Hx].
  - apply Z.divide_mul_l. exists (2 ^ (WORDSIZE - g)).
    rewrite <- Z.pow_add_r by lia. f_equal. lia.
Qed.

Lemma cfg_shadow :
  exists g, 0 <= g < WORDSIZE /\ SHADOW_GRANULARITY cfg = 2 ^ g /\
            REDZONE mod 2 ^ g = 0 /\ kPageSize cfg mod 2 ^ g = 0.
Proof.
  destruct (ok_shadow _ Hcfg) as (g & Hg & HS & Hle).
  destruct (cfg_redzone cfg Hcfg) as (r & Hr & HR & _ & Hrp).
  destruct (cfg_page cfg Hcfg) as (k & Hk & Hp & _).
  assert (g <= r).
  { rewrite HS, HR in Hle. apply (Z.pow_le_mono_r_iff 2); lia. }
  exists g. repeat split; try lia; try assumption.
  - rewrite HR. apply pow2_mod_pow2. lia.
  - rewrite Hp. apply pow2_mod_pow2.
    assert (r < k); [|lia].
    rewrite HR, Hp in Hrp. apply (Z.pow_lt_mono_r_iff 2); lia.
Qed.

Lemma IsAligned_shadow x :
  x mod SHADOW_GRANULARITY cfg = 0 ->
  IsAligned cfg x (SHADOW_GRANULARITY cfg) = true.
Proof.
  destruct cfg_shadow as (g & Hg & HS & _). rewrite HS. intros Hx.
  rewrite IsAligned_pow2 by lia. rewrite Hx. reflexivity.
Qed.

Lemma PoisonShadow_aligned mem size poison w :
  mem mod SHADOW_GRANULARITY cfg = 0 ->
  (mem + size) mod SHADOW_GRANULARITY cfg = 0 ->
  exists ev, PoisonShadow cfg mem size poison w = Ret tt (with_trace w [ev]).
Proof.
  intros H1 H2. unfold PoisonShadow.
  rewrite IsAligned_shadow by assumption.
  rewrite IsAligned_shadow.
  2:{ destruct cfg_shadow as (g & Hg & HS & _). rewrite HS in *.
      apply wrap_mod_pow2; [lia|assumption]. }
  eexists. reflexivity.
Qed.

Lemma Mmap_outcome size w :
  0 < size < 2 ^ WORDSIZE -> size mod kPageSize cfg = 0 ->
  let res := os_mmap cfg (mappings w) size in
  (res = MAP_FAILED cfg /\
   exists c w', MmapNewPagesAndPoisonShadow cfg size w = Abort c w' /\
     ((c = AbortCalled /\ oom_trace cfg w') \/
      (c = MemoryFault /\ oom_fault cfg w'))) \/
  (res <> MAP_FAILED cfg /\
   0 < res /\ res mod kPageSize cfg = 0 /\ res + size < 2 ^ WORDSIZE /\
   (forall a n, (a, n) ∈ mappings w -> res + size <= a \/ a + n <= res) /\
   exists evs,
     MmapNewPagesAndPoisonShadow cfg size w =
       Ret res (mkWorld (heap w) (fifo_next w) (malloc_info w)
                  (tl_current_thread w) (wrap cfg (total_mmaped w + size))
                  ((res, size) :: mappings w) (trace w ++ evs))).
Proof.
  intros Hsize Hal res.
  destruct (cfg_page cfg Hcfg) as (k & Hk & Hp & _).
  destruct (cfg_word cfg Hcfg) as [Hw _].
  unfold MmapNewPagesAndPoisonShadow.
  assert (Ha : IsAligned cfg size (kPageSize cfg) = true).
  { rewrite Hp in *. rewrite IsAligned_pow2 by lia. rewrite Hal. reflexivity. }
  rewrite Ha.
  erewrite bind_Ret by reflexivity.
  unfold __asan_mmap.
  erewrite bind_Ret by (erewrite bind_Ret by reflexivity;
                        erewrite bind_Ret by reflexivity; reflexivity).
  fold res.
  erewrite bind_Ret by reflexivity.
  destruct (res =? MAP_FAILED cfg) eqn:Hres.
  - apply Z.eqb_eq in Hres. left. split; [exact Hres|].
    destruct (tl_current_thread w) as [th|] eqn:Hth.
    + exists AbortCalled. eexists. split.
      * erewrite bind_Abort; [reflexivity|].
        unfold OutOfMemoryMessage.
        erewrite bind_Ret by (erewrite bind_Ret by reflexivity; reflexivity).
        erewrite bind_Ret by reflexivity. reflexivity.
      * left. split; [reflexivity|].
        unfold oom_trace. simpl. exists (trace w), size.
        eexists. rewrite Hres. rewrite <- !app_assoc. reflexivity.
    + exists MemoryFault. eexists. split.
      * erewrite bind_Abort; [reflexivity|].
        unfold OutOfMemoryMessage.
        erewrite bind_Abort; [reflexivity|].
        erewrite bind_Ret by reflexivity. reflexivity.
      * right. split; [reflexivity|].
        unfold oom_fault. simpl. split; [reflexivity|].
        exists (trace w), size. rewrite Hres. reflexivity.
  - apply Z.eqb_neq in Hres. right. split; [exact Hres|].
    destruct (ok_mmap _ Hcfg (mappings w) size Hsize) as [Hf|(H1 & H2 & H3 & H4)];
      [contradiction|].
    fold res in H1, H2, H3, H4.
    repeat split; try assumption.
    erewrite bind_Ret by reflexivity.
    destruct cfg_shadow as (g & Hg & HS & _ & Hpg).
    assert (Hrg : res mod SHADOW_GRANULARITY cfg = 0).
    { rewrite HS. rewrite Hp in *. apply (mod_pow2_le _ _ k); [|assumption].
      split; [lia|]. destruct (Z_le_gt_dec g k) as [|Hgt]; [assumption|exfalso].
      assert (2 ^ k < 2 ^ g) by (apply Z.pow_lt_mono_r; lia).
      rewrite Z.mod_small in Hpg; [|split; [apply Z.pow_nonneg|]; lia].
      assert (0 < 2 ^ k) by (apply Z.pow_pos_nonneg; lia). lia. }
    assert (Hsg : size mod SHADOW_GRANULARITY cfg = 0).
    { rewrite HS in *. rewrite Hp in *.
      apply Z.mod_divide in Hal; [|apply Z.pow_nonzero; lia].
      apply Z.mod_divide in Hpg; [|apply Z.pow_nonzero; lia].
      apply Z.mod_divide; [apply Z.pow_nonzero; lia|].
      eapply Z.divide_trans; eassumption. }
    match goal with |- context [bind (PoisonShadow cfg ?a ?b ?p) ?k ?w1] =>
      destruct (PoisonShadow_aligned a b p w1) as [ev Hev]
    end; [assumption| |].
    { rewrite <- Zplus_mod_idemp_l, Hrg. simpl. exact Hsg. }
    rewrite (bind_Ret _ _ _ _ _ Hev).
    destruct (negb (__asan_flag_debug cfg =? 0)).
    + erewrite bind_Ret by reflexivity.
      eexists. unfold ret, with_trace. simpl.
      rewrite <- !app_assoc. reflexivity.
    + erewrite bind_Ret by reflexivity.
      eexists. unfold ret, with_trace. simpl.
      rewrite <- !app_assoc. reflexivity.
Qed.

End Refill2.

Section Refill3.
Variable cfg : Config.
Local Abbreviation REDZONE := (__asan_flag_redzone cfg).
Local Abbreviation WORDSIZE := (__WORDSIZE cfg).

Hypothesis Hcfg : cfg_ok cfg.

Lemma with_heap_id w : with_heap w (heap w) = w.
Proof. destruct w. reflexivity. Qed.

Lemma GetNewChunks_loop_spec mem s sc :
  0 < s ->
  forall n i res w,
  exists h',
    GetNewChunks_loop mem s sc n i res w =
      Ret (match n with O => res | S n' => mem + (i + Z.of_nat n') * s end)
          (with_heap w h') /\
    (forall x, (forall k, i <= k < i + Z.of_nat n -> x <> mem + k * s) ->
               hdr h' x = hdr (heap w) x) /\
    (forall k, i <= k < i + Z.of_nat n ->
       chunk_state (hdr h' (mem + k * s)) = CHUNK_AVAILABLE /\
       size_class (hdr h' (mem + k * s)) = sc /\
       next (hdr h' (mem + k * s)) = if k =? i then res else mem + (k - 1) * s).
Proof.
  intros Hs. induction n as [|n IH]; intros i res w.
  - exists (heap w). rewrite with_heap_id. split; [reflexivity|].
    split; [reflexivity|]. intros k Hk. simpl in Hk. lia.
  - cbn [GetNewChunks_loop].
    set (m := mem + i * s).
    erewrite bind_Ret by reflexivity.
    erewrite bind_Ret by reflexivity.
    erewrite bind_Ret by reflexivity.
    match goal with |- context [GetNewChunks_loop _ _ _ _ _ _ ?w1] =>
      destruct (IH (i + 1) m w1) as (h' & Hr & Hout & Hin)
    end.
    exists h'. split; [|split].
    + rewrite Hr. f_equal.
      destruct n; [unfold m; f_equal; lia|]. f_equal.
      rewrite !Nat2Z.inj_succ. lia.
    + intros x Hx. rewrite Hout.
      * cbn [heap with_heap].
        assert (x <> m) by (apply Hx; lia).
        rewrite !hdr_store_ne by (intros Heq; congruence). reflexivity.
      * intros k Hk. apply Hx. lia.
    + intros k Hk. destruct (Z.eq_dec k i) as [->|Hne].
      * rewrite Z.eqb_refl. fold m. rewrite Hout.
        2:{ intros k Hk'. unfold m. intros Heq.
            assert (i * s = k * s) by lia. nia. }
        cbn [heap with_heap].
        rewrite !hdr_store_eq. simpl. repeat split; reflexivity.
      * destruct (Hin k) as (H1 & H2 & H3); [lia|].
        repeat split; try assumption. rewrite H3.
        replace (k =? i) with false by (symmetry; apply Z.eqb_neq; lia).
        destruct (k =? i + 1) eqn:Hk1; [|reflexivity].
        apply Z.eqb_eq in Hk1. subst k. unfold m. f_equal. f_equal. lia.
Qed.

Lemma stats_Log2_cases s w :
  stats_Log2 cfg s w = Ret tt w \/
  (__asan_flag_stats cfg <> 0 /\ IsPowerOfTwo cfg s = false /\
   stats_Log2 cfg s w = Abort CheckFailed w).
Proof.
  unfold stats_Log2.
  destruct (__asan_flag_stats cfg =? 0) eqn:Hst; [left; reflexivity|].
  apply Z.eqb_neq in Hst. cbn [negb]. unfold Log2.
  destruct (IsPowerOfTwo cfg s); [left; reflexivity|].
  right. repeat split; assumption.
Qed.

(** How [GetNewChunks] ends: [mmap] fails, the statistics code trips on a
    size that is no power of two, the registry is full, or the fresh
    mapping is carved into chunks and registered. *)
Lemma GetNewChunks_outcome sc s w :
  SizeClassToSize cfg sc = Some s -> 0 < s -> sizeof_ChunkBase cfg <= s ->
  let msz := mmap_size_of cfg s in
  let mem := os_mmap cfg (mappings w) msz in
  let n := n_chunks_of cfg s in
  let mi := malloc_info w in
  (exists c w', GetNewChunks cfg sc w = Abort c w' /\
     ((mem = MAP_FAILED cfg /\
       ((c = AbortCalled /\ oom_trace cfg w') \/
        (c = MemoryFault /\ oom_fault cfg w'))) \/
      (c = CheckFailed /\ __asan_flag_stats cfg <> 0 /\ IsPowerOfTwo cfg s = false) \/
      (c = CheckFailed /\ page_groups_capacity cfg <= n_page_groups_ mi /\
       n_page_groups_ (malloc_info w') = n_page_groups_ mi + 1))) \/
  (mem <> MAP_FAILED cfg /\ n_page_groups_ mi < page_groups_capacity cfg /\
   0 < mem /\ mem mod kPageSize cfg = 0 /\ mem + msz < 2 ^ WORDSIZE /\
   (forall a k, (a, k) ∈ mappings w -> mem + msz <= a \/ a + k <= mem) /\
   exists h' evs,
     GetNewChunks cfg sc w =
       Ret (mem + (n - 1) * s)
         (mkWorld h' (fifo_next w)
            (mkMallocInfo (free_lists_ mi) (quarantine_ mi)
               (upd (page_groups_ mi) (n_page_groups_ mi)
                  (mkPageGroup mem (mem + msz) s))
               (n_page_groups_ mi + 1))
            (tl_current_thread w) (wrap cfg (total_mmaped w + msz))
            ((mem, msz) :: mappings w) (trace w ++ evs)) /\
     (forall x, (forall k, 0 <= k < n -> x <> mem + k * s) ->
                hdr h' x = hdr (heap w) x) /\
     (forall k, 0 <= k < n ->
        chunk_state (hdr h' (mem + k * s)) = CHUNK_AVAILABLE /\
        size_class (hdr h' (mem + k * s)) = sc /\
        next (hdr h' (mem + k * s)) = if k =? 0 then 0 else mem + (k - 1) * s)).
Proof.
  intros Hsc Hpos Hhdr msz mem n mi.
  destruct (cfg_word cfg Hcfg) as [Hw Hw32].
  destruct (cfg_page cfg Hcfg) as (pk & Hpk & Hp & Hm).
  destruct (refill_arith cfg Hcfg sc s Hsc Hpos)
    as (Hc1 & Hdiv & Hn & Hns & Hmax & Hmsz & Hmal & Hfit & _).
  destruct (size_class_shape cfg Hcfg sc s Hsc Hpos) as (Hslt & _).
  unfold GetNewChunks.
  rewrite Hsc. erewrite bind_Ret by reflexivity.
  assert (Hkp : IsPowerOfTwo cfg (kMinMmapSize cfg) = true).
  { rewrite Hm. apply IsPowerOfTwo_pow2. lia. }
  rewrite Hkp. erewrite bind_Ret by reflexivity.
  rewrite Hc1. erewrite bind_Ret by reflexivity.
  rewrite Z.mul_comm in Hdiv.
  assert (Hc2 : (wrap cfg (Z.max s (kMinMmapSize cfg) / s * s)
                 =? Z.max s (kMinMmapSize cfg)) = true).
  { rewrite (Z.mul_comm _ s), Hdiv. rewrite wrap_small by lia. apply Z.eqb_refl. }
  rewrite Hc2. erewrite bind_Ret by reflexivity.
  assert (Hn' : (if s <? kPageSize cfg
                 then wrap cfg (Z.max s (kMinMmapSize cfg) / s - 1)
                 else Z.max s (kMinMmapSize cfg) / s) = n).
  { unfold n, n_chunks_of in *. destruct (s <? kPageSize cfg); [|reflexivity].
    apply wrap_small. split; [lia|].
    assert (Z.max s (kMinMmapSize cfg) / s <= Z.max s (kMinMmapSize cfg));
      [|lia].
    apply Z.div_le_upper_bound; [lia|]. nia. }
  assert (Hm' : (if s <? kPageSize cfg then Z.max s (kMinMmapSize cfg)
                 else wrap cfg (Z.max s (kMinMmapSize cfg) + kPageSize cfg)) = msz).
  { unfold msz, mmap_size_of in *. destruct (s <? kPageSize cfg); [reflexivity|].
    apply wrap_small. lia. }
  rewrite Hn', Hm'.
  replace (n >? 0) with true by (symmetry; apply Z.gtb_lt; exact Hn).
  erewrite bind_Ret by reflexivity.
  destruct (Mmap_outcome cfg Hcfg msz w Hmsz Hmal)
    as [(Hf & c & w' & Hr & Ho)|(Hf & H1 & H2 & H3 & H4 & evs & Hr)].
  - fold mem in Hf. left. exists c, w'. split.
    + apply bind_Abort. exact Hr.
    + left. split; assumption.
  - fold mem in Hf, H1, H2, H3, H4, Hr.
    rewrite (bind_Ret _ _ _ _ _ Hr).
    match goal with |- context [bind (stats_Log2 cfg s) _ ?w1] =>
      destruct (stats_Log2_cases s w1) as [Hst|(Hst1 & Hst2 & Hst)]
    end.
    2:{ left. eexists _, _. split; [apply bind_Abort; exact Hst|].
        right. left. repeat split; assumption. }
    rewrite (bind_Ret _ _ _ _ _ Hst).
    match goal with |- context [bind (GetNewChunks_loop ?a ?b ?c ?d ?e ?f) _ ?w1] =>
      destruct (GetNewChunks_loop_spec a b c Hpos d e f w1) as (h' & Hl & Hout & Hin)
    end.
    assert (Hres : match Z.to_nat n with
                   | O => 0
                   | S n' => mem + (0 + Z.of_nat n') * s
                   end = mem + (n - 1) * s).
    { destruct (Z.to_nat n) eqn:Hz; [lia|]. f_equal. f_equal. lia. }
    rewrite Hres in Hl. rewrite Z2Nat.id in Hout, Hin by lia.
    cbn [heap] in Hout.
    assert (Hrec : negb (mem + n * s + sizeof_PageGroup cfg <=? mem + msz) = false).
    { apply Bool.negb_false_iff, Z.leb_le.
      assert (Hpg : sizeof_PageGroup cfg <= sizeof_ChunkBase cfg)
        by (unfold sizeof_PageGroup, sizeof_ChunkBase; destruct (WORDSIZE =? 32); lia).
      assert (Hpg' : sizeof_PageGroup cfg <= 24)
        by (unfold sizeof_PageGroup; destruct (WORDSIZE =? 32); lia).
      assert (Hpage : 64 <= kPageSize cfg).
      { rewrite Hp. change 64 with (2 ^ 6). apply Z.pow_le_mono_r; lia. }
      unfold n, msz, n_chunks_of, mmap_size_of in *.
      destruct (s <? kPageSize cfg); nia. }
    destruct (Z_lt_le_dec (n_page_groups_ mi) (page_groups_capacity cfg)) as [Hcap|Hcap].
    + right. repeat split; try assumption. exists h', evs.
      split; [|split; [exact Hout|exact Hin]].
      erewrite bind_Ret by exact Hl.
      rewrite Hrec.
      erewrite bind_Ret by reflexivity.
      erewrite bind_Ret by reflexivity.
      erewrite bind_Ret by reflexivity.
      cbn [malloc_info with_heap]. fold mi.
      replace (n_page_groups_ mi <? page_groups_capacity cfg) with true
        by (symmetry; apply Z.ltb_lt; exact Hcap).
      erewrite bind_Ret by reflexivity.
      erewrite bind_Ret by reflexivity.
      erewrite bind_Ret by reflexivity.
      rewrite (wrap_small cfg (mem + msz)) by lia.
      reflexivity.
    + left. eexists _, _. split.
      * erewrite bind_Ret by exact Hl.
        rewrite Hrec.
        erewrite bind_Ret by reflexivity.
        erewrite bind_Ret by reflexivity.
        erewrite bind_Ret by reflexivity.
        cbn [malloc_info with_heap]. fold mi.
        replace (n_page_groups_ mi <? page_groups_capacity cfg) with false
          by (symmetry; apply Z.ltb_ge; exact Hcap).
        erewrite bind_Abort by reflexivity. reflexivity.
      * right. right. split; [reflexivity|]. split; [exact Hcap|reflexivity].
Qed.

End Refill3.

Lemma carved_length mem s n : List.length (carved mem s n) = n.
Proof. induction n; simpl; congruence. Qed.

Lemma carved_elem mem s n a :
  a ∈ carved mem s n <-> exists k, 0 <= k < Z.of_nat n /\ a = mem + k * s.
Proof.
  induction n as [|n IH]; simpl.
  - split; [intros H; inversion H|intros (k & Hk & _); lia].
  - rewrite elem_of_cons, IH. split.
    + intros [->|(k & Hk & ->)]; [exists (Z.of_nat n)|exists k]; split; try reflexivity; lia.
    + intros (k & Hk & ->).
      destruct (Z.eq_dec k (Z.of_nat n)) as [->|]; [left; reflexivity|].
      right. exists k. split; [lia|reflexivity].
Qed.

Lemma carved_NoDup mem s n : 0 < s -> NoDup (carved mem s n).
Proof.
  intros Hs. induction n as [|n IH]; simpl; constructor; [|exact IH].
  rewrite carved_elem. intros (k & Hk & Heq).
  assert (Z.of_nat n * s = k * s) by lia. nia.
Qed.

Lemma carved_lseg h mem s n :
  0 < mem -> 0 < s ->
  (forall k, 0 <= k < Z.of_nat n ->
     next (hdr h (mem + k * s)) = if k =? 0 then 0 else mem + (k - 1) * s) ->
  lseg h (match n with O => 0 | S n' => mem + Z.of_nat n' * s end) (carved mem s n).
Proof.
  intros Hm Hs. induction n as [|n IH]; intros Hn; simpl.
  - reflexivity.
  - split; [reflexivity|]. split; [nia|].
    rewrite Hn by lia.
    destruct n as [|n'].
    + simpl. reflexivity.
    + replace (Z.of_nat (S n') =? 0) with false by (symmetry; apply Z.eqb_neq; lia).
      replace (Z.of_nat (S n') - 1) with (Z.of_nat n') by lia.
      apply IH. intros k Hk. apply Hn. lia.
Qed.

Section RefillInvariant.
Variable cfg : Config.
Local Abbreviation REDZONE := (__asan_flag_redzone cfg).
Local Abbreviation WORDSIZE := (__WORDSIZE cfg).

Hypothesis Hcfg : cfg_ok cfg.

Lemma redzone_pos : 0 < REDZONE.
Proof. destruct (cfg_redzone cfg Hcfg) as (r & _ & _ & H & _). lia. Qed.

Lemma pg_ok_mono maps maps' g :
  (forall x, x ∈ maps -> x ∈ maps') -> pg_ok cfg maps g -> pg_ok cfg maps' g.
Proof. intros Hsub [H1 H2 H3 H4 H5 H6]. constructor; auto. Qed.

(** Registering the page group of a fresh mapping keeps the invariant. *)
Lemma wf_st_add_pg h mi ms maps G live g :
  wf_st cfg h mi ms maps G live ->
  pg_ok cfg ((beg g, end_ g - beg g) :: maps) g ->
  (forall a n, (a, n) ∈ maps -> end_ g <= a \/ a + n <= beg g) ->
  wf_st cfg h
    (mkMallocInfo (free_lists_ mi) (quarantine_ mi)
       (upd (page_groups_ mi) (n_page_groups_ mi) g) (n_page_groups_ mi + 1))
    ms ((beg g, end_ g - beg g) :: maps) G live.
Proof.
  intros Hwf Hg Hfresh.
  set (mi' := mkMallocInfo _ _ _ _).
  pose proof (wf_registry _ _ _ _ _ _ _ Hwf) as (Hn & Hok & Hdis).
  assert (Hold : forall i, 0 <= i < n_page_groups_ mi ->
                           page_groups_ mi' i = page_groups_ mi i).
  { intros i Hi. unfold mi', upd. simpl.
    destruct (i =? n_page_groups_ mi) eqn:E; [apply Z.eqb_eq in E; lia|reflexivity]. }
  assert (Hnew : page_groups_ mi' (n_page_groups_ mi) = g).
  { unfold mi', upd. simpl. rewrite Z.eqb_refl. reflexivity. }
  assert (Hle : n_page_groups_ mi <= n_page_groups_ mi') by (simpl; lia).
  assert (Hsep : forall i, 0 <= i < n_page_groups_ mi ->
            end_ (page_groups_ mi i) <= beg g \/ end_ g <= beg (page_groups_ mi i)).
  { intros i Hi. pose proof (pg_mapped _ _ _ (Hok i Hi)) as Hm.
    destruct (Hfresh _ _ Hm); lia. }
  destruct Hwf as [H1 H2 H3 H4 H5 H6 H7 H8 H9 H10 H11].
  constructor; try assumption.
  - split; [simpl; lia|]. split.
    + intros i Hi. simpl in Hi.
      destruct (Z.eq_dec i (n_page_groups_ mi)) as [->|].
      * rewrite Hnew. exact Hg.
      * rewrite Hold by lia. eapply pg_ok_mono; [|apply Hok; lia].
        intros x Hx. apply elem_of_cons. right. exact Hx.
    + intros i j Hi Hj Hij. simpl in Hi, Hj.
      destruct (Z.eq_dec i (n_page_groups_ mi)) as [->|];
        destruct (Z.eq_dec j (n_page_groups_ mi)) as [->|].
      * contradiction.
      * rewrite Hnew, Hold by lia. destruct (Hsep j); [lia| |]; lia.
      * rewrite Hnew, Hold by lia. destruct (Hsep i); [lia| |]; lia.
      * rewrite !Hold by lia. apply Hdis; lia.
  - intros c a Ha. destruct (H4 c a Ha) as [Hs Hc]. split; [exact Hs|].
    eapply chunk_ok_grow; eassumption.
  - intros a Ha. destruct (H8 a Ha) as [Hs Hc]. split; [exact Hs|].
    eapply chunk_ok_grow; eassumption.
  - intros p n Hp. destruct (H10 p n Hp) as (Ha & Hu & s & Hs & Hb & Hr).
    split; [exact Ha|]. split; [exact Hu|]. exists s. split; [exact Hs|].
    split; [|exact Hr]. eapply is_base_grow; eassumption.
Qed.

End RefillInvariant.

Section RefillSpec.
Variable cfg : Config.
Local Abbreviation REDZONE := (__asan_flag_redzone cfg).
Local Abbreviation WORDSIZE := (__WORDSIZE cfg).

Hypothesis Hcfg : cfg_ok cfg.

(** A chunk size below [sizeof(PageGroup)]: the record of the page group
    runs past the end of the mapping, and the store faults. *)
Lemma GetNewChunks_record_past_end sc s w :
  SizeClassToSize cfg sc = Some s -> 0 < s -> s < sizeof_PageGroup cfg ->
  __asan_flag_stats cfg = 0 \/ IsPowerOfTwo cfg s = true ->
  os_mmap cfg (mappings w) (mmap_size_of cfg s) <> MAP_FAILED cfg ->
  exists w', GetNewChunks cfg sc w = Abort MemoryFault w' /\
             malloc_info w' = malloc_info w.
Proof.
  intros Hsc Hpos Hsmall Hst Hmem.
  set (msz := mmap_size_of cfg s) in *.
  set (n := n_chunks_of cfg s).
  destruct (cfg_word cfg Hcfg) as [Hw Hw32].
  destruct (cfg_page cfg Hcfg) as (pk & Hpk & Hp & Hm).
  destruct (refill_arith cfg Hcfg sc s Hsc Hpos)
    as (Hc1 & Hdiv & Hn & Hns & Hmax & Hmsz & Hmal & Hfit & _).
  unfold GetNewChunks.
  rewrite Hsc. erewrite bind_Ret by reflexivity.
  assert (Hkp : IsPowerOfTwo cfg (kMinMmapSize cfg) = true).
  { rewrite Hm. apply IsPowerOfTwo_pow2. lia. }
  rewrite Hkp. erewrite bind_Ret by reflexivity.
  rewrite Hc1. erewrite bind_Ret by reflexivity.
  rewrite Z.mul_comm in Hdiv.
  assert (Hc2 : (wrap cfg (Z.max s (kMinMmapSize cfg) / s * s)
                 =? Z.max s (kMinMmapSize cfg)) = true).
  { rewrite (Z.mul_comm _ s), Hdiv. rewrite wrap_small by lia. apply Z.eqb_refl. }
  rewrite Hc2. erewrite bind_Ret by reflexivity.
  assert (Hn' : (if s <? kPageSize cfg
                 then wrap cfg (Z.max s (kMinMmapSize cfg) / s - 1)
                 else Z.max s (kMinMmapSize cfg) / s) = n).
  { unfold n, n_chunks_of in *. destruct (s <? kPageSize cfg); [|reflexivity].
    apply wrap_small. split; [lia|].
    assert (Z.max s (kMinMmapSize cfg) / s <= Z.max s (kMinMmapSize cfg));
      [|lia].
    apply Z.div_le_upper_bound; [lia|]. nia. }
  assert (Hm' : (if s <? kPageSize cfg then Z.max s (kMinMmapSize cfg)
                 else wrap cfg (Z.max s (kMinMmapSize cfg) + kPageSize cfg)) = msz).
  { unfold msz, mmap_size_of in *. destruct (s <? kPageSize cfg); [reflexivity|].
    apply wrap_small. lia. }
  rewrite Hn', Hm'.
  replace (n >? 0) with true by (symmetry; apply Z.gtb_lt; exact Hn).
  erewrite bind_Ret by reflexivity.
  destruct (Mmap_outcome cfg Hcfg msz w Hmsz Hmal)
    as [(Hf & _)|(_ & H1 & H2 & H3 & H4 & evs & Hr)]; [contradiction|].
  rewrite (bind_Ret _ _ _ _ _ Hr).
  match goal with |- context [bind (stats_Log2 cfg s) _ ?w1] =>
    destruct (stats_Log2_cases cfg s w1) as [Hs|(Hs1 & Hs2 & _)]
  end.
  2:{ destruct Hst; [contradiction|congruence]. }
  rewrite (bind_Ret _ _ _ _ _ Hs).
  match goal with |- context [bind (GetNewChunks_loop ?a ?b ?c ?d ?e ?f) _ ?w1] =>
    destruct (GetNewChunks_loop_spec a b c Hpos d e f w1) as (h' & Hl & _)
  end.
  erewrite bind_Ret by exact Hl.
  assert (Hrec : negb (os_mmap cfg (mappings w) msz + n * s + sizeof_PageGroup cfg
                       <=? os_mmap cfg (mappings w) msz + msz) = true).
  { apply Bool.negb_true_iff, Z.leb_gt.
    assert (Hpg' : sizeof_PageGroup cfg <= 24)
      by (unfold sizeof_PageGroup; destruct (WORDSIZE =? 32); lia).
    assert (Hpage : 64 <= kPageSize cfg).
    { rewrite Hp. change 64 with (2 ^ 6). apply Z.pow_le_mono_r; lia. }
    unfold n, msz, n_chunks_of, mmap_size_of in *.
    destruct (Z.ltb_spec s (kPageSize cfg)); [|lia].
    assert (Z.max s (kMinMmapSize cfg) = (Z.max s (kMinMmapSize cfg) / s - 1) * s + s)
      by lia.
    lia. }
  rewrite Hrec.
  eexists. split.
  - erewrite bind_Abort; reflexivity.
  - reflexivity.
Qed.

(** C8 (as the code has it): for a size class sc whose chunk size, unit,
    is at least sizeof(ChunkBase), when the mapping succeeds, the registry
    has room and the statistics are off or unit is a power of two,
    [GetNewChunks sc] returns a list of max(unit, kMinMmapSize) / unit - 1
    chunks when unit is below the page size, and of
    max(unit, kMinMmapSize) / unit chunks otherwise, the mapping being one
    page longer in that case; every chunk of the list is Available and of
    class sc; one page group is added, which covers the whole mapping and
    has unit as its chunk size. *)
Theorem GetNewChunks_refill sc unit w :
  SizeClassToSize cfg sc = Some unit -> sizeof_ChunkBase cfg <= unit ->
  __asan_flag_stats cfg = 0 \/ IsPowerOfTwo cfg unit = true ->
  let n := if unit <? kPageSize cfg
           then Z.max unit (kMinMmapSize cfg) / unit - 1
           else Z.max unit (kMinMmapSize cfg) / unit in
  let msz := if unit <? kPageSize cfg
             then Z.max unit (kMinMmapSize cfg)
             else Z.max unit (kMinMmapSize cfg) + kPageSize cfg in
  let mem := os_mmap cfg (mappings w) msz in
  mem <> MAP_FAILED cfg ->
  n_page_groups_ (malloc_info w) < page_groups_capacity cfg ->
  exists res w' cells,
    GetNewChunks cfg sc w = Ret res w' /\
    lseg (heap w') res cells /\
    Z.of_nat (List.length cells) = n /\
    (forall a, a ∈ cells ->
       chunk_state (hdr (heap w') a) = CHUNK_AVAILABLE /\
       size_class (hdr (heap w') a) = sc) /\
    n_page_groups_ (malloc_info w') = n_page_groups_ (malloc_info w) + 1 /\
    page_groups_ (malloc_info w') (n_page_groups_ (malloc_info w)) =
      mkPageGroup mem (mem + msz) unit /\
    (forall i, i <> n_page_groups_ (malloc_info w) ->
       page_groups_ (malloc_info w') i = page_groups_ (malloc_info w) i) /\
    mappings w' = (mem, msz) :: mappings w.
Proof.
  intros Hsc Hhdr Hst n msz mem Hmem Hcap.
  assert (Hpos : 0 < unit)
    by (unfold sizeof_ChunkBase in Hhdr; destruct (WORDSIZE =? 32); lia).
  destruct (refill_arith cfg Hcfg sc unit Hsc Hpos) as (_ & _ & Hn & _).
  destruct (GetNewChunks_outcome cfg Hcfg sc unit w Hsc Hpos Hhdr)
    as [(c & w' & Hr & Hab)|(_ & _ & Hm0 & _ & _ & _ & h' & evs & Hr & Hout & Hin)].
  { exfalso. destruct Hab as [(Hf & _)|[(_ & Hs1 & Hs2)|(_ & Hc & _)]].
    - exact (Hmem Hf).
    - destruct Hst; [contradiction|congruence].
    - lia. }
  change (n_chunks_of cfg unit) with n in Hn, Hr, Hin, Hout.
  change (mmap_size_of cfg unit) with msz in Hm0, Hr, Hin, Hout.
  change (os_mmap cfg (mappings w) msz) with mem in Hm0, Hr, Hin, Hout.
  eexists _, _, (carved mem unit (Z.to_nat n)).
  split; [exact Hr|]. cbn [heap malloc_info mappings n_page_groups_ page_groups_].
  split; [|split; [|split; [|split; [|split; [|split]]]]].
  - assert (Hhead : mem + (n - 1) * unit =
                    match Z.to_nat n with
                    | O => 0
                    | S n' => mem + Z.of_nat n' * unit
                    end).
    { destruct (Z.to_nat n) eqn:Hz; [lia|]. f_equal. f_equal. lia. }
    rewrite Hhead. apply carved_lseg; [assumption|assumption|].
    intros k Hk. apply Hin. lia.
  - rewrite carved_length. lia.
  - intros a Ha. apply carved_elem in Ha as (k & Hk & ->).
    destruct (Hin k) as (H1 & H2 & _); [lia|]. split; assumption.
  - reflexivity.
  - apply upd_eq.
  - intros i Hi. apply upd_ne. exact Hi.
  - reflexivity.
Qed.

Lemma cell_in_old_range h mi ms maps G live c x :
  wf_st cfg h mi ms maps G live ->
  x ∈ l_free G c ++ g_free G c ++ t_free G c ->
  exists i, 0 <= i < n_page_groups_ mi /\
            beg (page_groups_ mi i) <= x < end_ (page_groups_ mi i).
Proof.
  intros Hwf Hx.
  pose proof (wf_registry _ _ _ _ _ _ _ Hwf) as Hreg.
  destruct (wf_free_cells _ _ _ _ _ _ _ Hwf c x Hx) as (_ & _ & s & _ & Hb).
  destruct (base_in_group cfg mi maps _ _ Hreg Hb)
    as (i & Hi & _ & Hs & Hlo & Hhi & _).
  exists i. split; [assumption|lia].
Qed.

Lemma fresh_not_old mi maps mem msz x :
  registry_ok cfg mi maps ->
  (forall a k, (a, k) ∈ maps -> mem + msz <= a \/ a + k <= mem) ->
  mem <= x < mem + msz ->
  ~ (exists i, 0 <= i < n_page_groups_ mi /\
               beg (page_groups_ mi i) <= x < end_ (page_groups_ mi i)).
Proof.
  intros (_ & Hok & _) Hfresh Hx (i & Hi & Hr).
  pose proof (pg_mapped _ _ _ (Hok i Hi)) as Hm.
  destruct (Hfresh _ _ Hm); lia.
Qed.

(** [GetNewChunks]: the invariant is kept, and the new chunks are held by
    the local variable the list is returned to. *)
Lemma GetNewChunks_wp sc s w G live (Q : Z -> World -> Prop) :
  wf cfg w G live -> SizeClassToSize cfg sc = Some s -> 0 < s ->
  sizeof_ChunkBase cfg <= s ->
  (forall res w' cells,
     cells <> [] -> lseg (heap w') res cells ->
     wf cfg w' (set_l_free G sc (cells ++ l_free G sc)) live ->
     (forall c x, x ∈ l_free G c ++ g_free G c ++ t_free G c ->
        hdr (heap w') x = hdr (heap w) x) ->
     free_lists_ (malloc_info w') = free_lists_ (malloc_info w) ->
     tl_current_thread w' = tl_current_thread w ->
     Q res w') ->
  wp (alloc_abort cfg) False (GetNewChunks cfg sc) Q w.
Proof.
  intros Hwf Hsc Hpos Hhdr HQ. unfold wp.
  pose proof (redzone_pos cfg Hcfg) as HR.
  destruct (refill_arith cfg Hcfg sc s Hsc Hpos)
    as (_ & _ & Hn & Hns & _ & Hmsz & _ & Hfit & j & Hj & Hsj & Hpj & Hjj).
  destruct (GetNewChunks_outcome cfg Hcfg sc s w Hsc Hpos Hhdr)
    as [(c & w' & Hr & Hab)
       |(_ & Hcap & Hm0 & Hmal & Hmw & Hfresh & h' & evs & Hr & Hout & Hin)];
    rewrite Hr.
  { destruct Hab as [(_ & [(-> & Ho)|(-> & Ho)])|[(-> & Hs1 & _)|(-> & Hc & Hn')]].
    - left. split; [reflexivity|exact Ho].
    - right. left. split; [reflexivity|exact Ho].
    - right. right. split; [reflexivity|]. right. exact Hs1.
    - right. right. split; [reflexivity|]. left. lia. }
  set (n := n_chunks_of cfg s) in *.
  set (msz := mmap_size_of cfg s) in *.
  set (mem := os_mmap cfg (mappings w) msz) in *.
  set (cells := carved mem s (Z.to_nat n)).
  assert (Hcells : forall a, a ∈ cells <-> exists k, 0 <= k < n /\ a = mem + k * s).
  { intros a. unfold cells. rewrite carved_elem. rewrite Z2Nat.id by lia. reflexivity. }
  assert (Hin_new : forall a, a ∈ cells -> mem <= a < mem + msz).
  { intros a Ha. apply Hcells in Ha as (k & Hk & ->).
    pose proof (mul_index_bounds k n s Hk Hpos). lia. }
  pose proof (wf_registry _ _ _ _ _ _ _ Hwf) as Hreg.
  (* the headers the invariant reads are unchanged *)
  assert (Hold : forall x,
            (exists i, 0 <= i < n_page_groups_ (malloc_info w) /\
               beg (page_groups_ (malloc_info w) i) <= x
                 < end_ (page_groups_ (malloc_info w) i)) ->
            hdr h' x = hdr (heap w) x).
  { intros x Hx. apply Hout. intros k Hk ->.
    eapply fresh_not_old; [exact Hreg|exact Hfresh| |exact Hx].
    pose proof (mul_index_bounds k n s Hk Hpos). fold msz. lia. }
  apply (HQ _ _ cells).
  - unfold cells. destruct (Z.to_nat n) eqn:Hz; [lia|]. discriminate.
  - cbn [heap].
    assert (Hhead : mem + (n - 1) * s =
                    match Z.to_nat n with
                    | O => 0
                    | S n' => mem + Z.of_nat n' * s
                    end).
    { destruct (Z.to_nat n) eqn:Hz; [lia|]. f_equal. f_equal. lia. }
    rewrite Hhead. apply carved_lseg; [assumption|assumption|].
    intros k Hk. apply Hin. lia.
  - unfold wf, tls in *. cbn [heap malloc_info tl_current_thread mappings].
    assert (Hwf1 : wf_st cfg h' (malloc_info w)
                     (option_map malloc_storage_ (tl_current_thread w))
                     (mappings w) G live).
    { eapply wf_st_heap_agree; [exact HR|exact Hwf| |].
      - intros x Hx. apply Hold. eapply footprint_in_registry; eassumption.
      - intros c x Hx. rewrite Hold; [split; reflexivity|].
        eapply cell_in_old_range; [exact Hwf|].
        apply elem_of_app. left. exact Hx. }
    set (g := mkPageGroup mem (mem + msz) s).
    assert (Hwf2 := wf_st_add_pg cfg h' (malloc_info w) _ (mappings w) G live g Hwf1).
    cbn [beg end_ g] in Hwf2.
    replace (mem + msz - mem) with msz in Hwf2 by lia.
    assert (Hg : pg_ok cfg ((mem, msz) :: mappings w) g).
    { constructor; cbn [beg end_ size_of_chunk g].
      - assumption.
      - assumption.
      - change (mem + n * s < mem + msz). lia.
      - lia.
      - exists j. split; [exact Hj|]. split; [|split; assumption].
        assert (0 < kPageSize cfg).
        { destruct (cfg_page cfg Hcfg) as (kp & Hkp & Hpp & _).
          rewrite Hpp. apply Z.pow_pos_nonneg; lia. }
        apply Z.mod_divide in Hmal; [|lia].
        apply Z.mod_divide in Hpj; [|apply Z.pow_nonzero; lia].
        apply Z.mod_divide; [apply Z.pow_nonzero; lia|].
        eapply Z.divide_trans; eassumption.
      - replace (mem + msz - mem) with msz by lia.
        apply elem_of_cons. left. reflexivity. }
    specialize (Hwf2 Hg Hfresh).
    set (mi' := mkMallocInfo _ _ _ _) in *.
    destruct Hwf2 as [H1 H2 H3 H4 H5 H6 H7 H8 H9 H10 H11].
    assert (Hnew_idx : page_groups_ mi' (n_page_groups_ (malloc_info w)) = g)
      by (apply upd_eq).
    constructor; try assumption.
    + (* cells *)
      intros c a Ha. cbn [l_free g_free t_free set_l_free] in Ha.
      destruct (Z.eq_dec c sc) as [->|Hne].
      * rewrite upd_eq in Ha. rewrite <- app_assoc in Ha.
        apply elem_of_app in Ha as [Ha|Ha]; [|apply H4; exact Ha].
        apply Hcells in Ha as (k & Hk & ->).
        destruct (Hin k Hk) as (Hs1 & Hs2 & _).
        split; [exact Hs1|]. split; [exact Hs2|].
        exists s. split; [exact Hsc|].
        exists (n_page_groups_ (malloc_info w)), k.
        rewrite Hnew_idx. cbn [size_of_chunk beg g mi' n_page_groups_].
        pose proof (proj1 Hreg) as Hn0.
        repeat split; try lia; try exact Hk.
      * rewrite upd_ne in Ha by exact Hne. apply H4. exact Ha.
    + intros c. cbn [l_free g_free t_free set_l_free].
      destruct (Z.eq_dec c sc) as [->|Hne].
      * rewrite upd_eq. rewrite <- app_assoc. apply NoDup_app.
        split; [apply carved_NoDup; exact Hpos|]. split; [|apply H5].
        intros a Ha Hold'.
        eapply fresh_not_old; [exact Hreg|exact Hfresh|apply Hin_new; exact Ha|].
        eapply cell_in_old_range; [exact Hwf|exact Hold'].
      * rewrite upd_ne by exact Hne. apply H5.
  - intros c x Hx. cbn [heap]. apply Hold.
    eapply cell_in_old_range; [exact Hwf|exact Hx].
  - reflexivity.
  - reflexivity.
Qed.

Lemma wp_mono {A : Type} (E E' : AbortCause -> World -> Prop) (D D' : Prop)
  (m : M A) (Q Q' : A -> World -> Prop) w :
  wp E D m Q w ->
  (forall c w', E c w' -> E' c w') -> (D -> D') ->
  (forall a w', Q a w' -> Q' a w') ->
  wp E' D' m Q' w.
Proof. unfold wp. destruct (m w); auto. Qed.

End RefillSpec.

Section AllocChunks.
Variable cfg : Config.
Local Abbreviation REDZONE := (__asan_flag_redzone cfg).
Local Abbreviation WORDSIZE := (__WORDSIZE cfg).

Hypothesis Hcfg : cfg_ok cfg.

(** Moving chunks between the lists of one size class. *)
Lemma wf_st_regroup h mi ms maps G live fl ms' G' :
  wf_st cfg h mi ms maps G live ->
  g_quar G' = g_quar G -> t_quar G' = t_quar G ->
  match ms, ms' with
  | Some x, Some x' => tl_quarantine_ x' = tl_quarantine_ x
  | None, None => True
  | _, _ => False
  end ->
  (forall c, lseg h (fl c) (g_free G' c)) ->
  (forall c, match ms' with
             | Some x => lseg h (tl_free_lists_ x c) (t_free G' c)
             | None => t_free G' c = []
             end) ->
  (forall c, l_free G' c ++ g_free G' c ++ t_free G' c ≡ₚ
             l_free G c ++ g_free G c ++ t_free G c) ->
  wf_st cfg h
    (mkMallocInfo fl (quarantine_ mi) (page_groups_ mi) (n_page_groups_ mi))
    ms' maps G' live.
Proof.
  intros Hwf Hgq Htq Hms Hg Ht Hperm.
  eapply wf_st_free_lists; try eassumption.
  - intros c a Ha. rewrite Hperm in Ha.
    exact (wf_free_cells _ _ _ _ _ _ _ Hwf c a Ha).
  - intros c. rewrite Hperm. exact (wf_free_nodup _ _ _ _ _ _ _ Hwf c).
Qed.

Ltac ms_same :=
  match goal with
  | |- match ?x with _ => _ end => destruct x; [reflexivity|exact I]
  end.

(** [AllocateChunks]: [n] more chunks of the class are linked in front of
    the chain [m] that the local variable holds. *)
Lemma AllocateChunks_loop_wp sc s n :
  SizeClassToSize cfg sc = Some s -> 0 < s -> sizeof_ChunkBase cfg <= s ->
  forall m w G live (Q : Z -> World -> Prop),
  wf cfg w G live ->
  lseg (heap w) m (l_free G sc) ->
  (forall t w' G',
     wf cfg w' G' live ->
     (forall c, c <> sc -> l_free G' c = l_free G c) ->
     lseg (heap w') t (l_free G' sc) ->
     List.length (l_free G' sc) = (n + List.length (l_free G sc))%nat ->
     t_free G' = t_free G -> g_quar G' = g_quar G -> t_quar G' = t_quar G ->
     tl_current_thread w' = tl_current_thread w ->
     Q t w') ->
  wp (alloc_abort cfg) False (AllocateChunks_loop cfg sc n m) Q w.
Proof.
  intros Hsc Hpos Hhdr. pose proof (redzone_pos cfg Hcfg) as HR.
  induction n as [|n IH]; intros m w G live Q Hwf Hseg HQ.
  { simpl. apply wp_ret. apply (HQ m w G); auto. }
  cbn [AllocateChunks_loop]. apply wp_bind, wp_gets. apply wp_bind.
  apply (wp_conseq _ _ _
    (fun _ w2 => exists G2,
       wf cfg w2 G2 live /\ l_free G2 = l_free G /\ t_free G2 = t_free G /\
       g_quar G2 = g_quar G /\ t_quar G2 = t_quar G /\
       tl_current_thread w2 = tl_current_thread w /\
       free_lists_ (malloc_info w2) sc <> 0 /\
       (forall x, x ∈ l_free G sc -> hdr (heap w2) x = hdr (heap w) x))).
  { destruct (free_lists_ (malloc_info w) sc =? 0) eqn:E0.
    - apply Z.eqb_eq in E0. apply wp_bind.
      eapply GetNewChunks_wp; [exact Hcfg|exact Hwf|exact Hsc|exact Hpos|exact Hhdr|].
      intros res w1 cells Hne Hsegc Hwf1 Hframe Hfl Hth.
      unfold set_free_list. apply wp_bind, wp_gets. unfold set_malloc_info.
      apply wp_modify.
      assert (Hg0 : g_free G sc = []).
      { pose proof (wf_gfree _ _ _ _ _ _ _ Hwf sc) as Hl. rewrite E0 in Hl.
        eapply lseg_null; exact Hl. }
      exists (mkGhost (l_free G) (upd (g_free G) sc cells) (t_free G)
                (g_quar G) (t_quar G)).
      cbn [l_free g_free t_free g_quar t_quar heap malloc_info tl_current_thread
           free_lists_].
      split; [|repeat (split; [reflexivity|])].
      + unfold wf, tls in *.
        cbn [heap malloc_info tl_current_thread mappings].
        eapply wf_st_regroup; [exact Hwf1|reflexivity|reflexivity|ms_same| | |].
        * intros c. cbn [g_free]. destruct (Z.eq_dec c sc) as [->|Hc].
          -- rewrite !upd_eq. exact Hsegc.
          -- rewrite !upd_ne by exact Hc.
             exact (wf_gfree _ _ _ _ _ _ _ Hwf1 c).
        * exact (wf_tfree _ _ _ _ _ _ _ Hwf1).
        * intros c. cbn [l_free g_free t_free set_l_free].
          destruct (Z.eq_dec c sc) as [->|Hc].
          -- rewrite !upd_eq, Hg0. cbn [app]. rewrite <- app_assoc.
             apply Permutation_app_swap_app.
          -- rewrite !upd_ne by exact Hc. reflexivity.
      + split; [exact Hth|]. split.
        * rewrite upd_eq. destruct cells as [|x rest]; [contradiction|].
          simpl in Hsegc. destruct Hsegc as (-> & Hx & _). exact Hx.
        * intros x Hx. apply (Hframe sc). apply elem_of_app. left. exact Hx.
    - apply Z.eqb_neq in E0. apply wp_ret. exists G.
      repeat (split; [first [exact Hwf|reflexivity|exact E0]|]).
      intros; reflexivity. }
  intros [] w2 (G2 & Hwf2 & Hl2 & Ht2 & Hgq2 & Htq2 & Hth2 & Hne2 & Hfr2).
  apply wp_bind, wp_gets. apply wp_bind, wp_read.
  unfold set_free_list. apply wp_bind. apply wp_bind, wp_gets.
  unfold set_malloc_info. apply wp_modify. apply wp_bind, wp_write.
  apply wp_bind, wp_read.
  set (t := free_lists_ (malloc_info w2) sc) in *.
  destruct (lseg_nonnull _ _ _ Hne2 (wf_gfree _ _ _ _ _ _ _ Hwf2 sc))
    as (rest & Hgc & Hrest).
  set (G3 := mkGhost (upd (l_free G2) sc (t :: l_free G2 sc))
               (upd (g_free G2) sc rest) (t_free G2) (g_quar G2) (t_quar G2)).
  assert (Hperm : forall c, l_free G3 c ++ g_free G3 c ++ t_free G3 c ≡ₚ
                            l_free G2 c ++ g_free G2 c ++ t_free G2 c).
  { intros c. cbn [l_free g_free t_free G3].
    destruct (Z.eq_dec c sc) as [->|Hc].
    - rewrite !upd_eq, Hgc. cbn [app]. apply Permutation_middle.
    - rewrite !upd_ne by exact Hc. reflexivity. }
  (* the ghost move, then the write to the chunk now held locally *)
  assert (Hwf3 : wf_st cfg (heap w2)
            (mkMallocInfo (upd (free_lists_ (malloc_info w2)) sc (next (hdr (heap w2) t)))
               (quarantine_ (malloc_info w2)) (page_groups_ (malloc_info w2))
               (n_page_groups_ (malloc_info w2)))
            (tls w2) (mappings w2) G3 live).
  { eapply wf_st_regroup; [exact Hwf2|reflexivity|reflexivity|ms_same| | |exact Hperm].
    - intros c. cbn [g_free G3]. destruct (Z.eq_dec c sc) as [->|Hc].
      + rewrite !upd_eq. exact Hrest.
      + rewrite !upd_ne by exact Hc. exact (wf_gfree _ _ _ _ _ _ _ Hwf2 c).
    - exact (wf_tfree _ _ _ _ _ _ _ Hwf2). }
  assert (Htl : t ∈ l_free G3 sc).
  { cbn [l_free G3]. rewrite upd_eq. apply elem_of_cons. left. reflexivity. }
  assert (Hwf4 : wf_st cfg (store (heap w2) t (set_next m))
            (mkMallocInfo (upd (free_lists_ (malloc_info w2)) sc (next (hdr (heap w2) t)))
               (quarantine_ (malloc_info w2)) (page_groups_ (malloc_info w2))
               (n_page_groups_ (malloc_info w2)))
            (tls w2) (mappings w2) G3 live).
  { eapply wf_st_heap_agree; [exact HR|exact Hwf3| |].
    - intros x Hx. apply hdr_store_ne. intros <-.
      exact (local_outside cfg _ _ _ _ _ _ _ _ HR Hwf3 Htl Hx).
    - intros c x _. rewrite hdr_store.
      destruct (decide (t = x)) as [<-|]; split; reflexivity. }
  assert (Hst : chunk_state (hdr (store (heap w2) t (set_next m)) t) = CHUNK_AVAILABLE).
  { apply (wf_free_cells _ _ _ _ _ _ _ Hwf4 sc t).
    apply elem_of_app. left. exact Htl. }
  unfold with_heap.
  cbn [heap malloc_info tl_current_thread mappings fifo_next total_mmaped trace].
  apply wp_bind, wp_CHECK.
  2: { intros Hf. rewrite Hst, Z.eqb_refl in Hf. discriminate. }
  intros _.
  eapply (IH t _ G3 live).
  - exact Hwf4.
  - cbn [heap l_free G3]. rewrite upd_eq. simpl. split; [reflexivity|].
    split; [exact Hne2|]. rewrite hdr_store_eq. cbn [next set_next].
    rewrite Hl2.
    eapply lseg_frame; [|exact Hseg].
    intros x Hx. rewrite hdr_store_ne.
    + rewrite Hfr2 by exact Hx. reflexivity.
    + intros <-.
      pose proof (wf_free_nodup _ _ _ _ _ _ _ Hwf2 sc) as Hnd.
      apply NoDup_app in Hnd as (_ & Hnd & _).
      apply (Hnd t); [rewrite Hl2; exact Hx|].
      apply elem_of_app. left. rewrite Hgc. apply elem_of_cons. left. reflexivity.
  - intros t' w' G' Hwf' Hlo Hseg' Hlen Htf Hgq Htq Hth.
    apply (HQ t' w' G'); try assumption.
    + intros c Hc. rewrite Hlo by exact Hc. cbn [l_free G3].
      rewrite upd_ne by exact Hc. rewrite Hl2. reflexivity.
    + rewrite Hlen. cbn [l_free G3]. rewrite upd_eq, Hl2. simpl. lia.
    + rewrite Htf. cbn [t_free G3]. exact Ht2.
    + rewrite Hgq. cbn [g_quar G3]. exact Hgq2.
    + rewrite Htq. cbn [t_quar G3]. exact Htq2.
    + rewrite Hth. cbn [tl_current_thread]. exact Hth2.
Qed.

End AllocChunks.

Section AllocHelpers.
Variable cfg : Config.
Local Abbreviation REDZONE := (__asan_flag_redzone cfg).
Local Abbreviation WORDSIZE := (__WORDSIZE cfg).

Hypothesis Hcfg : cfg_ok cfg.

(** Every address inside a chunk that no list and no live pointer holds
    is outside the footprint. *)
Lemma body_outside h mi ms maps G live m s y :
  wf_st cfg h mi ms maps G live -> is_base cfg mi m s ->
  ~ in_footprint cfg h G live m -> m <= y < m + s ->
  ~ in_footprint cfg h G live y.
Proof.
  intros Hwf Hb Hm Hy Hin.
  pose proof (redzone_pos cfg Hcfg) as HR.
  pose proof (wf_registry _ _ _ _ _ _ _ Hwf) as Hreg.
  destruct (Z.eq_dec y m) as [->|Hne]; [exact (Hm Hin)|].
  assert (Hnb : forall s', ~ is_base cfg mi y s').
  { intros s'. eapply inside_not_base; [exact Hreg|exact Hb|lia]. }
  destruct Hin as [(c & Hx)|[Hx|(p & n & Hp & Hx)]].
  - assert (Hx' : y ∈ l_free G c ++ g_free G c ++ t_free G c)
      by (apply elem_of_app; right; exact Hx).
    destruct (wf_free_cells _ _ _ _ _ _ _ Hwf c y Hx') as (_ & _ & s' & _ & Hb').
    exact (Hnb s' Hb').
  - destruct (wf_quar_cells _ _ _ _ _ _ _ Hwf y Hx) as (_ & _ & s' & _ & Hb').
    exact (Hnb s' Hb').
  - destruct (wf_live _ _ _ _ _ _ _ Hwf p n Hp) as (_ & _ & s' & _ & Hb' & Hr).
    destruct Hx as [Hx|Hx].
    + rewrite <- Hx in Hb'. exact (Hnb s' Hb').
    + destruct (Z.eq_dec m (PtrToChunk cfg h p)) as [He|He].
      * apply Hm. right. right. exists p, n. split; [exact Hp|]. left. exact He.
      * destruct (bases_disjoint cfg mi maps _ _ _ _ Hreg Hb Hb' He); lia.
Qed.

Lemma wf_st_clear_local h mi ms maps G live :
  wf_st cfg h mi ms maps G live ->
  wf_st cfg h mi ms maps
    (mkGhost (fun _ => []) (g_free G) (t_free G) (g_quar G) (t_quar G)) live.
Proof.
  intros [H1 H2 H3 H4 H5 H6 H7 H8 H9 H10 H11]. constructor; try assumption.
  - intros c a Ha. apply H4. apply elem_of_app. right. exact Ha.
  - intros c. specialize (H5 c). apply NoDup_app in H5 as (_ & _ & H5). exact H5.
Qed.

Lemma wf_st_add_live h mi ms maps G live p n :
  wf_st cfg h mi ms maps G live ->
  live_ok cfg h mi p n ->
  PtrToChunk cfg h p ∉ map (fun x => PtrToChunk cfg h (fst x)) live ->
  wf_st cfg h mi ms maps G ((p, n) :: live).
Proof.
  intros [H1 H2 H3 H4 H5 H6 H7 H8 H9 H10 H11] Hl Hn. constructor; try assumption.
  - intros q k Hq. apply elem_of_cons in Hq as [Hq|Hq]; [|apply H10; exact Hq].
    injection Hq as -> ->. exact Hl.
  - simpl. apply NoDup_cons. split; assumption.
Qed.

Lemma FindPageGroupUnlocked_loop_complete mi addr n i j :
  i <= j < i + Z.of_nat n ->
  PageGroup_InRange (page_groups_ mi j) addr = true ->
  FindPageGroupUnlocked_loop mi addr n i <> None.
Proof.
  revert i. induction n as [|n IH]; intros i Hj Hin; [lia|].
  simpl. destruct (PageGroup_InRange (page_groups_ mi i) addr) eqn:E; [discriminate|].
  apply IH; [|exact Hin].
  assert (i <> j) by (intros ->; congruence). lia.
Qed.

Lemma FindPageGroupUnlocked_complete mi addr j :
  0 <= j < n_page_groups_ mi ->
  beg (page_groups_ mi j) <= addr < end_ (page_groups_ mi j) ->
  FindPageGroupUnlocked mi addr <> None.
Proof.
  intros Hj Hin. unfold FindPageGroupUnlocked.
  apply (FindPageGroupUnlocked_loop_complete mi addr _ 0 j); [lia|].
  unfold PageGroup_InRange. apply andb_true_intro. split.
  - apply Z.geb_le. lia.
  - apply Z.ltb_lt. lia.
Qed.

(** A live pointer is inside a registered page group. *)
Lemma live_FindPageGroup h mi ms maps G live p n :
  wf_st cfg h mi ms maps G live -> (p, n) ∈ live ->
  FindPageGroupUnlocked mi p <> None.
Proof.
  intros Hwf Hp.
  pose proof (redzone_pos cfg Hcfg) as HR.
  pose proof (wf_registry _ _ _ _ _ _ _ Hwf) as Hreg.
  destruct (live_ptr_bounds cfg h mi maps p n HR Hreg
              (wf_live _ _ _ _ _ _ _ Hwf p n Hp))
    as (_ & i & Hi & H1 & H2 & H3).
  apply (FindPageGroupUnlocked_complete mi p i Hi). lia.
Qed.

(** Chunks of at least two redzones start at a multiple of two redzones. *)
Lemma base_aligned mi maps m s :
  registry_ok cfg mi maps -> is_base cfg mi m s -> 2 * REDZONE <= s ->
  m mod (2 * REDZONE) = 0.
Proof.
  intros (Hn & Hok & _) (i & k & Hi & Hs & Hk & ->) Hle.
  destruct (cfg_redzone cfg Hcfg) as (r & Hr & HR & _ & Hrp).
  destruct (cfg_page cfg Hcfg) as (kp & Hkp & Hp & _).
  destruct (Hok i Hi) as [_ _ _ _ (j & Hj & Hbj & Hsj & Hjj) _].
  rewrite Hs in *.
  assert (H2R : 2 * REDZONE = 2 ^ (r + 1)).
  { rewrite HR, Z.pow_add_r by lia. lia. }
  rewrite H2R in *.
  assert (Hrj : r + 1 <= j).
  { apply (Z.pow_le_mono_r_iff 2); [lia|lia|].
    destruct Hjj as [->| ->]; [exact Hle|exact Hrp]. }
  assert (Hb0 : beg (page_groups_ mi i) mod 2 ^ (r + 1) = 0)
    by (apply (mod_pow2_le _ (r + 1) j); [lia|exact Hbj]).
  assert (Hs0 : s mod 2 ^ (r + 1) = 0)
    by (apply (mod_pow2_le _ (r + 1) j); [lia|exact Hsj]).
  assert (Hnz : 2 ^ (r + 1) <> 0) by (apply Z.pow_nonzero; lia).
  apply Z.mod_divide in Hb0; [|exact Hnz].
  apply Z.mod_divide in Hs0; [|exact Hnz].
  apply Z.mod_divide; [exact Hnz|].
  apply Z.divide_add_r; [exact Hb0|]. apply Z.divide_mul_r. exact Hs0.
Qed.

End AllocHelpers.

Section Acquire.
Variable cfg : Config.
Local Abbreviation REDZONE := (__asan_flag_redzone cfg).
Local Abbreviation WORDSIZE := (__WORDSIZE cfg).

Hypothesis Hcfg : cfg_ok cfg.

Lemma wf_st_regroup_tl h mi ms maps G live ms' G' :
  wf_st cfg h mi ms maps G live ->
  g_quar G' = g_quar G -> t_quar G' = t_quar G ->
  match ms, ms' with
  | Some x, Some x' => tl_quarantine_ x' = tl_quarantine_ x
  | None, None => True
  | _, _ => False
  end ->
  (forall c, lseg h (free_lists_ mi c) (g_free G' c)) ->
  (forall c, match ms' with
             | Some x => lseg h (tl_free_lists_ x c) (t_free G' c)
             | None => t_free G' c = []
             end) ->
  (forall c, l_free G' c ++ g_free G' c ++ t_free G' c ≡ₚ
             l_free G c ++ g_free G c ++ t_free G c) ->
  wf_st cfg h mi ms' maps G' live.
Proof.
  destruct mi as [fl q pg n]. intros Hwf. cbn [free_lists_].
  apply (wf_st_regroup cfg h _ ms maps G live fl ms' G' Hwf).
Qed.

(** The chunk an allocation takes: from the thread-local free list, refilled
    from the global one when empty, or from the global one directly. *)
Lemma acquire_wp sc s w G live (Q : Z -> World -> Prop) :
  wf cfg w G live -> (forall c, l_free G c = []) ->
  SizeClassToSize cfg sc = Some s -> 0 < s -> sizeof_ChunkBase cfg <= s ->
  (forall m w1 G1,
     wf cfg w1 G1 live ->
     (forall c, c <> sc -> l_free G1 c = []) -> l_free G1 sc = [m] ->
     Q m w1) ->
  wp (alloc_abort cfg) False
    (match tl_current_thread w with
     | Some th =>
         if s >=? kMaxSizeForThreadLocalFreeList
         then AllocateChunks cfg sc 1
         else
           bind
             (if tl_free_lists_ (malloc_storage_ th) sc =? 0
              then
                bind (AllocateChunks cfg sc (kMaxSizeForThreadLocalFreeList / s))
                  (fun r =>
                     ret (mkStorage (tl_quarantine_ (malloc_storage_ th))
                            (upd (tl_free_lists_ (malloc_storage_ th)) sc r)))
              else ret (malloc_storage_ th))
             (fun ms =>
                bind (read (tl_free_lists_ ms sc))
                  (fun c =>
                     bind (set_malloc_storage th
                             (mkStorage (tl_quarantine_ ms)
                                (upd (tl_free_lists_ ms) sc (next c))))
                       (fun _ => ret (tl_free_lists_ ms sc))))
     | None => AllocateChunks cfg sc 1
     end) Q w.
Proof.
  intros Hwf Hrest Hsc Hpos Hhdr HQ.
  assert (Hone : wp (alloc_abort cfg) False (AllocateChunks cfg sc 1) Q w).
  { unfold AllocateChunks. change (Z.to_nat 1) with 1%nat.
    eapply AllocateChunks_loop_wp; [exact Hcfg|exact Hsc|exact Hpos|exact Hhdr|exact Hwf| |].
    - rewrite Hrest. reflexivity.
    - intros t w' G' Hwf' Hlo Hseg Hlen _ _ _ _.
      rewrite Hrest in Hlen. simpl in Hlen.
      destruct (l_free G' sc) as [|x [|y r]] eqn:El; try discriminate.
      simpl in Hseg. destruct Hseg as (-> & _ & _).
      apply (HQ x w' G'); [exact Hwf'| |exact El].
      intros c Hc. rewrite Hlo by exact Hc. apply Hrest. }
  destruct (tl_current_thread w) as [th|] eqn:Eth; [|exact Hone].
  destruct (s >=? kMaxSizeForThreadLocalFreeList) eqn:Ebig; [exact Hone|].
  clear Hone.
  assert (Hs17 : s < 2 ^ 17).
  { unfold kMaxSizeForThreadLocalFreeList in Ebig.
    destruct (Z.geb_spec s (2 ^ 17)); [discriminate|lia]. }
  apply wp_bind.
  (* the storage [ms] the chunk is taken from, with its non-empty list *)
  apply (wp_conseq _ _ _
    (fun ms w' => exists G' x rest,
       wf cfg w' G' live /\ tl_current_thread w' = Some th /\
       (forall c, c <> sc -> l_free G' c = []) /\
       tl_quarantine_ ms = tl_quarantine_ (malloc_storage_ th) /\
       (forall c, c <> sc ->
          tl_free_lists_ ms c = tl_free_lists_ (malloc_storage_ th) c) /\
       tl_free_lists_ ms sc = x /\
       lseg (heap w') x (x :: rest) /\
       l_free G' sc ++ t_free G' sc ≡ₚ x :: rest)).
  { destruct (tl_free_lists_ (malloc_storage_ th) sc =? 0) eqn:E0.
    - apply Z.eqb_eq in E0. apply wp_bind. unfold AllocateChunks.
      eapply AllocateChunks_loop_wp; [exact Hcfg|exact Hsc|exact Hpos|exact Hhdr|exact Hwf| |].
      + rewrite Hrest. reflexivity.
      + intros t w' G' Hwf' Hlo Hseg Hlen Htf _ _ Hth.
        apply wp_ret.
        assert (Hn1 : (1 <= Z.to_nat (kMaxSizeForThreadLocalFreeList / s))%nat).
        { unfold kMaxSizeForThreadLocalFreeList.
          assert (1 <= 2 ^ 17 / s); [|lia].
          apply Z.div_le_lower_bound; lia. }
        rewrite Hrest in Hlen. simpl in Hlen.
        destruct (l_free G' sc) as [|x rest] eqn:El; [simpl in Hlen; lia|].
        pose proof Hseg as Hseg'. simpl in Hseg'. destruct Hseg' as (-> & _ & _).
        exists G', x, rest. cbn [tl_quarantine_ tl_free_lists_].
        split; [exact Hwf'|]. split; [rewrite Hth; exact Eth|].
        split; [intros c Hc; rewrite Hlo by exact Hc; apply Hrest|].
        split; [reflexivity|].
        split; [intros c Hc; apply upd_ne; exact Hc|].
        split; [apply upd_eq|]. split; [exact Hseg|].
        rewrite El, Htf.
        pose proof (wf_tfree _ _ _ _ _ _ _ Hwf sc) as Ht.
        unfold tls in Ht. rewrite Eth in Ht. simpl in Ht. rewrite E0 in Ht.
        apply lseg_null in Ht. rewrite Ht, app_nil_r. reflexivity.
    - apply Z.eqb_neq in E0. apply wp_ret.
      pose proof (wf_tfree _ _ _ _ _ _ _ Hwf sc) as Ht.
      unfold tls in Ht. rewrite Eth in Ht. simpl in Ht.
      destruct (lseg_nonnull _ _ _ E0 Ht) as (rest & Hc & Hr).
      exists G, (tl_free_lists_ (malloc_storage_ th) sc), rest.
      split; [exact Hwf|]. split; [exact Eth|].
      split; [intros c _; apply Hrest|].
      split; [reflexivity|]. split; [reflexivity|]. split; [reflexivity|].
      split; [rewrite <- Hc; exact Ht|].
      rewrite Hrest, Hc. reflexivity. }
  intros ms w' (G' & x & rest & Hwf' & Hth' & Hlo & Hq & Hfl & Hx & Hseg & Hperm).
  apply wp_bind, wp_read. unfold set_malloc_storage, set_current_thread.
  apply wp_bind, wp_modify. apply wp_ret. rewrite Hx.
  simpl in Hseg. destruct Hseg as (_ & Hx0 & Hrest').
  set (G1 := mkGhost (upd (l_free G') sc [x]) (g_free G')
               (upd (t_free G') sc rest) (g_quar G') (t_quar G')).
  apply (HQ x _ G1).
  - unfold wf, tls in *.
    cbn [heap malloc_info tl_current_thread mappings option_map malloc_storage_].
    rewrite Hth' in Hwf'. cbn [option_map] in Hwf'.
    eapply wf_st_regroup_tl; [exact Hwf'|reflexivity|reflexivity| | | |].
    + cbn [tl_quarantine_]. exact Hq.
    + exact (wf_gfree _ _ _ _ _ _ _ Hwf').
    + intros c. cbn [tl_free_lists_ t_free G1].
      destruct (Z.eq_dec c sc) as [->|Hc].
      * rewrite !upd_eq. exact Hrest'.
      * rewrite !upd_ne by exact Hc. rewrite Hfl by exact Hc.
        exact (wf_tfree _ _ _ _ _ _ _ Hwf' c).
    + intros c. cbn [l_free g_free t_free G1].
      destruct (Z.eq_dec c sc) as [->|Hc].
      * rewrite !upd_eq.
        transitivity (g_free G' sc ++ (x :: rest)).
        -- cbn [app]. rewrite <- Permutation_middle. reflexivity.
        -- rewrite <- Hperm.
           rewrite (Permutation_app_comm (g_free G' sc)).
           rewrite <- app_assoc.
           apply Permutation_app_head. apply Permutation_app_comm.
      * rewrite !upd_ne by exact Hc. reflexivity.
  - intros c Hc. cbn [l_free G1]. rewrite upd_ne by exact Hc. apply Hlo. exact Hc.
  - cbn [l_free G1]. apply upd_eq.
Qed.

End Acquire.

Lemma mult_lt_le a b R :
  0 < R -> a mod R = 0 -> b mod R = 0 -> a < b + R -> a <= b.
Proof.
  intros HR Ha Hb Hlt.
  apply Z.mod_divide in Ha; [|lia]. apply Z.mod_divide in Hb; [|lia].
  destruct Ha as [x ->]. destruct Hb as [y ->].
  assert (x < y + 1).
  { apply (Z.mul_lt_mono_pos_r R); [exact HR|]. lia. }
  apply Z.mul_le_mono_nonneg_r; lia.
Qed.

Lemma mult_pos_ge a R : 0 < R -> a mod R = 0 -> 0 < a -> R <= a.
Proof.
  intros HR Ha Hpos. apply Z.mod_divide in Ha; [|lia]. destruct Ha as [x ->].
  assert (0 < x) by (apply (Z.mul_pos_cancel_r x R); assumption).
  replace R with (1 * R) at 1 by lia.
  apply Z.mul_le_mono_nonneg_r; lia.
Qed.

Section AllocArith.
Variable cfg : Config.
Local Abbreviation REDZONE := (__asan_flag_redzone cfg).
Local Abbreviation WORDSIZE := (__WORDSIZE cfg).

Hypothesis Hcfg : cfg_ok cfg.

Lemma big_alignment alignment :
  0 <= alignment < 2 ^ WORDSIZE -> IsPowerOfTwo cfg alignment = true ->
  REDZONE < alignment ->
  exists j, 0 <= j < WORDSIZE /\ alignment = 2 ^ j /\
            (2 * REDZONE) <= alignment /\ alignment mod (2 * REDZONE) = 0.
Proof.
  intros Ha Hp Hlt.
  destruct (cfg_redzone cfg Hcfg) as (r & Hr & HR & H32 & _).
  assert (Hpos : 0 < alignment < 2 ^ WORDSIZE) by lia.
  pose proof (IsPowerOfTwo_inv cfg alignment Hpos Hp) as He.
  set (j := Z.log2 alignment) in *.
  assert (Hj0 : 0 <= j) by apply Z.log2_nonneg.
  assert (Hrj : r < j).
  { apply (Z.pow_lt_mono_r_iff 2); [lia|lia|]. rewrite <- HR, <- He. exact Hlt. }
  assert (HjW : j < WORDSIZE).
  { apply (Z.pow_lt_mono_r_iff 2); [lia|lia|]. rewrite <- He. lia. }
  assert (H2R : 2 * REDZONE = 2 ^ (r + 1)).
  { rewrite HR, Z.pow_add_r by lia. lia. }
  exists j. split; [lia|]. split; [exact He|]. rewrite H2R, He. split.
  - apply Z.pow_le_mono_r; lia.
  - apply pow2_mod_pow2. lia.
Qed.

Lemma align_room_facts alignment :
  0 <= alignment < 2 ^ WORDSIZE -> IsPowerOfTwo cfg alignment = true ->
  0 <= align_room cfg alignment /\ align_room cfg alignment mod REDZONE = 0 /\
  align_room cfg alignment <= alignment.
Proof.
  intros Ha Hp. unfold align_room.
  pose proof (redzone_pos cfg Hcfg) as HR.
  destruct (Z.gtb_spec alignment REDZONE) as [Hlt|Hle].
  - destruct (big_alignment alignment Ha Hp Hlt) as (j & Hj & He & Hle & Hm).
    split; [lia|]. split; [|lia].
    apply Z.mod_divide in Hm; [|lia]. apply Z.mod_divide; [lia|].
    eapply Z.divide_trans; [|exact Hm]. exists 2. lia.
  - split; [lia|]. split; [apply Z.mod_0_l; lia|lia].
Qed.

Lemma alloc_arith alignment size :
  sane cfg alignment size -> IsPowerOfTwo cfg alignment = true ->
  let size' := if size =? 0 then 1 else size in
  exists rounded,
    RoundUpTo cfg size' REDZONE = Some rounded /\
    size' <= rounded < size' + REDZONE /\ rounded mod REDZONE = 0 /\
    let needed := if alignment >? REDZONE
                  then wrap cfg (wrap cfg (rounded + REDZONE) + alignment)
                  else wrap cfg (rounded + REDZONE) in
    needed = rounded + REDZONE + align_room cfg alignment /\
    IsAligned cfg needed REDZONE = true /\
    ((needed >? kMaxAllowedMallocSize cfg) = true ->
       kMaxAllowedMallocSize cfg - REDZONE < size' + align_room cfg alignment) /\
    ((needed >? kMaxAllowedMallocSize cfg) = false ->
       exists sc s,
         SizeToSizeClass cfg needed = Some sc /\
         SizeClassToSize cfg sc = Some s /\
         needed <= s /\ 2 * REDZONE <= s /\ s < 2 ^ WORDSIZE /\
         (s >=? kMinAllocSize cfg) = true /\ (s >=? needed) = true /\
         IsAligned cfg s REDZONE = true).
Proof.
  intros (Hs & Ha & Hov) Hp size'.
  destruct (cfg_redzone cfg Hcfg) as (r & Hr & HR & H32 & H2p).
  destruct (cfg_word cfg Hcfg) as [Hw Hw32].
  pose proof (redzone_pos cfg Hcfg) as HRpos.
  assert (Hr26 : r <= 26).
  { destruct (cfg_page cfg Hcfg) as (kp & Hkp & Hpp & _).
    assert (r < kp); [|lia].
    apply (Z.pow_lt_mono_r_iff 2); [lia|lia|]. rewrite <- HR, <- Hpp. lia. }
  assert (Hs' : 1 <= size' <= size + 1) by (unfold size'; destruct (Z.eqb_spec size 0); lia).
  destruct (align_room_facts alignment ltac:(lia) Hp) as (Hr0 & Hrm & Hrle).
  destruct (RoundUpTo_small cfg size' r ltac:(lia) ltac:(lia))
    as (rounded & Hru & Hrb & Hrmod).
  { rewrite <- HR. lia. }
  rewrite <- HR in *.
  exists rounded. split; [exact Hru|]. split; [exact Hrb|]. split; [exact Hrmod|].
  intros needed.
  assert (Hneeded : needed = rounded + REDZONE + align_room cfg alignment).
  { unfold needed, align_room. destruct (alignment >? REDZONE) eqn:E.
    - apply Z.gtb_lt in E.
      rewrite (wrap_small cfg (rounded + REDZONE)) by lia.
      rewrite wrap_small by lia. reflexivity.
    - rewrite wrap_small by lia. lia. }
  split; [exact Hneeded|].
  assert (Hnm : needed mod REDZONE = 0).
  { rewrite Hneeded. apply Z.mod_divide; [lia|].
    apply Z.mod_divide in Hrmod; [|lia]. apply Z.mod_divide in Hrm; [|lia].
    apply Z.divide_add_r; [|exact Hrm].
    apply Z.divide_add_r; [exact Hrmod|apply Z.divide_refl]. }
  assert (Hal : forall x, IsAligned cfg x REDZONE = (x mod REDZONE =? 0)).
  { intros x. rewrite HR. apply IsAligned_pow2. lia. }
  split; [rewrite Hal, Hnm; reflexivity|].
  destruct (kMax_bounds cfg (ok_word _ Hcfg)) as (Hk1 & Hk2 & Hk3).
  assert (HkR : kMaxAllowedMallocSize cfg mod REDZONE = 0).
  { rewrite HR. apply (mod_pow2_le _ r 26); [lia|exact Hk3]. }
  assert (HrR : REDZONE <= rounded) by (apply mult_pos_ge; lia).
  split.
  - intros Hgt. apply Z.gtb_lt in Hgt.
    destruct (Z_lt_le_dec (kMaxAllowedMallocSize cfg - REDZONE)
                (size' + align_room cfg alignment)) as [|Hle]; [assumption|exfalso].
    assert (rounded <= kMaxAllowedMallocSize cfg - REDZONE - align_room cfg alignment);
      [|lia].
    apply (mult_lt_le _ _ REDZONE); [lia|exact Hrmod| |lia].
    apply Z.mod_divide; [lia|].
    apply Z.mod_divide in HkR; [|lia]. apply Z.mod_divide in Hrm; [|lia].
    apply Z.divide_sub_r; [|exact Hrm].
    apply Z.divide_sub_r; [exact HkR|apply Z.divide_refl].
  - intros Hle.
    assert (Hle' : needed <= kMaxAllowedMallocSize cfg)
      by (destruct (Z.gtb_spec needed (kMaxAllowedMallocSize cfg)); [discriminate|lia]).
    destruct (SizeToSizeClass_fits cfg needed (ok_word _ Hcfg)
                (proj1 (ok_classes _ Hcfg)) ltac:(lia))
      as (sc & s & Hsc & Hss & Hns).
    exists sc, s. split; [exact Hsc|]. split; [exact Hss|].
    assert (Hspos : 0 < s) by lia.
    destruct (size_class_shape cfg Hcfg _ s Hss Hspos) as (HsW & Hshape).
    assert (HkMin : kMinAllocSize cfg = 2 * REDZONE).
    { unfold kMinAllocSize. rewrite wrap_small; lia. }
    split; [exact Hns|]. split; [lia|]. split; [exact HsW|].
    split; [rewrite HkMin; apply Z.geb_le; lia|].
    split; [apply Z.geb_le; lia|].
    rewrite Hal. apply Z.eqb_eq.
    destruct Hshape as [(j & Hj & ->)|(_ & H26)].
    + rewrite HR. apply pow2_mod_pow2. split; [lia|].
      apply (Z.pow_le_mono_r_iff 2); [lia|lia|]. rewrite <- HR. lia.
    + rewrite HR. apply (mod_pow2_le _ r 26); [lia|exact H26].
Qed.

End AllocArith.

Section AllocSpec.
Variable cfg : Config.
Local Abbreviation REDZONE := (__asan_flag_redzone cfg).
Local Abbreviation WORDSIZE := (__WORDSIZE cfg).

Hypothesis Hcfg : cfg_ok cfg.

(** The chunk [m] held locally becomes the chunk of the new live pointer
    [p]; the heap was written inside the chunk only. *)
Lemma wf_st_allocated h h' mi ms maps G live m s sc p n :
  wf_st cfg h mi ms maps G live ->
  m ∈ l_free G sc ->
  SizeClassToSize cfg sc = Some s ->
  (forall x, x < m \/ m + s <= x -> hdr h' x = hdr h x) ->
  size_class (hdr h' m) = sc -> chunk_state (hdr h' m) = CHUNK_ALLOCATED ->
  n <= used_size (hdr h' m) ->
  PtrToChunk cfg h' p = m -> m + REDZONE <= p < m + s ->
  wf_st cfg h' mi ms maps (clear_local G) ((p, n) :: live).
Proof.
  intros Hwf Hm Hsc Hchg Hcls Hst Hus Hptr Hp.
  pose proof (redzone_pos cfg Hcfg) as HR.
  assert (Hm' : m ∈ l_free G sc ++ g_free G sc ++ t_free G sc)
    by (apply elem_of_app; left; exact Hm).
  destruct (wf_free_cells _ _ _ _ _ _ _ Hwf sc m Hm') as (Hav & _ & s' & Hs' & Hb).
  rewrite Hsc in Hs'. injection Hs' as <-.
  pose proof (local_outside cfg _ _ _ _ _ _ _ _ HR Hwf Hm) as Hout.
  assert (Hagree : forall x, in_footprint cfg h G live x -> hdr h' x = hdr h x).
  { intros x Hx. apply Hchg.
    destruct (Z_lt_le_dec x m) as [|H1]; [left; assumption|].
    destruct (Z_lt_le_dec x (m + s)) as [H2|]; [exfalso|right; assumption].
    eapply body_outside; [exact Hcfg|exact Hwf|exact Hb|exact Hout| |exact Hx]. lia. }
  assert (Hwf2 : wf_st cfg h' mi ms maps (clear_local G) live).
  { eapply wf_st_heap_agree; [exact HR|apply wf_st_clear_local; exact Hwf| |].
    - exact Hagree.
    - intros c x Hx. simpl in Hx. inversion Hx. }
  apply wf_st_add_live; [exact Hwf2| |].
  - unfold live_ok. rewrite Hptr. split; [exact Hst|]. split; [exact Hus|].
    exists s. rewrite Hcls. split; [exact Hsc|]. split; [exact Hb|exact Hp].
  - intros Hin. apply list_elem_of_fmap in Hin as ([q k] & Heq & Hq).
    cbn [fst] in Heq. rewrite Hptr in Heq.
    pose proof (wf_registry _ _ _ _ _ _ _ Hwf) as Hreg.
    destruct (live_ptr_bounds cfg h mi maps q k HR Hreg
                (wf_live _ _ _ _ _ _ _ Hwf q k Hq)) as (Hw & _).
    assert (Hsame : PtrToChunk cfg h' q = PtrToChunk cfg h q).
    { unfold PtrToChunk. rewrite Hw. rewrite Hagree; [reflexivity|].
      right. right. exists q, k. split; [exact Hq|]. right. reflexivity. }
    rewrite Hsame in Heq.
    eapply (not_live_by_state cfg h mi ms maps G live m q k); [exact Hwf| |exact Hq|exact Heq].
    rewrite Hav. apply states_distinct.
Qed.

Lemma PtrToChunk_store_pres h x f p :
  (forall c, chunk_state (f c) = chunk_state c /\ next (f c) = next c) ->
  PtrToChunk cfg (store h x f) p = PtrToChunk cfg h p.
Proof.
  intros Hf. unfold PtrToChunk. rewrite hdr_store.
  destruct (decide (x = wrap cfg (p - REDZONE))) as [->|]; [|reflexivity].
  destruct (Hf (hdr h (wrap cfg (p - REDZONE)))) as [-> ->]. reflexivity.
Qed.

Lemma PoisonShadow_wp E D mem size poison (Q : unit -> World -> Prop) w :
  mem mod SHADOW_GRANULARITY cfg = 0 ->
  (mem + size) mod SHADOW_GRANULARITY cfg = 0 ->
  (forall evs, Q tt (with_trace w evs)) ->
  wp E D (PoisonShadow cfg mem size poison) Q w.
Proof.
  intros H1 H2 HQ. unfold wp.
  destruct (PoisonShadow_aligned cfg Hcfg mem size poison w H1 H2) as (ev & ->).
  apply HQ.
Qed.

Lemma PoisonPartial_wp E D mem size (Q : unit -> World -> Prop) w :
  mem mod REDZONE = 0 -> 0 <= mem < 2 ^ WORDSIZE ->
  (forall evs, Q tt (with_trace w evs)) ->
  wp E D (PoisonMemoryPartialRightRedzone cfg mem
            (Z.land size (wrap cfg (REDZONE - 1)))) Q w.
Proof.
  intros H1 Hm HQ. unfold PoisonMemoryPartialRightRedzone.
  destruct (cfg_redzone cfg Hcfg) as (r & Hr & HRr & H32 & H2p).
  destruct (cfg_shadow cfg Hcfg) as (g & Hg & HS & _).
  pose proof (pow2_lt_word cfg r ltac:(lia)) as Hrw.
  assert (Hland : Z.land size (wrap cfg (REDZONE - 1)) = size mod 2 ^ r).
  { rewrite HRr, wrap_small by lia. apply land_pred_pow2. lia. }
  rewrite Hland.
  assert (Hlt : 0 <= size mod 2 ^ r < 2 ^ r) by (apply Z.mod_pos_bound; lia).
  apply wp_bind, wp_CHECK; [intros _|].
  2:{ intros Hf. exfalso. apply Z.leb_gt in Hf. lia. }
  apply wp_bind, wp_CHECK; [intros _|].
  2:{ intros Hf. exfalso. rewrite HRr, IsAligned_pow2 in Hf by lia.
      rewrite <- HRr, H1 in Hf. discriminate. }
  apply wp_bind, wp_CHECK; [intros _|].
  2:{ intros Hf. exfalso. rewrite HS, IsPowerOfTwo_pow2 in Hf by lia. discriminate. }
  apply wp_bind, wp_CHECK; [intros _|].
  2:{ intros Hf. exfalso. rewrite HRr, IsPowerOfTwo_pow2 in Hf by lia. discriminate. }
  apply wp_bind, wp_CHECK; [intros _|].
  2:{ intros Hf. exfalso. pose proof (ok_shadow _ Hcfg) as (g' & _ & _ & Hle).
      rewrite Z.geb_leb in Hf. apply Z.leb_gt in Hf. lia. }
  apply wp_emit. apply HQ.
Qed.

Lemma misaligned m R a :
  0 < R -> 0 < a -> m mod (2 * R) = 0 -> a mod (2 * R) = 0 -> (m + R) mod a <> 0.
Proof.
  intros HR Ha Hm Haa H.
  apply Z.mod_divide in Hm; [|lia]. apply Z.mod_divide in Haa; [|lia].
  apply Z.mod_divide in H; [|lia].
  assert (Hd : (2 * R | m + R)) by (eapply Z.divide_trans; eassumption).
  assert (Hd' : (2 * R | R)).
  { replace R with ((m + R) - m) at 2 by lia. apply Z.divide_sub_r; assumption. }
  destruct Hd' as [z Hz].
  assert (H0 : R * (2 * z - 1) = 0) by lia.
  apply Z.mul_eq_0 in H0. lia.
Qed.

Lemma wf_with_trace w evs G live : wf cfg w G live -> wf cfg (with_trace w evs) G live.
Proof. intros H. exact H. Qed.

Lemma Allocate_wp alignment size stk w G live (Q : Z -> World -> Prop) :
  wf cfg w G live -> at_rest G -> sane cfg alignment size ->
  (forall p w' G',
     wf cfg w' G' ((p, size) :: live) -> at_rest G' ->
     (REDZONE < alignment ->
        chunk_state (hdr (heap w') (p - REDZONE)) = CHUNK_MEMALIGN /\
        p mod alignment = 0) ->
     (alignment <= REDZONE -> PtrToChunk cfg (heap w') p = p - REDZONE) ->
     used_size (hdr (heap w') (PtrToChunk cfg (heap w') p)) =
       (if size =? 0 then 1 else size) ->
     Q p w') ->
  wp (Allocate_abort cfg alignment size) False
    (Allocate cfg alignment size (Some stk)) Q w.
Proof.
  intros Hwf Hrest Hsane HQ.
  pose proof (redzone_pos cfg Hcfg) as HR.
  destruct (cfg_redzone cfg Hcfg) as (r & Hr & HRr & H32 & H2p).
  destruct (cfg_word cfg Hcfg) as [Hw Hw32].
  unfold Allocate.
  apply wp_bind, wp_CHECK; [intros _|discriminate].
  apply wp_bind, wp_CHECK.
  2:{ intros Hf. right. left. split; [reflexivity|]. left. exact Hf. }
  intros Hpow.
  destruct (alloc_arith cfg Hcfg alignment size Hsane Hpow)
    as (rounded & Hru & Hrb & Hrmod & Hneeded & Hal & Hbig & Hfit).
  cbv zeta in Hru, Hrb, Hneeded, Hal, Hbig, Hfit.
  apply wp_bind, wp_lift; [|intros Hn; rewrite Hru in Hn; discriminate].
  intros rounded' Hru'. rewrite Hru in Hru'. injection Hru' as <-.
  apply wp_bind, wp_CHECK; [intros _|intros Hf; rewrite Hal in Hf; discriminate].
  set (needed := if alignment >? REDZONE then _ else _) in *.
  set (size' := if size =? 0 then 1 else size) in *.
  apply wp_bind.
  destruct (needed >? kMaxAllowedMallocSize cfg) eqn:Egt.
  { apply wp_bind. unfold OutOfMemoryMessage, GetCurrent.
    apply wp_bind, wp_gets. destruct (tl_current_thread w).
    - apply wp_emit. apply wp_bind, wp_emit. apply wp_abort.
      right. right. split; [left; reflexivity|]. apply Hbig. reflexivity.
    - apply wp_abort.
      right. right. split; [right; reflexivity|]. apply Hbig. reflexivity. }
  apply wp_ret.
  destruct (Hfit eq_refl) as (sc & s & Hsc & Hs & Hns & H2s & HsW & Hc1 & Hc2 & Hc3).
  clear Hbig Hfit.
  apply wp_bind, wp_lift; [|intros Hn; rewrite Hsc in Hn; discriminate].
  intros sc' Hsc'. rewrite Hsc in Hsc'. injection Hsc' as <-.
  apply wp_bind, wp_lift; [|intros Hn; rewrite Hs in Hn; discriminate].
  intros s' Hs'. rewrite Hs in Hs'. injection Hs' as <-.
  apply wp_bind, wp_CHECK; [intros _|intros Hf; rewrite Hc1 in Hf; discriminate].
  apply wp_bind, wp_CHECK; [intros _|intros Hf; rewrite Hc2 in Hf; discriminate].
  apply wp_bind, wp_CHECK; [intros _|intros Hf; rewrite Hc3 in Hf; discriminate].
  apply wp_bind.
  apply (wp_conseq _ _ _ (fun _ w0 => wf cfg w0 G live)).
  { destruct (__asan_flag_v cfg >=? 2); [apply wp_emit|apply wp_ret]; exact Hwf. }
  intros [] w0 Hwf0. clear w Hwf.
  apply wp_bind.
  apply (wp_conseq _ _ _ (fun _ w1 => wf cfg w1 G live)).
  { unfold stats_Log2. destruct (__asan_flag_stats cfg =? 0) eqn:Est; cbn [negb].
    - apply wp_ret. exact Hwf0.
    - apply Z.eqb_neq in Est. apply wp_bind, wp_lift.
      + intros _ _. apply wp_ret. exact Hwf0.
      + intros _. left. right. right. split; [reflexivity|]. right. exact Est. }
  intros [] w Hwf. clear w0 Hwf0.
  unfold GetCurrent. apply wp_bind, wp_gets.
  assert (Hspos : 0 < s) by lia.
  assert (Hshdr : sizeof_ChunkBase cfg <= s).
  { destruct (cfg_redzone cfg Hcfg) as (? & _ & _ & ? & _).
    unfold sizeof_ChunkBase. destruct (WORDSIZE =? 32); lia. }
  apply wp_bind.
  eapply wp_mono;
    [ eapply (acquire_wp cfg Hcfg sc s w G live
                (fun m w1 => exists G1, wf cfg w1 G1 live /\
                   (forall c, c <> sc -> l_free G1 c = []) /\ l_free G1 sc = [m]));
      [exact Hwf|exact Hrest|exact Hs|exact Hspos|exact Hshdr|]
    | intros c w' H; left; exact H
    | tauto
    | ].
  { intros m w1 G1 H1 H2 H3. exists G1. auto. }
  intros m w1 (G1 & Hwf1 & Hlo1 & Hl1).
  assert (Hsz : 1 <= size').
  { unfold size'. destruct Hsane as (? & _). destruct (Z.eqb_spec size 0); lia. }
  assert (Hm1 : m ∈ l_free G1 sc) by (rewrite Hl1; apply elem_of_cons; left; reflexivity).
  assert (Hm1' : m ∈ l_free G1 sc ++ g_free G1 sc ++ t_free G1 sc)
    by (apply elem_of_app; left; exact Hm1).
  destruct (wf_free_cells _ _ _ _ _ _ _ Hwf1 sc m Hm1') as (Hav & Hcls & s' & Hs' & Hb).
  rewrite Hs in Hs'. injection Hs' as <-.
  pose proof (wf_registry _ _ _ _ _ _ _ Hwf1) as Hreg.
  destruct (base_in_group cfg _ _ _ _ Hreg Hb) as (i & Hi & _ & _ & Hlo & Hhi & Hm0 & HmW).
  pose proof (base_aligned cfg Hcfg _ _ _ _ Hreg Hb H2s) as Hma.
  destruct (align_room_facts cfg Hcfg alignment) as (Hr0 & Hrm & Hrle);
    [destruct Hsane as (? & ? & ?); lia|exact Hpow|].
  apply wp_bind, wp_CHECK.
  2:{ intros Hf. exfalso. apply negb_false_iff, Z.eqb_eq in Hf. lia. }
  intros _. apply wp_bind, wp_read.
  apply wp_bind, wp_CHECK.
  2:{ intros Hf. exfalso. rewrite Hav, Z.eqb_refl in Hf. discriminate. }
  intros _. apply wp_bind, wp_write. apply wp_bind, wp_write.
  apply wp_bind, wp_lift.
  2:{ intros Hn. exfalso. unfold AsanChunk_Size in Hn. rewrite Hcls, Hs in Hn.
      discriminate. }
  intros s0 Hs0. unfold AsanChunk_Size in Hs0. rewrite Hcls, Hs in Hs0.
  injection Hs0 as <-.
  apply wp_bind, wp_CHECK.
  2:{ intros Hf. exfalso. rewrite Z.eqb_refl in Hf. discriminate. }
  intros _.
  assert (Hcfs : compressed_free_stack cfg m = Some (m + REDZONE)).
  { unfold compressed_free_stack, sizeof_ChunkBase.
    rewrite wrap_small by lia.
    destruct (Z.geb_spec REDZONE (if WORDSIZE =? 32 then 24 else 32)) as [|Hlt];
      [reflexivity|]. destruct (WORDSIZE =? 32); lia. }
  rewrite Hcfs. rewrite (wrap_small cfg (m + REDZONE)) by lia.
  apply wp_bind, wp_lift; [|discriminate].
  intros fs Hfs. injection Hfs as <-.
  apply wp_bind, wp_CHECK.
  2:{ intros Hf. exfalso. rewrite Z.eqb_refl in Hf. discriminate. }
  intros _.
  unfold with_heap.
  cbn [heap malloc_info tl_current_thread mappings fifo_next total_mmaped trace].
  set (h1 := heap w1) in *.
  set (h2 := store (store h1 m (set_chunk_state CHUNK_ALLOCATED)) m (set_next 0)).
  assert (Hh2m : hdr h2 m = set_next 0 (set_chunk_state CHUNK_ALLOCATED (hdr h1 m))).
  { unfold h2. rewrite !hdr_store_eq. reflexivity. }
  assert (Hh2o : forall x, x <> m -> hdr h2 x = hdr h1 x).
  { intros x Hx. unfold h2. rewrite !hdr_store_ne by congruence. reflexivity. }
  apply wp_bind.
  apply (wp_conseq _ _ _
    (fun addr w3 =>
       malloc_info w3 = malloc_info w1 /\
       tl_current_thread w3 = tl_current_thread w1 /\
       mappings w3 = mappings w1 /\
       m + REDZONE <= addr /\ addr + rounded <= m + s /\
       addr - m <= REDZONE + align_room cfg alignment /\
       addr mod REDZONE = 0 /\
       PtrToChunk cfg (heap w3) addr = m /\
       (forall x, x < m \/ m + s <= x -> hdr (heap w3) x = hdr h1 x) /\
       hdr (heap w3) m = set_next 0 (set_chunk_state CHUNK_ALLOCATED (hdr h1 m)) /\
       (REDZONE < alignment ->
          chunk_state (hdr (heap w3) (addr - REDZONE)) = CHUNK_MEMALIGN /\
          addr mod alignment = 0 /\ m < addr - REDZONE) /\
       (alignment <= REDZONE -> addr = m + REDZONE))).
  { destruct (Z.gtb_spec alignment REDZONE) as [Hbig|Hsmall].
    - (* an alignment above the redzone: the forwarder *)
      destruct (big_alignment cfg Hcfg alignment) as (j & Hj & Hej & H2a & Ha2);
        [destruct Hsane as (? & ? & ?); lia|exact Hpow|exact Hbig|].
      pose proof (pow2_lt_word cfg j Hj) as Hjw.
      assert (Hroom : align_room cfg alignment = alignment).
      { unfold align_room. destruct (Z.gtb_spec alignment REDZONE); [reflexivity|lia]. }
      assert (Hwa : wrap cfg (alignment - 1) = 2 ^ j - 1)
        by (rewrite Hej; apply wrap_small; lia).
      rewrite Hwa, land_pred_pow2 by lia.
      assert (Hmis : (m + REDZONE) mod 2 ^ j <> 0).
      { rewrite <- Hej. apply misaligned; [lia|lia|exact Hma|exact Ha2]. }
      destruct (Z.eqb_spec ((m + REDZONE) mod 2 ^ j) 0) as [|_]; [contradiction|].
      cbn [andb negb].
      destruct (RoundUpTo_small cfg (m + REDZONE) j Hj) as (a & Hra & Hab & Ham);
        [lia|rewrite <- Hej; lia|].
      rewrite <- Hej in *.
      apply wp_bind, wp_lift; [|intros Hn; rewrite Hra in Hn; discriminate].
      intros a' Ha'. rewrite Hra in Ha'. injection Ha' as <-.
      apply wp_bind, wp_CHECK.
      2:{ intros Hf. exfalso. rewrite Hej, land_pred_pow2 in Hf by lia.
          rewrite <- Hej, Ham in Hf. discriminate. }
      intros _.
      assert (Hane : a <> m + REDZONE) by (intros ->; contradiction).
      rewrite (wrap_small cfg (a - REDZONE)) by lia.
      apply wp_bind, wp_write. apply wp_bind, wp_write. apply wp_ret.
      unfold with_heap.
      cbn [heap malloc_info tl_current_thread mappings fifo_next total_mmaped trace].
      fold h2.
      repeat (split; [first [reflexivity|lia]|]).
      split.
      { apply Z.mod_divide in Ham; [|lia]. apply Z.mod_divide; [lia|].
        eapply Z.divide_trans; [|exact Ham].
        apply Z.mod_divide in Ha2; [|lia].
        eapply Z.divide_trans; [|exact Ha2]. exists 2. lia. }
      split.
      { unfold PtrToChunk. rewrite (wrap_small cfg (a - REDZONE)) by lia.
        rewrite !hdr_store_eq. cbn [chunk_state set_next set_chunk_state next].
        rewrite Z.eqb_refl. reflexivity. }
      split.
      { intros x Hx. rewrite !hdr_store_ne by lia. apply Hh2o. lia. }
      split.
      { rewrite !hdr_store_ne by lia. exact Hh2m. }
      split.
      { intros _. rewrite !hdr_store_eq. cbn [chunk_state set_next set_chunk_state].
        split; [reflexivity|]. split; [exact Ham|lia]. }
      intros Hle. lia.
    - (* no forwarder *)
      assert (Hgt : (alignment >? REDZONE) = false)
        by (destruct (Z.gtb_spec alignment REDZONE); [lia|reflexivity]).
      assert (Hroom : align_room cfg alignment = 0)
        by (unfold align_room; rewrite Hgt; reflexivity).
      cbn [andb]. apply wp_ret.
      cbn [heap malloc_info tl_current_thread mappings fifo_next total_mmaped trace].
      fold h2.
      repeat (split; [first [reflexivity|lia]|]).
      split.
      { apply Z.mod_divide in Hma; [|lia]. apply Z.mod_divide; [lia|].
        apply Z.divide_add_r; [|apply Z.divide_refl].
        eapply Z.divide_trans; [|exact Hma]. exists 2. lia. }
      split.
      { unfold PtrToChunk. replace (m + REDZONE - REDZONE) with m by lia.
        rewrite wrap_small by lia. rewrite Hh2m.
        cbn [chunk_state set_next set_chunk_state].
        destruct (Z.eqb_spec CHUNK_ALLOCATED CHUNK_MEMALIGN) as [He|]; [|reflexivity].
        exfalso. revert He. apply states_distinct. }
      split.
      { intros x Hx. apply Hh2o. lia. }
      split; [exact Hh2m|].
      split; [intros; lia|]. intros _. reflexivity. }
  intros addr w3 (Hmi3 & Hth3 & Hmp3 & Ha1 & Ha2 & Ha3 & Ha4 & Hptr & Hout3 & Hm3 & Hfw & Hnf).
  apply wp_bind, wp_gets.
  apply wp_bind, wp_CHECK.
  2:{ intros Hf. exfalso. rewrite Hptr, Z.eqb_refl in Hf. discriminate. }
  intros _. apply wp_bind, wp_write. apply wp_bind, wp_write. apply wp_bind, wp_read.
  unfold with_heap.
  cbn [heap malloc_info tl_current_thread mappings fifo_next total_mmaped trace].
  apply wp_bind, wp_CHECK.
  2:{ intros Hf. right. left. split; [reflexivity|]. right.
      destruct (Z_lt_le_dec (addr - m) (2 ^ 32)) as [Hlt|Hge]; [exfalso|lia].
      rewrite hdr_store_eq in Hf. unfold AsanChunk_beg in Hf.
      cbn [offset set_offset] in Hf. rewrite Z.mod_small in Hf by lia.
      replace (m + (addr - m)) with addr in Hf by lia.
      rewrite wrap_small, Z.eqb_refl in Hf by lia. discriminate. }
  intros _. apply wp_bind, wp_write. apply wp_bind, wp_write.
  unfold with_heap.
  cbn [heap malloc_info tl_current_thread mappings fifo_next total_mmaped trace].
  match goal with
  | |- context [mkWorld ?h _ _ _ _ _ _] => set (hF := h)
  end.
  assert (Hfinal : forall wF,
            heap wF = hF -> malloc_info wF = malloc_info w1 ->
            tl_current_thread wF = tl_current_thread w1 ->
            mappings wF = mappings w1 -> Q addr wF).
  { intros wF Hh Hmi Hth Hmp. apply (HQ addr wF (clear_local G1)).
    - unfold wf, tls in *. rewrite Hh, Hmi, Hth, Hmp.
      eapply (wf_st_allocated h1 hF _ _ _ G1 live m s sc);
        [exact Hwf1|exact Hm1|exact Hs| | | | | |lia].
      + intros x Hx. unfold hF. rewrite !hdr_store_ne by lia. apply Hout3. exact Hx.
      + unfold hF. rewrite !hdr_store_eq, Hm3. exact Hcls.
      + unfold hF. rewrite !hdr_store_eq, Hm3. reflexivity.
      + unfold hF. rewrite !hdr_store_eq, Hm3. cbn [used_size set_free_tid set_alloc_tid
          set_offset set_used_size]. unfold size'. destruct (Z.eqb_spec size 0); lia.
      + unfold hF. rewrite !PtrToChunk_store_pres; [exact Hptr| | | |];
          intros c; split; reflexivity.
    - intros c. reflexivity.
    - intros Hbig. destruct (Hfw Hbig) as (H1 & H2 & H3).
      rewrite Hh. unfold hF. rewrite !hdr_store_ne by lia. split; assumption.
    - intros Hsmall. rewrite Hh. unfold hF.
      rewrite !PtrToChunk_store_pres; [rewrite Hptr, (Hnf Hsmall); lia| | | |];
          intros c; split; reflexivity.
    - rewrite Hh. unfold hF.
      rewrite !PtrToChunk_store_pres; [| | | |]; try (intros c; split; reflexivity).
      rewrite Hptr, !hdr_store_eq, Hm3. reflexivity. }
  clearbody hF.
  apply wp_bind, wp_lift.
  2:{ intros Hn. exfalso. unfold compressed_alloc_stack, sizeof_ChunkBase in Hn.
      destruct (Z.geb_spec REDZONE (if WORDSIZE =? 32 then 24 else 32)) as [|Hlt];
        [discriminate|]. destruct (WORDSIZE =? 32); lia. }
  intros as_ _. apply wp_bind, wp_emit.
  destruct (cfg_shadow cfg Hcfg) as (g & Hg & HS & HRg & _).
  assert (Hsg : forall x, x mod REDZONE = 0 -> x mod SHADOW_GRANULARITY cfg = 0).
  { intros x Hx. rewrite HS.
    assert (0 < 2 ^ g) by (apply Z.pow_pos_nonneg; lia).
    apply Z.mod_divide in Hx; [|lia]. apply Z.mod_divide in HRg; [|lia].
    apply Z.mod_divide; [lia|]. eapply Z.divide_trans; eassumption. }
  assert (Har : (addr + rounded) mod REDZONE = 0).
  { apply Z.mod_divide in Ha4; [|lia]. apply Z.mod_divide in Hrmod; [|lia].
    apply Z.mod_divide; [lia|]. apply Z.divide_add_r; assumption. }
  apply wp_bind. apply PoisonShadow_wp; [apply Hsg; exact Ha4|apply Hsg; exact Har|].
  intros evs. apply wp_bind.
  destruct (size' <? rounded).
  - rewrite (wrap_small cfg (addr + rounded)) by lia.
    rewrite (wrap_small cfg (addr + rounded - REDZONE)) by lia.
    apply PoisonPartial_wp; [|lia|].
    + apply Z.mod_divide in Har; [|lia]. apply Z.mod_divide; [lia|].
      apply Z.divide_sub_r; [exact Har|apply Z.divide_refl].
    + intros evs'. apply wp_ret. apply Hfinal; try reflexivity; assumption.
  - apply wp_ret. apply wp_ret. apply Hfinal; try reflexivity; assumption.
Qed.

End AllocSpec.

Section Quarantine.
Variable cfg : Config.
Local Abbreviation REDZONE := (__asan_flag_redzone cfg).
Local Abbreviation WORDSIZE := (__WORDSIZE cfg).

Hypothesis Hcfg : cfg_ok cfg.

Lemma wf_core_of h mi ms maps G live :
  wf_st cfg h mi ms maps G live -> wf_core cfg h mi ms maps G live.
Proof. intros [H1 H2 H3 H4 H5 H6 H7 H8 H9 H10 H11]. constructor; assumption. Qed.

Lemma wf_st_of_core h mi ms maps G live :
  wf_core cfg h mi ms maps G live ->
  fifo_ok cfg h (quarantine_ mi) (g_quar G) ->
  match ms with
  | Some x => fifo_ok cfg h (tl_quarantine_ x) (t_quar G)
  | None => t_quar G = []
  end ->
  wf_st cfg h mi ms maps G live.
Proof. intros [H1 H2 H3 H4 H5 H8 H9 H10 H11] H6 H7. constructor; assumption. Qed.

(** Writing the [next] field of a quarantined chunk. *)
Lemma core_after_set_next h mi ms maps G live x v :
  wf_st cfg h mi ms maps G live -> x ∈ g_quar G ++ t_quar G ->
  wf_core cfg (store h x (set_next v)) mi ms maps G live.
Proof.
  intros Hwf Hx.
  pose proof (redzone_pos cfg Hcfg) as HR.
  destruct (wf_quar_cells _ _ _ _ _ _ _ Hwf x Hx) as (Hq & _ & s & _ & Hb).
  destruct states_distinct as (_ & Hd2 & _ & Hd4 & _).
  assert (Hfields : forall y,
            chunk_state (hdr (store h x (set_next v)) y) = chunk_state (hdr h y) /\
            size_class (hdr (store h x (set_next v)) y) = size_class (hdr h y) /\
            used_size (hdr (store h x (set_next v)) y) = used_size (hdr h y)).
  { intros y. rewrite hdr_store. destruct (decide (x = y)) as [<-|]; repeat split. }
  assert (Hfree : forall c y, y ∈ l_free G c ++ g_free G c ++ t_free G c ->
            hdr (store h x (set_next v)) y = hdr h y).
  { intros c y Hy. apply hdr_store_ne. intros <-.
    eapply not_free_by_state; [exact Hwf| |exact Hy]. congruence. }
  assert (Hlive : forall p n, (p, n) ∈ live ->
            PtrToChunk cfg (store h x (set_next v)) p = PtrToChunk cfg h p /\
            hdr (store h x (set_next v)) (PtrToChunk cfg h p) = hdr h (PtrToChunk cfg h p)).
  { intros p n Hp.
    assert (Hne : x <> PtrToChunk cfg h p).
    { eapply not_live_by_state; [exact Hwf| |exact Hp]. congruence. }
    split; [|apply hdr_store_ne; exact Hne].
    apply PtrToChunk_store_outside.
    destruct (live_ptr_bounds cfg h mi maps p n HR (wf_registry _ _ _ _ _ _ _ Hwf)
                (wf_live _ _ _ _ _ _ _ Hwf p n Hp)) as (-> & _).
    intros He. symmetry in He. revert He.
    eapply base_not_forwarder; [exact HR|exact Hwf|exact Hb|exact Hp|exact Hne]. }
  destruct Hwf as [H1 H2 H3 H4 H5 H6 H7 H8 H9 H10 H11]. constructor.
  - exact H1.
  - intros c. eapply lseg_frame; [|exact (H2 c)].
    intros y Hy. rewrite (Hfree c y); [reflexivity|].
    apply elem_of_app. right. apply elem_of_app. left. exact Hy.
  - intros c. specialize (H3 c). destruct ms as [x0|]; [|exact H3].
    eapply lseg_frame; [|exact H3].
    intros y Hy. rewrite (Hfree c y); [reflexivity|].
    apply elem_of_app. right. apply elem_of_app. right. exact Hy.
  - intros c a Ha. destruct (H4 c a Ha) as (Hs & Hc & Hk).
    unfold chunk_ok. rewrite (Hfree c a Ha). auto.
  - exact H5.
  - intros a Ha. destruct (H8 a Ha) as (Hs & Hc & Hk).
    destruct (Hfields a) as (E1 & E2 & _). unfold chunk_ok. rewrite E1, E2. auto.
  - exact H9.
  - intros p n Hp. destruct (Hlive p n Hp) as (E1 & E2).
    unfold live_ok. rewrite E1, E2. exact (H10 p n Hp).
  - replace (map (fun y => PtrToChunk cfg (store h x (set_next v)) y.1) live)
      with (map (fun y => PtrToChunk cfg h y.1) live); [exact H11|].
    apply map_ext_in. intros [p n] Hp. apply list_elem_of_In in Hp.
    symmetry. exact (proj1 (Hlive p n Hp)).
Qed.

(** A chunk that no list holds enters a quarantine. *)
Lemma core_add_quar h mi ms maps G live m gq' tq' :
  wf_core cfg h mi ms maps G live ->
  chunk_state (hdr h m) = CHUNK_QUARANTINE ->
  chunk_ok cfg h mi m (size_class (hdr h m)) ->
  m ∉ g_quar G ++ t_quar G ->
  gq' ++ tq' ≡ₚ m :: g_quar G ++ t_quar G ->
  wf_core cfg h mi ms maps
    (mkGhost (l_free G) (g_free G) (t_free G) gq' tq') live.
Proof.
  intros [H1 H2 H3 H4 H5 H8 H9 H10 H11] Hs Hc Hn Hp. constructor; try assumption.
  - cbn [g_quar t_quar]. intros a Ha. rewrite Hp in Ha.
    apply elem_of_cons in Ha as [->|Ha]; [split; assumption|apply H8; exact Ha].
  - cbn [g_quar t_quar]. rewrite Hp. apply NoDup_cons. split; assumption.
Qed.

(** The quarantined chunks are redistributed over the two lists. *)
Lemma core_move_quar h mi ms maps G live gq' tq' :
  wf_core cfg h mi ms maps G live ->
  gq' ++ tq' ≡ₚ g_quar G ++ t_quar G ->
  wf_core cfg h mi ms maps
    (mkGhost (l_free G) (g_free G) (t_free G) gq' tq') live.
Proof.
  intros [H1 H2 H3 H4 H5 H8 H9 H10 H11] Hp. constructor; try assumption.
  - cbn [g_quar t_quar]. intros a Ha. rewrite Hp in Ha. apply H8; exact Ha.
  - cbn [g_quar t_quar]. rewrite Hp. exact H9.
Qed.

(** The thread-local storage or the quarantine record is replaced. *)
Lemma core_set_records h mi ms maps G live q ms' :
  wf_core cfg h mi ms maps G live ->
  match ms, ms' with
  | Some x, Some x' => tl_free_lists_ x' = tl_free_lists_ x
  | None, None => True
  | _, _ => False
  end ->
  wf_core cfg h (mkMallocInfo (free_lists_ mi) q (page_groups_ mi) (n_page_groups_ mi))
    ms' maps G live.
Proof.
  intros [H1 H2 H3 H4 H5 H8 H9 H10 H11] Hms.
  assert (Hck : forall a c, chunk_ok cfg h mi a c ->
            chunk_ok cfg h (mkMallocInfo (free_lists_ mi) q (page_groups_ mi)
                              (n_page_groups_ mi)) a c).
  { intros a c. apply chunk_ok_same_registry; reflexivity. }
  constructor.
  - exact H1.
  - exact H2.
  - intros c. specialize (H3 c).
    destruct ms as [x|], ms' as [x'|]; try contradiction; [|exact H3].
    rewrite Hms. exact H3.
  - intros c a Ha. destruct (H4 c a Ha) as (Hs & Hc). split; [exact Hs|]. apply Hck, Hc.
  - exact H5.
  - intros a Ha. destruct (H8 a Ha) as (Hs & Hc). split; [exact Hs|]. apply Hck, Hc.
  - exact H9.
  - intros p n Hp. destruct (H10 p n Hp) as (E1 & E2 & s & E3 & E4 & E5).
    split; [exact E1|]. split; [exact E2|]. exists s. split; [exact E3|].
    split; [|exact E5]. eapply is_base_same_registry; [| |exact E4]; reflexivity.
  - exact H11.
Qed.

Lemma total_bytes_app h l1 l2 :
  total_bytes cfg h (l1 ++ l2) = total_bytes cfg h l1 + total_bytes cfg h l2.
Proof. induction l1 as [|a r IH]; simpl; [reflexivity|]. rewrite IH. lia. Qed.

Lemma wrap_add_l a b : wrap cfg (wrap cfg a + b) = wrap cfg (a + b).
Proof.
  unfold wrap. destruct (cfg_word cfg Hcfg) as [Hw _].
  rewrite Zplus_mod_idemp_l. reflexivity.
Qed.

Lemma wrap_add_r a b : wrap cfg (a + wrap cfg b) = wrap cfg (a + b).
Proof. unfold wrap. rewrite Zplus_mod_idemp_r. reflexivity. Qed.

Lemma last_snoc (l : list Z) x d : List.last (l ++ [x]) d = x.
Proof. apply List.last_last. Qed.

End Quarantine.

Lemma wrap_sub_small s T M :
  0 < M -> 0 <= s -> s <= (s + T) mod M -> (s + T) mod M - s = T mod M.
Proof.
  intros HM Hs Hle.
  pose proof (Z.mod_pos_bound (s + T) M HM) as Hb.
  pose proof (Z.div_mod (s + T) M ltac:(lia)) as E.
  apply Z.mod_unique with (q := (s + T) / M); [left; lia|lia].
Qed.

Section Fifo.
Variable cfg : Config.
Local Abbreviation REDZONE := (__asan_flag_redzone cfg).
Local Abbreviation WORDSIZE := (__WORDSIZE cfg).

Hypothesis Hcfg : cfg_ok cfg.

Lemma same_but_heap_refl w : same_but_heap w w.
Proof. repeat split. Qed.

Lemma SizeClassToSize_range c s :
  SizeClassToSize cfg c = Some s -> 0 <= s < 2 ^ WORDSIZE.
Proof.
  destruct (cfg_word cfg Hcfg) as [Hw _].
  unfold SizeClassToSize.
  destruct (negb (c <? kNumberOfSizeClasses cfg)); [discriminate|].
  destruct (c <=? kMallocSizeClassStepLog); intros [= <-];
    unfold wrap; apply Z.mod_pos_bound; apply Z.pow_pos_nonneg; lia.
Qed.

Lemma fifo_ok_empty h q : fifo_ok cfg h q [] -> first_ q = 0 /\ last_ q = 0.
Proof. intros (H1 & H2 & _). simpl in *. auto. Qed.

Lemma fifo_ok_last h q cells :
  fifo_ok cfg h q cells -> cells <> [] -> last_ q ∈ cells /\ last_ q <> 0.
Proof.
  intros (H1 & H2 & _) Hne.
  assert (Hin : last_ q ∈ cells).
  { rewrite H2.
    destruct (@exists_last _ cells Hne) as (l' & a & ->).
    rewrite List.last_last. apply elem_of_app. right. apply elem_of_cons. left. reflexivity. }
  split; [exact Hin|]. eapply lseg_cells_nonnull; eassumption.
Qed.

(** [AsanChunkFifoList::Push]. *)
Lemma Push_wp this n cells w (Q : AsanChunkFifoList -> World -> Prop) :
  fifo_ok cfg (heap w) this cells -> NoDup cells -> n ∉ cells -> n <> 0 ->
  (forall q' w',
     same_but_heap w w' ->
     heap w' = heap w \/
       (exists l, l ∈ cells /\ heap w' = store (heap w) l (set_next n)) ->
     fifo_ok cfg (heap w') q' (cells ++ [n]) ->
     (exists s, AsanChunk_Size cfg (hdr (heap w) n) = Some s /\
                size_ q' = wrap cfg (size_ this + s)) ->
     Q q' w') ->
  wp any_abort False (AsanChunkFifoList_Push cfg this n) Q w.
Proof.
  intros Hf Hnd Hn Hn0 HQ. unfold AsanChunkFifoList_Push.
  apply wp_bind, wp_read. apply wp_bind, wp_CHECK; [|intros; exact I].
  intros Hnx. apply Z.eqb_eq in Hnx.
  destruct Hf as (Hseg & Hlast & Hsize).
  destruct (Z.eqb_spec (last_ this) 0) as [E0|E0]; cbn [negb].
  - (* the list is empty *)
    assert (Hc : cells = []).
    { destruct cells as [|x r] eqn:Ec; [reflexivity|exfalso].
      destruct (fifo_ok_last (heap w) this (x :: r)) as (Hin & Hne);
        [exact (conj Hseg (conj Hlast Hsize))|discriminate|]. contradiction. }
    subst cells. apply wp_bind. apply wp_bind, wp_CHECK; [|intros; exact I].
    intros _. apply wp_ret. apply wp_bind, wp_read. apply wp_bind, wp_lift; [|intros; exact I].
    intros s Hs. apply wp_ret. cbn [first_ last_ size_].
    apply HQ; [apply same_but_heap_refl|left; reflexivity| |].
    + split; [|split]; cbn [first_ last_ size_ app].
      * simpl. repeat split; assumption.
      * reflexivity.
      * simpl. unfold chunk_bytes. rewrite Hs. simpl. simpl in Hsize.
        rewrite Hsize. rewrite wrap_add_l by exact Hcfg. f_equal. lia.
    + exists s. split; [exact Hs|reflexivity].
  - (* the last chunk is linked to the new one *)
    assert (Hc : cells <> []).
    { intros ->. simpl in Hlast. contradiction. }
    destruct (fifo_ok_last (heap w) this cells) as (Hin & Hne);
      [exact (conj Hseg (conj Hlast Hsize))|exact Hc|].
    apply wp_bind. apply wp_bind, wp_CHECK; [|intros; exact I]. intros _.
    apply wp_bind, wp_read. apply wp_bind, wp_CHECK; [|intros; exact I]. intros Hl0.
    apply wp_bind, wp_write. apply wp_ret.
    apply wp_bind, wp_read. apply wp_bind, wp_lift; [|intros; exact I].
    intros s Hs. apply wp_ret. cbn [first_ last_ size_].
    assert (Hnl : last_ this <> n) by (intros <-; contradiction).
    unfold with_heap in *. cbn [heap] in *.
    rewrite hdr_store_ne in Hs by exact Hnl.
    apply HQ.
    + repeat split.
    + right. exists (last_ this). split; [exact Hin|reflexivity].
    + cbn [heap]. split; [|split]; cbn [first_ last_ size_].
      * eapply lseg_snoc; try eassumption.
        -- intros x Hx Hxl. rewrite hdr_store_ne; [reflexivity|]. rewrite Hlast. auto.
        -- rewrite <- Hlast, hdr_store_eq. reflexivity.
        -- rewrite hdr_store_ne by exact Hnl. exact Hnx.
      * rewrite List.last_last. reflexivity.
      * rewrite total_bytes_app. simpl. unfold chunk_bytes.
        rewrite hdr_store_ne by exact Hnl. rewrite Hs. simpl.
        rewrite (total_bytes_agree cfg (heap w)).
        -- rewrite Hsize, wrap_add_l by exact Hcfg. f_equal. lia.
        -- intros x Hx. rewrite hdr_store.
           destruct (decide (last_ this = x)) as [<-|]; reflexivity.
    + cbn [heap]. exists s. split; [exact Hs|reflexivity].
Qed.

Lemma lseg_append h h' a cells1 b cells2 :
  cells1 <> [] -> NoDup (cells1 ++ cells2) ->
  lseg h a cells1 -> lseg h b cells2 ->
  (forall x, x <> List.last cells1 0 -> hdr h' x = hdr h x) ->
  next (hdr h' (List.last cells1 0)) = b ->
  lseg h' a (cells1 ++ cells2).
Proof.
  revert a. induction cells1 as [|x r IH]; intros a Hne Hnd H1 H2 Hfr Hnx;
    [contradiction|].
  simpl in H1. destruct H1 as (-> & Hx0 & H1).
  cbn [app] in Hnd. apply NoDup_cons in Hnd as (Hxn & Hnd).
  cbn [app]. simpl. split; [reflexivity|]. split; [exact Hx0|].
  destruct r as [|y r'].
  - simpl in *. rewrite Hnx. eapply lseg_frame; [|exact H2].
    intros z Hz. rewrite Hfr; [reflexivity|]. intros ->. contradiction.
  - assert (Hlast : List.last (x :: y :: r') 0 = List.last (y :: r') 0) by reflexivity.
    rewrite Hlast in *.
    assert (Hxl : x <> List.last (y :: r') 0).
    { intros He. apply Hxn. apply elem_of_app. left. rewrite He.
      destruct (@exists_last _ (y :: r') ltac:(discriminate)) as (l' & z & ->).
      rewrite List.last_last. apply elem_of_app. right. apply elem_of_cons.
      left. reflexivity. }
    rewrite (Hfr x Hxl). apply IH; try assumption. discriminate.
Qed.

(** [AsanChunkFifoList::PushList]. *)
Lemma PushList_wp this q cells1 cells2 w
  (Q : AsanChunkFifoList * AsanChunkFifoList -> World -> Prop) :
  fifo_ok cfg (heap w) this cells1 -> fifo_ok cfg (heap w) q cells2 ->
  cells2 <> [] -> NoDup (cells1 ++ cells2) ->
  (forall this' w',
     same_but_heap w w' ->
     heap w' = heap w \/
       (exists l, l ∈ cells1 /\ heap w' = store (heap w) l (set_next (first_ q))) ->
     fifo_ok cfg (heap w') this' (cells1 ++ cells2) ->
     size_ this' = wrap cfg (size_ this + size_ q) ->
     Q (this', AsanChunkFifoList_clear) w') ->
  wp any_abort False (AsanChunkFifoList_PushList cfg this q) Q w.
Proof.
  intros (Hs1 & Hl1 & Hz1) (Hs2 & Hl2 & Hz2) Hne Hnd HQ.
  unfold AsanChunkFifoList_PushList. apply wp_bind.
  assert (Hlast2 : List.last (cells1 ++ cells2) 0 = List.last cells2 0).
  { destruct (@exists_last _ cells2 Hne) as (l' & z & ->).
    rewrite app_assoc, !List.last_last. reflexivity. }
  destruct (Z.eqb_spec (last_ this) 0) as [E0|E0]; cbn [negb].
  - assert (Hc : cells1 = []).
    { destruct cells1 as [|x r] eqn:Ec; [reflexivity|exfalso].
      destruct (fifo_ok_last (heap w) this (x :: r)) as (Hin & Hn0);
        [exact (conj Hs1 (conj Hl1 Hz1))|discriminate|]. contradiction. }
    subst cells1. apply wp_bind, wp_CHECK; [|intros; exact I]. intros _.
    apply wp_ret. apply wp_ret. cbn [first_ last_ size_ app] in *.
    apply HQ; [apply same_but_heap_refl|left; reflexivity| |reflexivity].
    split; [|split]; cbn [first_ last_ size_].
    + exact Hs2.
    + exact Hl2.
    + rewrite Hz1, Hz2. simpl. rewrite wrap_add_r, wrap_add_l by exact Hcfg.
      reflexivity.
  - assert (Hc : cells1 <> []) by (intros ->; simpl in Hl1; contradiction).
    destruct (fifo_ok_last (heap w) this cells1) as (Hin & Hn0);
      [exact (conj Hs1 (conj Hl1 Hz1))|exact Hc|].
    apply wp_bind, wp_CHECK; [|intros; exact I]. intros _.
    apply wp_bind, wp_read. apply wp_bind, wp_CHECK; [|intros; exact I]. intros _.
    apply wp_bind, wp_write. apply wp_ret. apply wp_ret.
    cbn [first_ last_ size_]. unfold with_heap.
    apply HQ; cbn [heap malloc_info tl_current_thread mappings].
    + repeat split.
    + right. exists (last_ this). split; [exact Hin|reflexivity].
    + split; [|split]; cbn [first_ last_ size_].
      * eapply lseg_append; try eassumption.
        -- intros x Hx. apply hdr_store_ne. rewrite Hl1. auto.
        -- rewrite <- Hl1, hdr_store_eq. reflexivity.
      * rewrite Hlast2. exact Hl2.
      * rewrite (total_bytes_agree cfg (heap w)).
        -- rewrite total_bytes_app, Hz1, Hz2.
           rewrite wrap_add_r, wrap_add_l by exact Hcfg. reflexivity.
        -- intros x Hx. rewrite hdr_store.
           destruct (decide (last_ this = x)) as [<-|]; reflexivity.
    + reflexivity.
Qed.

(** [AsanChunkFifoList::Pop]: the memory is read only. *)
Lemma Pop_wp this cells w (Q : Z * AsanChunkFifoList -> World -> Prop) :
  fifo_ok cfg (heap w) this cells ->
  (forall x rest s q',
     cells = x :: rest ->
     AsanChunk_Size cfg (hdr (heap w) x) = Some s -> s <= size_ this ->
     size_ q' = size_ this - s ->
     fifo_ok cfg (heap w) q' rest ->
     Q (x, q') w) ->
  wp any_abort False (AsanChunkFifoList_Pop cfg this) Q w.
Proof.
  intros (Hs1 & Hl1 & Hz1) HQ. unfold AsanChunkFifoList_Pop.
  apply wp_bind, wp_CHECK; [|intros; exact I]. intros Hf.
  apply negb_true_iff, Z.eqb_neq in Hf.
  destruct (lseg_nonnull _ _ _ Hf Hs1) as (rest & Hc & Hrest).
  apply wp_bind, wp_read. apply wp_bind, wp_lift; [|intros; exact I].
  intros s Hs. apply wp_bind, wp_CHECK; [|intros; exact I]. intros Hge.
  apply Z.geb_le in Hge.
  apply wp_bind.
  apply (wp_conseq _ _ _ (fun _ w' => w' = w)).
  { destruct (negb _); [|apply wp_ret; reflexivity].
    apply wp_bind, wp_read. apply wp_CHECK; [reflexivity|intros; exact I]. }
  intros _ w' ->. apply wp_ret.
  eapply (HQ _ rest s); [exact Hc|exact Hs|exact Hge|reflexivity|].
  pose proof (SizeClassToSize_range _ _ Hs) as Hsr.
  split; [|split]; cbn [first_ last_ size_].
  - exact Hrest.
  - destruct rest as [|y r].
    + simpl in Hrest. rewrite Hrest. reflexivity.
    + simpl in Hrest. destruct Hrest as (Hy & Hy0 & _).
      rewrite Hy. destruct (Z.eqb_spec y 0); [contradiction|].
      rewrite Hl1, Hc. reflexivity.
  - rewrite Hz1, Hc. simpl. unfold chunk_bytes. rewrite Hs. simpl.
    destruct (cfg_word cfg Hcfg) as [Hw _].
    unfold wrap. apply wrap_sub_small; [apply Z.pow_pos_nonneg; lia|lia|].
    rewrite Hz1, Hc in Hge. simpl in Hge. unfold chunk_bytes in Hge.
    rewrite Hs in Hge. exact Hge.
Qed.

End Fifo.

Section PopSpec.
Variable cfg : Config.
Local Abbreviation REDZONE := (__asan_flag_redzone cfg).
Local Abbreviation WORDSIZE := (__WORDSIZE cfg).

Hypothesis Hcfg : cfg_ok cfg.

Lemma core_drop_quar h mi ms maps G live x rest :
  wf_core cfg h mi ms maps G live -> g_quar G = x :: rest ->
  wf_core cfg h mi ms maps
    (mkGhost (l_free G) (g_free G) (t_free G) rest (t_quar G)) live.
Proof.
  intros [H1 H2 H3 H4 H5 H8 H9 H10 H11] Hg. rewrite Hg in *.
  constructor; try assumption.
  - cbn [g_quar t_quar]. intros a Ha. apply H8. cbn [app].
    apply elem_of_cons. right. exact Ha.
  - cbn [g_quar t_quar]. cbn [app] in H9. apply NoDup_cons in H9 as (_ & H9). exact H9.
Qed.

(** [MallocInfo::Pop]: the oldest chunk of the global quarantine goes to
    the free list of its class.  [ms] is the thread-local storage as the
    caller holds it. *)
Lemma MallocInfo_Pop_wp ms w G live (Q : unit -> World -> Prop) :
  wf_st cfg (heap w) (malloc_info w) ms (mappings w) G live -> at_rest G ->
  (forall x rest s w' G',
     g_quar G = x :: rest ->
     AsanChunk_Size cfg (hdr (heap w) x) = Some s -> 0 < s ->
     wf_st cfg (heap w') (malloc_info w') ms (mappings w') G' live ->
     at_rest G' -> g_quar G' = rest -> t_quar G' = t_quar G ->
     size_ (quarantine_ (malloc_info w')) = size_ (quarantine_ (malloc_info w)) - s ->
     tl_current_thread w' = tl_current_thread w ->
     (forall y, y <> x -> hdr (heap w') y = hdr (heap w) y) ->
     (forall y, size_class (hdr (heap w') y) = size_class (hdr (heap w) y)) ->
     Q tt w') ->
  wp any_abort False (MallocInfo_Pop cfg) Q w.
Proof.
  intros Hwf Hrest HQ.
  pose proof (redzone_pos cfg Hcfg) as HR.
  destruct w as [h fn mi th tm maps tr]. destruct mi as [fl q pg n].
  cbn [heap malloc_info mappings tl_current_thread] in *.
  unfold MallocInfo_Pop. apply wp_bind, wp_gets.
  apply wp_bind, wp_CHECK; [|intros; exact I]. intros _.
  apply wp_bind. cbn [malloc_info quarantine_].
  eapply Pop_wp; [exact Hcfg|exact (wf_gquar _ _ _ _ _ _ _ Hwf)|].
  intros x rest s q' Hg Hs Hle Hq' Hfifo. cbn [heap] in *.
  unfold set_quarantine, set_free_list, set_malloc_info.
  apply wp_bind. apply wp_bind, wp_gets. apply wp_modify.
  apply wp_bind, wp_CHECK; [|intros; exact I]. intros _.
  apply wp_bind, wp_read. apply wp_bind, wp_CHECK; [|intros; exact I]. intros _.
  apply wp_bind, wp_write.
  apply wp_bind, wp_CHECK; [|intros; exact I]. intros _.
  apply wp_bind, wp_CHECK; [|intros; exact I]. intros _.
  apply wp_bind, wp_gets. apply wp_bind, wp_write.
  apply wp_bind. apply wp_bind, wp_gets. apply wp_modify.
  unfold with_heap.
  cbn [heap malloc_info tl_current_thread mappings fifo_next total_mmaped trace
       free_lists_ quarantine_ page_groups_ n_page_groups_ AsanChunk_SizeClass].
  set (c := size_class (hdr h x)).
  set (hF := store (store h x (set_chunk_state CHUNK_AVAILABLE)) x (set_next (fl c))).
  match goal with
  | |- wp _ _ _ _ ?W => set (wF := W)
  end.
  assert (HxQ : x ∈ g_quar G ++ t_quar G).
  { rewrite Hg. apply elem_of_cons. left. reflexivity. }
  destruct (wf_quar_cells _ _ _ _ _ _ _ Hwf x HxQ) as (Hst & _ & s' & Hs' & Hb).
  unfold AsanChunk_Size in Hs. fold c in Hs'. fold c in Hs.
  rewrite Hs in Hs'. injection Hs' as <-.
  pose proof (wf_registry _ _ _ _ _ _ _ Hwf) as Hreg.
  destruct (base_in_group cfg _ _ _ _ Hreg Hb) as (_ & _ & _ & Hspos & _ & _ & Hx0 & _).
  destruct states_distinct as (Hd1 & Hd2 & Hd3 & Hd4 & Hd5 & Hd6).
  (* the chunk leaves the quarantine *)
  set (G1 := mkGhost (l_free G) (g_free G) (t_free G) rest (t_quar G)).
  assert (Hwf1 : wf_st cfg h (mkMallocInfo fl q' pg n) ms maps G1 live).
  { apply wf_st_of_core.
    - apply (core_set_records cfg h (mkMallocInfo fl q pg n) ms maps G1 live q' ms).
      + eapply core_drop_quar; [apply wf_core_of; exact Hwf|exact Hg].
      + destruct ms; [reflexivity|exact I].
    - exact Hfifo.
    - exact (wf_tquar _ _ _ _ _ _ _ Hwf). }
  assert (Hnd : x ∉ rest ++ t_quar G).
  { pose proof (wf_quar_nodup _ _ _ _ _ _ _ Hwf) as Hn. rewrite Hg in Hn.
    cbn [app] in Hn. apply NoDup_cons in Hn as (Hn & _). exact Hn. }
  assert (Hb1 : is_base cfg (mkMallocInfo fl q' pg n) x s).
  { eapply is_base_same_registry; [| |exact Hb]; reflexivity. }
  assert (Hout : ~ in_footprint cfg h G1 live x).
  { eapply outside_intro; [exact HR|exact Hwf1|exact Hb1| | |].
    - intros c' Hin. eapply (not_free_by_state cfg h _ ms maps G live x c');
        [exact Hwf|congruence|]. apply elem_of_app. right. exact Hin.
    - exact Hnd.
    - intros p k Hp. eapply not_live_by_state; [exact Hwf|congruence|exact Hp]. }
  assert (Hwf2 : wf_st cfg hF (mkMallocInfo fl q' pg n) ms maps G1 live).
  { eapply wf_st_heap_agree; [exact HR|exact Hwf1| |].
    - intros y Hy. unfold hF. rewrite !hdr_store_ne; [reflexivity| |];
        intros <-; contradiction.
    - intros c' y Hy. cbn [l_free G1] in Hy. rewrite Hrest in Hy. inversion Hy. }
  assert (HhF : hdr hF x = set_next (fl c) (set_chunk_state CHUNK_AVAILABLE (hdr h x))).
  { unfold hF. rewrite !hdr_store_eq. reflexivity. }
  set (G' := mkGhost (l_free G) (upd (g_free G) c (x :: g_free G c)) (t_free G)
               rest (t_quar G)).
  assert (Hwf3 : wf_st cfg hF (mkMallocInfo (upd fl c x) q' pg n) ms maps G' live).
  { apply (wf_st_free_lists cfg hF (mkMallocInfo fl q' pg n) ms maps G1 live
             (upd fl c x) ms G' Hwf2); try reflexivity.
    - destruct ms; [reflexivity|exact I].
    - intros c'. cbn [g_free G']. destruct (Z.eq_dec c' c) as [->|Hc].
      + rewrite !upd_eq. simpl. split; [reflexivity|]. split; [lia|].
        rewrite HhF. cbn [next set_next].
        exact (wf_gfree _ _ _ _ _ _ _ Hwf2 c).
      + rewrite !upd_ne by exact Hc. exact (wf_gfree _ _ _ _ _ _ _ Hwf2 c').
    - exact (wf_tfree _ _ _ _ _ _ _ Hwf2).
    - intros c' a Ha. cbn [l_free g_free t_free G'] in Ha.
      destruct (Z.eq_dec c' c) as [->|Hc].
      + rewrite upd_eq in Ha.
        change ((x :: g_free G c) ++ t_free G c) with (x :: g_free G c ++ t_free G c) in Ha.
        rewrite <- Permutation_middle in Ha.
        apply elem_of_cons in Ha as [->|Ha];
          [|exact (wf_free_cells _ _ _ _ _ _ _ Hwf2 c a Ha)].
        unfold chunk_ok. rewrite HhF. split; [reflexivity|]. split; [reflexivity|].
        exists s. split; [exact Hs|exact Hb1].
      + rewrite upd_ne in Ha by exact Hc.
        exact (wf_free_cells _ _ _ _ _ _ _ Hwf2 c' a Ha).
    - intros c'. cbn [l_free g_free t_free G'].
      destruct (Z.eq_dec c' c) as [->|Hc].
      + rewrite upd_eq.
        change ((x :: g_free G c) ++ t_free G c) with (x :: g_free G c ++ t_free G c).
        rewrite <- Permutation_middle. apply NoDup_cons. split.
        * eapply (not_free_by_state cfg h _ ms maps G live x c); [exact Hwf|congruence].
        * exact (wf_free_nodup _ _ _ _ _ _ _ Hwf c).
      + rewrite upd_ne by exact Hc. exact (wf_free_nodup _ _ _ _ _ _ _ Hwf c'). }
  assert (Hdone : Q tt wF).
  { apply (HQ x rest s wF G'); unfold wF;
      cbn [heap malloc_info tl_current_thread mappings quarantine_ size_];
      try assumption; try reflexivity.
    - intros y Hy. fold hF. unfold hF. rewrite !hdr_store_ne by congruence. reflexivity.
    - intros y. fold hF. unfold hF.
      destruct (decide (x = y)) as [<-|Hne];
        [rewrite !hdr_store_eq|rewrite !hdr_store_ne by exact Hne]; reflexivity. }
  destruct (negb (__asan_flag_stats cfg =? 0)); [|apply wp_ret; exact Hdone].
  apply wp_bind, wp_lift; [|intros; exact I]. intros s0 _.
  unfold stats_Log2. destruct (negb (__asan_flag_stats cfg =? 0)); [|apply wp_ret; exact Hdone].
  apply wp_bind, wp_lift; [|intros; exact I]. intros l _. apply wp_ret. exact Hdone.
Qed.

End PopSpec.

Section SwallowSpec.
Variable cfg : Config.
Local Abbreviation REDZONE := (__asan_flag_redzone cfg).
Local Abbreviation WORDSIZE := (__WORDSIZE cfg).

Hypothesis Hcfg : cfg_ok cfg.

Lemma Swallow_pop_loop_wp fuel :
  forall ms w G live (Q : unit -> World -> Prop),
  wf_st cfg (heap w) (malloc_info w) ms (mappings w) G live -> at_rest G ->
  size_ (quarantine_ (malloc_info w)) <= Z.of_nat fuel ->
  0 < __asan_flag_quarantine_size cfg ->
  (forall w' G' released,
     wf_st cfg (heap w') (malloc_info w') ms (mappings w') G' live ->
     at_rest G' ->
     g_quar G = released ++ g_quar G' -> t_quar G' = t_quar G ->
     released_over_budget cfg (heap w) released (g_quar G') ->
     size_ (quarantine_ (malloc_info w')) <= __asan_flag_quarantine_size cfg ->
     tl_current_thread w' = tl_current_thread w ->
     (forall y, y ∉ released -> hdr (heap w') y = hdr (heap w) y) ->
     (forall y, size_class (hdr (heap w') y) = size_class (hdr (heap w) y)) ->
     Q tt w') ->
  wp any_abort False (Swallow_pop_loop cfg fuel) Q w.
Proof.
  induction fuel as [|fuel IH]; intros ms w G live Q Hwf Hrest Hfuel Hb HQ.
  - cbn [Swallow_pop_loop]. apply wp_bind, wp_gets.
    destruct (Z.gtb_spec (size_ (quarantine_ (malloc_info w)))
                (__asan_flag_quarantine_size cfg)) as [Hgt|Hle]; [lia|].
    apply wp_ret. apply (HQ w G []); auto.
    intros L1 a L2 H. destruct L1; discriminate.
  - cbn [Swallow_pop_loop]. apply wp_bind, wp_gets.
    destruct (Z.gtb_spec (size_ (quarantine_ (malloc_info w)))
                (__asan_flag_quarantine_size cfg)) as [Hgt|Hle].
    2:{ apply wp_ret. apply (HQ w G []); auto.
        intros L1 a L2 H. destruct L1; discriminate. }
    apply wp_bind.
    eapply MallocInfo_Pop_wp; [exact Hcfg|exact Hwf|exact Hrest|].
    intros x rest s w1 G1 Hg Hs Hspos Hwf1 Hrest1 Hg1 Ht1 Hsize1 Hth1 Hfr1 Hsc1.
    apply (IH ms w1 G1 live); [exact Hwf1|exact Hrest1|lia|exact Hb|].
    intros w' G' released Hwf' Hrest' Hg' Ht' Hrel Hsz' Hth' Hfr' Hsc'.
    apply (HQ w' G' (x :: released)); try assumption.
    + rewrite Hg. cbn [app]. f_equal. rewrite <- Hg1. exact Hg'.
    + congruence.
    + intros L1 a L2 HL. destruct L1 as [|b L1]; cbn [app] in HL.
      * injection HL as -> ->.
        destruct (wf_gquar _ _ _ _ _ _ _ Hwf) as (_ & _ & Hz).
        rewrite Hz, Hg, <- Hg1, Hg' in Hgt. exact Hgt.
      * injection HL as -> HL.
        rewrite <- (total_bytes_agree cfg (heap w) (heap w1));
          [exact (Hrel L1 a L2 HL)|]. intros y _. apply Hsc1.
    + congruence.
    + intros y Hy. rewrite Hfr'.
      * apply Hfr1. intros ->. apply Hy. apply elem_of_cons. left. reflexivity.
      * intros Hin. apply Hy. apply elem_of_cons. right. exact Hin.
    + intros y. rewrite Hsc'. apply Hsc1.
Qed.

Lemma fifo_ok_clear h : fifo_ok cfg h AsanChunkFifoList_clear [].
Proof. repeat split. Qed.

(** The first part of [SwallowThreadLocalMallocStorage]: the thread-local
    quarantine is appended to the global one, which is then cut down to
    the budget. *)
Lemma Swallow_quarantine_wp x w G live (Q : AsanThreadLocalMallocStorage -> World -> Prop) :
  wf_st cfg (heap w) (malloc_info w) (Some x) (mappings w) G live -> at_rest G ->
  0 < __asan_flag_quarantine_size cfg ->
  (forall x' w' G' released,
     wf_st cfg (heap w') (malloc_info w') (Some x') (mappings w') G' live ->
     at_rest G' ->
     tl_free_lists_ x' = tl_free_lists_ x ->
     g_quar G ++ t_quar G = released ++ g_quar G' ++ t_quar G' ->
     released_over_budget cfg (heap w) released (g_quar G' ++ t_quar G') ->
     tl_current_thread w' = tl_current_thread w ->
     (forall y, y ∉ released ->
        chunk_state (hdr (heap w') y) = chunk_state (hdr (heap w) y)) ->
     Q x' w') ->
  wp any_abort False
    (if size_ (tl_quarantine_ x) >? 0
     then
       bind (gets malloc_info)
         (fun mi =>
            bind (AsanChunkFifoList_PushList cfg (quarantine_ mi) (tl_quarantine_ x))
              (fun r =>
                 let '(gq, q) := r in
                 bind (set_quarantine gq)
                   (fun _ =>
                      bind (Swallow_pop_loop cfg (Z.to_nat (size_ gq)))
                        (fun _ => ret (mkStorage q (tl_free_lists_ x))))))
     else ret x) Q w.
Proof.
  intros Hwf Hrest Hb HQ.
  destruct (Z.gtb_spec (size_ (tl_quarantine_ x)) 0) as [Hgt|Hle].
  2:{ apply wp_ret. apply (HQ x w G []); auto.
      intros L1 a L2 H. destruct L1; discriminate. }
  pose proof (wf_gquar _ _ _ _ _ _ _ Hwf) as Hfg.
  pose proof (wf_tquar _ _ _ _ _ _ _ Hwf) as Hft. cbn beta iota in Hft.
  assert (Htne : t_quar G <> []).
  { intros He. destruct Hft as (_ & _ & Hz). rewrite He in Hz. simpl in Hz.
    unfold wrap in Hz. rewrite Zmod_0_l in Hz. lia. }
  apply wp_bind, wp_gets. apply wp_bind.
  eapply PushList_wp;
    [exact Hcfg|exact Hfg|exact Hft|exact Htne|exact (wf_quar_nodup _ _ _ _ _ _ _ Hwf)|].
  intros this' w1 (Hmi1 & Hth1 & Hmp1) Hheap Hfifo Hsz.
  unfold set_quarantine, set_malloc_info. apply wp_bind. apply wp_bind, wp_gets.
  apply wp_modify.
  set (x' := mkStorage AsanChunkFifoList_clear (tl_free_lists_ x)).
  set (G2 := mkGhost (l_free G) (g_free G) (t_free G) (g_quar G ++ t_quar G) []).
  assert (Hcore : wf_core cfg (heap w1) (malloc_info w) (Some x) (mappings w) G live).
  { destruct Hheap as [->|(l & Hl & ->)]; [apply wf_core_of; exact Hwf|].
    eapply core_after_set_next; [exact Hcfg|exact Hwf|].
    apply elem_of_app. left. exact Hl. }
  assert (Hsc : forall y, size_class (hdr (heap w1) y) = size_class (hdr (heap w) y) /\
                          chunk_state (hdr (heap w1) y) = chunk_state (hdr (heap w) y)).
  { intros y. destruct Hheap as [->|(l & Hl & ->)]; [split; reflexivity|].
    rewrite hdr_store. destruct (decide (l = y)) as [<-|]; split; reflexivity. }
  apply wp_bind.
  eapply (Swallow_pop_loop_wp _ (Some x') _ G2 live).
  - cbn [heap malloc_info mappings]. rewrite Hmi1, Hmp1.
    apply wf_st_of_core.
    + apply (core_set_records cfg (heap w1) (malloc_info w) (Some x) (mappings w)
               G2 live this' (Some x')); [|reflexivity].
      apply (core_move_quar cfg (heap w1) (malloc_info w) (Some x) (mappings w) G live
               (g_quar G ++ t_quar G) []); [exact Hcore|].
      rewrite app_nil_r. reflexivity.
    + exact Hfifo.
    + apply fifo_ok_clear.
  - exact Hrest.
  - cbn [malloc_info quarantine_]. rewrite Z2Nat.id; [lia|].
    rewrite Hsz. unfold wrap. destruct (cfg_word cfg Hcfg) as [Hw _].
    apply Z.mod_pos_bound. apply Z.pow_pos_nonneg; lia.
  - exact Hb.
  - intros w' G' released Hwf' Hrest' Hg' Ht' Hrel Hsz' Hth' Hfr' Hsc'.
    apply wp_ret. cbn [heap tl_current_thread g_quar t_quar G2] in *.
    apply (HQ x' w' G' released); try assumption.
    + reflexivity.
    + rewrite Ht', app_nil_r. exact Hg'.
    + rewrite Ht', app_nil_r. intros L1 a L2 HL.
      rewrite <- (total_bytes_agree cfg (heap w) (heap w1));
        [exact (Hrel L1 a L2 HL)|]. intros y _. apply Hsc.
    + congruence.
    + intros y Hy. rewrite (Hfr' y Hy). apply Hsc.
Qed.

End SwallowSpec.

Section Release.
Variable cfg : Config.
Local Abbreviation REDZONE := (__asan_flag_redzone cfg).
Local Abbreviation WORDSIZE := (__WORDSIZE cfg).

Hypothesis Hcfg : cfg_ok cfg.

Lemma Swallow_drain_list_states fuel : forall c m w,
  wp any_abort True (Swallow_drain_list fuel c m) (fun _ w' => same_states w w') w.
Proof.
  induction fuel as [|fuel IH]; intros c m w; cbn [Swallow_drain_list];
    destruct (negb (m =? 0)); try (apply wp_ret; intros y; reflexivity).
  - exact I.
  - apply wp_bind, wp_read. apply wp_bind, wp_gets. apply wp_bind, wp_write.
    unfold set_free_list, set_malloc_info. apply wp_bind. apply wp_bind, wp_gets.
    apply wp_modify.
    eapply wp_conseq; [apply IH|].
    intros u w' H y. rewrite (H y). unfold with_heap. cbn [heap].
    rewrite hdr_store. destruct (decide (m = y)) as [E|E]; [rewrite <- E|]; reflexivity.
Qed.

Lemma Swallow_drain_loop_states fuel n : forall c x w,
  wp any_abort True (Swallow_drain_loop fuel n c x) (fun _ w' => same_states w w') w.
Proof.
  induction n as [|n IH]; intros c x w; cbn [Swallow_drain_loop].
  - apply wp_ret. intros y. reflexivity.
  - apply wp_bind. eapply wp_conseq; [apply Swallow_drain_list_states|].
    intros u1 w1 H1. eapply wp_conseq; [apply IH|].
    intros u2 w2 H2 y. rewrite (H2 y). apply H1.
Qed.

(** C1 (release from the quarantine, as the code decides it): when
    [SwallowThreadLocalMallocStorage] returns, every chunk that was
    Quarantined before the call and is not any more was released while the
    quarantine, from that chunk to the youngest one, retained more bytes
    than the budget [__asan_flag_quarantine_size].  The loop tests the size
    before the chunk leaves, not the size that its removal leaves. *)
Theorem Swallow_releases_over_budget fuel x eat w G live x' w' a :
  wf_st cfg (heap w) (malloc_info w) (Some x) (mappings w) G live ->
  at_rest G ->
  SwallowThreadLocalMallocStorage cfg fuel x eat w = Ret x' w' ->
  chunk_state (hdr (heap w) a) = CHUNK_QUARANTINE ->
  chunk_state (hdr (heap w') a) <> CHUNK_QUARANTINE ->
  exists older younger,
    g_quar G ++ t_quar G = older ++ a :: younger /\
    __asan_flag_quarantine_size cfg <
      wrap cfg (total_bytes cfg (heap w) (a :: younger)).
Proof.
  intros Hwf Hrest Hrun Hq Hnq.
  assert (Hwp : wp any_abort True (SwallowThreadLocalMallocStorage cfg fuel x eat)
            (fun _ w' =>
               exists released kept,
                 g_quar G ++ t_quar G = released ++ kept /\
                 released_over_budget cfg (heap w) released kept /\
                 forall y, y ∉ released ->
                   chunk_state (hdr (heap w') y) = chunk_state (hdr (heap w) y)) w).
  { unfold SwallowThreadLocalMallocStorage.
    apply wp_bind, wp_CHECK; [|intros; exact I]. intros Hb. apply Z.gtb_lt in Hb.
    apply wp_bind.
    eapply wp_mono;
      [eapply (Swallow_quarantine_wp cfg Hcfg x w G live
                 (fun _ w1 => exists released kept,
                    g_quar G ++ t_quar G = released ++ kept /\
                    released_over_budget cfg (heap w) released kept /\
                    forall y, y ∉ released ->
                      chunk_state (hdr (heap w1) y) = chunk_state (hdr (heap w) y)));
         [exact Hwf|exact Hrest|exact Hb|]
      |auto|auto|].
    - intros x1 w1 G1 released _ _ _ Hsplit Hrel _ Hst.
      exists released, (g_quar G1 ++ t_quar G1). auto.
    - intros x1 w1 (released & kept & Hsplit & Hrel & Hst).
      destruct eat.
      + eapply wp_conseq; [apply Swallow_drain_loop_states|].
        intros u2 w2 H2. exists released, kept. split; [exact Hsplit|].
        split; [exact Hrel|]. intros y Hy. rewrite (H2 y). apply Hst. exact Hy.
      + apply wp_ret. exists released, kept. auto. }
  pose proof (wp_elim _ _ _ _ _ _ _ Hwp Hrun) as (released & kept & Hsplit & Hrel & Hst).
  assert (Ha : a ∈ released).
  { destruct (decide (a ∈ released)) as [|Hn]; [assumption|exfalso].
    apply Hnq. rewrite (Hst a Hn). exact Hq. }
  apply list_elem_of_split in Ha as (L1 & L2 & HL).
  exists L1, (L2 ++ kept). split.
  - rewrite Hsplit, HL, <- app_assoc. reflexivity.
  - exact (Hrel L1 a L2 HL).
Qed.

End Release.

Section FreeSpec.
Variable cfg : Config.
Local Abbreviation REDZONE := (__asan_flag_redzone cfg).
Local Abbreviation WORDSIZE := (__WORDSIZE cfg).

Hypothesis Hcfg : cfg_ok cfg.

Lemma wf_st_remove_live h mi ms maps G live1 pn live2 :
  wf_st cfg h mi ms maps G (live1 ++ pn :: live2) ->
  wf_st cfg h mi ms maps G (live1 ++ live2).
Proof.
  intros [H1 H2 H3 H4 H5 H6 H7 H8 H9 H10 H11]. constructor; try assumption.
  - intros p n Hp. apply H10. apply elem_of_app in Hp as [Hp|Hp];
      apply elem_of_app; [left; exact Hp|right; apply elem_of_cons; right; exact Hp].
  - rewrite map_app in *. cbn [map] in H11.
    apply NoDup_app in H11 as (Ha & Hb & Hc). apply NoDup_cons in Hc as (_ & Hc).
    apply NoDup_app. split; [exact Ha|]. split; [|exact Hc].
    intros y Hy Hy'. apply (Hb y Hy). apply elem_of_cons. right. exact Hy'.
Qed.

(** The chunk of a live pointer is taken out of the live set; it may then
    be written. *)
Lemma wf_st_freed h mi ms maps G live1 p n live2 hA :
  wf_st cfg h mi ms maps G (live1 ++ (p, n) :: live2) -> at_rest G ->
  (forall y, y <> PtrToChunk cfg h p -> hdr hA y = hdr h y) ->
  wf_st cfg hA mi ms maps G (live1 ++ live2) /\
  (PtrToChunk cfg h p ∉ g_quar G ++ t_quar G) /\
  0 < PtrToChunk cfg h p /\ PtrToChunk cfg h p < p /\
  chunk_state (hdr h (PtrToChunk cfg h p)) = CHUNK_ALLOCATED /\
  exists s, SizeClassToSize cfg (size_class (hdr h (PtrToChunk cfg h p))) = Some s /\
            is_base cfg mi (PtrToChunk cfg h p) s.
Proof.
  intros Hwf Hrest HhA.
  pose proof (redzone_pos cfg Hcfg) as HR.
  set (m := PtrToChunk cfg h p) in *.
  assert (Hp : (p, n) ∈ live1 ++ (p, n) :: live2).
  { apply elem_of_app. right. apply elem_of_cons. left. reflexivity. }
  destruct (wf_live _ _ _ _ _ _ _ Hwf p n Hp) as (Hst & _ & s & Hs & Hb & Hr).
  fold m in Hst, Hs, Hb, Hr.
  pose proof (wf_registry _ _ _ _ _ _ _ Hwf) as Hreg.
  destruct (base_in_group cfg _ _ _ _ Hreg Hb) as (_ & _ & _ & _ & _ & _ & Hm0 & _).
  destruct states_distinct as (Hd1 & Hd2 & Hd3 & Hd4 & Hd5 & Hd6).
  pose proof (wf_st_remove_live _ _ _ _ _ _ _ _ Hwf) as Hwf0.
  assert (Hnq : m ∉ g_quar G ++ t_quar G).
  { eapply not_quar_by_state; [exact Hwf|congruence]. }
  assert (Hout : ~ in_footprint cfg h G (live1 ++ live2) m).
  { eapply outside_intro; [exact HR|exact Hwf0|exact Hb| |exact Hnq|].
    - intros c Hin. eapply (not_free_by_state cfg h mi ms maps G _ m c);
        [exact Hwf|congruence|]. apply elem_of_app. right. exact Hin.
    - intros q k Hq Heq.
      pose proof (wf_live_nodup _ _ _ _ _ _ _ Hwf) as Hnd.
      rewrite map_app in Hnd. cbn [map fst] in Hnd. fold m in Hnd.
      apply NoDup_app in Hnd as (_ & Hb1 & Hc). apply NoDup_cons in Hc as (Hc & _).
      apply elem_of_app in Hq as [Hq|Hq].
      + apply (Hb1 m).
        * rewrite Heq. apply list_elem_of_In, in_map_iff. exists (q, k).
          split; [reflexivity|apply list_elem_of_In; exact Hq].
        * apply elem_of_cons. left. reflexivity.
      + apply Hc. rewrite Heq. apply list_elem_of_In, in_map_iff. exists (q, k).
        split; [reflexivity|apply list_elem_of_In; exact Hq]. }
  split; [|split; [exact Hnq|split; [exact Hm0|split; [lia|split; [exact Hst|]]]]].
  - eapply wf_st_heap_agree; [exact HR|exact Hwf0| |].
    + intros y Hy. apply HhA. intros ->. contradiction.
    + intros c y Hy. rewrite Hrest in Hy. inversion Hy.
  - exists s. split; assumption.
Qed.

Lemma PoisonShadow_any D mem size poison (Q : unit -> World -> Prop) w :
  (forall evs, Q tt (with_trace w evs)) ->
  wp any_abort D (PoisonShadow cfg mem size poison) Q w.
Proof.
  intros HQ. unfold PoisonShadow.
  apply wp_bind, wp_CHECK; [|intros; exact I]. intros _.
  apply wp_bind, wp_CHECK; [|intros; exact I]. intros _.
  apply wp_emit. apply HQ.
Qed.

Lemma fifo_ok_frame h h' q cells :
  (forall x, x ∈ cells -> hdr h' x = hdr h x) ->
  fifo_ok cfg h q cells -> fifo_ok cfg h' q cells.
Proof. apply fifo_ok_agree. Qed.

(** [Deallocate] of a live pointer. *)
Lemma Deallocate_wp ptr n stk w G live1 live2 (Q : unit -> World -> Prop) :
  wf cfg w G (live1 ++ (ptr, n) :: live2) -> at_rest G ->
  (forall w' G', wf cfg w' G' (live1 ++ live2) -> at_rest G' -> Q tt w') ->
  wp any_abort False (Deallocate cfg ptr (Some stk)) Q w.
Proof.
  intros Hwf Hrest HQ.
  pose proof (redzone_pos cfg Hcfg) as HR.
  destruct w as [h fn mi th tm maps tr]. destruct mi as [fl gq pg npg].
  unfold wf, tls in Hwf. cbn [heap malloc_info mappings tl_current_thread] in Hwf.
  set (m := PtrToChunk cfg h ptr).
  set (tid := match th with Some t0 => tid_ t0 | None => 0 end).
  set (hA := store (store h m (set_free_tid tid)) m (set_chunk_state CHUNK_QUARANTINE)).
  destruct (wf_st_freed h _ _ maps G live1 ptr n live2 hA Hwf Hrest)
    as (HwfA & Hnq & Hm0 & Hmp & Hst & s & Hs & Hb).
  { intros y Hy. unfold hA. fold m in Hy. rewrite !hdr_store_ne by congruence.
    reflexivity. }
  fold m in HwfA, Hnq, Hm0, Hmp, Hst, Hs, Hb.
  assert (HhAm : hdr hA m = set_chunk_state CHUNK_QUARANTINE (set_free_tid tid (hdr h m))).
  { unfold hA. rewrite !hdr_store_eq. reflexivity. }
  unfold Deallocate.
  destruct (Z.eqb_spec ptr 0) as [|_]; [lia|].
  apply wp_bind, wp_CHECK; [|intros; exact I]. intros _.
  apply wp_bind.
  apply (wp_conseq _ _ _ (fun _ w' => w' = mkWorld h fn (mkMallocInfo fl gq pg npg) th tm maps tr)).
  { destruct (negb (__asan_flag_debug cfg =? 0)); [|apply wp_ret; reflexivity].
    unfold FindPageGroup. apply wp_bind. apply wp_bind, wp_gets. apply wp_ret.
    apply wp_CHECK; [reflexivity|intros; exact I]. }
  intros u w' ->. apply wp_bind, wp_gets. cbn [heap]. fold m.
  apply wp_bind, wp_read. cbn [heap]. rewrite Hst.
  change (CHUNK_ALLOCATED =? CHUNK_QUARANTINE) with false.
  change (negb (CHUNK_ALLOCATED =? CHUNK_ALLOCATED)) with false. cbv iota.
  apply wp_bind, wp_ret.
  apply wp_bind, wp_CHECK; [|intros; exact I]. intros _.
  apply wp_bind, wp_CHECK; [|intros; exact I]. intros _.
  apply wp_bind, wp_CHECK; [|intros; exact I]. intros _.
  unfold GetCurrent. apply wp_bind, wp_gets. cbn [tl_current_thread]. fold tid.
  apply wp_bind, wp_write.
  apply wp_bind, wp_lift; [|intros; exact I]. intros fs _.
  apply wp_bind, wp_emit.
  apply wp_bind, wp_lift; [|intros; exact I]. intros rounded _.
  apply wp_bind, PoisonShadow_any. intros evs.
  unfold with_heap, with_trace.
  cbn [heap malloc_info tl_current_thread mappings fifo_next total_mmaped trace].
  apply wp_bind.
  match goal with
  | |- wp _ _ _ _ ?W => apply (wp_conseq _ _ _ (fun _ w' => w' = W))
  end.
  { destruct (negb (__asan_flag_stats cfg =? 0)); [|apply wp_ret; reflexivity].
    apply wp_bind, wp_lift; [|intros; exact I]. intros s0 _.
    unfold stats_Log2. destruct (negb (__asan_flag_stats cfg =? 0));
      [|apply wp_ret; reflexivity].
    apply wp_bind, wp_lift; [|intros; exact I]. intros l _. apply wp_ret. reflexivity. }
  intros u' w' ->. apply wp_bind, wp_write. unfold with_heap.
  cbn [heap malloc_info tl_current_thread mappings fifo_next total_mmaped trace].
  fold hA.
  match goal with
  | |- wp _ _ _ _ (mkWorld _ _ _ _ _ _ ?T) => generalize T; intros tr'
  end.
  assert (HstA : chunk_state (hdr hA m) = CHUNK_QUARANTINE) by (rewrite HhAm; reflexivity).
  assert (HokA : chunk_ok cfg hA (mkMallocInfo fl gq pg npg) m (size_class (hdr hA m))).
  { split; [reflexivity|]. exists s. rewrite HhAm. split; [exact Hs|exact Hb]. }
  pose proof (wf_quar_nodup _ _ _ _ _ _ _ HwfA) as Hnd.
  destruct th as [t0|]; cbn [option_map] in HwfA.
  - (* the thread-local quarantine *)
    apply wp_bind, wp_read. apply wp_bind, wp_CHECK; [|intros; exact I]. intros _.
    apply wp_bind.
    eapply (Push_wp cfg Hcfg _ m (t_quar G));
      [exact (wf_tquar _ _ _ _ _ _ _ HwfA)
      |apply NoDup_app in Hnd as (_ & _ & Hnd); exact Hnd
      |intros Hin; apply Hnq; apply elem_of_app; right; exact Hin
      |lia|].
    intros q' w1 (Hmi1 & Hth1 & Hmp1) Hheap Hfifo _.
    cbn [heap malloc_info tl_current_thread mappings] in Hmi1, Hth1, Hmp1, Hheap.
    unfold set_malloc_storage, set_current_thread.
    apply wp_bind, wp_modify.
    set (ms' := mkStorage q' (tl_free_lists_ (malloc_storage_ t0))).
    set (G2 := mkGhost (l_free G) (g_free G) (t_free G) (g_quar G) (t_quar G ++ [m])).
    assert (Hfields : forall y,
              chunk_state (hdr (heap w1) y) = chunk_state (hdr hA y) /\
              size_class (hdr (heap w1) y) = size_class (hdr hA y)).
    { intros y. destruct Hheap as [->|(l & Hl & ->)]; [split; reflexivity|].
      rewrite hdr_store. destruct (decide (l = y)) as [E|E]; [rewrite <- E|];
        split; reflexivity. }
    assert (Hwf2 : wf_st cfg (heap w1) (mkMallocInfo fl gq pg npg) (Some ms') maps G2
                     (live1 ++ live2)).
    { apply wf_st_of_core.
      - apply (core_set_records cfg (heap w1) (mkMallocInfo fl gq pg npg)
                 (Some (malloc_storage_ t0)) maps G2 (live1 ++ live2) gq (Some ms'));
          [|reflexivity].
        apply (core_add_quar cfg (heap w1) _ _ maps G (live1 ++ live2) m).
        + destruct Hheap as [->|(l & Hl & ->)]; [apply wf_core_of; exact HwfA|].
          eapply core_after_set_next; [exact Hcfg|exact HwfA|].
          apply elem_of_app. right. exact Hl.
        + rewrite (proj1 (Hfields m)). exact HstA.
        + destruct HokA as (_ & s' & Hs' & Hb'). split; [reflexivity|].
          exists s'. rewrite (proj2 (Hfields m)). split; assumption.
        + exact Hnq.
        + rewrite app_assoc. rewrite <- Permutation_cons_append. reflexivity.
      - cbn [quarantine_ g_quar G2].
        eapply fifo_ok_frame; [|exact (wf_gquar _ _ _ _ _ _ _ HwfA)].
        intros y Hy. destruct Hheap as [->|(l & Hl & ->)]; [reflexivity|].
        apply hdr_store_ne. intros <-.
        apply NoDup_app in Hnd as (_ & Hnd & _). exact (Hnd l Hy Hl).
      - exact Hfifo. }
    destruct (size_ q' >? kMaxThreadLocalQuarantine).
    + unfold SwallowThreadLocalMallocStorage.
      apply wp_bind. apply wp_bind, wp_CHECK; [|intros; exact I]. intros Hbud.
      apply Z.gtb_lt in Hbud. apply wp_bind.
      eapply (Swallow_quarantine_wp cfg Hcfg ms' _ G2 (live1 ++ live2)).
      * cbn [heap malloc_info mappings]. rewrite Hmi1, Hmp1. exact Hwf2.
      * exact Hrest.
      * exact Hbud.
      * intros x' w3 G3 released Hwf3 Hrest3 _ _ _ _ _.
        apply wp_ret. apply wp_modify. apply (HQ _ G3); [|exact Hrest3].
        unfold wf, tls. cbn [heap malloc_info tl_current_thread mappings option_map
                             malloc_storage_]. exact Hwf3.
    + apply wp_ret. apply (HQ _ G2); [|exact Hrest].
      unfold wf, tls. cbn [heap malloc_info tl_current_thread mappings option_map
                           malloc_storage_]. rewrite Hmi1, Hmp1. exact Hwf2.
  - (* no current thread: the global quarantine *)
    apply wp_bind, wp_read. apply wp_bind, wp_CHECK; [|intros; exact I]. intros _.
    unfold BypassThreadLocalQuarantine. apply wp_bind, wp_gets. apply wp_bind.
    cbn [malloc_info quarantine_].
    pose proof (wf_tquar _ _ _ _ _ _ _ HwfA) as Htq. cbn beta iota in Htq.
    rewrite Htq, app_nil_r in Hnd, Hnq.
    eapply (Push_wp cfg Hcfg _ m (g_quar G));
      [exact (wf_gquar _ _ _ _ _ _ _ HwfA)|exact Hnd|exact Hnq|lia|].
    intros q' w1 (Hmi1 & Hth1 & Hmp1) Hheap Hfifo _.
    cbn [heap malloc_info tl_current_thread mappings] in Hmi1, Hth1, Hmp1, Hheap.
    unfold set_quarantine, set_malloc_info. apply wp_bind, wp_gets. apply wp_modify.
    set (G2 := mkGhost (l_free G) (g_free G) (t_free G) (g_quar G ++ [m]) []).
    assert (Hfields : forall y,
              chunk_state (hdr (heap w1) y) = chunk_state (hdr hA y) /\
              size_class (hdr (heap w1) y) = size_class (hdr hA y)).
    { intros y. destruct Hheap as [->|(l & Hl & ->)]; [split; reflexivity|].
      rewrite hdr_store. destruct (decide (l = y)) as [E|E]; [rewrite <- E|];
        split; reflexivity. }
    apply (HQ _ G2); [|exact Hrest].
    unfold wf, tls. cbn [heap malloc_info tl_current_thread mappings option_map].
    rewrite Hmi1, Hth1, Hmp1.
    cbn [free_lists_ quarantine_ page_groups_ n_page_groups_ option_map].
    apply wf_st_of_core.
    + apply (core_set_records cfg (heap w1) (mkMallocInfo fl gq pg npg)
               None maps G2 (live1 ++ live2) q' None); [|exact I].
      apply (core_add_quar cfg (heap w1) _ _ maps G (live1 ++ live2) m).
      * destruct Hheap as [->|(l & Hl & ->)]; [apply wf_core_of; exact HwfA|].
        eapply core_after_set_next; [exact Hcfg|exact HwfA|].
        apply elem_of_app. left. exact Hl.
      * rewrite (proj1 (Hfields m)). exact HstA.
      * destruct HokA as (_ & s' & Hs' & Hb'). split; [reflexivity|].
        exists s'. rewrite (proj2 (Hfields m)). split; assumption.
      * rewrite Htq, app_nil_r. exact Hnq.
      * rewrite Htq, !app_nil_r. rewrite <- Permutation_cons_append. reflexivity.
    + exact Hfifo.
    + reflexivity.
Qed.

End FreeSpec.

Section Runs.
Variable cfg : Config.
Local Abbreviation REDZONE := (__asan_flag_redzone cfg).
Local Abbreviation WORDSIZE := (__WORDSIZE cfg).

(** ** The operations of a client, one at a time *)

Hypothesis Hcfg : cfg_ok cfg.

Lemma wf_init tid : wf cfg (init_world (option_map init_thread tid)) no_chunks [].
Proof.
  unfold wf, tls, init_world. cbn [heap malloc_info tl_current_thread mappings].
  constructor; cbn [l_free g_free t_free g_quar t_quar no_chunks free_lists_
                    quarantine_ app].
  - split; [cbn; lia|]. split; cbn [n_page_groups_]; intros; lia.
  - intros c. reflexivity.
  - intros c. destruct tid; reflexivity.
  - intros c a Ha. inversion Ha.
  - intros c. apply NoDup_nil. exact I.
  - apply fifo_ok_clear.
  - destruct tid; [apply fifo_ok_clear|reflexivity].
  - intros a Ha. inversion Ha.
  - apply NoDup_nil. exact I.
  - intros p n Hp. inversion Hp.
  - apply NoDup_nil. exact I.
Qed.

Lemma wf_live_weaken w G p n n' live :
  wf cfg w G ((p, n) :: live) -> n' <= n -> wf cfg w G ((p, n') :: live).
Proof.
  intros [H1 H2 H3 H4 H5 H6 H7 H8 H9 H10 H11] Hle. constructor; try assumption.
  intros q k Hq. apply elem_of_cons in Hq as [Hq|Hq].
  - injection Hq as -> ->.
    destruct (H10 p n) as (E1 & E2 & E3); [apply elem_of_cons; left; reflexivity|].
    split; [exact E1|]. split; [lia|exact E3].
  - apply H10. apply elem_of_cons. right. exact Hq.
Qed.

Lemma Allocate_allocated alignment size stk w G live :
  wf cfg w G live -> at_rest G -> sane cfg alignment size ->
  wp (Allocate_abort cfg alignment size) False
    (Allocate cfg alignment size (Some stk)) (allocated cfg alignment size live) w.
Proof.
  intros Hwf Hrest Hsane. apply (Allocate_wp cfg Hcfg _ _ _ _ G live); try assumption.
  intros p w' G' H1 H2 H3 H4 H5. split; [exists G'; auto|auto].
Qed.

Lemma Reallocate_wp old n size stk w G live1 live2 (Q : Z -> World -> Prop) :
  wf cfg w G (live1 ++ (old, n) :: live2) -> at_rest G ->
  size <> 0 -> sane cfg 0 size ->
  (forall p w' G', wf cfg w' G' ((p, size) :: live1 ++ live2) -> at_rest G' -> Q p w') ->
  wp any_abort False (Reallocate cfg old size (Some stk)) Q w.
Proof.
  intros Hwf Hrest Hsz Hsane HQ.
  pose proof (redzone_pos cfg Hcfg) as HR.
  assert (Hold : old <> 0).
  { assert (Hp : (old, n) ∈ live1 ++ (old, n) :: live2).
    { apply elem_of_app. right. apply elem_of_cons. left. reflexivity. }
    destruct (live_ptr_bounds cfg _ _ _ old n HR (wf_registry _ _ _ _ _ _ _ Hwf)
                (wf_live _ _ _ _ _ _ _ Hwf old n Hp)) as (_ & i & Hi & H1 & H2 & H3).
    destruct (wf_registry _ _ _ _ _ _ _ Hwf) as (_ & Hok & _).
    pose proof (pg_beg _ _ _ (Hok i Hi)). lia. }
  unfold Reallocate.
  destruct (Z.eqb_spec old 0) as [|_]; [contradiction|].
  destruct (Z.eqb_spec size 0) as [|_]; [contradiction|].
  apply wp_bind, wp_gets. apply wp_bind, wp_read.
  apply wp_bind, wp_CHECK; [|intros; exact I]. intros _.
  apply wp_bind.
  eapply wp_mono; [apply (Allocate_allocated 0 size stk w G _ Hwf Hrest Hsane)
                  |intros; exact I|auto|].
  intros p w1 ((G1 & Hwf1 & Hrest1) & _). apply wp_bind, wp_emit.
  apply wp_bind.
  apply (Deallocate_wp cfg Hcfg old n stk _ G1 ((p, size) :: live1) live2).
  - exact Hwf1.
  - exact Hrest1.
  - intros w2 G2 Hwf2 Hrest2. apply wp_ret. apply (HQ p w2 G2); assumption.
Qed.

Lemma step_wf w live w' live' :
  step cfg w live w' live' ->
  (exists G, wf cfg w G live /\ at_rest G) ->
  exists G', wf cfg w' G' live' /\ at_rest G'.
Proof.
  pose proof (redzone_pos cfg Hcfg) as HR.
  intros Hstep (G & Hwf & Hrest).
  destruct Hstep as
    [w live size stk p w' Hs Hr
    |w live nmemb size stk p w' Hs Hr
    |w live al size stk p w' Hs Hr
    |w live size stk p w' Hs Hr
    |w live size stk p w' Hsz0 Hs Hr
    |w live al size stk r p w' Hs Hr
    |w live size stk p w' Hs Hr
    |w live old stk p w' Ho Hr
    |w live1 old n live2 size stk p w' Hsz Hs Hr
    |w live stk w' Hr
    |w live1 p n live2 stk w' Hr].
  - exact (proj1 (wp_elim _ _ _ _ _ _ _ (Allocate_allocated 0 size stk w G live Hwf Hrest Hs) Hr)).
  - unfold __asan_calloc in Hr.
    pose proof (Allocate_allocated 0 (wrap cfg (nmemb * size)) stk w G live Hwf Hrest Hs) as H.
    unfold wp in H. unfold bind in Hr.
    destruct (Allocate cfg 0 (wrap cfg (nmemb * size)) (Some stk) w) as [a w1| |];
      try discriminate.
    cbn in Hr. injection Hr as <- <-.
    destruct H as ((G1 & Hwf1 & Hrest1) & _). exists G1. split; [exact Hwf1|exact Hrest1].
  - exact (proj1 (wp_elim _ _ _ _ _ _ _ (Allocate_allocated al size stk w G live Hwf Hrest Hs) Hr)).
  - exact (proj1 (wp_elim _ _ _ _ _ _ _
             (Allocate_allocated (kPageSize cfg) size stk w G live Hwf Hrest Hs) Hr)).
  - unfold __asan_pvalloc in Hr.
    destruct (cfg_page cfg Hcfg) as (k & Hk & Hp & _).
    destruct (cfg_word cfg Hcfg) as [Hw _].
    destruct Hs as (Hs0 & Hp0 & Hov).
    assert (Hpp : 0 < kPageSize cfg) by (rewrite Hp; apply Z.pow_pos_nonneg; lia).
    destruct (RoundUpTo_small cfg size k) as (r & Hru & Hrb & _);
      [lia|lia|rewrite <- Hp; lia|].
    rewrite <- Hp in *. unfold bind at 1 in Hr. rewrite Hru in Hr. cbn [lift ret] in Hr.
    set (size' := if r =? 0 then kPageSize cfg else r) in *.
    assert (Hsz : size <= size' <= size + kPageSize cfg).
    { unfold size'. destruct (Z.eqb_spec r 0); lia. }
    assert (Hsane : sane cfg (kPageSize cfg) size') by (unfold sane; lia).
    destruct (proj1 (wp_elim _ _ _ _ _ _ _
                (Allocate_allocated (kPageSize cfg) size' stk w G live Hwf Hrest Hsane) Hr))
      as (G1 & Hwf1 & Hrest1).
    exists G1. split; [|exact Hrest1].
    eapply wf_live_weaken; [exact Hwf1|lia].
  - unfold __asan_posix_memalign in Hr.
    pose proof (Allocate_allocated al size stk w G live Hwf Hrest Hs) as H.
    unfold wp in H. unfold bind at 1 in Hr.
    destruct (Allocate cfg al size (Some stk) w) as [a w1| |]; try discriminate.
    unfold bind, CHECK in Hr. destruct (IsAligned cfg a al); try discriminate.
    cbn in Hr. injection Hr as _ <- <-.
    destruct H as ((G1 & Hwf1 & Hrest1) & _). exists G1. split; [exact Hwf1|exact Hrest1].
  - unfold __asan_realloc, Reallocate in Hr. cbn [Z.eqb] in Hr.
    exact (proj1 (wp_elim _ _ _ _ _ _ _ (Allocate_allocated 0 size stk w G live Hwf Hrest Hs) Hr)).
  - unfold __asan_realloc, Reallocate in Hr.
    destruct (Z.eqb_spec old 0) as [|_]; [contradiction|]. cbn [Z.eqb] in Hr.
    injection Hr as _ <-. exists G. split; assumption.
  - unfold __asan_realloc in Hr.
    exact (wp_elim _ _ _ _ _ _ _
             (Reallocate_wp old n size stk w G live1 live2
                (fun q w' => exists G', wf cfg w' G' ((q, size) :: live1 ++ live2) /\ at_rest G')
                Hwf Hrest Hsz Hs (fun q w' G' H1 H2 => ex_intro _ G' (conj H1 H2))) Hr).
  - unfold __asan_free, Deallocate in Hr. cbn [Z.eqb] in Hr.
    injection Hr as <-. exists G. split; assumption.
  - unfold __asan_free in Hr.
    exact (wp_elim _ _ _ _ _ _ _
             (Deallocate_wp cfg Hcfg p n stk w G live1 live2
                (fun _ w' => exists G', wf cfg w' G' (live1 ++ live2) /\ at_rest G')
                Hwf Hrest (fun w' G' H1 H2 => ex_intro _ G' (conj H1 H2))) Hr).
Qed.

End Runs.

Section ClientFacts.
Variable cfg : Config.
Local Abbreviation REDZONE := (__asan_flag_redzone cfg).
Local Abbreviation WORDSIZE := (__WORDSIZE cfg).

Hypothesis Hcfg : cfg_ok cfg.

(** The invariant holds in every reachable state. *)
Lemma run_wf w live : run cfg w live -> exists G, wf cfg w G live /\ at_rest G.
Proof.
  induction 1 as [tid|w live w' live' _ IH Hstep].
  - exists no_chunks. split; [apply wf_init|intros c; reflexivity].
  - eapply step_wf; eassumption.
Qed.

(** C2: in every state reached through the interface, a pointer that was
    returned and is not yet freed resolves, by [PtrToChunk], to a chunk in
    state Allocated whose [used_size] is at least the size asked for. *)
Theorem live_pointer_resolves w live p n :
  run cfg w live -> (p, n) ∈ live ->
  let m := PtrToChunk cfg (heap w) p in
  chunk_state (hdr (heap w) m) = CHUNK_ALLOCATED /\ n <= used_size (hdr (heap w) m).
Proof.
  intros Hrun Hp. destruct (run_wf w live Hrun) as (G & Hwf & _).
  destruct (wf_live _ _ _ _ _ _ _ Hwf p n Hp) as (H1 & H2 & _). split; assumption.
Qed.

Lemma AllocationSize_live w G live p n :
  wf cfg w G live -> (p, n) ∈ live ->
  AllocationSize cfg p w = Ret (used_size (hdr (heap w) (PtrToChunk cfg (heap w) p))) w.
Proof.
  intros Hwf Hp. unfold AllocationSize, bind, get.
  pose proof (live_FindPageGroup cfg Hcfg _ _ _ _ _ _ p n Hwf Hp) as Hf.
  destruct (FindPageGroupUnlocked (malloc_info w) p); [|contradiction].
  destruct (wf_live _ _ _ _ _ _ _ Hwf p n Hp) as (-> & _).
  rewrite Z.eqb_refl. reflexivity.
Qed.

(** A request beyond the limit is refused before any chunk is touched:
    with a current thread the message and the stack are printed and the
    process aborts; without one the message faults. *)
Lemma Allocate_oversize alignment size stk w :
  sane cfg alignment size -> IsPowerOfTwo cfg alignment = true ->
  let size' := if size =? 0 then 1 else size in
  kMaxAllowedMallocSize cfg - REDZONE
    < (size' + REDZONE - 1) / REDZONE * REDZONE + align_room cfg alignment ->
  Allocate cfg alignment size (Some stk) w =
    match tl_current_thread w with
    | Some th =>
        Abort AbortCalled
          (with_trace w
             [EvPrintf "ERROR: AddressSanitizer failed to allocate 0x%lx (%lu) bytes (%s) in T%d"
                [size'; size'; tid_ th];
              EvPrintStack stk])
    | None => Abort MemoryFault w
    end.
Proof.
  intros Hsane Hpow size' Hbig.
  pose proof (redzone_pos cfg Hcfg) as HR.
  destruct (alloc_arith cfg Hcfg alignment size Hsane Hpow)
    as (rounded & Hru & Hrb & Hrm & Hneeded & Hal & _ & _).
  fold size' in Hru, Hrb.
  assert (Hrd : rounded = (size' + REDZONE - 1) / REDZONE * REDZONE).
  { pose proof (Z.div_mod (size' + REDZONE - 1) REDZONE ltac:(lia)) as Hd.
    pose proof (Z.mod_pos_bound (size' + REDZONE - 1) REDZONE HR) as Hm.
    apply (Zmod_divides rounded REDZONE ltac:(lia)) in Hrm as (c & Hc).
    assert (c = (size' + REDZONE - 1) / REDZONE); [|subst c; lia].
    apply Z.div_unique with (r := size' + REDZONE - 1 - REDZONE * c); lia. }
  unfold Allocate.
  rewrite (bind_Ret _ _ _ tt w) by reflexivity.
  rewrite (bind_Ret _ _ _ tt w) by (unfold CHECK; rewrite Hpow; reflexivity).
  fold size'. rewrite Hru.
  rewrite (bind_Ret _ _ _ rounded w) by reflexivity.
  cbv zeta in Hneeded.
  rewrite (bind_Ret _ _ _ tt w) by (unfold CHECK; rewrite Hal; reflexivity).
  replace (_ >? kMaxAllowedMallocSize cfg) with true
    by (symmetry; apply Z.gtb_lt; rewrite Hneeded; lia).
  destruct (tl_current_thread w) as [th|] eqn:Hth.
  - erewrite bind_Abort; [reflexivity|].
    unfold OutOfMemoryMessage, GetCurrent.
    rewrite (bind_Ret _ _ _ tt
               (with_trace w
                  [EvPrintf "ERROR: AddressSanitizer failed to allocate 0x%lx (%lu) bytes (%s) in T%d"
                     [size'; size'; tid_ th]])).
    + rewrite (bind_Ret _ _ _ _ _ (emit_eq _ _)).
      unfold abort. rewrite with_trace_app. reflexivity.
    + unfold bind, gets. rewrite Hth. reflexivity.
  - erewrite bind_Abort; [reflexivity|].
    unfold OutOfMemoryMessage, GetCurrent.
    erewrite bind_Abort; [reflexivity|].
    unfold bind, gets. rewrite Hth. reflexivity.
Qed.

(** C3 (round trip of malloc, as the code has it): in every reachable
    state and for 0 < n <= kMaxAllowedMallocSize - REDZONE, [__asan_malloc n]
    either returns a pointer whose [AllocationSize] is n, or the process
    dies because the system is out of memory, the page-group registry is
    full or the statistics code trips.  For
    kMaxAllowedMallocSize - REDZONE < n <= kMaxAllowedMallocSize the
    request is refused, since the left redzone counts against the limit:
    with a current thread the out-of-memory message and the stack of the
    call are printed and the process aborts; without one the message
    reads the tid through a null pointer, and the process dies of a
    memory fault with nothing printed. *)
Theorem malloc_allocation_size w live n stk :
  run cfg w live ->
  (0 < n <= kMaxAllowedMallocSize cfg - REDZONE ->
   (exists p w', __asan_malloc cfg n (Some stk) w = Ret p w' /\
                 AllocationSize cfg p w' = Ret n w') \/
   (exists c w', __asan_malloc cfg n (Some stk) w = Abort c w' /\
                 alloc_abort cfg c w')) /\
  (kMaxAllowedMallocSize cfg - REDZONE < n <= kMaxAllowedMallocSize cfg ->
   __asan_malloc cfg n (Some stk) w =
     match tl_current_thread w with
     | Some th =>
         Abort AbortCalled
           (with_trace w
              [EvPrintf "ERROR: AddressSanitizer failed to allocate 0x%lx (%lu) bytes (%s) in T%d"
                 [n; n; tid_ th];
               EvPrintStack stk])
     | None => Abort MemoryFault w
     end).
Proof.
  intros Hrun. destruct (run_wf w live Hrun) as (G & Hwf & Hrest).
  pose proof (redzone_pos cfg Hcfg) as HR.
  destruct (cfg_redzone cfg Hcfg) as (r & Hr & HRr & H32 & H2p).
  destruct (cfg_page cfg Hcfg) as (k & Hk & Hp & _).
  destruct (cfg_word cfg Hcfg) as [Hw Hw32].
  destruct (kMax_bounds cfg (ok_word _ Hcfg)) as (Hk1 & Hk2 & _).
  assert (Hpg : kPageSize cfg <= 2 ^ 16) by (rewrite Hp; apply Z.pow_le_mono_r; lia).
  assert (HRs : 2 * REDZONE < 2 ^ 26) by lia.
  split.
  - intros Hn.
    assert (Hsane : sane cfg 0 n) by (unfold sane; lia).
    pose proof (Allocate_allocated cfg Hcfg 0 n stk w G live Hwf Hrest Hsane) as H.
    unfold wp in H. unfold __asan_malloc.
    destruct (Allocate cfg 0 n (Some stk) w) as [p w'|c w'|] eqn:E; [| |contradiction].
    + left. exists p, w'. split; [reflexivity|].
      destruct H as ((G' & Hwf' & _) & _ & _ & Hus).
      rewrite (AllocationSize_live w' G' ((p, n) :: live) p n Hwf');
        [|apply elem_of_cons; left; reflexivity].
      rewrite Hus. destruct (Z.eqb_spec n 0); [lia|reflexivity].
    + right. exists c, w'. split; [reflexivity|].
      destruct H as [H|[(_ & [Hf|Hf])|(_ & Hf)]]; [exact H| | |]; exfalso.
      * rewrite IsPowerOfTwo_0 in Hf by lia. discriminate.
      * assert (2 ^ 26 <= 2 ^ 32) by (apply Z.pow_le_mono_r; lia). lia.
      * unfold align_room in Hf.
        destruct (Z.gtb_spec 0 REDZONE); [lia|].
        destruct (Z.eqb_spec n 0); lia.
  - intros Hn.
    assert (Hsane : sane cfg 0 n) by (unfold sane; lia).
    assert (Hpow : IsPowerOfTwo cfg 0 = true) by (apply IsPowerOfTwo_0; lia).
    pose proof (Allocate_oversize 0 n stk w Hsane Hpow) as H.
    cbv zeta in H.
    replace (if n =? 0 then 1 else n) with n in H
      by (destruct (Z.eqb_spec n 0); [lia|reflexivity]).
    unfold __asan_malloc. apply H.
    unfold align_room. destruct (Z.gtb_spec 0 REDZONE); [lia|].
    pose proof (Z.div_mod (n + REDZONE - 1) REDZONE ltac:(lia)) as Hd.
    pose proof (Z.mod_pos_bound (n + REDZONE - 1) REDZONE HR) as Hm.
    lia.
Qed.

(** C5: when an allocation with an alignment above REDZONE returns p, the
    header at p - REDZONE is in state CHUNK_MEMALIGN and its [next] field is
    the real chunk: the chunk that [PtrToChunk] gives for p, which is in
    state Allocated and is not the forwarder itself. *)
Theorem memalign_forwarder w live alignment n stk p w' :
  run cfg w live -> sane cfg alignment n -> REDZONE < alignment ->
  __asan_memalign cfg alignment n (Some stk) w = Ret p w' ->
  let f := hdr (heap w') (p - REDZONE) in
  chunk_state f = CHUNK_MEMALIGN /\
  next f = PtrToChunk cfg (heap w') p /\
  chunk_state (hdr (heap w') (next f)) = CHUNK_ALLOCATED /\
  next f <> p - REDZONE.
Proof.
  intros Hrun Hsane Hbig Hr. cbv zeta.
  destruct (run_wf w live Hrun) as (G & Hwf & Hrest).
  pose proof (redzone_pos cfg Hcfg) as HR.
  destruct (wp_elim _ _ _ _ _ _ _
              (Allocate_allocated cfg Hcfg alignment n stk w G live Hwf Hrest Hsane) Hr)
    as ((G' & Hwf' & _) & Hfw & _ & _).
  destruct (Hfw Hbig) as (Hst & _).
  assert (Hp : (p, n) ∈ (p, n) :: live) by (apply elem_of_cons; left; reflexivity).
  destruct (live_ptr_bounds cfg _ _ _ p n HR (wf_registry _ _ _ _ _ _ _ Hwf')
              (wf_live _ _ _ _ _ _ _ Hwf' p n Hp)) as (Hwr & _).
  assert (Hptr : PtrToChunk cfg (heap w') p = next (hdr (heap w') (p - REDZONE))).
  { unfold PtrToChunk. rewrite Hwr, Hst, Z.eqb_refl. reflexivity. }
  destruct (wf_live _ _ _ _ _ _ _ Hwf' p n Hp) as (Hal & _). rewrite Hptr in Hal.
  split; [exact Hst|]. split; [symmetry; exact Hptr|]. split; [exact Hal|].
  intros He. rewrite He, Hst in Hal.
  revert Hal. apply not_eq_sym, states_distinct.
Qed.

(** C10 (calloc, as the code has it): [__asan_calloc nmemb size] allocates
    and zeroes the product reduced modulo 2^WORDSIZE, without a check for
    overflow; the [used_size] of the chunk is that reduced product, or 1
    when the reduced product is 0. *)
Theorem calloc_wrapped_product w live nmemb size stk p w' :
  run cfg w live ->
  let total := wrap cfg (nmemb * size) in
  total + 2 * REDZONE < 2 ^ WORDSIZE ->
  __asan_calloc cfg nmemb size (Some stk) w = Ret p w' ->
  used_size (hdr (heap w') (PtrToChunk cfg (heap w') p)) =
    (if total =? 0 then 1 else total) /\
  exists w1, Allocate cfg 0 total (Some stk) w = Ret p w1 /\
             w' = with_trace w1 [EvMemset p 0 total].
Proof.
  intros Hrun total Hov Hr. destruct (run_wf w live Hrun) as (G & Hwf & Hrest).
  pose proof (redzone_pos cfg Hcfg) as HR.
  destruct (cfg_word cfg Hcfg) as [Hw _].
  assert (Ht : 0 <= total).
  { unfold total, wrap. apply Z.mod_pos_bound. apply Z.pow_pos_nonneg; lia. }
  assert (Hsane : sane cfg 0 total) by (unfold sane; lia).
  pose proof (Allocate_allocated cfg Hcfg 0 total stk w G live Hwf Hrest Hsane) as H.
  unfold wp in H. unfold __asan_calloc in Hr. fold total in Hr. unfold bind in Hr.
  destruct (Allocate cfg 0 total (Some stk) w) as [a w1| |]; try discriminate.
  cbn in Hr. injection Hr as <- <-.
  destruct H as (_ & _ & _ & Hus). split; [exact Hus|].
  exists w1. split; reflexivity.
Qed.

End ClientFacts.

Lemma mmap_top_ge maps : 2 ^ 32 <= mmap_top maps.
Proof. induction maps as [|m r IH]; simpl; lia. Qed.

Lemma mmap_top_above maps a n : (a, n) ∈ maps -> a + n <= mmap_top maps.
Proof.
  induction maps as [|m r IH]; intros H; [inversion H|].
  apply elem_of_cons in H as [<-|H]; simpl; [lia|]. specialize (IH H). lia.
Qed.

Lemma mmap_ok_linux64 : mmap_ok linux64.
Proof.
  intros maps size Hs r. unfold r. cbn [os_mmap linux64]. unfold bump_mmap.
  set (top := (mmap_top maps + 4095) / 4096 * 4096).
  pose proof (mmap_top_ge maps) as Hge.
  assert (Htop : mmap_top maps <= top < mmap_top maps + 4096).
  { unfold top. pose proof (Z.div_mod (mmap_top maps + 4095) 4096 ltac:(lia)).
    pose proof (Z.mod_pos_bound (mmap_top maps + 4095) 4096 ltac:(lia)). lia. }
  destruct (Z.leb_spec (top + size) (2 ^ 47)) as [Hle|Hgt].
  - right. cbn [__WORDSIZE kPageSize linux64] in *.
    split; [lia|]. split; [unfold top; apply Z.mod_mul; lia|].
    split; [lia|]. intros a n Hin. right.
    pose proof (mmap_top_above maps a n Hin). lia.
  - left. reflexivity.
Qed.

Lemma cfg_ok_linux64 : cfg_ok linux64.
Proof.
  constructor.
  - right. reflexivity.
  - exists 7. split; [lia|reflexivity].
  - exists 12. split; [lia|]. split; [reflexivity|]. cbn. lia.
  - exists 3. split; [lia|]. split; [reflexivity|]. cbn. lia.
  - vm_compute. split; [reflexivity|]. intros H; discriminate.
  - exact mmap_ok_linux64.
Qed.

(** ** Concrete scenarios *)

Lemma cfg_ok_small_quarantine : cfg_ok small_quarantine.
Proof.
  constructor.
  - right. reflexivity.
  - exists 7. split; [lia|reflexivity].
  - exists 12. split; [lia|]. split; [reflexivity|]. cbn. lia.
  - exists 3. split; [lia|]. split; [reflexivity|]. cbn. lia.
  - vm_compute. split; [reflexivity|]. intros H; discriminate.
  - exact mmap_ok_linux64.
Qed.

Ltac solve_sane := unfold sane; cbn; lia.
Ltac by_evaluation := vm_compute; reflexivity.

Lemma run_two_freed : run small_quarantine two_freed [].
Proof.
  eapply run_step.
  - eapply run_step.
    + eapply run_step.
      * eapply run_step; [apply (run_init small_quarantine (Some 0))|].
        apply (step_malloc small_quarantine _ [] (2 ^ 16 - 256) []
                 (result_value two_freed_1 0)
                 (result_world two_freed_1 (init_world None)));
          [solve_sane|by_evaluation].
      * apply (step_malloc small_quarantine _ _ (2 ^ 16 - 256) []
                 (result_value two_freed_2 0)
                 (result_world two_freed_2 (init_world None)));
          [solve_sane|by_evaluation].
    + apply (step_free small_quarantine _
               [(result_value two_freed_2 0, 2 ^ 16 - 256)]
               (result_value two_freed_1 0) (2 ^ 16 - 256) [] []
               (result_world two_freed_3 (init_world None))).
      by_evaluation.
  - apply (step_free small_quarantine _ []
             (result_value two_freed_2 0) (2 ^ 16 - 256) [] [] two_freed).
    by_evaluation.
Qed.

Lemma run_one_block :
  run linux64 (result_world one_block (init_world None))
    [(result_value one_block 0, 2 ^ 22 - 256)].
Proof.
  eapply run_step; [apply (run_init linux64 None)|].
  apply (step_malloc linux64 _ [] (2 ^ 22 - 256) []); [solve_sane|by_evaluation].
Qed.

Lemma wf_two_freed :
  exists G,
    wf_st small_quarantine (heap two_freed) (malloc_info two_freed)
      (Some two_freed_storage) (mappings two_freed) G [] /\ at_rest G.
Proof.
  destruct (run_wf small_quarantine cfg_ok_small_quarantine two_freed [] run_two_freed)
    as (G & Hwf & Hrest).
  exists G. split; [|exact Hrest].
  assert (E : tls two_freed = Some two_freed_storage) by by_evaluation.
  unfold wf in Hwf. rewrite E in Hwf. exact Hwf.
Qed.

(** C1 holds of the two blocks: swallowing the thread-local quarantine
    releases the first one while it is over the budget. *)
Lemma Swallow_releases_over_budget_witness :
  exists G older younger,
    g_quar G ++ t_quar G = older ++ two_freed_chunk_1 :: younger /\
    __asan_flag_quarantine_size small_quarantine <
      wrap small_quarantine
        (total_bytes small_quarantine (heap two_freed) (two_freed_chunk_1 :: younger)).
Proof.
  destruct wf_two_freed as (G & Hwf & Hrest).
  exists G.
  apply (Swallow_releases_over_budget small_quarantine cfg_ok_small_quarantine
           0 two_freed_storage false two_freed G []
           (result_value two_freed_swallowed init_storage)
           (result_world two_freed_swallowed two_freed)
           two_freed_chunk_1 Hwf Hrest).
  - by_evaluation.
  - by_evaluation.
  - vm_compute. discriminate.
Defined.

(** The first block is released although the quarantine still holds the
    second one, which alone is over the budget. *)
Lemma quarantine_release_counterexample :
  run small_quarantine two_freed [] /\
  chunk_state (hdr (heap two_freed_pushed) two_freed_chunk_1) = CHUNK_QUARANTINE /\
  __asan_flag_quarantine_size small_quarantine <
    size_ (quarantine_ (malloc_info two_freed_pushed)) /\
  match MallocInfo_Pop small_quarantine two_freed_pushed with
  | Ret _ w' =>
      chunk_state (hdr (heap w') two_freed_chunk_1) = CHUNK_AVAILABLE /\
      free_lists_ (malloc_info w') 16 = two_freed_chunk_1 /\
      first_ (quarantine_ (malloc_info w')) = two_freed_chunk_2 /\
      size_ (quarantine_ (malloc_info w')) = 2 ^ 16 /\
      __asan_flag_quarantine_size small_quarantine = 2 ^ 10
  | _ => False
  end /\
  match two_freed_swallowed with
  | Ret _ w' => chunk_state (hdr (heap w') two_freed_chunk_1) = CHUNK_AVAILABLE
  | _ => False
  end.
Proof.
  split; [exact run_two_freed|].
  split; [by_evaluation|]. split; [by_evaluation|].
  split; vm_compute; repeat split.
Qed.

Lemma one_block_run :
  one_block = Ret (result_value one_block 0) (result_world one_block (init_world None)).
Proof. by_evaluation. Qed.

(** C2 at the block of [one_block]. *)
Lemma live_pointer_resolves_witness :
  let w := result_world one_block (init_world None) in
  let p := result_value one_block 0 in
  chunk_state (hdr (heap w) (PtrToChunk linux64 (heap w) p)) = CHUNK_ALLOCATED /\
  2 ^ 22 - 256 <= used_size (hdr (heap w) (PtrToChunk linux64 (heap w) p)).
Proof.
  apply (live_pointer_resolves linux64 cfg_ok_linux64 _
           [(result_value one_block 0, 2 ^ 22 - 256)]).
  - exact run_one_block.
  - apply elem_of_cons. left. reflexivity.
Defined.

(** C3 at a request of 1000 bytes in the initial state. *)
Lemma malloc_allocation_size_witness :
  (exists p w', __asan_malloc linux64 1000 (Some []) (init_world None) = Ret p w' /\
                AllocationSize linux64 p w' = Ret 1000 w') \/
  (exists c w', __asan_malloc linux64 1000 (Some []) (init_world None) = Abort c w' /\
                alloc_abort linux64 c w').
Proof.
  apply (proj1 (malloc_allocation_size linux64 cfg_ok_linux64 (init_world None) []
                  1000 [] (run_init linux64 None))).
  vm_compute. split; [reflexivity|discriminate].
Defined.

(** A request of [kMaxAllowedMallocSize] bytes by the thread 0 is
    refused. *)
Lemma malloc_allocation_size_counterexample :
  run linux64 (init_world (Some (init_thread 0))) [] /\
  0 < kMaxAllowedMallocSize linux64 <= kMaxAllowedMallocSize linux64 /\
  exists w',
    __asan_malloc linux64 (kMaxAllowedMallocSize linux64) (Some [])
      (init_world (Some (init_thread 0)))
      = Abort AbortCalled w' /\
    trace w' =
      [EvPrintf "ERROR: AddressSanitizer failed to allocate 0x%lx (%lu) bytes (%s) in T%d"
         [kMaxAllowedMallocSize linux64; kMaxAllowedMallocSize linux64; 0];
       EvPrintStack []].
Proof.
  split; [apply (run_init linux64 (Some 0))|].
  split; [vm_compute; split; [reflexivity|discriminate]|].
  eexists. split; by_evaluation.
Qed.






(** C5 at a request of 100 bytes aligned to 4 MB. *)
Lemma memalign_forwarder_witness :
  let f := hdr (heap one_aligned_world) (one_aligned_ptr - 128) in
  chunk_state f = CHUNK_MEMALIGN /\
  next f = PtrToChunk linux64 (heap one_aligned_world) one_aligned_ptr /\
  chunk_state (hdr (heap one_aligned_world) (next f)) = CHUNK_ALLOCATED /\
  next f <> one_aligned_ptr - 128.
Proof.
  apply (memalign_forwarder linux64 cfg_ok_linux64 (init_world None) [] (2 ^ 22) 100 []).
  - apply (run_init linux64 None).
  - solve_sane.
  - vm_compute. reflexivity.
  - by_evaluation.
Defined.

(** C6 at the initial state. *)
Lemma Reallocate_zero_size_witness :
  Reallocate linux64 4096 0 None (init_world None) = Ret 0 (init_world None).
Proof. apply Reallocate_zero_size. discriminate. Defined.

(** C7 at 1000 bytes and at 100 MB. *)
Lemma SizeToSizeClass_spec_witness :
  (SizeToSizeClass linux64 1000 = Some 10 /\
   exists s, SizeClassToSize linux64 10 = Some s /\ 1000 <= s) /\
  (SizeToSizeClass linux64 (100 * 2 ^ 20) = Some 28 /\
   exists s, SizeClassToSize linux64 28 = Some s /\ 100 * 2 ^ 20 <= s).
Proof.
  split.
  - apply (SizeToSizeClass_spec linux64 1000).
    + right. reflexivity.
    + vm_compute. reflexivity.
    + vm_compute. split; discriminate.
  - apply (SizeToSizeClass_spec linux64 (100 * 2 ^ 20)).
    + right. reflexivity.
    + vm_compute. reflexivity.
    + vm_compute. split; discriminate.
Defined.

(** C8 at the class of 4 MB chunks in the initial state. *)
Lemma GetNewChunks_refill_witness :
  exists res w' cells,
    GetNewChunks linux64 22 (init_world None) = Ret res w' /\
    lseg (heap w') res cells /\ List.length cells = 1%nat /\
    n_page_groups_ (malloc_info w') = 1 /\
    page_groups_ (malloc_info w') 0 = mkPageGroup (2 ^ 32) (2 ^ 32 + 2 ^ 22 + 4096) (2 ^ 22).
Proof.
  destruct (GetNewChunks_refill linux64 cfg_ok_linux64 22 (2 ^ 22) (init_world None))
    as (res & w' & cells & H1 & H2 & H3 & _ & H5 & H6 & _).
  - by_evaluation.
  - vm_compute. discriminate.
  - left. reflexivity.
  - vm_compute. discriminate.
  - vm_compute. reflexivity.
  - exists res, w', cells. split; [exact H1|]. split; [exact H2|].
    split; [apply Nat2Z.inj; rewrite H3; reflexivity|].
    split; [exact H5|exact H6].
Defined.

(** The class of chunks of 16 bytes: the mapping succeeds and the registry
    has room, but the record of the page group, of 24 bytes, is stored 16
    bytes before the end of the mapping; no list is returned and no page
    group is registered. *)
Lemma GetNewChunks_refill_counterexample :
  SizeClassToSize linux64 4 = Some 16 /\
  os_mmap linux64 (mappings (init_world None)) (mmap_size_of linux64 16)
    <> MAP_FAILED linux64 /\
  n_page_groups_ (malloc_info (init_world None)) < page_groups_capacity linux64 /\
  exists w', GetNewChunks linux64 4 (init_world None) = Abort MemoryFault w' /\
             n_page_groups_ (malloc_info w') = 0.
Proof.
  split; [by_evaluation|]. split; [vm_compute; discriminate|].
  split; [by_evaluation|].
  destruct (GetNewChunks_record_past_end linux64 cfg_ok_linux64 4 16 (init_world None))
    as (w' & Hr & Hmi).
  - by_evaluation.
  - reflexivity.
  - reflexivity.
  - left. reflexivity.
  - vm_compute. discriminate.
  - exists w'. split; [exact Hr|]. rewrite Hmi. reflexivity.
Qed.

(** C9 at the initial state. *)
Lemma stack_malloc_free_real_stack_witness :
  __asan_stack_malloc linux64 64 4096 (init_world None) = Ret 4096 (init_world None) /\
  __asan_stack_free linux64 4096 64 4096 (init_world None) = Ret tt (init_world None).
Proof.
  split.
  - apply (proj1 (stack_malloc_free_real_stack linux64 64 4096 (init_world None))).
    reflexivity.
  - apply (proj2 (stack_malloc_free_real_stack linux64 64 4096 (init_world None))).
Defined.

(** C10 at 1000 members of 4000 bytes. *)
Lemma calloc_wrapped_product_witness :
  used_size (hdr (heap one_calloc_world)
               (PtrToChunk linux64 (heap one_calloc_world) one_calloc_ptr)) = 4000000.
Proof.
  apply (calloc_wrapped_product linux64 cfg_ok_linux64 (init_world None) [] 1000 4000 []
           one_calloc_ptr one_calloc_world).
  - apply (run_init linux64 None).
  - vm_compute. reflexivity.
  - by_evaluation.
Defined.

(** [2^32] members of [2^32] bytes: the product wraps to 0 and the block
    has a used size of 1. *)
Lemma calloc_wrapped_product_counterexample :
  2 ^ 64 <= 2 ^ 32 * 2 ^ 32 /\
  wrap linux64 (2 ^ 32 * 2 ^ 32) = 0 /\
  match __asan_calloc linux64 (2 ^ 32) (2 ^ 32) (Some []) (init_world None) with
  | Ret p w' =>
      used_size (hdr (heap w') (PtrToChunk linux64 (heap w') p)) = 1 /\
      exists evs, trace w' = evs ++ [EvMemset p 0 0]
  | _ => False
  end.
Proof.
  split; [vm_compute; discriminate|]. split; [reflexivity|].
  vm_compute. split; [reflexivity|]. eexists [_; _; _; _; _]. reflexivity.
Qed.

(** ** The arithmetic helpers, as functions on numbers *)

Section ArithFacts.
Variable cfg : Config.
Local Abbreviation REDZONE := (__asan_flag_redzone cfg).
Local Abbreviation WORDSIZE := (__WORDSIZE cfg).

(** X1: on a nonzero word, [Log2] passes its CHECK exactly on the powers
    of two, and then gives the exponent. *)
Theorem Log2_exact x k :
  0 < x < 2 ^ WORDSIZE ->
  (Log2 cfg x = Some k <-> 0 <= k /\ x = 2 ^ k).
Proof.
  intros Hx. split.
  - unfold Log2. destruct (IsPowerOfTwo cfg x) eqn:Hp; [|discriminate].
    intros H. injection H as H.
    apply IsPowerOfTwo_inv in Hp; [|assumption].
    pose proof (Z.log2_nonneg x) as Hl.
    rewrite Hp in H. rewrite ctzl_pow2 in H by assumption.
    subst k. split; assumption.
  - intros [Hk ->]. apply Log2_pow2. split; [assumption|].
    destruct (Z_lt_le_dec WORDSIZE 0) as [Hneg|Hpos].
    + rewrite (Z.pow_neg_r 2 WORDSIZE) in Hx by assumption. lia.
    + apply (Z.pow_lt_mono_r_iff 2 k WORDSIZE); lia.
Qed.

(** X2: [RoundUpTo size (2^k)] is the least multiple of [2^k] that
    is not below [size], as long as that multiple fits the word; above the
    last multiple that fits, the sum wraps and the result is 0. *)
Theorem RoundUpTo_least_multiple size k :
  0 <= k < WORDSIZE -> 0 <= size < 2 ^ WORDSIZE ->
  exists r, RoundUpTo cfg size (2 ^ k) = Some r /\
    (size <= 2 ^ WORDSIZE - 2 ^ k ->
       r mod 2 ^ k = 0 /\ size <= r /\
       forall r', r' mod 2 ^ k = 0 -> size <= r' -> r <= r') /\
    (2 ^ WORDSIZE - 2 ^ k < size -> r = 0).
Proof.
  intros Hk Hs. pose proof (pow2_lt_word cfg k Hk) as Hp.
  rewrite RoundUpTo_pow2 by assumption. eexists. split; [reflexivity|].
  split.
  - intros Hfit. rewrite wrap_small by lia.
    pose proof (Z.mod_pos_bound (size + 2 ^ k - 1) (2 ^ k) ltac:(lia)) as Hm.
    split.
    { rewrite Zminus_mod_idemp_r. rewrite Z.sub_diag. apply Z.mod_0_l. lia. }
    split; [lia|].
    intros r' Hr' Hle.
    pose proof (Z.div_mod (size + 2 ^ k - 1) (2 ^ k) ltac:(lia)) as Hd.
    pose proof (Z.div_mod r' (2 ^ k) ltac:(lia)) as Hd'.
    rewrite Hr' in Hd'.
    replace (size + 2 ^ k - 1 - (size + 2 ^ k - 1) mod 2 ^ k)
      with (2 ^ k * ((size + 2 ^ k - 1) / 2 ^ k)) by lia.
    rewrite Hd'. rewrite Z.add_0_r.
    apply Z.mul_le_mono_nonneg_l; [lia|].
    destruct (Z_le_gt_dec ((size + 2 ^ k - 1) / 2 ^ k) (r' / 2 ^ k)) as [|Hgt];
      [assumption|exfalso].
    assert (2 ^ k * (r' / 2 ^ k + 1) <= 2 ^ k * ((size + 2 ^ k - 1) / 2 ^ k))
      by (apply Z.mul_le_mono_nonneg_l; lia).
    lia.
  - intros Hover.
    assert (Hw : wrap cfg (size + 2 ^ k - 1) = size + 2 ^ k - 1 - 2 ^ WORDSIZE).
    { unfold wrap. symmetry. apply Z.mod_unique with (q := 1); lia. }
    rewrite Hw. rewrite Z.mod_small by lia. lia.
Qed.

(** X3: for a size of at least 1 and at most half the
    word range, [RoundUpToPowerOfTwo] gives the least power of two that is
    not below the size, which is less than twice the size; on 0 its CHECK
    fails. *)
Theorem RoundUpToPowerOfTwo_least size :
  1 < WORDSIZE <= 64 ->
  (1 <= size <= 2 ^ (WORDSIZE - 1) ->
   exists j, 0 <= j < WORDSIZE /\
     RoundUpToPowerOfTwo cfg size = Some (2 ^ j) /\
     size <= 2 ^ j < 2 * size /\
     forall i, 0 <= i -> size <= 2 ^ i -> 2 ^ j <= 2 ^ i) /\
  RoundUpToPowerOfTwo cfg 0 = None.
Proof.
  intros HW. split; [|reflexivity].
  intros Hs.
  assert (HpW : 2 ^ (WORDSIZE - 1) < 2 ^ WORDSIZE) by (apply Z.pow_lt_mono_r; lia).
  assert (Hlt : 0 < size < 2 ^ WORDSIZE) by lia.
  assert (Hl : Z.log2 size <= WORDSIZE - 1).
  { rewrite <- (Z.log2_pow2 (WORDSIZE - 1)) by lia. apply Z.log2_le_mono. lia. }
  pose proof (Z.log2_nonneg size) as Hl0.
  destruct (Z.log2_spec size ltac:(lia)) as [Hlo Hhi].
  replace (Z.succ (Z.log2 size)) with (Z.log2 size + 1) in Hhi by lia.
  assert (Hpl : 0 < 2 ^ Z.log2 size) by (apply Z.pow_pos_nonneg; lia).
  unfold RoundUpToPowerOfTwo.
  replace (size =? 0) with false by (symmetry; apply Z.eqb_neq; lia).
  destruct (IsPowerOfTwo cfg size) eqn:Hp.
  - apply IsPowerOfTwo_inv in Hp; [|assumption].
    exists (Z.log2 size). split; [lia|]. rewrite <- Hp.
    split; [reflexivity|]. split; [lia|]. intros i Hi Hle. assumption.
  - apply IsPowerOfTwo_false in Hp; [|assumption].
    assert (Hl' : Z.log2 size + 1 <= WORDSIZE - 1).
    { destruct (Z_le_gt_dec (Z.log2 size + 1) (WORDSIZE - 1)) as [|Hgt];
        [assumption|exfalso].
      assert (Z.log2 size = WORDSIZE - 1) by lia.
      replace (Z.log2 size) with (WORDSIZE - 1) in Hp by lia. lia. }
    exists (Z.log2 size + 1). split; [lia|].
    unfold __builtin_clzl.
    replace (WORDSIZE - (WORDSIZE - 1 - Z.log2 size)) with (Z.log2 size + 1) by lia.
    replace (Z.log2 size + 1 - 1) with (Z.log2 size) by lia.
    rewrite !Z.shiftl_1_l.
    assert (Hb : 2 ^ (Z.log2 size + 1) < 2 ^ WORDSIZE)
      by (apply Z.pow_lt_mono_r; lia).
    assert (Hb64 : 2 ^ WORDSIZE <= 2 ^ 64) by (apply Z.pow_le_mono_r; lia).
    rewrite !Z.mod_small by lia.
    replace (size <? 2 ^ (Z.log2 size + 1)) with true by (symmetry; apply Z.ltb_lt; lia).
    replace (size >? 2 ^ Z.log2 size) with true by (symmetry; apply Z.gtb_lt; lia).
    simpl. rewrite wrap_small by lia.
    split; [reflexivity|].
    assert (Hdb : 2 ^ (Z.log2 size + 1) = 2 * 2 ^ Z.log2 size)
      by (rewrite Z.pow_add_r by lia; lia).
    split; [lia|].
    intros i Hi Hle.
    apply Z.pow_le_mono_r; [lia|].
    destruct (Z_le_gt_dec (Z.log2 size + 1) i) as [|Hgt]; [assumption|exfalso].
    assert (2 ^ i <= 2 ^ Z.log2 size) by (apply Z.pow_le_mono_r; lia). lia.
Qed.

(** X4: [SizeToSizeClass] is a best fit: no class below the one
    it gives has a size that holds the request. *)
Theorem SizeToSizeClass_least_class size c c' s' :
  word_ok cfg ->
  kMaxAllowedMallocSize cfg / kMallocSizeClassStep cfg + kMallocSizeClassStepLog
    < kNumberOfSizeClasses cfg ->
  1 <= size <= kMaxAllowedMallocSize cfg ->
  SizeToSizeClass cfg size = Some c ->
  SizeClassToSize cfg c' = Some s' -> size <= s' ->
  c <= c'.
Proof.
  intros Hw Hn Hs Hc Hc' Hle.
  destruct (word_ok_bounds cfg Hw) as [Hw32 Hp32].
  assert (Hs' : s' <= 2 ^ 26 /\ (0 <= c' -> c' <= 26 /\ s' = 2 ^ c') \/
                26 < c' /\ s' <= (c' - 26) * 2 ^ 26).
  { revert Hc'. unfold SizeClassToSize. rewrite step_value by assumption.
    unfold kMallocSizeClassStepLog.
    destruct (c' <? kNumberOfSizeClasses cfg); [|discriminate]. simpl.
    destruct (Z.leb_spec c' 26) as [Hc26|Hc26]; intros H; injection H as <-.
    - left. rewrite Z.shiftl_1_l.
      destruct (Z_lt_le_dec c' 0) as [Hneg|Hpos].
      + rewrite Z.pow_neg_r by assumption. unfold wrap. rewrite Z.mod_0_l by lia.
        split; [lia|]. intros; lia.
      + rewrite wrap_small.
        * split; [apply Z.pow_le_mono_r; lia|]. intros _. split; [lia|reflexivity].
        * split; [apply Z.pow_nonneg; lia|].
          apply Z.lt_le_trans with (2 ^ 32); [apply Z.pow_lt_mono_r; lia|assumption].
    - right. split; [assumption|]. unfold wrap.
      apply Z.mod_le; [lia|]. apply Z.pow_pos_nonneg; lia. }
  destruct (Z_le_gt_dec size (2 ^ 26)) as [Hsmall|Hlarge].
  - destruct (SizeToSizeClass_small cfg size Hw Hn ltac:(lia)) as (H1 & _).
    rewrite H1 in Hc. injection Hc as <-.
    assert (Hup : Z.log2_up size <= 26).
    { apply Z.log2_up_le_pow2; lia. }
    destruct Hs' as [(Hb & Hc0)|(Hc26 & _)]; [|lia].
    destruct (Z_lt_le_dec c' 0) as [Hneg|Hpos].
    + exfalso. unfold SizeClassToSize, kMallocSizeClassStepLog in Hc'.
      destruct (c' <? kNumberOfSizeClasses cfg); [|discriminate]. simpl in Hc'.
      replace (c' <=? 26) with true in Hc' by (symmetry; apply Z.leb_le; lia).
      rewrite Z.shiftl_1_l, Z.pow_neg_r in Hc' by assumption.
      unfold wrap in Hc'. rewrite Z.mod_0_l in Hc' by lia.
      injection Hc' as <-. lia.
    + destruct (Hc0 Hpos) as (_ & ->).
      apply Z.log2_up_le_pow2; lia.
  - destruct (SizeToSizeClass_large cfg size Hw Hn ltac:(lia)) as (H1 & _).
    rewrite H1 in Hc. injection Hc as <-.
    destruct Hs' as [(Hb & _)|(Hc26 & Hb)]; [lia|].
    assert ((size + 2 ^ 26 - 1) / 2 ^ 26 <= c' - 26); [|lia].
    apply Z.lt_succ_r. apply Z.div_lt_upper_bound; lia.
Qed.

(** X5: the size of the class chosen for a request is less than twice
    the request up to the step of 64 MB, and less than the request plus the
    step above it. *)
Theorem SizeClass_waste_bound size :
  word_ok cfg ->
  kMaxAllowedMallocSize cfg / kMallocSizeClassStep cfg + kMallocSizeClassStepLog
    < kNumberOfSizeClasses cfg ->
  1 <= size <= kMaxAllowedMallocSize cfg ->
  exists c s,
    SizeToSizeClass cfg size = Some c /\ SizeClassToSize cfg c = Some s /\
    size <= s /\
    (size <= 2 ^ 26 -> s < 2 * size) /\
    (2 ^ 26 < size -> s < size + 2 ^ 26).
Proof.
  intros Hw Hn Hs.
  destruct (word_ok_bounds cfg Hw) as [Hw32 Hp32].
  destruct (kMax_bounds cfg Hw) as (Hk1 & Hk2 & Hk3).
  destruct (class_count_bound cfg Hw Hn) as (Hq & Hn').
  destruct (Z_le_gt_dec size (2 ^ 26)) as [Hsmall|Hlarge].
  - destruct (SizeToSizeClass_small cfg size Hw Hn ltac:(lia)) as (H1 & s & H2 & H3).
    exists (Z.log2_up size), s. split; [exact H1|]. split; [exact H2|].
    split; [exact H3|]. split; [|lia]. intros _.
    assert (Hup : 0 <= Z.log2_up size <= 26).
    { split; [apply Z.log2_up_nonneg|apply Z.log2_up_le_pow2; lia]. }
    rewrite SizeClassToSize_small in H2 by (try assumption; lia).
    injection H2 as <-.
    destruct (Z.eq_dec size 1) as [->|Hne]; [reflexivity|].
    destruct (Z.log2_up_spec size ltac:(lia)) as [Hlo _].
    replace (Z.log2_up size) with (Z.pred (Z.log2_up size) + 1) by lia.
    rewrite Z.pow_add_r; [lia| |lia].
    assert (0 < Z.log2_up size) by (apply Z.log2_up_pos; lia). lia.
  - destruct (SizeToSizeClass_large cfg size Hw Hn ltac:(lia)) as (H1 & s & H2 & H3).
    eexists _, s. split; [exact H1|]. split; [exact H2|].
    split; [exact H3|]. split; [lia|]. intros _.
    set (q := (size + 2 ^ 26 - 1) / 2 ^ 26) in *.
    assert (Hq2 : 2 <= q <= kMaxAllowedMallocSize cfg / 2 ^ 26).
    { unfold q. split.
      - apply Z.div_le_lower_bound; lia.
      - apply Z.lt_succ_r. apply Z.div_lt_upper_bound; [lia|].
        pose proof (Z.div_mod (kMaxAllowedMallocSize cfg) (2 ^ 26)). lia. }
    assert (Hqs : size <= q * 2 ^ 26 < size + 2 ^ 26).
    { unfold q. pose proof (Z.div_mod (size + 2 ^ 26 - 1) (2 ^ 26)).
      pose proof (Z.mod_pos_bound (size + 2 ^ 26 - 1) (2 ^ 26)). lia. }
    rewrite SizeClassToSize_large in H2 by (try assumption; lia).
    injection H2 as <-. replace (q + 26 - 26) with q by lia. lia.
Qed.

End ArithFacts.

(** ** The registry of page groups *)

Lemma FindPageGroupUnlocked_loop_first mi addr n : forall i,
  match FindPageGroupUnlocked_loop mi addr n i with
  | Some g =>
      exists j, i <= j < i + Z.of_nat n /\ g = page_groups_ mi j /\
                PageGroup_InRange g addr = true /\
                forall j', i <= j' < j ->
                  PageGroup_InRange (page_groups_ mi j') addr = false
  | None =>
      forall j, i <= j < i + Z.of_nat n ->
        PageGroup_InRange (page_groups_ mi j) addr = false
  end.
Proof.
  induction n as [|n IH]; intros i; cbn [FindPageGroupUnlocked_loop].
  - intros j Hj. lia.
  - destruct (PageGroup_InRange (page_groups_ mi i) addr) eqn:Hi.
    + exists i. split; [lia|]. split; [reflexivity|]. split; [exact Hi|].
      intros j' Hj'. lia.
    + specialize (IH (i + 1)).
      destruct (FindPageGroupUnlocked_loop mi addr n (i + 1)) as [g|].
      * destruct IH as (j & Hj & Hg & Hin & Hbefore).
        exists j. split; [lia|]. split; [exact Hg|]. split; [exact Hin|].
        intros j' Hj'. destruct (Z.eq_dec j' i) as [->|]; [exact Hi|].
        apply Hbefore. lia.
      * intros j Hj. destruct (Z.eq_dec j i) as [->|]; [exact Hi|].
        apply IH. lia.
Qed.

Lemma FindPageGroupUnlocked_range mi addr g :
  FindPageGroupUnlocked mi addr = Some g ->
  beg g <= addr < end_ g /\
  exists i, 0 <= i < n_page_groups_ mi /\ g = page_groups_ mi i.
Proof.
  unfold FindPageGroupUnlocked. intros H.
  pose proof (FindPageGroupUnlocked_loop_first mi addr
                (Z.to_nat (n_page_groups_ mi)) 0) as Hf.
  rewrite H in Hf. destruct Hf as (j & Hj & Hg & Hin & _).
  unfold PageGroup_InRange in Hin. apply andb_true_iff in Hin as [H1 H2].
  apply Z.geb_le in H1. apply Z.ltb_lt in H2.
  split; [lia|]. exists j. split; [lia|exact Hg].
Qed.

(** X6: the lookup gives the first registered page group whose
    range holds the address, and null exactly when no registered group
    holds it. *)
Theorem FindPageGroupUnlocked_first_match mi addr :
  match FindPageGroupUnlocked mi addr with
  | Some g =>
      exists i, 0 <= i < n_page_groups_ mi /\ g = page_groups_ mi i /\
                beg g <= addr < end_ g /\
                forall j, 0 <= j < i ->
                  ~ (beg (page_groups_ mi j) <= addr < end_ (page_groups_ mi j))
  | None =>
      forall j, 0 <= j < n_page_groups_ mi ->
        ~ (beg (page_groups_ mi j) <= addr < end_ (page_groups_ mi j))
  end.
Proof.
  assert (Hout : forall g, PageGroup_InRange g addr = false ->
                           ~ (beg g <= addr < end_ g)).
  { intros g H [H1 H2]. unfold PageGroup_InRange in H.
    apply andb_false_iff in H as [H|H];
      [rewrite Z.geb_leb in H; apply Z.leb_gt in H|apply Z.ltb_ge in H]; lia. }
  unfold FindPageGroupUnlocked.
  pose proof (FindPageGroupUnlocked_loop_first mi addr
                (Z.to_nat (n_page_groups_ mi)) 0) as H.
  destruct (FindPageGroupUnlocked_loop mi addr (Z.to_nat (n_page_groups_ mi)) 0)
    as [g|].
  - destruct H as (j & Hj & Hg & Hin & Hbefore).
    exists j. split; [lia|]. split; [exact Hg|]. split.
    + unfold PageGroup_InRange in Hin. apply andb_true_iff in Hin as [H1 H2].
      apply Z.geb_le in H1. apply Z.ltb_lt in H2. lia.
    + intros j' Hj'. apply Hout, Hbefore. lia.
  - intros j Hj. apply Hout, H. lia.
Qed.

(** ** What the pointers handed out look like *)

Lemma wp_const {A : Type} (m : M A) (P : Prop) w :
  P -> wp any_abort True m (fun _ _ => P) w.
Proof. intros HP. unfold wp. destruct (m w); [exact HP|exact I|exact I]. Qed.

Section Pointers.
Variable cfg : Config.
Local Abbreviation REDZONE := (__asan_flag_redzone cfg).
Local Abbreviation WORDSIZE := (__WORDSIZE cfg).

Hypothesis Hcfg : cfg_ok cfg.

(** An allocation that returns was given a stack and an alignment that
    passes [IsPowerOfTwo]. *)
Lemma Allocate_returns_pow2 alignment size stack w p w' :
  Allocate cfg alignment size stack w = Ret p w' ->
  IsPowerOfTwo cfg alignment = true.
Proof.
  intros Hr.
  refine (wp_elim any_abort True _ (fun _ _ => IsPowerOfTwo cfg alignment = true)
            w p w' _ Hr).
  unfold Allocate.
  apply wp_bind, wp_CHECK; [|intros; exact I]. intros _.
  apply wp_bind, wp_CHECK; [|intros; exact I]. intros Hp.
  apply wp_const. exact Hp.
Qed.

(** The chunk of a live pointer is at least two redzones long. *)
Lemma live_chunk_size h mi maps p n :
  registry_ok cfg mi maps -> live_ok cfg h mi p n ->
  let m := PtrToChunk cfg h p in
  exists s, AsanChunk_Size cfg (hdr h m) = Some s /\ is_base cfg mi m s /\
            2 * REDZONE <= s /\ m + REDZONE <= p < m + s /\
            m mod (2 * REDZONE) = 0 /\ 0 < m /\ m + s < 2 ^ WORDSIZE.
Proof.
  intros Hreg (_ & _ & s & Hs & Hb & Hp). cbv zeta.
  pose proof (redzone_pos cfg Hcfg) as HR.
  destruct (cfg_redzone cfg Hcfg) as (r & Hr & HRr & H32 & H2p).
  destruct (cfg_page cfg Hcfg) as (k & Hk & Hpg & _).
  destruct (base_in_group cfg _ _ _ _ Hreg Hb) as (i & Hi & _ & Hs0 & _ & _ & Hm0 & Hms).
  assert (H2R : 2 * REDZONE <= s).
  { destruct (size_class_shape cfg Hcfg _ _ Hs Hs0) as (_ & [(j & Hj & ->)|(H26 & _)]).
    - assert (r < j).
      { apply (proj2 (Z.pow_lt_mono_r_iff 2 r j ltac:(lia) ltac:(lia))).
        rewrite <- HRr. lia. }
      rewrite HRr. replace (2 * 2 ^ r) with (2 ^ (r + 1))
        by (rewrite Z.pow_add_r by lia; lia).
      apply Z.pow_le_mono_r; lia.
    - assert (kPageSize cfg <= 2 ^ 16) by (rewrite Hpg; apply Z.pow_le_mono_r; lia).
      lia. }
  exists s. unfold AsanChunk_Size. split; [exact Hs|]. split; [exact Hb|].
  split; [exact H2R|]. split; [exact Hp|].
  split; [exact (base_aligned cfg Hcfg _ _ _ _ Hreg Hb H2R)|]. split; assumption.
Qed.

(** The pointer of an allocation is a multiple of the alignment and of
    REDZONE. *)
Lemma Allocate_aligned w live alignment n stk p w' :
  run cfg w live -> sane cfg alignment n -> 0 < alignment ->
  Allocate cfg alignment n (Some stk) w = Ret p w' ->
  p mod alignment = 0 /\ p mod REDZONE = 0 /\ 0 < p < 2 ^ WORDSIZE.
Proof.
  intros Hrun Hsane Hpos Hr.
  destruct (run_wf cfg Hcfg w live Hrun) as (G & Hwf & Hrest).
  pose proof (redzone_pos cfg Hcfg) as HR.
  destruct (cfg_redzone cfg Hcfg) as (r & Hrr & HRr & H32 & H2p).
  pose proof (Allocate_returns_pow2 _ _ _ _ _ _ Hr) as Hpow.
  destruct (wp_elim _ _ _ _ _ _ _
              (Allocate_allocated cfg Hcfg alignment n stk w G live Hwf Hrest Hsane) Hr)
    as ((G' & Hwf' & _) & Hbig & Hsmall & _).
  assert (Hp : (p, n) ∈ (p, n) :: live) by (apply elem_of_cons; left; reflexivity).
  destruct (live_chunk_size _ _ _ p n (wf_registry _ _ _ _ _ _ _ Hwf')
              (wf_live _ _ _ _ _ _ _ Hwf' p n Hp))
    as (s & _ & _ & H2R & Hin & Hal & Hm0 & Hms).
  assert (Ha : 0 < alignment < 2 ^ WORDSIZE) by (unfold sane in Hsane; lia).
  pose proof (IsPowerOfTwo_inv cfg alignment Ha Hpow) as Hexp.
  pose proof (Z.log2_nonneg alignment) as Hl0.
  split; [|split; [|lia]].
  - destruct (Z_lt_le_dec REDZONE alignment) as [Hgt|Hle].
    + exact (proj2 (Hbig Hgt)).
    + rewrite (Hsmall Hle) in Hal.
      assert (Hj : Z.log2 alignment <= r).
      { apply (proj2 (Z.pow_le_mono_r_iff 2 (Z.log2 alignment) r ltac:(lia) ltac:(lia))).
        rewrite <- Hexp, <- HRr. exact Hle. }
      rewrite Hexp. apply (mod_pow2_le p (Z.log2 alignment) r); [lia|].
      rewrite <- HRr.
      assert (Hd : (p - REDZONE) mod REDZONE = 0).
      { apply (Zmod_divides (p - REDZONE) REDZONE ltac:(lia)).
        apply (Zmod_divides (p - REDZONE) (2 * REDZONE) ltac:(lia)) in Hal as (c & Hc).
        exists (2 * c). lia. }
      replace p with (p - REDZONE + 1 * REDZONE) by lia.
      rewrite Z.mod_add by lia. exact Hd.
  - destruct (Z_lt_le_dec REDZONE alignment) as [Hgt|Hle].
    + destruct (Hbig Hgt) as (_ & Hmod).
      assert (Hj : r <= Z.log2 alignment).
      { apply (proj2 (Z.pow_le_mono_r_iff 2 r (Z.log2 alignment) ltac:(lia) ltac:(lia))).
        rewrite <- Hexp, <- HRr. lia. }
      rewrite HRr. apply (mod_pow2_le p r (Z.log2 alignment)); [lia|].
      rewrite <- Hexp. exact Hmod.
    + rewrite (Hsmall Hle) in Hal.
      apply (Zmod_divides (p - REDZONE) (2 * REDZONE) ltac:(lia)) in Hal as (c & Hc).
      apply (Zmod_divides p REDZONE ltac:(lia)). exists (2 * c + 1). lia.
Qed.

(** X7: a pointer that [__asan_memalign] returns for a nonzero
    alignment is a multiple of that alignment and of REDZONE, and is not
    null; so is a pointer of [__asan_valloc], for the page size. *)
Theorem memalign_aligned w live alignment n stk p w' :
  run cfg w live -> sane cfg alignment n -> 0 < alignment ->
  (__asan_memalign cfg alignment n (Some stk) w = Ret p w' ->
   p mod alignment = 0 /\ p mod REDZONE = 0 /\ 0 < p < 2 ^ WORDSIZE) /\
  (alignment = kPageSize cfg ->
   __asan_valloc cfg n (Some stk) w = Ret p w' ->
   p mod kPageSize cfg = 0 /\ p mod REDZONE = 0 /\ 0 < p < 2 ^ WORDSIZE).
Proof.
  intros Hrun Hsane Hpos. split.
  - unfold __asan_memalign. intros Hr.
    exact (Allocate_aligned w live alignment n stk p w' Hrun Hsane Hpos Hr).
  - intros Hpg. unfold __asan_valloc. rewrite <- Hpg. intros Hr.
    exact (Allocate_aligned w live alignment n stk p w' Hrun Hsane Hpos Hr).
Qed.

(** X8: after its allocation has returned p,
    [__asan_posix_memalign] returns the status 0 with p, a multiple of the
    alignment, when the alignment is not 0; with the alignment 0, which
    passes [IsPowerOfTwo], its CHECK of the alignment of p fails. *)
Theorem posix_memalign_status w live alignment n stk p w' :
  run cfg w live -> sane cfg alignment n ->
  Allocate cfg alignment n (Some stk) w = Ret p w' ->
  (0 < alignment ->
     __asan_posix_memalign cfg alignment n (Some stk) w = Ret (0, p) w' /\
     p mod alignment = 0) /\
  (alignment = 0 ->
     __asan_posix_memalign cfg alignment n (Some stk) w = Abort CheckFailed w').
Proof.
  intros Hrun Hsane Hr.
  destruct (cfg_word cfg Hcfg) as [Hw _].
  unfold __asan_posix_memalign. rewrite (bind_Ret _ _ _ _ _ Hr).
  split.
  - intros Hpos.
    destruct (Allocate_aligned w live alignment n stk p w' Hrun Hsane Hpos Hr)
      as (Hmod & _ & _).
    split; [|exact Hmod].
    pose proof (redzone_pos cfg Hcfg) as HR.
    assert (Ha : 0 < alignment < 2 ^ WORDSIZE) by (unfold sane in Hsane; lia).
    pose proof (IsPowerOfTwo_inv cfg alignment Ha
                  (Allocate_returns_pow2 _ _ _ _ _ _ Hr)) as Hexp.
    assert (Hal : IsAligned cfg p alignment = true).
    { rewrite Hexp. rewrite IsAligned_pow2.
      - rewrite <- Hexp. apply Z.eqb_eq. exact Hmod.
      - split; [apply Z.log2_nonneg|]. apply Z.log2_lt_pow2; lia. }
    unfold bind, CHECK. rewrite Hal. reflexivity.
  - intros ->.
    destruct (run_wf cfg Hcfg w live Hrun) as (G & Hwf & Hrest).
    destruct (wp_elim _ _ _ _ _ _ _
                (Allocate_allocated cfg Hcfg 0 n stk w G live Hwf Hrest Hsane) Hr)
      as ((G' & Hwf' & _) & _).
    assert (Hp : (p, n) ∈ (p, n) :: live) by (apply elem_of_cons; left; reflexivity).
    destruct (live_chunk_size _ _ _ p n (wf_registry _ _ _ _ _ _ _ Hwf')
                (wf_live _ _ _ _ _ _ _ Hwf' p n Hp))
      as (s & _ & _ & H2R & Hin & Hal & Hm0 & Hms).
    pose proof (redzone_pos cfg Hcfg) as HR.
    assert (Hna : IsAligned cfg p 0 = false).
    { unfold IsAligned. apply Z.eqb_neq.
      replace (wrap cfg (0 - 1)) with (Z.ones WORDSIZE).
      - rewrite Z.land_ones by lia. rewrite Z.mod_small by lia. lia.
      - rewrite Z.ones_equiv. unfold wrap.
        apply Z.mod_unique with (q := -1); [|lia].
        assert (0 < 2 ^ WORDSIZE) by (apply Z.pow_pos_nonneg; lia). lia. }
    unfold bind, CHECK. rewrite Hna. reflexivity.
Qed.

(** X9: [__asan_pvalloc] hands out whole pages: the pointer is a
    multiple of the page size and the size recorded for the block is the
    least positive multiple of the page size that holds the request. *)
Theorem pvalloc_whole_pages w live size stk p w' :
  run cfg w live -> 0 <= size ->
  sane cfg (kPageSize cfg) (size + kPageSize cfg) ->
  __asan_pvalloc cfg size (Some stk) w = Ret p w' ->
  let used := used_size (hdr (heap w') (PtrToChunk cfg (heap w') p)) in
  p mod kPageSize cfg = 0 /\
  used mod kPageSize cfg = 0 /\
  Z.max size 1 <= used < Z.max size 1 + kPageSize cfg.
Proof.
  intros Hrun Hs0 Hs Hr. cbv zeta.
  destruct (run_wf cfg Hcfg w live Hrun) as (G & Hwf & Hrest).
  unfold __asan_pvalloc in Hr.
  pose proof (redzone_pos cfg Hcfg) as HR.
  destruct (cfg_page cfg Hcfg) as (k & Hk & Hp & _).
  destruct (cfg_word cfg Hcfg) as [Hw _].
  destruct Hs as (_ & Hp0 & Hov).
  assert (Hpp : 1 < kPageSize cfg).
  { rewrite Hp. change 1 with (2 ^ 0). apply Z.pow_lt_mono_r; lia. }
  destruct (RoundUpTo_small cfg size k) as (r & Hru & Hrb & Hrm);
    [lia|lia|rewrite <- Hp; lia|].
  rewrite <- Hp in *. unfold bind at 1 in Hr. rewrite Hru in Hr. cbn [lift ret] in Hr.
  set (size' := if r =? 0 then kPageSize cfg else r) in *.
  assert (Hsz : Z.max size 1 <= size' < Z.max size 1 + kPageSize cfg /\
                size' mod kPageSize cfg = 0).
  { unfold size'. destruct (Z.eqb_spec r 0) as [He|Hne].
    - split; [lia|apply Z.mod_same; lia].
    - split; [|exact Hrm].
      destruct (Z.eq_dec size 0) as [->|]; [|lia].
      assert (r = 0); [|lia].
      rewrite <- (Z.mod_small r (kPageSize cfg)) by lia. exact Hrm. }
  assert (Hsane : sane cfg (kPageSize cfg) size') by (unfold sane; lia).
  destruct (Allocate_aligned w live _ _ stk p w' Hrun Hsane ltac:(lia) Hr) as (Hal & _).
  destruct (wp_elim _ _ _ _ _ _ _
              (Allocate_allocated cfg Hcfg (kPageSize cfg) size' stk w G live
                 Hwf Hrest Hsane) Hr) as (_ & _ & _ & Hus).
  rewrite Hus.
  replace (size' =? 0) with false by (symmetry; apply Z.eqb_neq; lia).
  split; [exact Hal|]. split; [exact (proj2 Hsz)|exact (proj1 Hsz)].
Qed.

(** X10: the chunks of two live pointers do not overlap, and each
    pointer lies in its own chunk past the left redzone; so two live
    pointers are never equal, and neither lies in the chunk of the other. *)
Theorem live_chunks_disjoint w l1 p n l2 q k l3 :
  run cfg w (l1 ++ (p, n) :: l2 ++ (q, k) :: l3) ->
  let mp := PtrToChunk cfg (heap w) p in
  let mq := PtrToChunk cfg (heap w) q in
  exists sp sq,
    AsanChunk_Size cfg (hdr (heap w) mp) = Some sp /\
    AsanChunk_Size cfg (hdr (heap w) mq) = Some sq /\
    mp + REDZONE <= p < mp + sp /\ mq + REDZONE <= q < mq + sq /\
    (mp + sp <= mq \/ mq + sq <= mp).
Proof.
  intros Hrun. cbv zeta.
  destruct (run_wf cfg Hcfg _ _ Hrun) as (G & Hwf & _).
  pose proof (wf_registry _ _ _ _ _ _ _ Hwf) as Hreg.
  assert (Hp : (p, n) ∈ l1 ++ (p, n) :: l2 ++ (q, k) :: l3).
  { apply elem_of_app. right. apply elem_of_cons. left. reflexivity. }
  assert (Hq : (q, k) ∈ l1 ++ (p, n) :: l2 ++ (q, k) :: l3).
  { apply elem_of_app. right. apply elem_of_cons. right.
    apply elem_of_app. right. apply elem_of_cons. left. reflexivity. }
  destruct (live_chunk_size _ _ _ p n Hreg (wf_live _ _ _ _ _ _ _ Hwf p n Hp))
    as (sp & Hsp & Hbp & _ & Hinp & _).
  destruct (live_chunk_size _ _ _ q k Hreg (wf_live _ _ _ _ _ _ _ Hwf q k Hq))
    as (sq & Hsq & Hbq & _ & Hinq & _).
  exists sp, sq. split; [exact Hsp|]. split; [exact Hsq|].
  split; [exact Hinp|]. split; [exact Hinq|].
  apply (bases_disjoint cfg _ _ _ _ _ _ Hreg Hbp Hbq).
  pose proof (wf_live_nodup _ _ _ _ _ _ _ Hwf) as Hnd.
  rewrite map_app in Hnd. apply NoDup_app in Hnd as (_ & _ & Hnd).
  cbn [map fst] in Hnd. apply NoDup_cons in Hnd as (Hnin & _).
  intros He. apply Hnin. rewrite He.
  rewrite map_app. apply elem_of_app. right. cbn [map fst].
  apply elem_of_cons. left. reflexivity.
Qed.

(** X11: [__asan_realloc] of a live pointer to a nonzero size
    allocates before it frees: the pointer it returns is never the old
    one. *)
Theorem realloc_moves w live1 old n live2 size stk q w' :
  run cfg w (live1 ++ (old, n) :: live2) ->
  size <> 0 -> sane cfg 0 size ->
  __asan_realloc cfg old size (Some stk) w = Ret q w' ->
  q <> old.
Proof.
  intros Hrun Hsz Hsane Hr.
  destruct (run_wf cfg Hcfg _ _ Hrun) as (G & Hwf & Hrest).
  assert (Hold : old <> 0).
  { assert (Hp : (old, n) ∈ live1 ++ (old, n) :: live2).
    { apply elem_of_app. right. apply elem_of_cons. left. reflexivity. }
    destruct (live_chunk_size _ _ _ old n (wf_registry _ _ _ _ _ _ _ Hwf)
                (wf_live _ _ _ _ _ _ _ Hwf old n Hp)) as (s & _ & _ & _ & Hin & _ & Hm0 & _).
    pose proof (redzone_pos cfg Hcfg). lia. }
  refine (wp_elim any_abort True _ (fun q _ => q <> old) w q w' _ Hr).
  unfold __asan_realloc, Reallocate.
  destruct (Z.eqb_spec old 0) as [|_]; [contradiction|].
  - destruct (Z.eqb_spec size 0) as [|_]; [contradiction|].
    apply wp_bind, wp_gets. apply wp_bind, wp_read.
    apply wp_bind, wp_CHECK; [|intros; exact I]. intros _.
    apply wp_bind.
    eapply wp_mono; [apply (Allocate_allocated cfg Hcfg 0 size stk w G _ Hwf Hrest Hsane)
                    |intros; exact I|intros []|].
    intros p w1 ((G1 & Hwf1 & _) & _).
    apply wp_skip. intros u2 w2. apply wp_skip. intros u3 w3. apply wp_ret.
    pose proof (wf_live_nodup _ _ _ _ _ _ _ Hwf1) as Hnd.
    cbn [map fst] in Hnd. apply NoDup_cons in Hnd as (Hnin & _).
    intros ->. apply Hnin.
    rewrite map_app. apply elem_of_app. right. cbn [map fst].
    apply elem_of_cons. left. reflexivity.
Qed.

End Pointers.

(** ** What [Deallocate] does to the states of the chunks *)

Lemma only_releases_refl w : only_releases w w.
Proof. intros y. left. reflexivity. Qed.

Lemma only_releases_trans w1 w2 w3 :
  only_releases w1 w2 -> only_releases w2 w3 -> only_releases w1 w3.
Proof.
  intros H12 H23 y. destruct (H12 y) as [E1|(E1 & E1')], (H23 y) as [E2|(E2 & E2')].
  - left. congruence.
  - right. split; congruence.
  - right. split; congruence.
  - right. split; congruence.
Qed.

Lemma same_states_releases w w' : same_states w w' -> only_releases w w'.
Proof. intros H y. left. apply H. Qed.

Lemma same_states_set_next w x v :
  same_states w (with_heap w (store (heap w) x (set_next v))).
Proof.
  intros y. cbn [heap with_heap]. rewrite hdr_store.
  destruct (decide (x = y)) as [->|]; reflexivity.
Qed.

Lemma same_states_trans w1 w2 w3 :
  same_states w1 w2 -> same_states w2 w3 -> same_states w1 w3.
Proof. intros H12 H23 y. rewrite H23. apply H12. Qed.

Lemma same_states_refl w : same_states w w.
Proof. intros y. reflexivity. Qed.

Lemma same_states_heap w w' : heap w' = heap w -> same_states w w'.
Proof. intros H y. rewrite H. reflexivity. Qed.

Ltac wp_check := apply wp_bind, wp_CHECK; [intros ?|intros; exact I].
Ltac wp_if :=
  match goal with
  | |- wp _ _ (if ?b then _ else _) _ _ => destruct b eqn:?
  end.

Section FreeStates.
Variable cfg : Config.
Local Abbreviation REDZONE := (__asan_flag_redzone cfg).
Local Abbreviation WORDSIZE := (__WORDSIZE cfg).

Lemma Push_states this n w :
  wp any_abort True (AsanChunkFifoList_Push cfg this n)
    (fun _ w' => same_states w w') w.
Proof.
  unfold AsanChunkFifoList_Push.
  apply wp_bind, wp_read. wp_check. apply wp_bind.
  wp_if.
  - wp_check. apply wp_bind, wp_read. wp_check. apply wp_bind, wp_write.
    apply wp_ret. apply wp_bind, wp_read.
    apply wp_bind, wp_lift; [intros s Hs|intros; exact I].
    apply wp_ret. apply same_states_set_next.
  - wp_check. apply wp_ret. apply wp_bind, wp_read.
    apply wp_bind, wp_lift; [intros s Hs|intros; exact I].
    apply wp_ret. apply same_states_refl.
Qed.

Lemma PushList_states this q w :
  wp any_abort True (AsanChunkFifoList_PushList cfg this q)
    (fun r w' => same_states w w' /\ snd r = AsanChunkFifoList_clear /\
                 malloc_info w' = malloc_info w /\ trace w' = trace w) w.
Proof.
  unfold AsanChunkFifoList_PushList. apply wp_bind.
  wp_if.
  - wp_check. apply wp_bind, wp_read. wp_check. apply wp_bind, wp_write.
    apply wp_ret. apply wp_ret.
    split; [apply same_states_set_next|]. repeat split.
  - wp_check. apply wp_ret. apply wp_ret.
    split; [apply same_states_refl|]. repeat split.
Qed.

Lemma Pop_reads this w :
  wp any_abort True (AsanChunkFifoList_Pop cfg this) (fun _ w' => w' = w) w.
Proof.
  unfold AsanChunkFifoList_Pop. wp_check. apply wp_bind, wp_read.
  apply wp_bind, wp_lift; [intros s Hs|intros; exact I]. wp_check.
  apply wp_bind.
  wp_if.
  - apply wp_bind, wp_read. apply wp_CHECK; [intros _|intros; exact I].
    apply wp_ret. reflexivity.
  - apply wp_ret. apply wp_ret. reflexivity.
Qed.

Lemma stats_Log2_reads x w :
  wp any_abort True (stats_Log2 cfg x) (fun _ w' => w' = w) w.
Proof.
  unfold stats_Log2. wp_if.
  - apply wp_bind, wp_lift; [intros l Hl|intros; exact I]. apply wp_ret. reflexivity.
  - apply wp_ret. reflexivity.
Qed.

Lemma MallocInfo_Pop_releases w :
  wp any_abort True (MallocInfo_Pop cfg)
    (fun _ w' => only_releases w w' /\ trace w' = trace w) w.
Proof.
  unfold MallocInfo_Pop. apply wp_bind, wp_gets. wp_check. apply wp_bind.
  eapply wp_conseq; [apply Pop_reads|]. intros [m q'] w1 ->.
  apply wp_bind. unfold set_quarantine. apply wp_bind, wp_gets. apply wp_modify.
  wp_check. apply wp_bind, wp_read. wp_check.
  apply wp_bind, wp_write. wp_check. wp_check. apply wp_bind, wp_gets.
  apply wp_bind, wp_write.
  apply wp_bind. unfold set_free_list. apply wp_bind, wp_gets. apply wp_modify.
  cbn [heap with_heap malloc_info] in *.
  match goal with |- wp _ _ _ _ ?w2 =>
    assert (Hw2 : only_releases w w2 /\ trace w2 = trace w)
  end.
  { split; [|reflexivity].
    intros y. unfold kept_or_released. cbn [heap].
    destruct (decide (m = y)) as [<-|Hne].
    - rewrite !hdr_store_eq. right. split; [|reflexivity].
      apply Z.eqb_eq. assumption.
    - rewrite !hdr_store_ne by assumption. left. reflexivity. }
  wp_if.
  - apply wp_bind, wp_lift; [intros s Hs|intros; exact I].
    eapply wp_conseq; [apply stats_Log2_reads|]. intros u w3 ->. exact Hw2.
  - apply wp_ret. exact Hw2.
Qed.

Lemma Swallow_pop_loop_releases fuel : forall w,
  wp any_abort True (Swallow_pop_loop cfg fuel)
    (fun _ w' => only_releases w w' /\
                 size_ (quarantine_ (malloc_info w')) <= __asan_flag_quarantine_size cfg /\
                 trace w' = trace w) w.
Proof.
  induction fuel as [|fuel IH]; intros w; cbn [Swallow_pop_loop];
    apply wp_bind, wp_gets;
    destruct (size_ (quarantine_ (malloc_info w)) >? __asan_flag_quarantine_size cfg)
      eqn:Hgt.
  - exact I.
  - apply wp_ret. split; [apply only_releases_refl|]. split; [|reflexivity].
    rewrite Z.gtb_ltb in Hgt. apply Z.ltb_ge in Hgt. exact Hgt.
  - apply wp_bind. eapply wp_conseq; [apply MallocInfo_Pop_releases|].
    intros u w1 (H1 & Ht1). eapply wp_conseq; [apply IH|].
    intros u2 w2 (H2 & Hle & Ht2). split; [|split; [exact Hle|congruence]].
    exact (only_releases_trans _ _ _ H1 H2).
  - apply wp_ret. split; [apply only_releases_refl|]. split; [|reflexivity].
    rewrite Z.gtb_ltb in Hgt. apply Z.ltb_ge in Hgt. exact Hgt.
Qed.

Lemma Swallow_drain_list_keeps fuel : forall c m w,
  wp any_abort True (Swallow_drain_list fuel c m)
    (fun _ w' => same_states w w' /\
                 quarantine_ (malloc_info w') = quarantine_ (malloc_info w) /\
                 trace w' = trace w) w.
Proof.
  induction fuel as [|fuel IH]; intros c m w; cbn [Swallow_drain_list];
    destruct (negb (m =? 0));
    try (apply wp_ret; split; [apply same_states_refl|split; reflexivity]).
  - exact I.
  - apply wp_bind, wp_read. apply wp_bind, wp_gets. apply wp_bind, wp_write.
    unfold set_free_list, set_malloc_info. apply wp_bind. apply wp_bind, wp_gets.
    apply wp_modify.
    eapply wp_conseq; [apply IH|].
    intros u w' (H & Hq & Ht). split; [|split].
    + eapply same_states_trans; [|exact H]. apply same_states_set_next.
    + rewrite Hq. reflexivity.
    + rewrite Ht. reflexivity.
Qed.

Lemma Swallow_drain_loop_keeps fuel n : forall c x w,
  wp any_abort True (Swallow_drain_loop fuel n c x)
    (fun x' w' =>
       same_states w w' /\
       quarantine_ (malloc_info w') = quarantine_ (malloc_info w) /\
       tl_quarantine_ x' = tl_quarantine_ x /\
       trace w' = trace w /\
       forall k, tl_free_lists_ x' k =
                 if (c <=? k) && (k <? c + Z.of_nat n) then 0
                 else tl_free_lists_ x k) w.
Proof.
  induction n as [|n IH]; intros c x w; cbn [Swallow_drain_loop].
  - apply wp_ret. split; [apply same_states_refl|]. split; [reflexivity|].
    split; [reflexivity|]. split; [reflexivity|]. intros k.
    destruct (Z.leb_spec c k), (Z.ltb_spec k (c + Z.of_nat 0)); try reflexivity; lia.
  - apply wp_bind. eapply wp_conseq; [apply Swallow_drain_list_keeps|].
    intros u1 w1 (H1 & Hq1 & Ht1). eapply wp_conseq; [apply IH|].
    intros x' w2 (H2 & Hq2 & Hx & Ht2 & Hfl).
    split; [exact (same_states_trans _ _ _ H1 H2)|].
    split; [congruence|]. split; [exact Hx|]. split; [congruence|].
    intros k. rewrite Hfl. cbn [tl_free_lists_]. unfold upd.
    destruct (Z.leb_spec (c + 1) k), (Z.ltb_spec k (c + 1 + Z.of_nat n)),
      (Z.leb_spec c k), (Z.ltb_spec k (c + Z.of_nat (S n))), (Z.eqb_spec k c);
      cbn [andb]; try reflexivity; lia.
Qed.

(** What swallowing a thread's storage leaves, in the storage and in the
    global quarantine. *)
Lemma Swallow_post fuel x eat w :
  wp any_abort True (SwallowThreadLocalMallocStorage cfg fuel x eat)
    (fun x' w' =>
       only_releases w w' /\
       (0 < size_ (tl_quarantine_ x) ->
          tl_quarantine_ x' = AsanChunkFifoList_clear /\
          size_ (quarantine_ (malloc_info w')) <= __asan_flag_quarantine_size cfg) /\
       (size_ (tl_quarantine_ x) <= 0 ->
          tl_quarantine_ x' = tl_quarantine_ x /\
          quarantine_ (malloc_info w') = quarantine_ (malloc_info w)) /\
       (forall k, tl_free_lists_ x' k =
                  if eat && (0 <=? k) && (k <? kNumberOfSizeClasses cfg) then 0
                  else tl_free_lists_ x k) /\
       trace w' = trace w) w.
Proof.
  unfold SwallowThreadLocalMallocStorage. wp_check. apply wp_bind.
  assert (Hdrain : forall x1 w1,
            only_releases w w1 -> trace w1 = trace w ->
            tl_free_lists_ x1 = tl_free_lists_ x ->
            forall (P : AsanThreadLocalMallocStorage -> World -> Prop),
            (forall x' w', tl_quarantine_ x' = tl_quarantine_ x1 ->
                           quarantine_ (malloc_info w') = quarantine_ (malloc_info w1) ->
                           only_releases w w' -> trace w' = trace w ->
                           (forall k, tl_free_lists_ x' k =
                              if eat && (0 <=? k) && (k <? kNumberOfSizeClasses cfg)
                              then 0 else tl_free_lists_ x k) ->
                           P x' w') ->
            wp any_abort True
              (if eat
               then Swallow_drain_loop fuel (Z.to_nat (kNumberOfSizeClasses cfg)) 0 x1
               else ret x1) P w1).
  { intros x1 w1 Hrel Htr Hfl P HP. destruct eat.
    - eapply wp_conseq; [apply Swallow_drain_loop_keeps|].
      intros x' w' (H1 & H2 & H3 & Ht & H4). apply HP; try assumption.
      + eapply only_releases_trans; [exact Hrel|]. apply same_states_releases, H1.
      + congruence.
      + intros k. rewrite H4, Hfl. cbn [andb].
        destruct (Z.leb_spec 0 k), (Z.ltb_spec k (0 + Z.of_nat (Z.to_nat (kNumberOfSizeClasses cfg)))),
          (Z.ltb_spec k (kNumberOfSizeClasses cfg)); cbn [andb]; try reflexivity; lia.
    - apply wp_ret. apply HP; try reflexivity; try assumption.
      intros k. rewrite Hfl. reflexivity. }
  destruct (size_ (tl_quarantine_ x) >? 0) eqn:Hsz.
  - apply Z.gtb_lt in Hsz.
    apply wp_bind, wp_gets. apply wp_bind.
    eapply wp_conseq; [apply PushList_states|].
    intros [gq q] w1 (H1 & Hq & Hmi & Ht1). cbn [snd] in Hq. subst q.
    apply wp_bind. unfold set_quarantine. apply wp_bind, wp_gets. apply wp_modify.
    apply wp_bind.
    eapply wp_conseq; [apply Swallow_pop_loop_releases|].
    intros u w2 (H2 & Hle & Ht2). apply wp_ret.
    apply Hdrain.
    + eapply only_releases_trans; [apply same_states_releases, H1|].
      intros y. specialize (H2 y). exact H2.
    + rewrite Ht2. cbn [trace]. exact Ht1.
    + reflexivity.
    + intros x' w' Hx Hq Hrel Htr Hfl. split; [exact Hrel|].
      split; [intros _; split; [exact Hx|rewrite Hq; exact Hle]|].
      split; [intros; lia|]. split; [exact Hfl|exact Htr].
  - rewrite Z.gtb_ltb in Hsz. apply Z.ltb_ge in Hsz.
    apply wp_ret. apply Hdrain.
    + apply only_releases_refl.
    + reflexivity.
    + reflexivity.
    + intros x' w' Hx Hq Hrel Htr Hfl. split; [exact Hrel|].
      split; [intros; lia|]. split; [intros _; split; assumption|].
      split; [exact Hfl|exact Htr].
Qed.

(** X12: when [SwallowThreadLocalMallocStorage] returns, a thread
    quarantine that held something is empty and the global quarantine is
    within the budget; a thread quarantine that held nothing leaves the
    global one as it was; and if the free lists were to be eaten, every
    thread-local free list is null.  No chunk changes its state but from
    Quarantined to Available. *)
Theorem Swallow_empties_storage fuel x eat w x' w' :
  SwallowThreadLocalMallocStorage cfg fuel x eat w = Ret x' w' ->
  (0 < size_ (tl_quarantine_ x) ->
     tl_quarantine_ x' = AsanChunkFifoList_clear /\
     size_ (quarantine_ (malloc_info w')) <= __asan_flag_quarantine_size cfg) /\
  (size_ (tl_quarantine_ x) <= 0 ->
     tl_quarantine_ x' = tl_quarantine_ x /\
     quarantine_ (malloc_info w') = quarantine_ (malloc_info w)) /\
  (eat = true -> forall k, 0 <= k < kNumberOfSizeClasses cfg ->
     tl_free_lists_ x' k = 0) /\
  (eat = false -> forall k, tl_free_lists_ x' k = tl_free_lists_ x k) /\
  only_releases w w'.
Proof.
  intros Hr.
  destruct (wp_elim _ _ _ _ _ _ _ (Swallow_post fuel x eat w) Hr)
    as (Hrel & Hfull & Hempty & Hfl & _).
  split; [exact Hfull|]. split; [exact Hempty|].
  split; [|split; [|exact Hrel]].
  - intros -> k Hk. rewrite Hfl. cbn [andb].
    destruct (Z.leb_spec 0 k), (Z.ltb_spec k (kNumberOfSizeClasses cfg));
      cbn [andb]; [reflexivity|lia|lia|lia].
  - intros -> k. rewrite Hfl. reflexivity.
Qed.

End FreeStates.

Section FreePost.
Variable cfg : Config.
Local Abbreviation REDZONE := (__asan_flag_redzone cfg).
Local Abbreviation WORDSIZE := (__WORDSIZE cfg).

Lemma Push_keeps this n w :
  wp any_abort True (AsanChunkFifoList_Push cfg this n)
    (fun _ w' => same_states w w' /\ malloc_info w' = malloc_info w /\
                 tl_current_thread w' = tl_current_thread w /\
                 trace w' = trace w) w.
Proof.
  unfold AsanChunkFifoList_Push.
  apply wp_bind, wp_read. wp_check. apply wp_bind.
  wp_if.
  - wp_check. apply wp_bind, wp_read. wp_check. apply wp_bind, wp_write.
    apply wp_ret. apply wp_bind, wp_read.
    apply wp_bind, wp_lift; [intros s Hs|intros; exact I].
    apply wp_ret. split; [apply same_states_set_next|]. repeat split.
  - wp_check. apply wp_ret. apply wp_bind, wp_read.
    apply wp_bind, wp_lift; [intros s Hs|intros; exact I].
    apply wp_ret. split; [apply same_states_refl|]. repeat split.
Qed.

Lemma stats_block_reads c w :
  wp any_abort True
    (if negb (__asan_flag_stats cfg =? 0)
     then bind (lift (AsanChunk_Size cfg c)) (fun s => stats_Log2 cfg s)
     else ret tt)
    (fun _ w' => w' = w) w.
Proof.
  wp_if.
  - apply wp_bind, wp_lift; [intros s Hs|intros; exact I]. apply stats_Log2_reads.
  - apply wp_ret. reflexivity.
Qed.

Lemma show_stats_aborts {A : Type} (Q : A -> World -> Prop) w :
  wp any_abort True (@__asan_show_stats_and_abort A) Q w.
Proof.
  unfold __asan_show_stats_and_abort. apply wp_bind, wp_emit. apply wp_abort. exact I.
Qed.

(** What a call of [Deallocate] that returns has done. *)
Lemma Deallocate_post ptr stack w :
  ptr <> 0 ->
  wp any_abort True (Deallocate cfg ptr stack)
    (fun _ w' =>
       let m := PtrToChunk cfg (heap w) ptr in
       chunk_state (hdr (heap w) m) = CHUNK_ALLOCATED /\
       (chunk_state (hdr (heap w') m) = CHUNK_QUARANTINE \/
        chunk_state (hdr (heap w') m) = CHUNK_AVAILABLE) /\
       (forall y, y <> m -> kept_or_released w w' y) /\
       (forall th, tl_current_thread w = Some th ->
          exists th', tl_current_thread w' = Some th' /\ tid_ th' = tid_ th /\
            size_ (tl_quarantine_ (malloc_storage_ th')) <= kMaxThreadLocalQuarantine) /\
       (tl_current_thread w = None ->
          tl_current_thread w' = None /\
          chunk_state (hdr (heap w') m) = CHUNK_QUARANTINE /\
          (forall y, y <> m ->
             chunk_state (hdr (heap w') y) = chunk_state (hdr (heap w) y)) /\
          free_lists_ (malloc_info w') = free_lists_ (malloc_info w)) /\
       exists evs, trace w' = trace w ++ evs) w.
Proof.
  intros Hptr. unfold Deallocate.
  destruct (Z.eqb_spec ptr 0) as [|_]; [contradiction|].
  wp_check.
  apply wp_bind. apply (wp_conseq _ _ _ (fun _ w1 => w1 = w)).
  { wp_if.
    - unfold FindPageGroup. apply wp_bind. apply wp_bind, wp_gets. apply wp_ret.
      apply wp_CHECK; [intros _; reflexivity|intros; exact I].
    - apply wp_ret. reflexivity. }
  intros ua wa ->.
  apply wp_bind, wp_gets. apply wp_bind, wp_read.
  set (m := PtrToChunk cfg (heap w) ptr).
  apply wp_bind. apply (wp_conseq _ _ _ (fun _ w1 => w1 = w)).
  { wp_if.
    - apply wp_skip. intros u1 w1. apply wp_skip. intros u2 w2.
      apply wp_skip. intros u3 w3. apply show_stats_aborts.
    - wp_if.
      + apply wp_skip. intros u1 w1. apply wp_skip. intros u2 w2.
        apply show_stats_aborts.
      + apply wp_ret. reflexivity. }
  intros ub wb ->.
  apply wp_bind, wp_CHECK; [intros Hst|intros; exact I]. apply Z.eqb_eq in Hst.
  wp_check. wp_check.
  apply wp_bind, wp_gets.
  apply wp_bind, wp_write.
  apply wp_bind, wp_lift; [intros fs Hfs|intros; exact I].
  apply wp_bind, wp_emit.
  apply wp_bind, wp_lift; [intros rounded Hrd|intros; exact I].
  apply wp_bind. apply PoisonShadow_any. intros evs.
  apply wp_bind. eapply wp_conseq; [apply stats_block_reads|]. intros u2 w2 ->.
  apply wp_bind, wp_write.
  match goal with |- wp _ _ _ _ ?w0 => set (wq := w0) end.
  assert (Hq : chunk_state (hdr (heap wq) m) = CHUNK_QUARANTINE).
  { unfold wq. cbn [heap with_heap with_trace]. rewrite hdr_store_eq. reflexivity. }
  assert (Hoth : forall y, y <> m ->
            chunk_state (hdr (heap wq) y) = chunk_state (hdr (heap w) y)).
  { intros y Hy. unfold wq. cbn [heap with_heap with_trace].
    rewrite !hdr_store_ne by (intros E; apply Hy; symmetry; exact E). reflexivity. }
  assert (Hmi : malloc_info wq = malloc_info w) by reflexivity.
  assert (Hth : tl_current_thread wq = tl_current_thread w) by reflexivity.
  assert (Htr : exists evs, trace wq = trace w ++ evs).
  { unfold wq. cbn [trace with_heap with_trace]. rewrite <- app_assoc.
    eexists. reflexivity. }
  clearbody wq. destruct Htr as (evq & Htr).
  destruct (tl_current_thread w) as [th|] eqn:Htw.
  - apply wp_bind, wp_read. wp_check. apply wp_bind.
    eapply wp_conseq; [apply Push_keeps|]. intros q w3 (H3 & Hmi3 & Hth3 & Ht3).
    apply wp_bind. unfold set_malloc_storage, set_current_thread. apply wp_modify.
    wp_if.
    + apply wp_bind. eapply wp_conseq; [apply Swallow_post|].
      intros ms'' w4 (Hrel & Hfull & _ & _ & Ht4). apply wp_modify.
      cbn [heap tl_current_thread trace]. cbn [trace] in Ht4.
      cbn [tl_quarantine_] in Hfull.
      assert (Hpos : 0 < size_ q).
      { apply Z.gtb_lt in Heqb. unfold kMaxThreadLocalQuarantine in Heqb. lia. }
      destruct (Hfull Hpos) as (Hclear & _).
      split; [exact Hst|]. split; [|split; [|split; [|split]]].
      * destruct (Hrel m) as [E|(_ & E)]; cbn [heap] in E.
        -- left. rewrite E, (H3 m). exact Hq.
        -- right. exact E.
      * intros y Hy. unfold kept_or_released. cbn [heap].
        destruct (Hrel y) as [E|(E1 & E2)]; cbn [heap] in *.
        -- left. rewrite E, (H3 y). apply Hoth, Hy.
        -- right. split; [|exact E2]. rewrite <- E1, (H3 y). symmetry. apply Hoth, Hy.
      * intros th0 Hth0. injection Hth0 as <-.
        eexists. split; [reflexivity|]. split; [reflexivity|].
        cbn [malloc_storage_]. rewrite Hclear. cbn [size_ AsanChunkFifoList_clear].
        unfold kMaxThreadLocalQuarantine. lia.
      * intros Hnone. discriminate.
      * exists evq. rewrite Ht4, Ht3. exact Htr.
    + apply wp_ret. cbn [heap tl_current_thread trace].
      split; [exact Hst|]. split; [|split; [|split; [|split]]].
      * left. rewrite (H3 m). exact Hq.
      * intros y Hy. unfold kept_or_released. cbn [heap].
        left. rewrite (H3 y). apply Hoth, Hy.
      * intros th0 Hth0. injection Hth0 as <-.
        eexists. split; [reflexivity|]. split; [reflexivity|].
        cbn [malloc_storage_ tl_quarantine_].
        rewrite Z.gtb_ltb in Heqb. apply Z.ltb_ge in Heqb. exact Heqb.
      * intros Hnone. discriminate.
      * exists evq. rewrite Ht3. exact Htr.
  - apply wp_bind, wp_read. wp_check. unfold BypassThreadLocalQuarantine.
    apply wp_bind, wp_gets. apply wp_bind.
    eapply wp_conseq; [apply Push_keeps|]. intros q w3 (H3 & Hmi3 & Hth3 & Ht3).
    unfold set_quarantine. apply wp_bind, wp_gets. apply wp_modify.
    cbn [heap tl_current_thread malloc_info free_lists_ trace].
    split; [exact Hst|]. split; [|split; [|split; [|split]]].
    + left. rewrite (H3 m). exact Hq.
    + intros y Hy. unfold kept_or_released. cbn [heap].
      left. rewrite (H3 y). apply Hoth, Hy.
    + intros th0 Hth0. discriminate.
    + intros _. split; [congruence|]. split; [rewrite (H3 m); exact Hq|].
      split; [intros y Hy; rewrite (H3 y); apply Hoth, Hy|].
      rewrite Hmi3, Hmi. reflexivity.
    + exists evq. rewrite Ht3. exact Htr.
Qed.

(** X13: a call of [Deallocate] on a non-null pointer that returns
    found the chunk of the pointer Allocated and leaves it Quarantined, or
    Available if the quarantine released it at once; any other chunk keeps
    its state or goes from Quarantined to Available.  So no chunk becomes
    Allocated, and no chunk but the one freed becomes Quarantined. *)
Theorem Deallocate_state_changes ptr stack w w' :
  ptr <> 0 ->
  Deallocate cfg ptr stack w = Ret tt w' ->
  let m := PtrToChunk cfg (heap w) ptr in
  chunk_state (hdr (heap w) m) = CHUNK_ALLOCATED /\
  (chunk_state (hdr (heap w') m) = CHUNK_QUARANTINE \/
   chunk_state (hdr (heap w') m) = CHUNK_AVAILABLE) /\
  forall y, y <> m -> kept_or_released w w' y.
Proof.
  intros Hptr Hr.
  destruct (wp_elim _ _ _ _ _ _ _ (Deallocate_post ptr stack w Hptr) Hr)
    as (H1 & H2 & H3 & _).
  cbv zeta. split; [exact H1|]. split; [exact H2|exact H3].
Qed.

(** X14: without a current thread record the chunk goes to the
    global quarantine and nothing is released: the chunk is Quarantined,
    every other chunk keeps its state, and the global free lists are as
    they were. *)
Theorem Deallocate_without_thread ptr stack w w' :
  ptr <> 0 -> tl_current_thread w = None ->
  Deallocate cfg ptr stack w = Ret tt w' ->
  let m := PtrToChunk cfg (heap w) ptr in
  chunk_state (hdr (heap w') m) = CHUNK_QUARANTINE /\
  (forall y, y <> m ->
     chunk_state (hdr (heap w') y) = chunk_state (hdr (heap w) y)) /\
  free_lists_ (malloc_info w') = free_lists_ (malloc_info w) /\
  tl_current_thread w' = None.
Proof.
  intros Hptr Hnone Hr.
  destruct (wp_elim _ _ _ _ _ _ _ (Deallocate_post ptr stack w Hptr) Hr)
    as (_ & _ & _ & _ & H & _).
  destruct (H Hnone) as (H1 & H2 & H3 & H4).
  cbv zeta. split; [exact H2|]. split; [exact H3|]. split; [exact H4|exact H1].
Qed.

(** X15: with a current thread, when [Deallocate] returns the
    thread-local quarantine holds at most [kMaxThreadLocalQuarantine]
    bytes: a quarantine that grew beyond was handed to the global one. *)
Theorem thread_quarantine_bounded ptr stack w w' th :
  ptr <> 0 -> tl_current_thread w = Some th ->
  Deallocate cfg ptr stack w = Ret tt w' ->
  exists th', tl_current_thread w' = Some th' /\ tid_ th' = tid_ th /\
    size_ (tl_quarantine_ (malloc_storage_ th')) <= kMaxThreadLocalQuarantine.
Proof.
  intros Hptr Hth Hr.
  destruct (wp_elim _ _ _ _ _ _ _ (Deallocate_post ptr stack w Hptr) Hr)
    as (_ & _ & _ & H & _).
  exact (H th Hth).
Qed.

(** After a free that returned, the pointer still resolves to the same
    chunk when no forwarder was involved. *)
Lemma freed_pointer_chunk ptr stack w w' :
  ptr <> 0 ->
  chunk_state (hdr (heap w) (wrap cfg (ptr - REDZONE))) <> CHUNK_MEMALIGN ->
  Deallocate cfg ptr stack w = Ret tt w' ->
  let m := wrap cfg (ptr - REDZONE) in
  PtrToChunk cfg (heap w') ptr = m /\
  (chunk_state (hdr (heap w') m) = CHUNK_QUARANTINE \/
   chunk_state (hdr (heap w') m) = CHUNK_AVAILABLE).
Proof.
  intros Hptr Hnf Hr. cbv zeta.
  destruct (wp_elim _ _ _ _ _ _ _ (Deallocate_post ptr stack w Hptr) Hr)
    as (_ & H2 & _).
  assert (Hm : PtrToChunk cfg (heap w) ptr = wrap cfg (ptr - REDZONE)).
  { unfold PtrToChunk.
    destruct (Z.eqb_spec (chunk_state (hdr (heap w) (wrap cfg (ptr - REDZONE))))
                CHUNK_MEMALIGN); [contradiction|reflexivity]. }
  rewrite Hm in H2. split; [|exact H2].
  unfold PtrToChunk.
  destruct (Z.eqb_spec (chunk_state (hdr (heap w') (wrap cfg (ptr - REDZONE))))
              CHUNK_MEMALIGN) as [E|]; [|reflexivity].
  exfalso. destruct H2 as [H2|H2]; rewrite H2 in E; discriminate E.
Qed.

(** X16: once a pointer handed out without a forwarder has
    been freed, [AllocationSize] of it is 0. *)
Theorem AllocationSize_after_free ptr stack w w' :
  ptr <> 0 ->
  chunk_state (hdr (heap w) (wrap cfg (ptr - REDZONE))) <> CHUNK_MEMALIGN ->
  Deallocate cfg ptr stack w = Ret tt w' ->
  AllocationSize cfg ptr w' = Ret 0 w'.
Proof.
  intros Hptr Hnf Hr.
  destruct (freed_pointer_chunk ptr stack w w' Hptr Hnf Hr) as (Hm & Hst).
  unfold AllocationSize, bind, get.
  destruct (FindPageGroupUnlocked (malloc_info w') ptr); [|reflexivity].
  rewrite Hm.
  destruct (Z.eqb_spec (chunk_state (hdr (heap w') (wrap cfg (ptr - REDZONE))))
              CHUNK_ALLOCATED) as [E|]; [|reflexivity].
  exfalso. destruct Hst as [H|H]; rewrite H in E; discriminate E.
Qed.

(** How [Deallocate] refuses a chunk that is not Allocated. *)
Lemma Deallocate_diagnoses ptr stk w :
  ptr <> 0 ->
  (__asan_flag_debug cfg = 0 \/ FindPageGroupUnlocked (malloc_info w) ptr <> None) ->
  let m := PtrToChunk cfg (heap w) ptr in
  (chunk_state (hdr (heap w) m) = CHUNK_QUARANTINE ->
   exists c evs,
     Deallocate cfg ptr (Some stk) w =
       Abort c (with_trace w
                  (EvPrintf "attempting double-free on %p:" [ptr]
                   :: EvPrintStack stk
                   :: EvPrintf "%p is located " [ptr] :: evs))) /\
  (chunk_state (hdr (heap w) m) <> CHUNK_QUARANTINE ->
   chunk_state (hdr (heap w) m) <> CHUNK_ALLOCATED ->
   Deallocate cfg ptr (Some stk) w =
     Abort ShowStatsAndAbort
       (with_trace w
          [EvPrintf "attempting free on address which was not malloc()-ed: %p" [ptr];
           EvPrintStack stk; EvShowStats])).
Proof.
  intros Hptr Hdbg m.
  unfold Deallocate.
  destruct (ptr =? 0) eqn:He; [apply Z.eqb_eq in He; contradiction|].
  assert (Hd : ((if negb (__asan_flag_debug cfg =? 0)
                 then g <- FindPageGroup ptr;;
                      CHECK (match g with Some _ => true | None => false end)
                 else ret tt) : M unit) w = Ret tt w).
  { destruct Hdbg as [H0|Hg].
    - rewrite H0. reflexivity.
    - destruct (negb _); [|reflexivity].
      unfold bind, FindPageGroup, gets, ret. simpl.
      destruct (FindPageGroupUnlocked _ _); [reflexivity|contradiction]. }
  erewrite bind_Ret by reflexivity.
  rewrite (bind_Ret _ _ _ _ _ Hd).
  erewrite bind_Ret by reflexivity. fold m.
  erewrite bind_Ret by reflexivity.
  split.
  - intros Hq. rewrite Hq. rewrite Z.eqb_refl.
    destruct (DescribeAddress_outcome cfg m ptr 1
                (with_trace w [EvPrintf "attempting double-free on %p:" [ptr];
                               EvPrintStack stk]))
      as [evs [Hr|[Hn Hr]]].
    + exists ShowStatsAndAbort. eexists.
      erewrite bind_Abort; [reflexivity|].
      rewrite (bind_Ret _ _ _ _ _ (emit_eq _ _)).
      rewrite (bind_Ret _ _ _ _ _ (emit_eq _ _)).
      rewrite with_trace_app.
      rewrite (bind_Ret _ _ _ _ _ Hr).
      unfold __asan_show_stats_and_abort.
      rewrite (bind_Ret _ _ _ _ _ (emit_eq _ _)).
      unfold abort. rewrite !with_trace_app. simpl. reflexivity.
    + exists CheckFailed, evs.
      erewrite bind_Abort; [reflexivity|].
      rewrite (bind_Ret _ _ _ _ _ (emit_eq _ _)).
      rewrite (bind_Ret _ _ _ _ _ (emit_eq _ _)).
      rewrite with_trace_app.
      rewrite (bind_Abort _ _ _ _ _ Hr).
      rewrite !with_trace_app. reflexivity.
  - intros Hnq Hna.
    destruct (chunk_state (hdr (heap w) m) =? CHUNK_QUARANTINE) eqn:E1;
      [apply Z.eqb_eq in E1; contradiction|].
    destruct (chunk_state (hdr (heap w) m) =? CHUNK_ALLOCATED) eqn:E2;
      [apply Z.eqb_eq in E2; contradiction|].
    cbn [negb].
    erewrite bind_Abort; [reflexivity|].
    rewrite (bind_Ret _ _ _ _ _ (emit_eq _ _)).
    rewrite (bind_Ret _ _ _ _ _ (emit_eq _ _)).
    unfold __asan_show_stats_and_abort.
    rewrite (bind_Ret _ _ _ _ _ (emit_eq _ _)).
    unfold abort. rewrite !with_trace_app. reflexivity.
Qed.

(** X17: for a pointer handed out without a memalign forwarder,
    a second free made in the state that the first free left aborts, when
    the debug flag is off or the pointer lies in a page group: with the
    double-free report if the chunk is still in quarantine, and with the
    report of a free of a pointer that was not malloc()-ed if the
    quarantine released the chunk at once. *)
Theorem double_free_aborts ptr stack stk2 w w' :
  ptr <> 0 ->
  chunk_state (hdr (heap w) (wrap cfg (ptr - REDZONE))) <> CHUNK_MEMALIGN ->
  Deallocate cfg ptr stack w = Ret tt w' ->
  (__asan_flag_debug cfg = 0 \/ FindPageGroupUnlocked (malloc_info w') ptr <> None) ->
  let m := wrap cfg (ptr - REDZONE) in
  exists c evs,
    Deallocate cfg ptr (Some stk2) w' = Abort c (with_trace w' evs) /\
    ((chunk_state (hdr (heap w') m) = CHUNK_QUARANTINE /\
      exists rest, evs = EvPrintf "attempting double-free on %p:" [ptr]
                         :: EvPrintStack stk2 :: rest) \/
     (chunk_state (hdr (heap w') m) = CHUNK_AVAILABLE /\
      c = ShowStatsAndAbort /\
      evs = [EvPrintf "attempting free on address which was not malloc()-ed: %p" [ptr];
             EvPrintStack stk2; EvShowStats])).
Proof.
  intros Hptr Hnf Hr Hdbg. cbv zeta.
  destruct (freed_pointer_chunk ptr stack w w' Hptr Hnf Hr) as (Hm & Hst).
  destruct (Deallocate_diagnoses ptr stk2 w' Hptr Hdbg) as (Hq & Ha).
  rewrite Hm in Hq, Ha.
  destruct Hst as [Hst|Hst].
  - destruct (Hq Hst) as (c & evs & E).
    exists c. eexists. split; [exact E|]. left. split; [exact Hst|].
    eexists. reflexivity.
  - exists ShowStatsAndAbort. eexists. split.
    + apply Ha; rewrite Hst; intros E; discriminate E.
    + right. split; [exact Hst|]. split; reflexivity.
Qed.

End FreePost.

(** ** The quarantine list is first-in first-out *)

(** A computation that neither aborts nor runs out of fuel returns. *)
Lemma wp_returns {A : Type} (m : M A) (Q : A -> World -> Prop) w :
  wp any_abort False m Q w ->
  wp (fun _ _ => False) True m (fun _ _ => True) w ->
  exists a w', m w = Ret a w' /\ Q a w'.
Proof.
  unfold wp. destruct (m w) as [a w'|c w'|]; intros H1 H2.
  - exists a, w'. split; [reflexivity|exact H1].
  - contradiction.
  - contradiction.
Qed.

Lemma lseg_last_next h a cells :
  lseg h a cells -> cells <> [] -> next (hdr h (List.last cells 0)) = 0.
Proof.
  revert a. induction cells as [|x r IH]; intros a H Hne; [contradiction|].
  simpl in H. destruct H as (-> & Hx & H).
  destruct r as [|y r'].
  - simpl in *. exact H.
  - change (List.last (x :: y :: r') 0) with (List.last (y :: r') 0).
    eapply IH; [exact H|discriminate].
Qed.

Section ChunkFifo.
Variable cfg : Config.
Local Abbreviation REDZONE := (__asan_flag_redzone cfg).
Local Abbreviation WORDSIZE := (__WORDSIZE cfg).

Hypothesis Hcfg : cfg_ok cfg.

Lemma Push_passes this n cells s w :
  fifo_ok cfg (heap w) this cells -> n <> 0 -> n ∉ cells ->
  next (hdr (heap w) n) = 0 ->
  AsanChunk_Size cfg (hdr (heap w) n) = Some s ->
  wp (fun _ _ => False) True (AsanChunkFifoList_Push cfg this n) (fun _ _ => True) w.
Proof.
  intros (Hseg & Hlast & Hsize) Hn0 Hn Hnx Hs. unfold AsanChunkFifoList_Push.
  apply wp_bind, wp_read. apply wp_bind, wp_CHECK; [intros _|intros Hf].
  2:{ rewrite Hnx in Hf. discriminate Hf. }
  destruct (Z.eqb_spec (last_ this) 0) as [E0|E0]; cbn [negb].
  - assert (Hc : cells = []).
    { destruct cells as [|x r]; [reflexivity|exfalso].
      destruct (fifo_ok_last cfg (heap w) this (x :: r)) as (_ & Hne);
        [exact (conj Hseg (conj Hlast Hsize))|discriminate|]. contradiction. }
    subst cells. simpl in Hseg.
    apply wp_bind. apply wp_bind, wp_CHECK; [intros _|intros Hf].
    2:{ rewrite Hseg in Hf. discriminate Hf. }
    apply wp_ret. apply wp_bind, wp_read.
    apply wp_bind, wp_lift; [intros s' _|intros Hf].
    2:{ rewrite Hs in Hf. discriminate Hf. }
    apply wp_ret. exact I.
  - assert (Hc : cells <> []).
    { intros ->. simpl in Hlast. contradiction. }
    destruct (fifo_ok_last cfg (heap w) this cells) as (Hin & Hne);
      [exact (conj Hseg (conj Hlast Hsize))|exact Hc|].
    apply wp_bind. apply wp_bind, wp_CHECK; [intros _|intros Hf].
    2:{ destruct cells as [|x r]; [contradiction|]. simpl in Hseg.
        destruct Hseg as (Hfx & Hx0 & _). apply negb_false_iff, Z.eqb_eq in Hf. lia. }
    apply wp_bind, wp_read. apply wp_bind, wp_CHECK; [intros _|intros Hf].
    2:{ rewrite Hlast, (lseg_last_next _ _ _ Hseg Hc) in Hf. discriminate Hf. }
    apply wp_bind, wp_write. apply wp_ret.
    apply wp_bind, wp_read. apply wp_bind, wp_lift; [intros s' _|intros Hf].
    2:{ cbn [heap with_heap] in Hf. rewrite hdr_store_ne in Hf.
        - rewrite Hs in Hf. discriminate Hf.
        - intros E. apply Hn. rewrite <- E. exact Hin. }
    apply wp_ret. exact I.
Qed.

Lemma Pop_passes this x rest s w :
  fifo_ok cfg (heap w) this (x :: rest) ->
  AsanChunk_Size cfg (hdr (heap w) x) = Some s -> s <= size_ this ->
  wp (fun _ _ => False) True (AsanChunkFifoList_Pop cfg this) (fun _ _ => True) w.
Proof.
  intros (Hseg & Hlast & Hsize) Hs Hle. unfold AsanChunkFifoList_Pop.
  simpl in Hseg. destruct Hseg as (Hfx & Hx0 & Hrest).
  apply wp_bind, wp_CHECK; [intros _|intros Hf].
  2:{ apply negb_false_iff, Z.eqb_eq in Hf. lia. }
  apply wp_bind, wp_read. rewrite Hfx.
  apply wp_bind, wp_lift; [intros s' Hs'|intros Hf].
  2:{ rewrite Hs in Hf. discriminate Hf. }
  rewrite Hs in Hs'. injection Hs' as <-.
  apply wp_bind, wp_CHECK; [intros _|intros Hf].
  2:{ rewrite Z.geb_leb in Hf. apply Z.leb_gt in Hf. lia. }
  apply wp_bind.
  destruct (Z.eqb_spec (next (hdr (heap w) x)) 0) as [E|E].
  - cbn [Z.eqb negb]. apply wp_ret. apply wp_ret. exact I.
  - assert (Hr : rest <> []).
    { intros ->. simpl in Hrest. contradiction. }
    assert (Hl : last_ this = List.last rest 0).
    { rewrite Hlast. destruct rest; [contradiction|reflexivity]. }
    pose proof (last_elem_of rest 0 Hr) as Hin.
    pose proof (lseg_cells_nonnull _ _ _ _ Hrest Hin) as Hl0.
    destruct (Z.eqb_spec (last_ this) 0) as [E'|E']; [rewrite Hl in E'; contradiction|].
    cbn [negb]. apply wp_bind, wp_read.
    apply wp_CHECK; [intros _|intros Hf].
    + apply wp_ret. exact I.
    + rewrite Hl, (lseg_last_next _ _ _ Hrest Hr) in Hf. discriminate Hf.
Qed.

(** X18: on a well-formed list, [Push] of a chunk that is not on
    it appends the chunk at the tail and adds its size; [Pop] hands back
    the chunk at the head, the oldest one, and takes its size off; [Pop]
    of an empty list fails its CHECK. *)
Theorem AsanChunkFifoList_first_in_first_out this cells w :
  fifo_ok cfg (heap w) this cells -> NoDup cells ->
  (forall n s, n <> 0 -> n ∉ cells -> next (hdr (heap w) n) = 0 ->
     AsanChunk_Size cfg (hdr (heap w) n) = Some s ->
     exists q' w',
       AsanChunkFifoList_Push cfg this n w = Ret q' w' /\
       fifo_ok cfg (heap w') q' (cells ++ [n]) /\
       size_ q' = wrap cfg (size_ this + s)) /\
  (forall x rest s, cells = x :: rest ->
     AsanChunk_Size cfg (hdr (heap w) x) = Some s -> s <= size_ this ->
     exists q',
       AsanChunkFifoList_Pop cfg this w = Ret (x, q') w /\
       fifo_ok cfg (heap w) q' rest /\ size_ q' = size_ this - s) /\
  (cells = [] -> AsanChunkFifoList_Pop cfg this w = Abort CheckFailed w).
Proof.
  intros Hf Hnd. split; [|split].
  - intros n s Hn0 Hn Hnx Hs.
    destruct (wp_returns (AsanChunkFifoList_Push cfg this n)
                (fun q' w' => fifo_ok cfg (heap w') q' (cells ++ [n]) /\
                              size_ q' = wrap cfg (size_ this + s)) w)
      as (q' & w' & Hr & H1 & H2).
    + apply (Push_wp cfg Hcfg this n cells w); try assumption.
      intros q' w' _ _ Hok (s' & Hs' & Hsz). split; [exact Hok|].
      rewrite Hs in Hs'. injection Hs' as <-. exact Hsz.
    + eapply Push_passes; eassumption.
    + exists q', w'. split; [exact Hr|]. split; assumption.
  - intros x rest s -> Hs Hle.
    destruct (wp_returns (AsanChunkFifoList_Pop cfg this)
                (fun r w' => w' = w /\ fst r = x /\
                             fifo_ok cfg (heap w) (snd r) rest /\
                             size_ (snd r) = size_ this - s) w)
      as ([x' q'] & w' & Hr & -> & Hx & Hok & Hsz).
    + apply (Pop_wp cfg Hcfg this (x :: rest) w); [exact Hf|].
      intros x' rest' s' q' Hc Hs' _ Hsz Hok. injection Hc as <- <-.
      rewrite Hs in Hs'. injection Hs' as <-.
      split; [reflexivity|]. split; [reflexivity|]. split; assumption.
    + eapply Pop_passes; eassumption.
    + cbn [fst snd] in *. subst x'. exists q'. split; [exact Hr|]. split; assumption.
  - intros ->. destruct Hf as (Hseg & _). simpl in Hseg.
    unfold AsanChunkFifoList_Pop, bind, CHECK. rewrite Hseg. reflexivity.
Qed.

End ChunkFifo.

(** ** The FIFOs of the fake stack *)

Lemma fchain_frame nx nx' cells :
  (forall x, x ∈ cells -> nx' x = nx x) -> fchain nx cells -> fchain nx' cells.
Proof.
  induction cells as [|x r IH]; intros Hfr H; [exact I|].
  simpl in *. destruct H as (Hx & Hn & Hr). split; [exact Hx|]. split.
  - destruct r as [|y r']; [exact I|]. rewrite Hfr; [exact Hn|].
    apply elem_of_cons. left. reflexivity.
  - apply IH; [|exact Hr]. intros z Hz. apply Hfr. apply elem_of_cons. right. exact Hz.
Qed.

Lemma fchain_snoc nx cells a :
  cells <> [] -> NoDup cells -> fchain nx cells -> a <> 0 -> a ∉ cells ->
  fchain (upd (upd nx a 0) (List.last cells 0) a) (cells ++ [a]).
Proof.
  induction cells as [|x r IH]; intros Hne Hnd H Ha Hin; [contradiction|].
  apply NoDup_cons in Hnd as (Hxr & Hnd).
  simpl in H. destruct H as (Hx & Hn & Hr).
  destruct r as [|y r'].
  - simpl. split; [exact Hx|]. split.
    + unfold upd. rewrite Z.eqb_refl. reflexivity.
    + split; [exact Ha|]. split; exact I.
  - change (List.last (x :: y :: r') 0) with (List.last (y :: r') 0).
    change ((x :: y :: r') ++ [a]) with (x :: (y :: r') ++ [a]).
    assert (Hxl : x <> List.last (y :: r') 0).
    { intros E. apply Hxr. rewrite E. apply last_elem_of. discriminate. }
    assert (Hxa : x <> a).
    { intros E. apply Hin. rewrite E. apply elem_of_cons. left. reflexivity. }
    cbn [fchain]. split; [exact Hx|]. split.
    + cbn [app]. unfold upd.
      destruct (Z.eqb_spec x (List.last (y :: r') 0)); [contradiction|].
      destruct (Z.eqb_spec x a); [contradiction|]. exact Hn.
    + apply IH; [discriminate|exact Hnd|exact Hr|exact Ha|].
      intros E. apply Hin. apply elem_of_cons. right. exact E.
Qed.

(** X19: the FIFO of fake-stack frames hands frames back in the
    order they were pushed: [FifoPush] appends a frame at the tail and
    [FifoPop] takes the frame at the head.  Pushing a null frame and
    popping from an empty FIFO fail their CHECKs. *)
Theorem FifoList_first_in_first_out l cells w :
  FifoList_ok (fifo_next w) l cells ->
  (forall a, a <> 0 -> a ∉ cells ->
     exists l' w', FifoPush l a w = Ret l' w' /\
                   FifoList_ok (fifo_next w') l' (cells ++ [a]) /\
                   heap w' = heap w /\ trace w' = trace w) /\
  (forall x rest, cells = x :: rest ->
     exists l', FifoPop l w = Ret (x, l') w /\ FifoList_ok (fifo_next w) l' rest) /\
  (cells = [] -> FifoPop l w = Abort CheckFailed w) /\
  FifoPush l 0 w = Abort CheckFailed w.
Proof.
  intros (Hnd & Hch & Hfirst & Hlast). split; [|split; [|split]].
  - intros a Ha Hin. unfold FifoPush, bind, CHECK, set_fifo_next, modify, ret.
    destruct (Z.eqb_spec a 0) as [|_]; [contradiction|]. cbn [negb].
    destruct cells as [|x r].
    + simpl in Hfirst, Hlast. rewrite Hfirst, Hlast. cbn [Z.eqb andb].
      eexists _, _. split; [reflexivity|]. cbn [fifo_next heap trace app].
      split; [|split; reflexivity].
      split; [apply NoDup_singleton|]. split; [|split; reflexivity].
      simpl. split; [exact Ha|]. split; exact I.
    + simpl in Hch. destruct Hch as (Hx & Hn & Hr).
      assert (Hl0 : List.last (x :: r) 0 <> 0).
      { assert (Hl : List.last (x :: r) 0 ∈ x :: r) by (apply last_elem_of; discriminate).
        clear -Hl Hx Hr. revert Hl. generalize (List.last (x :: r) 0). intros z Hz.
        apply elem_of_cons in Hz as [->|Hz]; [exact Hx|].
        induction r as [|y r' IH]; [inversion Hz|].
        simpl in Hr. destruct Hr as (Hy & _ & Hr').
        apply elem_of_cons in Hz as [->|Hz]; [exact Hy|]. apply IH; assumption. }
      cbn [List.hd] in Hfirst. rewrite Hfirst, Hlast.
      destruct (Z.eqb_spec x 0) as [|_]; [contradiction|]. cbn [andb negb].
      destruct (Z.eqb_spec (List.last (x :: r) 0) 0) as [|_]; [contradiction|].
      cbn [negb].
      eexists _, _. split; [reflexivity|]. cbn [fifo_next heap trace].
      split; [|split; reflexivity].
      split.
      { apply NoDup_app. split; [exact Hnd|]. split; [|apply NoDup_singleton].
        intros z Hz Hza. apply list_elem_of_singleton in Hza. subst z. contradiction. }
      split.
      { apply fchain_snoc; try assumption; [discriminate|].
        simpl. split; [exact Hx|]. split; assumption. }
      split; [reflexivity|]. cbn [fifo_last]. rewrite List.last_last. reflexivity.
  - intros x rest ->. cbn [List.hd] in Hfirst.
    simpl in Hch. destruct Hch as (Hx & Hn & Hr).
    apply NoDup_cons in Hnd as (Hxr & Hnd').
    assert (Hl0 : fifo_last l <> 0).
    { rewrite Hlast.
      assert (Hl : List.last (x :: rest) 0 ∈ x :: rest) by (apply last_elem_of; discriminate).
      clear -Hl Hx Hr. revert Hl. generalize (List.last (x :: rest) 0). intros z Hz.
      apply elem_of_cons in Hz as [->|Hz]; [exact Hx|].
      induction rest as [|y r' IH]; [inversion Hz|].
      simpl in Hr. destruct Hr as (Hy & _ & Hr').
      apply elem_of_cons in Hz as [->|Hz]; [exact Hy|]. apply IH; assumption. }
    unfold FifoPop, bind, CHECK, gets, ret. rewrite Hfirst.
    destruct (Z.eqb_spec x 0) as [|_]; [contradiction|].
    destruct (Z.eqb_spec (fifo_last l) 0) as [|_]; [contradiction|]. cbn [negb andb].
    destruct rest as [|y r'].
    + simpl in Hlast. rewrite Hlast, Z.eqb_refl.
      eexists. split; [reflexivity|].
      split; [apply NoDup_nil; exact I|]. split; [exact I|]. split; reflexivity.
    + change (List.last (x :: y :: r') 0) with (List.last (y :: r') 0) in Hlast.
      destruct (Z.eqb_spec x (fifo_last l)) as [E|_].
      { exfalso. apply Hxr. rewrite E, Hlast. apply last_elem_of. discriminate. }
      eexists. split; [reflexivity|].
      split; [exact Hnd'|]. split; [exact Hr|]. split; [exact Hn|exact Hlast].
  - intros ->. simpl in Hfirst. unfold FifoPop, bind, CHECK. rewrite Hfirst. reflexivity.
  - reflexivity.
Qed.

(** ** Requests that [Allocate] refuses *)

Section Refusals.
Variable cfg : Config.
Local Abbreviation REDZONE := (__asan_flag_redzone cfg).
Local Abbreviation WORDSIZE := (__WORDSIZE cfg).

Hypothesis Hcfg : cfg_ok cfg.

(** X20: a request whose size, rounded up to REDZONE, with the left
    redzone and the room for the alignment, exceeds
    [kMaxAllowedMallocSize] is refused before any chunk is touched: the
    out-of-memory message and the stack of the call are printed and the
    process aborts.  An alignment that is not a power of two fails the
    CHECK at the start. *)
Theorem Allocate_refuses alignment size stk th w :
  sane cfg alignment size -> tl_current_thread w = Some th ->
  let size' := if size =? 0 then 1 else size in
  (IsPowerOfTwo cfg alignment = false ->
     Allocate cfg alignment size (Some stk) w = Abort CheckFailed w) /\
  (IsPowerOfTwo cfg alignment = true ->
   kMaxAllowedMallocSize cfg - REDZONE
     < (size' + REDZONE - 1) / REDZONE * REDZONE + align_room cfg alignment ->
   Allocate cfg alignment size (Some stk) w =
     Abort AbortCalled
       (with_trace w
          [EvPrintf "ERROR: AddressSanitizer failed to allocate 0x%lx (%lu) bytes (%s) in T%d"
             [size'; size'; tid_ th];
           EvPrintStack stk])).
Proof.
  intros Hsane Hth size'. split.
  - intros Hnp. unfold Allocate, bind, CHECK. rewrite Hnp. reflexivity.
  - intros Hpow Hbig.
    pose proof (redzone_pos cfg Hcfg) as HR.
    destruct (alloc_arith cfg Hcfg alignment size Hsane Hpow)
      as (rounded & Hru & Hrb & Hrm & Hneeded & Hal & _ & _).
    fold size' in Hru, Hrb.
    assert (Hrd : rounded = (size' + REDZONE - 1) / REDZONE * REDZONE).
    { pose proof (Z.div_mod (size' + REDZONE - 1) REDZONE ltac:(lia)) as Hd.
      pose proof (Z.mod_pos_bound (size' + REDZONE - 1) REDZONE HR) as Hm.
      apply (Zmod_divides rounded REDZONE ltac:(lia)) in Hrm as (c & Hc).
      assert (c = (size' + REDZONE - 1) / REDZONE); [|subst c; lia].
      apply Z.div_unique with (r := size' + REDZONE - 1 - REDZONE * c); lia. }
    unfold Allocate.
    rewrite (bind_Ret _ _ _ tt w) by reflexivity.
    rewrite (bind_Ret _ _ _ tt w) by (unfold CHECK; rewrite Hpow; reflexivity).
    fold size'. rewrite Hru.
    rewrite (bind_Ret _ _ _ rounded w) by reflexivity.
    cbv zeta in Hneeded.
    rewrite (bind_Ret _ _ _ tt w) by (unfold CHECK; rewrite Hal; reflexivity).
    erewrite bind_Abort; [reflexivity|].
    replace (_ >? kMaxAllowedMallocSize cfg) with true.
    + unfold OutOfMemoryMessage, GetCurrent.
      rewrite (bind_Ret _ _ _ tt
                 (with_trace w
                    [EvPrintf "ERROR: AddressSanitizer failed to allocate 0x%lx (%lu) bytes (%s) in T%d"
                       [size'; size'; tid_ th]])).
      * rewrite (bind_Ret _ _ _ _ _ (emit_eq _ _)).
        unfold abort. rewrite with_trace_app. reflexivity.
      * unfold bind, gets. rewrite Hth. reflexivity.
    + symmetry. apply Z.gtb_lt. rewrite Hneeded. lia.
Qed.

End Refusals.

(** ** The chunk that an address is reported against *)

Section Blame.
Variable cfg : Config.
Local Abbreviation REDZONE := (__asan_flag_redzone cfg).
Local Abbreviation WORDSIZE := (__WORDSIZE cfg).

Hypothesis Hcfg : cfg_ok cfg.

Lemma AddrIsAtRight_reads this c addr access_size w :
  wp any_abort True (AddrIsAtRight cfg this c addr access_size)
    (fun _ w' => w' = w) w.
Proof.
  unfold AddrIsAtRight. wp_if; [|apply wp_ret; reflexivity].
  apply wp_bind, wp_lift; [intros s Hs|intros; exact I].
  wp_if; [|apply wp_ret; reflexivity].
  wp_if; apply wp_ret; reflexivity.
Qed.

(** X21: [FindChunkByAddr] changes nothing.  When it answers, the
    answer is null for an address that no page group holds; otherwise it
    is the chunk slot of the page group in which the address lies, or the
    slot just before it, and never null. *)
Theorem FindChunkByAddr_blames w live addr m w' :
  run cfg w live ->
  FindChunkByAddr cfg addr w = Ret m w' ->
  w' = w /\
  match FindPageGroupUnlocked (malloc_info w) addr with
  | None => m = 0
  | Some g =>
      let unit := size_of_chunk g in
      let slot := beg g + (addr - beg g) / unit * unit in
      slot <= addr < slot + unit /\
      (m = slot \/ (m = slot - unit /\ beg g <= m)) /\ m <> 0
  end.
Proof.
  intros Hrun Hr.
  destruct (run_wf cfg Hcfg w live Hrun) as (G & Hwf & _).
  pose proof (wf_registry _ _ _ _ _ _ _ Hwf) as (Hn0 & Hpg & _).
  destruct (cfg_word cfg Hcfg) as [Hw _].
  refine (wp_elim any_abort True _
            (fun m w' =>
               w' = w /\
               match FindPageGroupUnlocked (malloc_info w) addr with
               | None => m = 0
               | Some g =>
                   let unit := size_of_chunk g in
                   let slot := beg g + (addr - beg g) / unit * unit in
                   slot <= addr < slot + unit /\
                   (m = slot \/ (m = slot - unit /\ beg g <= m)) /\ m <> 0
               end) w m w' _ Hr).
  unfold FindChunkByAddr. apply wp_bind, wp_get.
  destruct (FindPageGroupUnlocked (malloc_info w) addr) as [g|] eqn:Hg.
  2:{ apply wp_ret. split; reflexivity. }
  destruct (FindPageGroupUnlocked_range _ _ _ Hg) as (Hrange & i & Hi & ->).
  set (g := page_groups_ (malloc_info w) i) in *.
  destruct (Hpg i Hi) as [Hunit Hbeg _ Hend _ _]. fold g in Hunit, Hbeg, Hend.
  set (unit := size_of_chunk g) in *.
  assert (Hoff : wrap cfg (addr - beg g) = addr - beg g)
    by (apply wrap_small; lia).
  pose proof (Z.div_mod (addr - beg g) unit ltac:(lia)) as Hdm.
  pose proof (Z.mod_pos_bound (addr - beg g) unit Hunit) as Hmb.
  assert (Hq0 : 0 <= (addr - beg g) / unit) by (apply Z.div_pos; lia).
  assert (Hmul : 0 <= (addr - beg g) / unit * unit <= addr - beg g) by nia.
  rewrite Hoff.
  rewrite (wrap_small cfg ((addr - beg g) / unit * unit)) by lia.
  rewrite (wrap_small cfg (beg g + (addr - beg g) / unit * unit)) by lia.
  set (slot := beg g + (addr - beg g) / unit * unit) in *.
  assert (Hslot : slot <= addr < slot + unit) by (unfold slot; lia).
  wp_check. wp_check. apply wp_bind, wp_read. wp_check.
  apply wp_bind. apply (wp_conseq _ _ _ (fun _ w1 => w1 = w)).
  { destruct (AddrIsInside cfg slot (hdr (heap w) slot) addr 1).
    - apply wp_ret. reflexivity.
    - apply wp_bind. eapply wp_conseq; [apply AddrIsAtRight_reads|].
      intros r w1 ->. apply wp_ret. reflexivity. }
  intros b w1 ->.
  assert (Hm : slot <= addr < slot + unit /\
               (slot = slot \/ slot = slot - unit /\ beg g <= slot) /\ slot <> 0).
  { split; [exact Hslot|]. split; [left; reflexivity|unfold slot; lia]. }
  destruct b; [apply wp_ret; split; [reflexivity|exact Hm]|].
  apply wp_bind, wp_lift; [intros off Hoffs|intros; exact I].
  destruct (Z.eqb_spec slot (beg g)) as [Eb|Eb];
    [apply wp_ret; split; [reflexivity|exact Hm]|].
  assert (Hk : 1 <= (addr - beg g) / unit).
  { destruct (Z.eq_dec ((addr - beg g) / unit) 0) as [E0|]; [|lia].
    exfalso. apply Eb. unfold slot. rewrite E0. lia. }
  assert (Hleft : beg g <= slot - unit) by (unfold slot; nia).
  rewrite (wrap_small cfg (slot - unit)) by lia.
  wp_check. apply wp_bind, wp_read. apply wp_bind.
  eapply wp_conseq; [apply AddrIsAtRight_reads|]. intros r w1 ->.
  apply wp_bind, wp_lift; [intros loff Hloff|intros; exact I].
  wp_if; apply wp_ret; (split; [reflexivity|]).
  - split; [exact Hslot|]. split; [right; split; [reflexivity|exact Hleft]|lia].
  - exact Hm.
Qed.

End Blame.

(** ** The ring buffer of frames of asan_thread.cc *)

Section Ring.
Variable cfg : Config.
Local Abbreviation WORDSIZE := (__WORDSIZE cfg).
Local Abbreviation ws := (asan_thread.sizeof_uintptr_t cfg).

Variable AddrIsInFakeStack : asan_thread.AsanFakeStack -> Z -> bool.

Lemma word_size_pow2 :
  word_ok cfg -> exists k, 2 <= k <= 3 /\ ws = 2 ^ k /\ k < WORDSIZE.
Proof.
  unfold asan_thread.sizeof_uintptr_t.
  intros [H|H]; rewrite H; [exists 2|exists 3]; repeat split; lia.
Qed.

(** The chunk that [GetChunk] hands out, and the position it leaves. *)
Lemma GetChunk_result this mem chunk_size name :
  word_ok cfg ->
  0 <= asan_thread.buffer_ this ->
  asan_thread.buffer_ this + asan_thread.size_ this < 2 ^ WORDSIZE ->
  asan_thread.size_ this <= 2 ^ 28 ->
  0 <= asan_thread.pos_ this <= asan_thread.size_ this ->
  0 <= chunk_size <= asan_thread.size_ this ->
  let r := asan_thread.GetChunk cfg this mem chunk_size name in
  let res := fst (fst r) in
  let this' := snd (fst r) in
  let mem' := snd r in
  asan_thread.size_ this' = asan_thread.size_ this /\
  asan_thread.buffer_ this' = asan_thread.buffer_ this /\
  (asan_thread.pos_ this + chunk_size <= asan_thread.size_ this ->
     res = asan_thread.buffer_ this + asan_thread.pos_ this /\
     asan_thread.pos_ this' = asan_thread.pos_ this + chunk_size) /\
  (asan_thread.size_ this < asan_thread.pos_ this + chunk_size ->
     res = asan_thread.buffer_ this /\ asan_thread.pos_ this' = chunk_size) /\
  mem' = upd (upd mem res asan_thread.kFrameNameMagic) (wrap cfg (res + ws)) name.
Proof.
  intros Hw Hb Hbs Hs Hp Hc.
  destruct (word_ok_bounds cfg Hw) as [Hw32 Hp32].
  assert (H28 : 2 * 2 ^ 28 < 2 ^ 32) by lia.
  cbv zeta. unfold asan_thread.GetChunk.
  rewrite (wrap_small cfg (asan_thread.pos_ this + chunk_size)) by lia.
  destruct (Z.leb_spec (asan_thread.pos_ this + chunk_size) (asan_thread.size_ this))
    as [Hle|Hgt]; cbn [fst snd asan_thread.size_ asan_thread.buffer_ asan_thread.pos_].
  - rewrite (wrap_small cfg (asan_thread.buffer_ this + asan_thread.pos_ this)) by lia.
    split; [reflexivity|]. split; [reflexivity|].
    split; [intros _; split; reflexivity|]. split; [intros; lia|reflexivity].
  - split; [reflexivity|]. split; [reflexivity|].
    split; [intros; lia|]. split; [intros _; split; reflexivity|reflexivity].
Qed.

(** X22: while the requests are of two words at least and fit the
    buffer, [GetChunk] hands out chunks inside the buffer, one after the
    other, and starts again at the beginning of the buffer when the room
    that is left is too small; the position stays within the size, and no
    word of memory outside the chunk is written. *)
Theorem GetChunk_in_buffer this mem chunk_size name :
  word_ok cfg ->
  0 <= asan_thread.buffer_ this ->
  asan_thread.buffer_ this + asan_thread.size_ this < 2 ^ WORDSIZE ->
  asan_thread.size_ this <= 2 ^ 28 ->
  0 <= asan_thread.pos_ this <= asan_thread.size_ this ->
  2 * ws <= chunk_size <= asan_thread.size_ this ->
  let r := asan_thread.GetChunk cfg this mem chunk_size name in
  let res := fst (fst r) in
  let this' := snd (fst r) in
  let mem' := snd r in
  asan_thread.buffer_ this <= res /\
  res + chunk_size <= asan_thread.buffer_ this + asan_thread.size_ this /\
  asan_thread.size_ this' = asan_thread.size_ this /\
  asan_thread.buffer_ this' = asan_thread.buffer_ this /\
  0 <= asan_thread.pos_ this' <= asan_thread.size_ this /\
  res + chunk_size = asan_thread.buffer_ this + asan_thread.pos_ this' /\
  (res = asan_thread.buffer_ this + asan_thread.pos_ this \/
   res = asan_thread.buffer_ this /\
   asan_thread.size_ this < asan_thread.pos_ this + chunk_size) /\
  (forall a, a < res \/ res + chunk_size <= a -> mem' a = mem a).
Proof.
  intros Hw Hb Hbs Hs Hp Hc.
  destruct (word_size_pow2 Hw) as (k & Hk & Hws & _).
  assert (Hws4 : 4 <= ws).
  { rewrite Hws. change 4 with (2 ^ 2). apply Z.pow_le_mono_r; lia. }
  assert (Hc0 : 0 <= chunk_size <= asan_thread.size_ this) by lia.
  destruct (GetChunk_result this mem chunk_size name Hw Hb Hbs Hs Hp Hc0)
    as (H1 & H2 & Hfit & Hwrap & Hmem).
  cbv zeta in Hmem. cbv zeta.
  assert (Hout : forall res,
            asan_thread.buffer_ this <= res ->
            res + chunk_size <= asan_thread.buffer_ this + asan_thread.size_ this ->
            forall a, a < res \/ res + chunk_size <= a ->
              upd (upd mem res asan_thread.kFrameNameMagic)
                (wrap cfg (res + ws)) name a = mem a).
  { intros res Hr1 Hr2 a Ha. rewrite (wrap_small cfg (res + ws)) by lia.
    unfold upd.
    destruct (Z.eqb_spec a (res + ws)); [lia|].
    destruct (Z.eqb_spec a res); [lia|reflexivity]. }
  destruct (Z_le_gt_dec (asan_thread.pos_ this + chunk_size) (asan_thread.size_ this))
    as [Hle|Hgt].
  - destruct (Hfit Hle) as (E1 & E2). rewrite Hmem, E1, E2.
    repeat split; try assumption; try lia.
    apply Hout; lia.
  - destruct (Hwrap ltac:(lia)) as (E1 & E2). rewrite Hmem, E1, E2.
    repeat split; try assumption; try lia.
    apply Hout; lia.
Qed.

Lemma GetFrameNameByAddr_loop_finds buffer mem res (n : nat) :
  forall fuel p,
    0 < ws -> 0 <= buffer <= res -> res mod ws = 0 ->
    p = res + Z.of_nat n * ws -> p < 2 ^ WORDSIZE ->
    (n < fuel)%nat ->
    mem res = asan_thread.kFrameNameMagic ->
    (forall q, res < q <= p -> q mod ws = 0 -> mem q <> asan_thread.kFrameNameMagic) ->
    asan_thread.GetFrameNameByAddr_loop cfg fuel buffer mem p =
      asan_thread.Name (mem (wrap cfg (res + ws))).
Proof.
  induction n as [|n IH]; intros fuel p Hws Hb Hal Hp Hlt Hf Hm Hno;
    (destruct fuel as [|fuel]; [lia|]); cbn [asan_thread.GetFrameNameByAddr_loop].
  - assert (E : p = res) by lia. clear Hp. subst p.
    replace (res >=? buffer) with true by (symmetry; apply Z.geb_le; lia).
    rewrite Hm, Z.eqb_refl. reflexivity.
  - replace (p >=? buffer) with true by (symmetry; apply Z.geb_le; lia).
    assert (Hpm : p mod ws = 0).
    { rewrite Hp. rewrite Z.mod_add by lia. exact Hal. }
    destruct (Z.eqb_spec (mem p) asan_thread.kFrameNameMagic) as [E|_].
    { exfalso. apply (Hno p); [lia|exact Hpm|exact E]. }
    rewrite (wrap_small cfg (p - ws)) by lia.
    apply IH; try assumption; try lia.
    intros q Hq. apply Hno. lia.
Qed.

(** X23: the name given to [GetChunk] is the one that
    [GetFrameNameByAddr] finds for an address of the chunk, when no word of
    the chunk between its start and the address holds the magic number. *)
Theorem GetFrameNameByAddr_after_GetChunk this mem chunk_size name addr fuel :
  word_ok cfg ->
  0 <= asan_thread.buffer_ this ->
  asan_thread.buffer_ this + asan_thread.size_ this < 2 ^ WORDSIZE ->
  asan_thread.size_ this <= 2 ^ 28 ->
  0 <= asan_thread.pos_ this <= asan_thread.size_ this ->
  2 * ws <= chunk_size <= asan_thread.size_ this ->
  asan_thread.buffer_ this mod ws = 0 -> asan_thread.pos_ this mod ws = 0 ->
  let r := asan_thread.GetChunk cfg this mem chunk_size name in
  let res := fst (fst r) in
  let this' := snd (fst r) in
  let mem' := snd r in
  res <= addr < res + chunk_size ->
  AddrIsInFakeStack this' addr = true ->
  (forall q, res < q <= addr -> q mod ws = 0 -> mem' q <> asan_thread.kFrameNameMagic) ->
  (addr - res) / ws < Z.of_nat fuel ->
  asan_thread.GetFrameNameByAddr cfg AddrIsInFakeStack fuel this' mem' addr =
    asan_thread.Name name.
Proof.
  intros Hw Hb Hbs Hs Hp Hc Hba Hpa.
  destruct (word_size_pow2 Hw) as (k & Hk & Hws & HkW).
  assert (Hws0 : 0 < ws) by (rewrite Hws; apply Z.pow_pos_nonneg; lia).
  destruct (GetChunk_result this mem chunk_size name Hw Hb Hbs Hs Hp ltac:(lia))
    as (H1 & H2 & Hfit & Hwrap & Hmem).
  cbv zeta in *.
  set (r := asan_thread.GetChunk cfg this mem chunk_size name) in *.
  set (res := fst (fst r)) in *. set (this' := snd (fst r)) in *.
  set (mem' := snd r) in *.
  intros Haddr Hin Hno Hfuel.
  assert (Hres : asan_thread.buffer_ this <= res /\
                 res + chunk_size <= asan_thread.buffer_ this + asan_thread.size_ this /\
                 res mod ws = 0).
  { destruct (Z_le_gt_dec (asan_thread.pos_ this + chunk_size) (asan_thread.size_ this))
      as [Hle|Hgt].
    - destruct (Hfit Hle) as (E1 & _). rewrite E1. split; [lia|]. split; [lia|].
      rewrite <- Zplus_mod_idemp_l, Hba. cbn [Z.add]. exact Hpa.
    - destruct (Hwrap ltac:(lia)) as (E1 & _). rewrite E1.
      split; [lia|]. split; [lia|exact Hba]. }
  destruct Hres as (Hrb & Hre & Hral).
  unfold asan_thread.GetFrameNameByAddr. rewrite Hin. cbn [negb].
  rewrite H2.
  rewrite (wrap_small cfg (ws - 1)) by (rewrite Hws; pose proof (pow2_lt_word cfg k); lia).
  rewrite Hws at 1. rewrite land_wnot_pred_pow2 by lia. rewrite <- Hws.
  pose proof (Z.div_mod addr ws ltac:(lia)) as Hd.
  pose proof (Z.mod_pos_bound addr ws Hws0) as Hmb.
  apply (Zmod_divides res ws ltac:(lia)) in Hral as (c & Hc').
  assert (Hq : c <= addr / ws).
  { apply Z.div_le_lower_bound; lia. }
  assert (Hn : addr - addr mod ws = res + Z.of_nat (Z.to_nat (addr / ws - c)) * ws).
  { rewrite Z2Nat.id by lia. lia. }
  assert (Hmres : mem' res = asan_thread.kFrameNameMagic).
  { rewrite Hmem. unfold upd.
    rewrite (wrap_small cfg (res + ws)) by lia.
    destruct (Z.eqb_spec res (res + ws)); [lia|]. rewrite Z.eqb_refl. reflexivity. }
  assert (Hmname : mem' (wrap cfg (res + ws)) = name).
  { rewrite Hmem. unfold upd. rewrite Z.eqb_refl. reflexivity. }
  rewrite (GetFrameNameByAddr_loop_finds (asan_thread.buffer_ this) mem' res
             (Z.to_nat (addr / ws - c)) fuel (addr - addr mod ws)).
  - rewrite Hmname. reflexivity.
  - exact Hws0.
  - lia.
  - apply (Zmod_divides res ws ltac:(lia)). exists c. exact Hc'.
  - exact Hn.
  - lia.
  - apply Nat2Z.inj_lt. rewrite Z2Nat.id by lia.
    assert ((addr - res) / ws = addr / ws - c); [|lia].
    rewrite Hc'. replace (addr - ws * c) with (addr + (- c) * ws) by lia.
    rewrite Z.div_add by lia. lia.
  - exact Hmres.
  - intros q Hq1 Hq2. apply Hno; [lia|exact Hq2].
Qed.

End Ring.

(** ** The registry of threads *)

(** X24: a thread constructed at a fresh address gets the next tid
    and [FindByTid] of that tid gives it afterwards, every thread that
    [FindByTid] gave before is still given, and the registry stays
    well-formed; once [kMaxTid] threads have been numbered the constructor
    fails its CHECK.  [FindByTid] of a tid that was never given out fails
    a CHECK. *)
Theorem AsanThread_registered this r :
  registry_wf r -> this <> 0 ->
  (forall t, asan_thread.threads r t <> this) ->
  (asan_thread.n_threads_ r < asan_thread.kMaxTid ->
     exists r',
       asan_thread.AsanThread_new this r = Some r' /\
       registry_wf r' /\
       asan_thread.n_threads_ r' = asan_thread.n_threads_ r + 1 /\
       asan_thread.FindByTid (asan_thread.n_threads_ r + 1) r' = Some this /\
       forall t res, asan_thread.FindByTid t r = Some res ->
                     asan_thread.FindByTid t r' = Some res) /\
  (asan_thread.kMaxTid <= asan_thread.n_threads_ r ->
     asan_thread.AsanThread_new this r = None) /\
  (forall t, asan_thread.n_threads_ r < t -> asan_thread.FindByTid t r = None).
Proof.
  intros (Hn0 & Hreg) Hthis Hfresh. split; [|split].
  - intros Hlt. unfold asan_thread.AsanThread_new.
    replace (asan_thread.n_threads_ r + 1 <=? asan_thread.kMaxTid) with true
      by (symmetry; apply Z.leb_le; lia).
    cbn [negb]. eexists. split; [reflexivity|].
    cbn [asan_thread.n_threads_ asan_thread.threads asan_thread.objects].
    split; [|split; [reflexivity|split]].
    + split; [cbn [asan_thread.n_threads_]; lia|].
      intros t. cbn [asan_thread.n_threads_ asan_thread.threads asan_thread.objects].
      unfold upd. destruct (Z.eqb_spec t (asan_thread.n_threads_ r + 1)) as [->|Ht].
      * intros _. rewrite Z.eqb_refl. cbn [asan_thread.tid_]. lia.
      * intros Hne. destruct (Hreg t Hne) as (Hb & Htid).
        destruct (Z.eqb_spec (asan_thread.threads r t) this) as [E|_];
          [exfalso; exact (Hfresh t E)|]. split; [lia|exact Htid].
    + unfold asan_thread.FindByTid.
      cbn [asan_thread.n_threads_ asan_thread.threads asan_thread.objects].
      replace (asan_thread.n_threads_ r + 1 >=? 0) with true
        by (symmetry; apply Z.geb_le; lia).
      replace (asan_thread.n_threads_ r + 1 <=? asan_thread.kMaxTid) with true
        by (symmetry; apply Z.leb_le; lia).
      cbn [negb]. unfold upd. rewrite Z.eqb_refl. cbv iota.
      destruct (Z.eqb_spec this 0) as [|_]; [contradiction|].
      rewrite Z.eqb_refl. cbv iota.
      cbn [asan_thread.tid_]. rewrite Z.eqb_refl. reflexivity.
    + intros t res. unfold asan_thread.FindByTid.
      cbn [asan_thread.n_threads_ asan_thread.threads asan_thread.objects].
      destruct (negb (t >=? 0)); [discriminate|].
      destruct (negb (t <=? asan_thread.kMaxTid)); [discriminate|].
      destruct (Z.eqb_spec (asan_thread.threads r t) 0) as [|Hne]; [discriminate|].
      destruct (Hreg t Hne) as (Hb & Htid). rewrite Htid, Z.eqb_refl. cbn [negb].
      intros E. injection E as <-.
      unfold upd. destruct (Z.eqb_spec t (asan_thread.n_threads_ r + 1)); [lia|].
      destruct (Z.eqb_spec (asan_thread.threads r t) 0) as [|_]; [contradiction|].
      destruct (Z.eqb_spec (asan_thread.threads r t) this) as [E|_];
        [exfalso; exact (Hfresh t E)|].
      rewrite Htid, Z.eqb_refl. reflexivity.
  - intros Hge. unfold asan_thread.AsanThread_new.
    replace (asan_thread.n_threads_ r + 1 <=? asan_thread.kMaxTid) with false
      by (symmetry; apply Z.leb_gt; lia).
    reflexivity.
  - intros t Ht. unfold asan_thread.FindByTid.
    destruct (negb (t >=? 0)); [reflexivity|].
    destruct (negb (t <=? asan_thread.kMaxTid)); [reflexivity|].
    destruct (Z.eqb_spec (asan_thread.threads r t) 0) as [|Hne]; [reflexivity|].
    destruct (Hreg t Hne) as (Hb & _). lia.
Qed.

Section Resize.
Variable cfg : Config.

(** X25: [__asan_realloc] of a non-null pointer to a nonzero
    size returns the block that [__asan_malloc] of that size returns in the
    same state, then copies min(new size, the old block's recorded size)
    bytes from the old block to the new one, and only then frees the old
    block, which ends up quarantined or available. *)
Theorem realloc_copies_then_frees old size stack q w w' :
  old <> 0 -> size <> 0 ->
  __asan_realloc cfg old size stack w = Ret q w' ->
  exists w1 evs,
    __asan_malloc cfg size stack w = Ret q w1 /\
    trace w' =
      trace w1 ++
      EvMemcpy q old
        (Z.min size (used_size (hdr (heap w) (PtrToChunk cfg (heap w) old))))
      :: evs /\
    let m := PtrToChunk cfg (heap w1) old in
    chunk_state (hdr (heap w') m) = CHUNK_QUARANTINE \/
    chunk_state (hdr (heap w') m) = CHUNK_AVAILABLE.
Proof.
  intros Hold Hsz Hr.
  unfold __asan_realloc, Reallocate in Hr.
  destruct (Z.eqb_spec old 0) as [|_]; [contradiction|].
  destruct (Z.eqb_spec size 0) as [|_]; [contradiction|].
  unfold bind at 1 in Hr. cbn [gets] in Hr.
  unfold bind at 1 in Hr. unfold read at 1 in Hr. cbn [gets] in Hr.
  unfold bind at 1 in Hr.
  destruct (chunk_state (hdr (heap w) (PtrToChunk cfg (heap w) old)) =? CHUNK_ALLOCATED);
    [|discriminate].
  cbn [CHECK ret] in Hr.
  unfold bind at 1 in Hr. unfold __asan_malloc.
  destruct (Allocate cfg 0 size stack w) as [p w1| |] eqn:HA; try discriminate.
  unfold bind at 1 in Hr. rewrite emit_eq in Hr.
  unfold bind at 1 in Hr.
  pose proof (Deallocate_post cfg old stack (with_trace w1 [EvMemcpy p old
     (Z.min size (used_size (hdr (heap w) (PtrToChunk cfg (heap w) old))))]) Hold) as HD.
  unfold wp in HD.
  destruct (Deallocate cfg old stack _) as [u w2| |] eqn:HF; try discriminate.
  cbn [ret] in Hr. injection Hr as <- <-.
  destruct HD as (_ & Hst & _ & _ & _ & evs & Htr).
  exists w1, evs. split; [reflexivity|]. split.
  - rewrite Htr. cbn [trace with_trace]. rewrite <- app_assoc. reflexivity.
  - exact Hst.
Qed.

End Resize.

(** ** Concrete instances of the properties above *)

Ltac by_numbers := vm_compute; repeat split; solve [discriminate | reflexivity].

Lemma word_ok_linux64 : word_ok linux64.
Proof. right. reflexivity. Qed.

Lemma run_one_block_world :
  run linux64 one_block_world [(one_block_ptr, 2 ^ 22 - 256)].
Proof.
  apply (run_step linux64 (init_world (option_map init_thread None)) []
           one_block_world [(one_block_ptr, 2 ^ 22 - 256)] (run_init linux64 None)).
  apply (step_malloc linux64 (init_world (option_map init_thread None)) []
           (2 ^ 22 - 256) [] one_block_ptr one_block_world);
    [solve_sane|by_evaluation].
Qed.

Lemma run_one_live :
  run small_quarantine (result_world two_freed_1 (init_world None))
    [(two_live_ptr_1, 2 ^ 16 - 256)].
Proof.
  apply (run_step small_quarantine (init_world (option_map init_thread (Some 0))) []
           (result_world two_freed_1 (init_world None))
           [(two_live_ptr_1, 2 ^ 16 - 256)] (run_init small_quarantine (Some 0))).
  apply (step_malloc small_quarantine (init_world (option_map init_thread (Some 0))) []
           (2 ^ 16 - 256) [] two_live_ptr_1
           (result_world two_freed_1 (init_world None)));
    [solve_sane|by_evaluation].
Qed.

Lemma run_two_live :
  run small_quarantine two_live_world
    ([] ++ (two_live_ptr_2, 2 ^ 16 - 256) :: [] ++ (two_live_ptr_1, 2 ^ 16 - 256) :: []).
Proof.
  apply (run_step small_quarantine (result_world two_freed_1 (init_world None))
           [(two_live_ptr_1, 2 ^ 16 - 256)] two_live_world
           ((two_live_ptr_2, 2 ^ 16 - 256) :: [(two_live_ptr_1, 2 ^ 16 - 256)])
           run_one_live).
  apply (step_malloc small_quarantine (result_world two_freed_1 (init_world None))
           [(two_live_ptr_1, 2 ^ 16 - 256)] (2 ^ 16 - 256) []
           two_live_ptr_2 two_live_world);
    [solve_sane|by_evaluation].
Qed.

(** [Log2] of 1024 is 10. *)
Lemma Log2_exact_witness :
  Log2 linux64 1024 = Some 10 <-> 0 <= 10 /\ 1024 = 2 ^ 10.
Proof. apply (Log2_exact linux64 1024 10). by_numbers. Defined.

(** 1000 rounded up to a multiple of 128. *)
Lemma RoundUpTo_least_multiple_witness :
  exists r, RoundUpTo linux64 1000 (2 ^ 7) = Some r /\
    (1000 <= 2 ^ __WORDSIZE linux64 - 2 ^ 7 ->
       r mod 2 ^ 7 = 0 /\ 1000 <= r /\
       forall r', r' mod 2 ^ 7 = 0 -> 1000 <= r' -> r <= r') /\
    (2 ^ __WORDSIZE linux64 - 2 ^ 7 < 1000 -> r = 0).
Proof. apply (RoundUpTo_least_multiple linux64 1000 7); by_numbers. Defined.

(** 1000 rounded up to a power of two. *)
Lemma RoundUpToPowerOfTwo_least_witness :
  (1 <= 1000 <= 2 ^ (__WORDSIZE linux64 - 1) ->
   exists j, 0 <= j < __WORDSIZE linux64 /\
     RoundUpToPowerOfTwo linux64 1000 = Some (2 ^ j) /\
     1000 <= 2 ^ j < 2 * 1000 /\
     forall i, 0 <= i -> 1000 <= 2 ^ i -> 2 ^ j <= 2 ^ i) /\
  RoundUpToPowerOfTwo linux64 0 = None.
Proof. apply (RoundUpToPowerOfTwo_least linux64 1000). by_numbers. Defined.

(** The class 11, of 2048 bytes, holds 1000 bytes, and the class chosen,
    10, is not above it. *)
Lemma SizeToSizeClass_least_class_witness : 10 <= 11.
Proof.
  apply (SizeToSizeClass_least_class linux64 1000 10 11 2048 word_ok_linux64).
  - vm_compute. reflexivity.
  - by_numbers.
  - by_evaluation.
  - by_evaluation.
  - lia.
Defined.

(** The class chosen for 1000 bytes. *)
Lemma SizeClass_waste_bound_witness :
  exists c s,
    SizeToSizeClass linux64 1000 = Some c /\ SizeClassToSize linux64 c = Some s /\
    1000 <= s /\
    (1000 <= 2 ^ 26 -> s < 2 * 1000) /\
    (2 ^ 26 < 1000 -> s < 1000 + 2 ^ 26).
Proof.
  apply (SizeClass_waste_bound linux64 1000 word_ok_linux64).
  - vm_compute. reflexivity.
  - by_numbers.
Defined.

(** The pointer of [one_aligned] is a multiple of 4 MB. *)
Lemma memalign_aligned_witness :
  one_aligned_ptr mod 2 ^ 22 = 0 /\
  one_aligned_ptr mod __asan_flag_redzone linux64 = 0 /\
  0 < one_aligned_ptr < 2 ^ __WORDSIZE linux64.
Proof.
  apply (proj1 (memalign_aligned linux64 cfg_ok_linux64 (init_world None) []
                  (2 ^ 22) 100 [] one_aligned_ptr one_aligned_world
                  (run_init linux64 None) ltac:(solve_sane) ltac:(lia))).
  by_evaluation.
Defined.

(** [__asan_posix_memalign] of 100 bytes aligned to 4 MB. *)
Lemma posix_memalign_status_witness :
  __asan_posix_memalign linux64 (2 ^ 22) 100 (Some []) (init_world None)
    = Ret (0, one_aligned_ptr) one_aligned_world /\
  one_aligned_ptr mod 2 ^ 22 = 0.
Proof.
  apply (proj1 (posix_memalign_status linux64 cfg_ok_linux64 (init_world None) []
                  (2 ^ 22) 100 [] one_aligned_ptr one_aligned_world
                  (run_init linux64 None) ltac:(solve_sane) ltac:(by_evaluation))).
  lia.
Defined.

(** [__asan_pvalloc] of 5000 bytes gives two pages. *)
Lemma pvalloc_whole_pages_witness :
  let used :=
    used_size (hdr (heap one_pvalloc_world)
                 (PtrToChunk linux64 (heap one_pvalloc_world) one_pvalloc_ptr)) in
  one_pvalloc_ptr mod kPageSize linux64 = 0 /\
  used mod kPageSize linux64 = 0 /\
  Z.max 5000 1 <= used < Z.max 5000 1 + kPageSize linux64.
Proof.
  apply (pvalloc_whole_pages linux64 cfg_ok_linux64 (init_world None) [] 5000 []
           one_pvalloc_ptr one_pvalloc_world (run_init linux64 None)).
  - lia.
  - solve_sane.
  - by_evaluation.
Defined.

(** The two live blocks of [two_live_world]. *)
Lemma live_chunks_disjoint_witness :
  let w := two_live_world in
  let mp := PtrToChunk small_quarantine (heap w) two_live_ptr_2 in
  let mq := PtrToChunk small_quarantine (heap w) two_live_ptr_1 in
  exists sp sq,
    AsanChunk_Size small_quarantine (hdr (heap w) mp) = Some sp /\
    AsanChunk_Size small_quarantine (hdr (heap w) mq) = Some sq /\
    mp + __asan_flag_redzone small_quarantine <= two_live_ptr_2 < mp + sp /\
    mq + __asan_flag_redzone small_quarantine <= two_live_ptr_1 < mq + sq /\
    (mp + sp <= mq \/ mq + sq <= mp).
Proof.
  apply (live_chunks_disjoint small_quarantine cfg_ok_small_quarantine two_live_world
           [] two_live_ptr_2 (2 ^ 16 - 256) [] two_live_ptr_1 (2 ^ 16 - 256) []).
  exact run_two_live.
Defined.

(** Resizing the block of [one_block] to 2 MB moves it. *)
Lemma realloc_moves_witness : one_block_realloc_ptr <> one_block_ptr.
Proof.
  apply (realloc_moves linux64 cfg_ok_linux64 one_block_world [] one_block_ptr
           (2 ^ 22 - 256) [] (2 ^ 21) [] one_block_realloc_ptr one_block_realloc_world).
  - exact run_one_block_world.
  - discriminate.
  - solve_sane.
  - by_evaluation.
Defined.

(** Swallowing the thread-local quarantine of [two_freed]. *)
Lemma Swallow_empties_storage_witness :
  let x' := result_value two_freed_swallowed init_storage in
  let w' := result_world two_freed_swallowed two_freed in
  (0 < size_ (tl_quarantine_ two_freed_storage) ->
     tl_quarantine_ x' = AsanChunkFifoList_clear /\
     size_ (quarantine_ (malloc_info w')) <= __asan_flag_quarantine_size small_quarantine) /\
  (size_ (tl_quarantine_ two_freed_storage) <= 0 ->
     tl_quarantine_ x' = tl_quarantine_ two_freed_storage /\
     quarantine_ (malloc_info w') = quarantine_ (malloc_info two_freed)) /\
  (false = true -> forall k, 0 <= k < kNumberOfSizeClasses small_quarantine ->
     tl_free_lists_ x' k = 0) /\
  (false = false -> forall k, tl_free_lists_ x' k = tl_free_lists_ two_freed_storage k) /\
  only_releases two_freed w'.
Proof.
  apply (Swallow_empties_storage small_quarantine 0 two_freed_storage false two_freed).
  by_evaluation.
Defined.

(** The free of the block of [one_block]. *)
Lemma Deallocate_state_changes_witness :
  let m := PtrToChunk linux64 (heap one_block_world) one_block_ptr in
  chunk_state (hdr (heap one_block_world) m) = CHUNK_ALLOCATED /\
  (chunk_state (hdr (heap one_block_freed_world) m) = CHUNK_QUARANTINE \/
   chunk_state (hdr (heap one_block_freed_world) m) = CHUNK_AVAILABLE) /\
  forall y, y <> m -> kept_or_released one_block_world one_block_freed_world y.
Proof.
  apply (Deallocate_state_changes linux64 one_block_ptr (Some [])
           one_block_world one_block_freed_world).
  - vm_compute. discriminate.
  - by_evaluation.
Defined.

(** The free of the block of [one_block] has no thread record. *)
Lemma Deallocate_without_thread_witness :
  let m := PtrToChunk linux64 (heap one_block_world) one_block_ptr in
  chunk_state (hdr (heap one_block_freed_world) m) = CHUNK_QUARANTINE /\
  (forall y, y <> m ->
     chunk_state (hdr (heap one_block_freed_world) y) =
     chunk_state (hdr (heap one_block_world) y)) /\
  free_lists_ (malloc_info one_block_freed_world) =
    free_lists_ (malloc_info one_block_world) /\
  tl_current_thread one_block_freed_world = None.
Proof.
  apply (Deallocate_without_thread linux64 one_block_ptr (Some [])
           one_block_world one_block_freed_world).
  - vm_compute. discriminate.
  - by_evaluation.
  - by_evaluation.
Defined.

(** The first free of [two_freed] is made by the thread 0. *)
Lemma thread_quarantine_bounded_witness :
  exists th', tl_current_thread one_of_two_freed_world = Some th' /\
    tid_ th' = tid_ two_live_thread /\
    size_ (tl_quarantine_ (malloc_storage_ th')) <= kMaxThreadLocalQuarantine.
Proof.
  apply (thread_quarantine_bounded small_quarantine two_live_ptr_1 (Some [])
           two_live_world one_of_two_freed_world two_live_thread).
  - vm_compute. discriminate.
  - by_evaluation.
  - by_evaluation.
Defined.

(** The size of the block of [one_block] after its free. *)
Lemma AllocationSize_after_free_witness :
  AllocationSize linux64 one_block_ptr one_block_freed_world
    = Ret 0 one_block_freed_world.
Proof.
  apply (AllocationSize_after_free linux64 one_block_ptr (Some []) one_block_world).
  - vm_compute. discriminate.
  - vm_compute. discriminate.
  - by_evaluation.
Defined.

(** A second free of the block of [one_block]. *)
Lemma double_free_aborts_witness :
  let m := wrap linux64 (one_block_ptr - __asan_flag_redzone linux64) in
  exists c evs,
    Deallocate linux64 one_block_ptr (Some []) one_block_freed_world =
      Abort c (with_trace one_block_freed_world evs) /\
    ((chunk_state (hdr (heap one_block_freed_world) m) = CHUNK_QUARANTINE /\
      exists rest, evs = EvPrintf "attempting double-free on %p:" [one_block_ptr]
                         :: EvPrintStack [] :: rest) \/
     (chunk_state (hdr (heap one_block_freed_world) m) = CHUNK_AVAILABLE /\
      c = ShowStatsAndAbort /\
      evs = [EvPrintf "attempting free on address which was not malloc()-ed: %p"
               [one_block_ptr];
             EvPrintStack []; EvShowStats])).
Proof.
  apply (double_free_aborts linux64 one_block_ptr (Some []) [] one_block_world
           one_block_freed_world).
  - vm_compute. discriminate.
  - vm_compute. discriminate.
  - by_evaluation.
  - left. reflexivity.
Defined.

(** The global quarantine after the free of the block of [one_block] holds
    the chunk of the block. *)
Lemma AsanChunkFifoList_first_in_first_out_witness :
  let w := one_block_freed_world in
  let this := quarantine_ (malloc_info w) in
  let cells := [one_block_ptr - 128] in
  (forall n s, n <> 0 -> n ∉ cells -> next (hdr (heap w) n) = 0 ->
     AsanChunk_Size linux64 (hdr (heap w) n) = Some s ->
     exists q' w',
       AsanChunkFifoList_Push linux64 this n w = Ret q' w' /\
       fifo_ok linux64 (heap w') q' (cells ++ [n]) /\
       size_ q' = wrap linux64 (size_ this + s)) /\
  (forall x rest s, cells = x :: rest ->
     AsanChunk_Size linux64 (hdr (heap w) x) = Some s -> s <= size_ this ->
     exists q',
       AsanChunkFifoList_Pop linux64 this w = Ret (x, q') w /\
       fifo_ok linux64 (heap w) q' rest /\ size_ q' = size_ this - s) /\
  (cells = [] -> AsanChunkFifoList_Pop linux64 this w = Abort CheckFailed w).
Proof.
  apply (AsanChunkFifoList_first_in_first_out linux64 cfg_ok_linux64
           (quarantine_ (malloc_info one_block_freed_world))
           [one_block_ptr - 128] one_block_freed_world).
  - vm_compute. repeat split; discriminate.
  - apply NoDup_singleton.
Defined.

(** The FIFO of [one_frame] holds the frame at 4096. *)
Lemma FifoList_first_in_first_out_witness :
  let w := one_frame_world in
  let l := one_frame_list in
  let cells := [4096] in
  (forall a, a <> 0 -> a ∉ cells ->
     exists l' w', FifoPush l a w = Ret l' w' /\
                   FifoList_ok (fifo_next w') l' (cells ++ [a]) /\
                   heap w' = heap w /\ trace w' = trace w) /\
  (forall x rest, cells = x :: rest ->
     exists l', FifoPop l w = Ret (x, l') w /\ FifoList_ok (fifo_next w) l' rest) /\
  (cells = [] -> FifoPop l w = Abort CheckFailed w) /\
  FifoPush l 0 w = Abort CheckFailed w.
Proof.
  apply (FifoList_first_in_first_out one_frame_list [4096] one_frame_world).
  split; [apply NoDup_singleton|].
  split; [cbn; repeat split; discriminate|].
  split; reflexivity.
Defined.

(** The thread 0 of [two_live_world] asks for [kMaxAllowedMallocSize]
    bytes. *)
Lemma Allocate_refuses_witness :
  let size := kMaxAllowedMallocSize small_quarantine in
  let size' := if size =? 0 then 1 else size in
  Allocate small_quarantine 0 size (Some []) two_live_world =
    Abort AbortCalled
      (with_trace two_live_world
         [EvPrintf "ERROR: AddressSanitizer failed to allocate 0x%lx (%lu) bytes (%s) in T%d"
            [size'; size'; tid_ two_live_thread];
          EvPrintStack []]).
Proof.
  apply (proj2 (Allocate_refuses small_quarantine cfg_ok_small_quarantine 0
                  (kMaxAllowedMallocSize small_quarantine) [] two_live_thread
                  two_live_world ltac:(by_numbers) ltac:(by_evaluation))).
  - reflexivity.
  - vm_compute. reflexivity.
Defined.

(** The address 10 bytes into the block of [one_block] is blamed on the
    chunk of the block. *)
Lemma FindChunkByAddr_blames_witness :
  one_block_world = one_block_world /\
  match FindPageGroupUnlocked (malloc_info one_block_world) (one_block_ptr + 10) with
  | None => result_value one_block_blame 0 = 0
  | Some g =>
      let unit := size_of_chunk g in
      let slot := beg g + (one_block_ptr + 10 - beg g) / unit * unit in
      slot <= one_block_ptr + 10 < slot + unit /\
      (result_value one_block_blame 0 = slot \/
       (result_value one_block_blame 0 = slot - unit /\
        beg g <= result_value one_block_blame 0)) /\
      result_value one_block_blame 0 <> 0
  end.
Proof.
  apply (FindChunkByAddr_blames linux64 cfg_ok_linux64 one_block_world
           [(one_block_ptr, 2 ^ 22 - 256)] (one_block_ptr + 10)
           (result_value one_block_blame 0) one_block_world).
  - exact run_one_block_world.
  - by_evaluation.
Defined.

(** A request of 128 bytes does not fit the 96 bytes left of [ring] and
    is served at the start of the buffer. *)
Lemma GetChunk_in_buffer_witness :
  let r := asan_thread.GetChunk linux64 ring no_memory 128 77 in
  let res := fst (fst r) in
  let this' := snd (fst r) in
  let mem' := snd r in
  asan_thread.buffer_ ring <= res /\
  res + 128 <= asan_thread.buffer_ ring + asan_thread.size_ ring /\
  asan_thread.size_ this' = asan_thread.size_ ring /\
  asan_thread.buffer_ this' = asan_thread.buffer_ ring /\
  0 <= asan_thread.pos_ this' <= asan_thread.size_ ring /\
  res + 128 = asan_thread.buffer_ ring + asan_thread.pos_ this' /\
  (res = asan_thread.buffer_ ring + asan_thread.pos_ ring \/
   res = asan_thread.buffer_ ring /\
   asan_thread.size_ ring < asan_thread.pos_ ring + 128) /\
  (forall a, a < res \/ res + 128 <= a -> mem' a = no_memory a).
Proof.
  apply (GetChunk_in_buffer linux64 ring no_memory 128 77 word_ok_linux64);
    by_numbers.
Defined.

(** The name 77 of a chunk of 64 bytes of [ring] is found from the second
    word of the chunk. *)
Lemma GetFrameNameByAddr_after_GetChunk_witness :
  let r := asan_thread.GetChunk linux64 ring no_memory 64 77 in
  asan_thread.GetFrameNameByAddr linux64 in_buffer 2 (snd (fst r)) (snd r)
    (fst (fst r) + 8) = asan_thread.Name 77.
Proof.
  apply (GetFrameNameByAddr_after_GetChunk linux64 in_buffer ring no_memory 64 77
           (fst (fst (asan_thread.GetChunk linux64 ring no_memory 64 77)) + 8) 2
           word_ok_linux64).
  - by_numbers.
  - by_numbers.
  - by_numbers.
  - by_numbers.
  - vm_compute. split; discriminate.
  - reflexivity.
  - reflexivity.
  - vm_compute. split; [discriminate|reflexivity].
  - reflexivity.
  - intros q Hq Hmod.
    assert (Hres : fst (fst (asan_thread.GetChunk linux64 ring no_memory 64 77)) = 69536)
      by reflexivity.
    rewrite Hres in Hq.
    assert (Hws : asan_thread.sizeof_uintptr_t linux64 = 8) by reflexivity.
    rewrite Hws in Hmod.
    pose proof (Z.div_mod q 8 ltac:(lia)) as Hdm.
    assert (q = 69544) as -> by lia.
    vm_compute. discriminate.
  - vm_compute. reflexivity.
Defined.

(** The first thread constructed gets the tid 1. *)
Lemma AsanThread_registered_witness :
  (asan_thread.n_threads_ no_threads < asan_thread.kMaxTid ->
     exists r',
       asan_thread.AsanThread_new 4096 no_threads = Some r' /\
       registry_wf r' /\
       asan_thread.n_threads_ r' = asan_thread.n_threads_ no_threads + 1 /\
       asan_thread.FindByTid (asan_thread.n_threads_ no_threads + 1) r' = Some 4096 /\
       forall t res, asan_thread.FindByTid t no_threads = Some res ->
                     asan_thread.FindByTid t r' = Some res) /\
  (asan_thread.kMaxTid <= asan_thread.n_threads_ no_threads ->
     asan_thread.AsanThread_new 4096 no_threads = None) /\
  (forall t, asan_thread.n_threads_ no_threads < t ->
     asan_thread.FindByTid t no_threads = None).
Proof.
  apply (AsanThread_registered 4096 no_threads).
  - split; [cbn; lia|]. intros t Ht. cbn in Ht. contradiction.
  - discriminate.
  - intros t. cbn. discriminate.
Defined.

(** Resizing the block of [one_block] to 2 MB copies 2 MB. *)
Lemma realloc_copies_then_frees_witness :
  exists w1 evs,
    __asan_malloc linux64 (2 ^ 21) (Some []) one_block_world
      = Ret one_block_realloc_ptr w1 /\
    trace one_block_realloc_world =
      trace w1 ++
      EvMemcpy one_block_realloc_ptr one_block_ptr
        (Z.min (2 ^ 21)
           (used_size (hdr (heap one_block_world)
                         (PtrToChunk linux64 (heap one_block_world) one_block_ptr))))
      :: evs /\
    let m := PtrToChunk linux64 (heap w1) one_block_ptr in
    chunk_state (hdr (heap one_block_realloc_world) m) = CHUNK_QUARANTINE \/
    chunk_state (hdr (heap one_block_realloc_world) m) = CHUNK_AVAILABLE.
Proof.
  apply (realloc_copies_then_frees linux64 one_block_ptr (2 ^ 21) (Some [])
           one_block_realloc_ptr one_block_world one_block_realloc_world).
  - vm_compute. discriminate.
  - discriminate.
  - by_evaluation.
Defined.
